(** * Hexonis world-state engine: a shallow embedding of [TileManager] and [hexMath]

    The development follows the TypeScript sources:

    - [hexMath.ts]: axial-coordinate arithmetic.  The integer part
      ([hex_distance], [get_neighbors]) is stated over [Z]; the pixel
      projections are stated over IEEE-754 binary64 ([PrimFloat]), which is
      the arithmetic a JavaScript [number] performs.
    - [TileManager.ts]: the engine.  The Redis keyspace is a record of
      finite maps and finite sets, one field per key family; every method is
      a function in a state-and-exception monad over that record.

    Numbers that the engine stores (energy, integrity, level, costs) are
    exact rationals [Q]; [toFixedPrecision] is the explicit rounding to four
    decimals the source applies on every write.  Binary64 rounding error of
    those quantities is outside this model.  Timestamps returned by
    [Date.now()] are integers and are an explicit argument [clock]. *)

From Stdlib Require Import ZArith QArith Qround Qabs Qminmax Lqa Lia.
From Stdlib Require Import String Ascii List DecimalString DecimalZ.
From Stdlib Require Import HexadecimalString HexadecimalZ.
From Stdlib Require Import PrimFloat FloatOps SpecFloat Uint63.
From Stdlib Require Import Sorting.Sorted.
From stdpp Require Import gmap strings.
Import ListNotations.

Local Open Scope string_scope.
Local Open Scope Z_scope.

(** ** JavaScript primitives used by the engine *)

Module JS.

(** [Math.max(minValue, Math.min(maxValue, value))]. *)
Definition clamp (value minValue maxValue : Q) : Q :=
  Qmax minValue (Qmin maxValue value).

Definition Qltb (x y : Q) : bool := negb (Qle_bool y x).

(** [Number(value.toFixed(4))]: [toFixed] picks the integer [n] with
    [n / 10^4] nearest to the magnitude, the larger one on a tie, and keeps
    the sign. *)
Definition toFixedPrecision (value : Q) : Q :=
  let n := Qfloor (Qabs value * 10000 + (1 # 2)) in
  if Qltb value 0 then - (inject_Z n / 10000) else inject_Z n / 10000.

(** [Math.floor] on a rational. *)
Definition Math_floor (value : Q) : Z := Qfloor value.

(** *** Text

    A string is the UTF-8 encoding of a JavaScript string (a string with a
    lone surrogate has none).  Bytes that are not part of a well-formed
    sequence stand for themselves. *)

Definition byte (c : ascii) : N := N_of_ascii c.

(** A continuation byte, [10xxxxxx]. *)
Definition continuation (c : ascii) : bool :=
  N.leb 128 (byte c) && N.leb (byte c) 191.

Definition point2 (c1 c2 : ascii) : N :=
  ((byte c1 - 192) * 64 + (byte c2 - 128))%N.

Definition point3 (c1 c2 c3 : ascii) : N :=
  ((byte c1 - 224) * 4096 + (byte c2 - 128) * 64 + (byte c3 - 128))%N.

Definition point4 (c1 c2 c3 c4 : ascii) : N :=
  ((byte c1 - 240) * 262144 + (byte c2 - 128) * 4096 + (byte c3 - 128) * 64
   + (byte c4 - 128))%N.

(** Well-formed sequences: the shortest encoding of a code point that is no
    surrogate and at most U+10FFFF. *)
Definition wellFormed2 (c1 c2 : ascii) : bool :=
  N.leb 194 (byte c1) && N.leb (byte c1) 223 && continuation c2.

Definition wellFormed3 (c1 c2 c3 : ascii) : bool :=
  N.leb 224 (byte c1) && N.leb (byte c1) 239 && continuation c2 && continuation c3
  && N.leb 2048 (point3 c1 c2 c3)
  && negb (N.leb 55296 (point3 c1 c2 c3) && N.leb (point3 c1 c2 c3) 57343).

Definition wellFormed4 (c1 c2 c3 c4 : ascii) : bool :=
  N.leb 240 (byte c1) && N.leb (byte c1) 244
  && continuation c2 && continuation c3 && continuation c4
  && N.leb 65536 (point4 c1 c2 c3 c4) && N.leb (point4 c1 c2 c3 c4) 1114111.

(** The UTF-8 bytes of a code point. *)
Definition encode (p : N) : string :=
  if (p <? 128)%N then String (ascii_of_N p) EmptyString
  else if (p <? 2048)%N then
    String (ascii_of_N (192 + p / 64))
      (String (ascii_of_N (128 + p mod 64)) EmptyString)
  else if (p <? 65536)%N then
    String (ascii_of_N (224 + p / 4096))
      (String (ascii_of_N (128 + (p / 64) mod 64))
         (String (ascii_of_N (128 + p mod 64)) EmptyString))
  else
    String (ascii_of_N (240 + p / 262144))
      (String (ascii_of_N (128 + (p / 4096) mod 64))
         (String (ascii_of_N (128 + (p / 64) mod 64))
            (String (ascii_of_N (128 + p mod 64)) EmptyString))).

(** The code points [String.prototype.trim] removes: WhiteSpace (TAB, VT,
    FF, U+FEFF and the space separators) and LineTerminator (LF, CR,
    U+2028, U+2029) of ECMAScript. *)
Definition is_white_space (p : N) : bool :=
  (N.leb 9 p && N.leb p 13) || N.eqb p 32 || N.eqb p 160 || N.eqb p 5760
  || (N.leb 8192 p && N.leb p 8202) || N.eqb p 8232 || N.eqb p 8233
  || N.eqb p 8239 || N.eqb p 8287 || N.eqb p 12288 || N.eqb p 65279.

(** White space of one, two and three bytes. *)
Definition is_js_space (c : ascii) : bool :=
  N.ltb (byte c) 128 && is_white_space (byte c).

Definition is_js_space2 (c1 c2 : ascii) : bool :=
  wellFormed2 c1 c2 && is_white_space (point2 c1 c2).

Definition is_js_space3 (c1 c2 c3 : ascii) : bool :=
  wellFormed3 c1 c2 c3 && is_white_space (point3 c1 c2 c3).

Fixpoint trimStart (s : string) : string :=
  match s with
  | EmptyString => EmptyString
  | String c1 rest1 =>
      if is_js_space c1 then trimStart rest1
      else
        match rest1 with
        | EmptyString => s
        | String c2 rest2 =>
            if is_js_space2 c1 c2 then trimStart rest2
            else
              match rest2 with
              | EmptyString => s
              | String c3 rest3 =>
                  if is_js_space3 c1 c2 c3 then trimStart rest3 else s
              end
        end
  end.

(** [trimEnd] drops the longest tail that is white space throughout. *)
Fixpoint trimEnd (s : string) : string :=
  match s with
  | EmptyString => EmptyString
  | String c rest =>
      match trimStart s with
      | EmptyString => EmptyString
      | _ => String c (trimEnd rest)
      end
  end.

Definition trim (s : string) : string := trimEnd (trimStart s).

(** The simple upper-case mappings of UnicodeData.txt (Unicode 14), in
    runs: every [step]-th code point from [first] to [last] maps to itself
    plus [offset]. *)
Definition upperRuns : list (N * N * N * Z) :=
  [
    (97, 122, 1, (-32)%Z); (181, 181, 1, 743%Z); (224, 246, 1, (-32)%Z);
    (248, 254, 1, (-32)%Z); (255, 255, 1, 121%Z); (257, 303, 2, (-1)%Z);
    (305, 305, 1, (-232)%Z); (307, 311, 2, (-1)%Z); (314, 328, 2, (-1)%Z);
    (331, 375, 2, (-1)%Z); (378, 382, 2, (-1)%Z); (383, 383, 1, (-300)%Z);
    (384, 384, 1, 195%Z); (387, 389, 2, (-1)%Z); (392, 392, 1, (-1)%Z);
    (396, 396, 1, (-1)%Z); (402, 402, 1, (-1)%Z); (405, 405, 1, 97%Z);
    (409, 409, 1, (-1)%Z); (410, 410, 1, 163%Z); (414, 414, 1, 130%Z);
    (417, 421, 2, (-1)%Z); (424, 424, 1, (-1)%Z); (429, 429, 1, (-1)%Z);
    (432, 432, 1, (-1)%Z); (436, 438, 2, (-1)%Z); (441, 441, 1, (-1)%Z);
    (445, 445, 1, (-1)%Z); (447, 447, 1, 56%Z); (453, 453, 1, (-1)%Z);
    (454, 454, 1, (-2)%Z); (456, 456, 1, (-1)%Z); (457, 457, 1, (-2)%Z);
    (459, 459, 1, (-1)%Z); (460, 460, 1, (-2)%Z); (462, 476, 2, (-1)%Z);
    (477, 477, 1, (-79)%Z); (479, 495, 2, (-1)%Z); (498, 498, 1, (-1)%Z);
    (499, 499, 1, (-2)%Z); (501, 501, 1, (-1)%Z); (505, 543, 2, (-1)%Z);
    (547, 563, 2, (-1)%Z); (572, 572, 1, (-1)%Z); (575, 576, 1, 10815%Z);
    (578, 578, 1, (-1)%Z); (583, 591, 2, (-1)%Z); (592, 592, 1, 10783%Z);
    (593, 593, 1, 10780%Z); (594, 594, 1, 10782%Z); (595, 595, 1, (-210)%Z);
    (596, 596, 1, (-206)%Z); (598, 599, 1, (-205)%Z);
    (601, 601, 1, (-202)%Z); (603, 603, 1, (-203)%Z); (604, 604, 1, 42319%Z);
    (608, 608, 1, (-205)%Z); (609, 609, 1, 42315%Z); (611, 611, 1, (-207)%Z);
    (613, 613, 1, 42280%Z); (614, 614, 1, 42308%Z); (616, 616, 1, (-209)%Z);
    (617, 617, 1, (-211)%Z); (618, 618, 1, 42308%Z); (619, 619, 1, 10743%Z);
    (620, 620, 1, 42305%Z); (623, 623, 1, (-211)%Z); (625, 625, 1, 10749%Z);
    (626, 626, 1, (-213)%Z); (629, 629, 1, (-214)%Z); (637, 637, 1, 10727%Z);
    (640, 640, 1, (-218)%Z); (642, 642, 1, 42307%Z); (643, 643, 1, (-218)%Z);
    (647, 647, 1, 42282%Z); (648, 648, 1, (-218)%Z); (649, 649, 1, (-69)%Z);
    (650, 651, 1, (-217)%Z); (652, 652, 1, (-71)%Z); (658, 658, 1, (-219)%Z);
    (669, 669, 1, 42261%Z); (670, 670, 1, 42258%Z); (837, 837, 1, 84%Z);
    (881, 883, 2, (-1)%Z); (887, 887, 1, (-1)%Z); (891, 893, 1, 130%Z);
    (940, 940, 1, (-38)%Z); (941, 943, 1, (-37)%Z); (945, 961, 1, (-32)%Z);
    (962, 962, 1, (-31)%Z); (963, 971, 1, (-32)%Z); (972, 972, 1, (-64)%Z);
    (973, 974, 1, (-63)%Z); (976, 976, 1, (-62)%Z); (977, 977, 1, (-57)%Z);
    (981, 981, 1, (-47)%Z); (982, 982, 1, (-54)%Z); (983, 983, 1, (-8)%Z);
    (985, 1007, 2, (-1)%Z); (1008, 1008, 1, (-86)%Z);
    (1009, 1009, 1, (-80)%Z); (1010, 1010, 1, 7%Z);
    (1011, 1011, 1, (-116)%Z); (1013, 1013, 1, (-96)%Z);
    (1016, 1016, 1, (-1)%Z); (1019, 1019, 1, (-1)%Z);
    (1072, 1103, 1, (-32)%Z); (1104, 1119, 1, (-80)%Z);
    (1121, 1153, 2, (-1)%Z); (1163, 1215, 2, (-1)%Z);
    (1218, 1230, 2, (-1)%Z); (1231, 1231, 1, (-15)%Z);
    (1233, 1327, 2, (-1)%Z); (1377, 1414, 1, (-48)%Z);
    (4304, 4346, 1, 3008%Z); (4349, 4351, 1, 3008%Z);
    (5112, 5117, 1, (-8)%Z); (7296, 7296, 1, (-6254)%Z);
    (7297, 7297, 1, (-6253)%Z); (7298, 7298, 1, (-6244)%Z);
    (7299, 7300, 1, (-6242)%Z); (7301, 7301, 1, (-6243)%Z);
    (7302, 7302, 1, (-6236)%Z); (7303, 7303, 1, (-6181)%Z);
    (7304, 7304, 1, 35266%Z); (7545, 7545, 1, 35332%Z);
    (7549, 7549, 1, 3814%Z); (7566, 7566, 1, 35384%Z);
    (7681, 7829, 2, (-1)%Z); (7835, 7835, 1, (-59)%Z);
    (7841, 7935, 2, (-1)%Z); (7936, 7943, 1, 8%Z); (7952, 7957, 1, 8%Z);
    (7968, 7975, 1, 8%Z); (7984, 7991, 1, 8%Z); (8000, 8005, 1, 8%Z);
    (8017, 8023, 2, 8%Z); (8032, 8039, 1, 8%Z); (8048, 8049, 1, 74%Z);
    (8050, 8053, 1, 86%Z); (8054, 8055, 1, 100%Z); (8056, 8057, 1, 128%Z);
    (8058, 8059, 1, 112%Z); (8060, 8061, 1, 126%Z); (8112, 8113, 1, 8%Z);
    (8126, 8126, 1, (-7205)%Z); (8144, 8145, 1, 8%Z); (8160, 8161, 1, 8%Z);
    (8165, 8165, 1, 7%Z); (8526, 8526, 1, (-28)%Z); (8560, 8575, 1, (-16)%Z);
    (8580, 8580, 1, (-1)%Z); (9424, 9449, 1, (-26)%Z);
    (11312, 11359, 1, (-48)%Z); (11361, 11361, 1, (-1)%Z);
    (11365, 11365, 1, (-10795)%Z); (11366, 11366, 1, (-10792)%Z);
    (11368, 11372, 2, (-1)%Z); (11379, 11379, 1, (-1)%Z);
    (11382, 11382, 1, (-1)%Z); (11393, 11491, 2, (-1)%Z);
    (11500, 11502, 2, (-1)%Z); (11507, 11507, 1, (-1)%Z);
    (11520, 11557, 1, (-7264)%Z); (11559, 11559, 1, (-7264)%Z);
    (11565, 11565, 1, (-7264)%Z); (42561, 42605, 2, (-1)%Z);
    (42625, 42651, 2, (-1)%Z); (42787, 42799, 2, (-1)%Z);
    (42803, 42863, 2, (-1)%Z); (42874, 42876, 2, (-1)%Z);
    (42879, 42887, 2, (-1)%Z); (42892, 42892, 1, (-1)%Z);
    (42897, 42899, 2, (-1)%Z); (42900, 42900, 1, 48%Z);
    (42903, 42921, 2, (-1)%Z); (42933, 42947, 2, (-1)%Z);
    (42952, 42954, 2, (-1)%Z); (42961, 42961, 1, (-1)%Z);
    (42967, 42969, 2, (-1)%Z); (42998, 42998, 1, (-1)%Z);
    (43859, 43859, 1, (-928)%Z); (43888, 43967, 1, (-38864)%Z);
    (65345, 65370, 1, (-32)%Z); (66600, 66639, 1, (-40)%Z);
    (66776, 66811, 1, (-40)%Z); (66967, 66977, 1, (-39)%Z);
    (66979, 66993, 1, (-39)%Z); (66995, 67001, 1, (-39)%Z);
    (67003, 67004, 1, (-39)%Z); (68800, 68850, 1, (-64)%Z);
    (71872, 71903, 1, (-32)%Z); (93792, 93823, 1, (-32)%Z);
    (125218, 125251, 1, (-34)%Z) ]%N.

(** The mappings of SpecialCasing.txt that hold in every context and
    language, which give more than one code point. *)
Definition upperSpecial : list (N * list N) :=
  [
    (223, [83; 83]); (329, [700; 78]); (496, [74; 780]);
    (912, [921; 776; 769]); (944, [933; 776; 769]); (1415, [1333; 1362]);
    (7830, [72; 817]); (7831, [84; 776]); (7832, [87; 778]);
    (7833, [89; 778]); (7834, [65; 702]); (8016, [933; 787]);
    (8018, [933; 787; 768]); (8020, [933; 787; 769]);
    (8022, [933; 787; 834]); (8064, [7944; 921]); (8065, [7945; 921]);
    (8066, [7946; 921]); (8067, [7947; 921]); (8068, [7948; 921]);
    (8069, [7949; 921]); (8070, [7950; 921]); (8071, [7951; 921]);
    (8072, [7944; 921]); (8073, [7945; 921]); (8074, [7946; 921]);
    (8075, [7947; 921]); (8076, [7948; 921]); (8077, [7949; 921]);
    (8078, [7950; 921]); (8079, [7951; 921]); (8080, [7976; 921]);
    (8081, [7977; 921]); (8082, [7978; 921]); (8083, [7979; 921]);
    (8084, [7980; 921]); (8085, [7981; 921]); (8086, [7982; 921]);
    (8087, [7983; 921]); (8088, [7976; 921]); (8089, [7977; 921]);
    (8090, [7978; 921]); (8091, [7979; 921]); (8092, [7980; 921]);
    (8093, [7981; 921]); (8094, [7982; 921]); (8095, [7983; 921]);
    (8096, [8040; 921]); (8097, [8041; 921]); (8098, [8042; 921]);
    (8099, [8043; 921]); (8100, [8044; 921]); (8101, [8045; 921]);
    (8102, [8046; 921]); (8103, [8047; 921]); (8104, [8040; 921]);
    (8105, [8041; 921]); (8106, [8042; 921]); (8107, [8043; 921]);
    (8108, [8044; 921]); (8109, [8045; 921]); (8110, [8046; 921]);
    (8111, [8047; 921]); (8114, [8122; 921]); (8115, [913; 921]);
    (8116, [902; 921]); (8118, [913; 834]); (8119, [913; 834; 921]);
    (8124, [913; 921]); (8130, [8138; 921]); (8131, [919; 921]);
    (8132, [905; 921]); (8134, [919; 834]); (8135, [919; 834; 921]);
    (8140, [919; 921]); (8146, [921; 776; 768]); (8147, [921; 776; 769]);
    (8150, [921; 834]); (8151, [921; 776; 834]); (8162, [933; 776; 768]);
    (8163, [933; 776; 769]); (8164, [929; 787]); (8166, [933; 834]);
    (8167, [933; 776; 834]); (8178, [8186; 921]); (8179, [937; 921]);
    (8180, [911; 921]); (8182, [937; 834]); (8183, [937; 834; 921]);
    (8188, [937; 921]); (64256, [70; 70]); (64257, [70; 73]);
    (64258, [70; 76]); (64259, [70; 70; 73]); (64260, [70; 70; 76]);
    (64261, [83; 84]); (64262, [83; 84]); (64275, [1348; 1350]);
    (64276, [1348; 1333]); (64277, [1348; 1339]); (64278, [1358; 1350]);
    (64279, [1348; 1341]) ]%N.

Fixpoint upperRun (runs : list (N * N * N * Z)) (p : N) : N :=
  match runs with
  | [] => p
  | (first, last, step, offset) :: rest =>
      if N.leb first p && N.leb p last && N.eqb ((p - first) mod step) 0
      then Z.to_N (Z.of_N p + offset)
      else upperRun rest p
  end.

Fixpoint upperFull (table : list (N * list N)) (p : N) : option (list N) :=
  match table with
  | [] => None
  | (q, points) :: rest => if (q =? p)%N then Some points else upperFull rest p
  end.

(** The upper case of a code point, as text. *)
Definition upperText (p : N) : string :=
  match upperFull upperSpecial p with
  | Some points => String.concat "" (map encode points)
  | None => encode (upperRun upperRuns p)
  end.

(** [String.prototype.toUpperCase]: every code point is replaced by its
    upper case. *)
Fixpoint toUpperCase (s : string) : string :=
  match s with
  | EmptyString => EmptyString
  | String c1 rest1 =>
      if (byte c1 <? 128)%N then upperText (byte c1) ++ toUpperCase rest1
      else
        match rest1 with
        | EmptyString => s
        | String c2 rest2 =>
            if wellFormed2 c1 c2 then upperText (point2 c1 c2) ++ toUpperCase rest2
            else
              match rest2 with
              | EmptyString => String c1 (toUpperCase rest1)
              | String c3 rest3 =>
                  if wellFormed3 c1 c2 c3
                  then upperText (point3 c1 c2 c3) ++ toUpperCase rest3
                  else
                    match rest3 with
                    | EmptyString => String c1 (toUpperCase rest1)
                    | String c4 rest4 =>
                        if wellFormed4 c1 c2 c3 c4
                        then upperText (point4 c1 c2 c3 c4) ++ toUpperCase rest4
                        else String c1 (toUpperCase rest1)
                    end
              end
        end
  end.

(** [s.split(":")]: the pieces between the separators; the empty string
    splits into one empty piece. *)
Fixpoint split_colon (s : string) : list string :=
  match s with
  | EmptyString => [EmptyString]
  | String c rest =>
      if Ascii.eqb c ":" then EmptyString :: split_colon rest
      else match split_colon rest with
           | piece :: pieces => String c piece :: pieces
           | [] => [String c EmptyString]
           end
  end.

(** Template-literal interpolation [`${n}`] of an integer-valued number. *)
Definition String_of_int (n : Z) : string :=
  DecimalString.NilZero.string_of_int (Z.to_int n).

(** [Number(s)] followed by the [Number.isInteger] test, for the decimal
    integer literals ([-]digits) that the engine itself writes into set
    members.  Other spellings that JavaScript would also read as an
    integer (exponents, a leading [+], surrounding blanks, the empty
    string) are not recognised here. *)
Definition Number_integer (s : string) : option Z :=
  option_map Z.of_int (DecimalString.NilZero.int_of_string s).

(** Truthiness of [s?.trim()] for an optional hash field. *)
Definition nonblank (field : option string) : bool :=
  match field with
  | Some s => negb (String.eqb (trim s) "")
  | None => false
  end.

End JS.

(** ** hexMath.ts *)

Record HexTile := mkHexTile { q : Z; r : Z }.

Module HexMath.

Definition AXIAL_DIRECTIONS : list HexTile :=
  [ mkHexTile 1 0; mkHexTile 1 (-1); mkHexTile 0 (-1);
    mkHexTile (-1) 0; mkHexTile (-1) 1; mkHexTile 0 1 ].

Definition hex_distance (a b : HexTile) : Z :=
  let dq := q a - q b in
  let dr := r a - r b in
  (Z.abs dq + Z.abs dr + Z.abs (dq + dr)) / 2.

Definition get_neighbors (tq tr : Z) : list HexTile :=
  map (fun direction => mkHexTile (tq + q direction) (tr + r direction))
      AXIAL_DIRECTIONS.

End HexMath.

(** The pixel projections, over binary64. *)
Module HexMathFloat.

Local Open Scope float_scope.

Record Point := mkPoint { x : float; y : float }.
Record FloatHex := mkFloatHex { fq : float; fr : float }.

Definition SQRT_3 : float := PrimFloat.sqrt 3.

Definition two52 : float := 0x1p52.

Definition isFinite (v : float) : bool :=
  negb (is_nan v) && negb (is_infinity v).

(** [Math.floor]: beyond 2^52 every binary64 value is integral; below,
    adding and subtracting 2^52 rounds to an integer which is then
    corrected downwards. *)
Definition Math_floor (v : float) : float :=
  if is_nan v then v
  else if two52 <=? abs v then v
  else
    let rounded :=
      if 0 <=? v then (v + two52) - two52 else (v - two52) + two52 in
    if v <? rounded then rounded - 1 else rounded.

(** [Math.round]: nearest integer, a tie going towards +infinity. *)
Definition Math_round (v : float) : float :=
  let f := Math_floor v in
  if (v - f) <? 0.5 then f else f + 1.

(** [Number.isInteger]. *)
Definition isInteger (v : float) : bool :=
  isFinite v && (Math_floor v =? v).

(** [assertPositiveSize] returns [false] where the source throws. *)
Definition assertPositiveSize (size : float) : bool :=
  isFinite size && (0 <? size).

Definition roundAxial (aq ar : float) : FloatHex :=
  let cx := aq in
  let cz := ar in
  let cy := - cx - cz in
  let roundedX := Math_round cx in
  let roundedY := Math_round cy in
  let roundedZ := Math_round cz in
  let xDiff := abs (roundedX - cx) in
  let yDiff := abs (roundedY - cy) in
  let zDiff := abs (roundedZ - cz) in
  if (yDiff <? xDiff) && (zDiff <? xDiff) then
    mkFloatHex (- roundedY - roundedZ) roundedZ
  else if zDiff <? yDiff then
    mkFloatHex roundedX roundedZ
  else
    mkFloatHex roundedX (- roundedX - roundedY).

Definition hex_to_pixel (hq hr size : float) : option Point :=
  if assertPositiveSize size then
    Some (mkPoint (size * SQRT_3 * (hq + hr / 2)) (size * 1.5 * hr))
  else None.

Definition pixel_to_hex (px py size : float) : option FloatHex :=
  if assertPositiveSize size then
    let fractionalQ := ((SQRT_3 / 3) * px - py / 3) / size in
    let fractionalR := ((2 / 3) * py) / size in
    Some (roundAxial fractionalQ fractionalR)
  else None.

(** [hex_distance], as binary64 computes it. *)
Definition hex_distance (a b : FloatHex) : float :=
  let dq := fq a - fq b in
  let dr := fr a - fr b in
  (abs dq + abs dr + abs (dq + dr)) / 2.

(** The binary64 number an integer denotes, rounded to nearest where the
    integer is no binary64 value itself. *)
Definition float_of_Z (n : Z) : float :=
  SF2Prim (binary_normalize prec emax n 0 false).

(** The integer part of a finite binary64 number. *)
Definition Z_of_float (v : float) : Z :=
  match Prim2SF v with
  | S754_finite negative m e =>
      let magnitude :=
        if (0 <=? e)%Z then (Zpos m * 2 ^ e)%Z else (Zpos m / 2 ^ (- e))%Z in
      if negative then (- magnitude)%Z else magnitude
  | _ => 0%Z
  end.

(** [pixel_to_hex(hex_to_pixel(q, r, size), size)] compared with [(q, r)]
    by [===]. *)
Definition round_trip_ok (hq hr size : float) : bool :=
  match hex_to_pixel hq hr size with
  | Some point =>
      match pixel_to_hex (x point) (y point) size with
      | Some back => (fq back =? hq) && (fr back =? hr)
      | None => false
      end
  | None => false
  end.

(** [TileManager.validateCoordinates]: [true] when no error is thrown. *)
Definition validateCoordinates (hq hr : float) : bool :=
  isInteger hq && isInteger hr && round_trip_ok hq hr 1.

End HexMathFloat.

(** ** Data model of TileManager.ts *)

Inductive TileType := normal | nexus.

Definition TileType_eqb (a b : TileType) : bool :=
  match a, b with
  | normal, normal | nexus, nexus => true
  | _, _ => false
  end.

Definition TileType_name (t : TileType) : string :=
  match t with normal => "normal" | nexus => "nexus" end.

(** [interface TileState extends HexTile]. *)
Module TileState.
Record t := mk {
  q : Z;
  r : Z;
  ownerId : option string;
  ownerAllianceTag : option string;
  ownerAllianceColor : option string;
  energy : Q;
  lastUpdate : Z;
  integrity : Q;
  level : Q;
  tileType : TileType;
}.
End TileState.

(** [interface PlayerEnergyState]. *)
Module PlayerState.
Record t := mk {
  userId : string;
  displayName : string;
  allianceTag : option string;
  allianceColor : option string;
  energy : Q;
  lastUpdate : Q;
}.
End PlayerState.

(** [PlayerProfilePayload]. *)
Module Profile.
Record t := mk {
  userId : string;
  displayName : string;
  allianceTag : option string;
  allianceColor : option string;
}.
End Profile.

(** [TileManagerOptions], every field present ([Required<...>]); only the
    options read by the modelled methods are kept. *)
Module Options.
Record t := mk {
  chunkSize : Q;
  maxEnergy : Q;
  maxPlayerEnergy : Q;
  initialTileEnergy : Q;
  initialTileIntegrity : Q;
  initialTileLevel : Q;
  initialPlayerEnergy : Q;
  energyRechargePerSecond : Q;
  integrityDecayPerMinute : Q;
  freeClaimCost : Q;
  hostileClaimCostMultiplier : Q;
  repairCostEnergy : Q;
  repairIntegrityGain : Q;
  maxClaimDistanceFromOwned : Q;
  allianceNeighborBonusMultiplier : Q;
}.
End Options.

Definition DEFAULT_OPTIONS : Options.t :=
  {| Options.chunkSize := 64;
     Options.maxEnergy := 100;
     Options.maxPlayerEnergy := 1000;
     Options.initialTileEnergy := 100;
     Options.initialTileIntegrity := 100;
     Options.initialTileLevel := 1;
     Options.initialPlayerEnergy := 100;
     Options.energyRechargePerSecond := 1;
     Options.integrityDecayPerMinute := 1;
     Options.freeClaimCost := 10;
     Options.hostileClaimCostMultiplier := 50;
     Options.repairCostEnergy := 5;
     Options.repairIntegrityGain := 20;
     Options.maxClaimDistanceFromOwned := 8;
     Options.allianceNeighborBonusMultiplier := 105 # 100 |}.

(** ** The Redis keyspace

    A Redis hash is a partial record: a field is [None] until some [hSet]
    writes it.  Numeric fields hold the number that [Number(...)] reads back
    from the stored text. *)

(** Hash at key [tile:q:r]. *)
Module TileHash.
Record t := mk {
  ownerId : option string;
  ownerAllianceTag : option string;
  ownerAllianceColor : option string;
  energy : option Q;
  lastUpdate : option Q;
  integrity : option Q;
  level : option Q;
  tileType : option string;
}.

Definition empty : t := mk None None None None None None None None.

Definition override {A} (old new : option A) : option A :=
  match new with Some _ => new | None => old end.

(** The fields of [values] written over [old], as [hSet] does. *)
Definition merge (old values : t) : t :=
  mk (override (ownerId old) (ownerId values))
     (override (ownerAllianceTag old) (ownerAllianceTag values))
     (override (ownerAllianceColor old) (ownerAllianceColor values))
     (override (energy old) (energy values))
     (override (lastUpdate old) (lastUpdate values))
     (override (integrity old) (integrity values))
     (override (level old) (level values))
     (override (tileType old) (tileType values)).

Definition set {A} (field : option A) : bool :=
  match field with Some _ => true | None => false end.

(** [hasValues(hash)]. *)
Definition hasValues (hash : t) : bool :=
  set (ownerId hash) || set (ownerAllianceTag hash)
  || set (ownerAllianceColor hash) || set (energy hash)
  || set (lastUpdate hash) || set (integrity hash)
  || set (level hash) || set (tileType hash).
End TileHash.

(** Hash at key [player:<userId>:state]. *)
Module PlayerHash.
Record t := mk {
  displayName : option string;
  allianceTag : option string;
  allianceColor : option string;
  energy : option Q;
  lastUpdate : option Q;
}.

Definition empty : t := mk None None None None None.

Definition merge (old values : t) : t :=
  mk (TileHash.override (displayName old) (displayName values))
     (TileHash.override (allianceTag old) (allianceTag values))
     (TileHash.override (allianceColor old) (allianceColor values))
     (TileHash.override (energy old) (energy values))
     (TileHash.override (lastUpdate old) (lastUpdate values)).

Definition hasValues (hash : t) : bool :=
  TileHash.set (displayName hash) || TileHash.set (allianceTag hash)
  || TileHash.set (allianceColor hash) || TileHash.set (energy hash)
  || TileHash.set (lastUpdate hash).
End PlayerHash.

(** The keys of the Redis sets the engine maintains. *)
Inductive SetKey :=
| TILE_INDEX_KEY                       (* tiles:index *)
| POI_INDEX_KEY                        (* poi:index *)
| chunkKey (chunkQ chunkR : Z)         (* chunk:<cq>:<cr>:tiles *)
| ownerTileKey (userId : string).      (* owner:<userId>:tiles *)

Module Redis.
Record t := mk {
  tileHashes : gmap (Z * Z) TileHash.t;       (* tile:<q>:<r> *)
  playerHashes : gmap string PlayerHash.t;    (* player:<userId>:state *)
  chunkActivity : gmap string Z;              (* chunk:activity *)
  leaderboardTiles : gmap string Z;           (* leaderboard:tiles *)
  tileIndex : gset string;
  poiIndex : gset string;
  chunkTiles : gmap (Z * Z) (gset string);
  ownerTiles : gmap string (gset string);
}.

Definition empty : t := mk ∅ ∅ ∅ ∅ ∅ ∅ ∅ ∅.

Definition with_tileHashes (f : gmap (Z * Z) TileHash.t -> gmap (Z * Z) TileHash.t) (s : t) : t :=
  mk (f (tileHashes s)) (playerHashes s) (chunkActivity s) (leaderboardTiles s)
     (tileIndex s) (poiIndex s) (chunkTiles s) (ownerTiles s).

Definition with_playerHashes (f : gmap string PlayerHash.t -> gmap string PlayerHash.t) (s : t) : t :=
  mk (tileHashes s) (f (playerHashes s)) (chunkActivity s) (leaderboardTiles s)
     (tileIndex s) (poiIndex s) (chunkTiles s) (ownerTiles s).

Definition with_chunkActivity (f : gmap string Z -> gmap string Z) (s : t) : t :=
  mk (tileHashes s) (playerHashes s) (f (chunkActivity s)) (leaderboardTiles s)
     (tileIndex s) (poiIndex s) (chunkTiles s) (ownerTiles s).

Definition with_leaderboardTiles (f : gmap string Z -> gmap string Z) (s : t) : t :=
  mk (tileHashes s) (playerHashes s) (chunkActivity s) (f (leaderboardTiles s))
     (tileIndex s) (poiIndex s) (chunkTiles s) (ownerTiles s).

(** The members stored at a set key; a missing key is the empty set. *)
Definition members (key : SetKey) (s : t) : gset string :=
  match key with
  | TILE_INDEX_KEY => tileIndex s
  | POI_INDEX_KEY => poiIndex s
  | chunkKey cq cr => default ∅ (chunkTiles s !! (cq, cr))
  | ownerTileKey u => default ∅ (ownerTiles s !! u)
  end.

Definition with_members (key : SetKey) (f : gset string -> gset string) (s : t) : t :=
  match key with
  | TILE_INDEX_KEY =>
      mk (tileHashes s) (playerHashes s) (chunkActivity s) (leaderboardTiles s)
         (f (tileIndex s)) (poiIndex s) (chunkTiles s) (ownerTiles s)
  | POI_INDEX_KEY =>
      mk (tileHashes s) (playerHashes s) (chunkActivity s) (leaderboardTiles s)
         (tileIndex s) (f (poiIndex s)) (chunkTiles s) (ownerTiles s)
  | chunkKey cq cr =>
      mk (tileHashes s) (playerHashes s) (chunkActivity s) (leaderboardTiles s)
         (tileIndex s) (poiIndex s)
         (<[(cq, cr) := f (members key s)]> (chunkTiles s)) (ownerTiles s)
  | ownerTileKey u =>
      mk (tileHashes s) (playerHashes s) (chunkActivity s) (leaderboardTiles s)
         (tileIndex s) (poiIndex s) (chunkTiles s)
         (<[u := f (members key s)]> (ownerTiles s))
  end.

(** [ZSCORE], a missing member counting as 0. *)
Definition score (member : string) (s : t) : Z :=
  default 0 (leaderboardTiles s !! member).
End Redis.

(** ** Asynchronous methods: state passing with exceptions *)

Inductive Outcome (A : Type) :=
| Returned (value : A)
| Thrown (message : string).
Arguments Returned {A} value.
Arguments Thrown {A} message.

Definition Async (A : Type) : Type := Redis.t -> Outcome A * Redis.t.

Definition throw {A} (message : string) : Async A := fun s => (Thrown message, s).

#[global] Instance Async_ret : MRet Async :=
  fun A (a : A) s => (Returned a, s).

#[global] Instance Async_bind : MBind Async :=
  fun A B (k : A -> Async B) (m : Async A) s =>
    match m s with
    | (Returned a, s') => k a s'
    | (Thrown message, s') => (Thrown message, s')
    end.

(** The store after running [m], and its result. *)
Definition exec {A} (m : Async A) (s : Redis.t) : Redis.t := snd (m s).
Definition result {A} (m : Async A) (s : Redis.t) : Outcome A := fst (m s).

(** *** The [RedisTileStore] commands used by the modelled methods *)

Definition hGetAll_tile (key : Z * Z) : Async TileHash.t :=
  fun s => (Returned (default TileHash.empty (Redis.tileHashes s !! key)), s).

Definition hSet_tile (key : Z * Z) (values : TileHash.t) : Async unit :=
  fun s =>
    let old := default TileHash.empty (Redis.tileHashes s !! key) in
    (Returned tt, Redis.with_tileHashes (insert key (TileHash.merge old values)) s).

Definition hGetAll_player (userId : string) : Async PlayerHash.t :=
  fun s => (Returned (default PlayerHash.empty (Redis.playerHashes s !! userId)), s).

Definition hSet_player (userId : string) (values : PlayerHash.t) : Async unit :=
  fun s =>
    let old := default PlayerHash.empty (Redis.playerHashes s !! userId) in
    (Returned tt, Redis.with_playerHashes (insert userId (PlayerHash.merge old values)) s).

Definition hIncrBy_activity (field : string) (increment : Z) : Async Z :=
  fun s =>
    let next := default 0 (Redis.chunkActivity s !! field) + increment in
    (Returned next, Redis.with_chunkActivity (insert field next) s).

Definition zIncrBy (increment : Z) (member : string) : Async Z :=
  fun s =>
    let next := Redis.score member s + increment in
    (Returned next, Redis.with_leaderboardTiles (insert member next) s).

Definition sAdd (key : SetKey) (member : string) : Async unit :=
  fun s => (Returned tt, Redis.with_members key (fun set => set ∪ {[member]}) s).

Definition sRem (key : SetKey) (member : string) : Async unit :=
  fun s => (Returned tt, Redis.with_members key (fun set => set ∖ {[member]}) s).

Definition sMembers (key : SetKey) : Async (list string) :=
  fun s => (Returned (elements (Redis.members key s)), s).

(** ** TileManager.ts *)

(** [{ ok: true } | { ok: false; nearestDistance }] of [validateClaimDistance]. *)
Inductive RangeValidation :=
| RangeOk
| RangeFail (nearestDistance : option Z).

(** [{ ok; energyAfter }] of [spendPlayerEnergy]. *)
Record SpendAttempt := mkSpendAttempt { spend_ok : bool; spend_energyAfter : Q }.

(** [ClaimTileResult]. *)
Inductive ClaimTileResult :=
| ClaimTileSuccess (created captured : bool) (tile : TileState.t)
                   (energyAfter energyCost : Q)
| ClaimTileAlreadyClaimed (tile : option TileState.t) (playerEnergy : Q)
| ClaimTileInsufficientEnergy (tile : option TileState.t)
                              (requiredEnergy playerEnergy : Q)
| ClaimTileOutOfRange (tile : option TileState.t) (maxDistance : Q)
                      (nearestDistance : option Z) (playerEnergy : Q).

(** JavaScript truthiness of a [string | null]. *)
Definition truthy (value : option string) : bool :=
  match value with
  | Some s => negb (String.eqb s "")
  | None => false
  end.

(** [a === b] on [string | null]. *)
Definition same_string (a b : option string) : bool :=
  match a, b with
  | Some sa, Some sb => String.eqb sa sb
  | None, None => true
  | _, _ => false
  end.

Definition coordMember (tq tr : Z) : string :=
  JS.String_of_int tq ++ ":" ++ JS.String_of_int tr.

Definition parseMember (member : string) : option HexTile :=
  match JS.split_colon member with
  | [partQ; partR] =>
      match JS.Number_integer partQ, JS.Number_integer partR with
      | Some pq, Some pr => Some (mkHexTile pq pr)
      | _, _ => None
      end
  | _ => None
  end.

Definition poiMember (tile : TileState.t) : string :=
  TileType_name (TileState.tileType tile) ++ ":"
  ++ JS.String_of_int (TileState.q tile) ++ ":"
  ++ JS.String_of_int (TileState.r tile) ++ ":"
  ++ JS.String_of_int (Z.max 1 (JS.Math_floor (TileState.level tile))).

Definition tileKey (tq tr : Z) : Z * Z := (tq, tr).

(** [validateCoordinates]: the arguments are integers by their type; the
    pixel round trip is run on the binary64 values they denote. *)
Definition validateCoordinates (tq tr : Z) : Async unit :=
  if HexMathFloat.validateCoordinates
       (HexMathFloat.float_of_Z tq) (HexMathFloat.float_of_Z tr)
  then mret tt
  else throw "q and r are not valid axial coordinates".

Definition normalizeUserId (userId : string) : Async string :=
  let normalized := JS.trim userId in
  if String.eqb normalized "" then throw "userId must not be empty"
  else mret normalized.

(** The loop of [validateClaimDistance]; [None] stands for
    [Number.POSITIVE_INFINITY]. *)
Fixpoint nearestOwned (maxDistance : Q) (target : HexTile)
         (ownedMembers : list string) (nearestDistance : option Z)
  : RangeValidation :=
  match ownedMembers with
  | [] => RangeFail nearestDistance
  | member :: rest =>
      match parseMember member with
      | None => nearestOwned maxDistance target rest nearestDistance
      | Some coordinate =>
          let distance := HexMath.hex_distance target coordinate in
          let nearest :=
            match nearestDistance with
            | None => Some distance
            | Some best => if distance <? best then Some distance else Some best
            end in
          if Qle_bool (inject_Z distance) maxDistance then RangeOk
          else nearestOwned maxDistance target rest nearest
      end
  end.

Section TileManager.

Variable options : Options.t.

(** The value every [Date.now()] of one call returns. *)
Variable clock : Z.

Definition toChunkIndex (value : Z) : Z :=
  JS.Math_floor (inject_Z value / Options.chunkSize options).

Definition chunkKeyForTile (tq tr : Z) : SetKey :=
  chunkKey (toChunkIndex tq) (toChunkIndex tr).

Definition parseTile (tq tr : Z) (hash : TileHash.t) : option TileState.t :=
  if negb (TileHash.hasValues hash) then None
  else
    let ownerId :=
      if JS.nonblank (TileHash.ownerId hash) then TileHash.ownerId hash else None in
    let ownerAllianceTag :=
      if truthy ownerId && JS.nonblank (TileHash.ownerAllianceTag hash)
      then TileHash.ownerAllianceTag hash else None in
    let ownerAllianceColor :=
      if truthy ownerId && JS.nonblank (TileHash.ownerAllianceColor hash)
      then TileHash.ownerAllianceColor hash else None in
    let energy := default 0%Q (TileHash.energy hash) in
    let lastUpdate := default 0%Q (TileHash.lastUpdate hash) in
    let integrity :=
      default (Options.initialTileIntegrity options) (TileHash.integrity hash) in
    let level := default (Options.initialTileLevel options) (TileHash.level hash) in
    let tileType :=
      match TileHash.tileType hash with
      | Some name => if String.eqb name "nexus" then nexus else normal
      | None => normal
      end in
    Some {| TileState.q := tq;
            TileState.r := tr;
            TileState.ownerId := ownerId;
            TileState.ownerAllianceTag := ownerAllianceTag;
            TileState.ownerAllianceColor := ownerAllianceColor;
            TileState.energy := JS.clamp energy 0 (Options.maxEnergy options);
            TileState.lastUpdate := JS.Math_floor lastUpdate;
            TileState.integrity := JS.clamp integrity 0 100;
            TileState.level := inject_Z (Z.max 1 (JS.Math_floor level));
            TileState.tileType := tileType |}.

Definition loadTile (tq tr : Z) : Async (option TileState.t) :=
  hash ← hGetAll_tile (tileKey tq tr);
  mret (parseTile tq tr hash).

(** The field/value object that [persistTileState] hands to [hSet]. *)
Definition tileHashFields (tile : TileState.t) : TileHash.t :=
  {| TileHash.ownerId := Some (default "" (TileState.ownerId tile));
     TileHash.ownerAllianceTag := Some (default "" (TileState.ownerAllianceTag tile));
     TileHash.ownerAllianceColor := Some (default "" (TileState.ownerAllianceColor tile));
     TileHash.energy := Some (JS.toFixedPrecision (TileState.energy tile));
     TileHash.lastUpdate := Some (inject_Z (TileState.lastUpdate tile));
     TileHash.integrity := Some (JS.toFixedPrecision (TileState.integrity tile));
     TileHash.level := Some (inject_Z (Z.max 1 (JS.Math_floor (TileState.level tile))));
     TileHash.tileType := Some (TileType_name (TileState.tileType tile)) |}.

Definition persistTileState (key : Z * Z) (tile : TileState.t) : Async unit :=
  hSet_tile key (tileHashFields tile).

(** The field/value object that [persistPlayerState] hands to [hSet]. *)
Definition playerHashFields (state : PlayerState.t) : PlayerHash.t :=
  {| PlayerHash.displayName := Some (PlayerState.displayName state);
     PlayerHash.allianceTag := Some (default "" (PlayerState.allianceTag state));
     PlayerHash.allianceColor := Some (default "" (PlayerState.allianceColor state));
     PlayerHash.energy := Some (JS.toFixedPrecision (PlayerState.energy state));
     PlayerHash.lastUpdate :=
       Some (inject_Z (JS.Math_floor (PlayerState.lastUpdate state))) |}.

Definition persistPlayerState (state : PlayerState.t) : Async unit :=
  hSet_player (PlayerState.userId state) (playerHashFields state).

Definition getOrCreatePlayerState (userId : string) : Async PlayerState.t :=
  hash ← hGetAll_player userId;
  if negb (PlayerHash.hasValues hash) then
    let state :=
      {| PlayerState.userId := userId;
         PlayerState.displayName := userId;
         PlayerState.allianceTag := None;
         PlayerState.allianceColor := None;
         PlayerState.energy := Options.initialPlayerEnergy options;
         PlayerState.lastUpdate := inject_Z clock |} in
    persistPlayerState state;;
    mret state
  else
    let energy :=
      default (Options.initialPlayerEnergy options) (PlayerHash.energy hash) in
    let lastUpdate := default (inject_Z clock) (PlayerHash.lastUpdate hash) in
    let displayName :=
      match PlayerHash.displayName hash with
      | Some name => if String.eqb (JS.trim name) "" then userId else JS.trim name
      | None => userId
      end in
    let allianceTag :=
      if JS.nonblank (PlayerHash.allianceTag hash)
      then PlayerHash.allianceTag hash else None in
    let allianceColor :=
      if JS.nonblank (PlayerHash.allianceColor hash)
      then PlayerHash.allianceColor hash else None in
    mret {| PlayerState.userId := userId;
            PlayerState.displayName := displayName;
            PlayerState.allianceTag := allianceTag;
            PlayerState.allianceColor := allianceColor;
            PlayerState.energy :=
              JS.clamp energy 0 (Options.maxPlayerEnergy options);
            PlayerState.lastUpdate := inject_Z (JS.Math_floor lastUpdate) |}.

Definition getPlayerEnergy (userId : string) : Async Q :=
  normalizedUserId ← normalizeUserId userId;
  player ← getOrCreatePlayerState normalizedUserId;
  mret (PlayerState.energy player).

Definition getPlayerProfile (userId : string) : Async Profile.t :=
  normalizedUserId ← normalizeUserId userId;
  state ← getOrCreatePlayerState normalizedUserId;
  mret {| Profile.userId := PlayerState.userId state;
          Profile.displayName := PlayerState.displayName state;
          Profile.allianceTag := PlayerState.allianceTag state;
          Profile.allianceColor := PlayerState.allianceColor state |}.

Definition with_energy (state : PlayerState.t) (energy now : Q) : PlayerState.t :=
  {| PlayerState.userId := PlayerState.userId state;
     PlayerState.displayName := PlayerState.displayName state;
     PlayerState.allianceTag := PlayerState.allianceTag state;
     PlayerState.allianceColor := PlayerState.allianceColor state;
     PlayerState.energy := energy;
     PlayerState.lastUpdate := now |}.

Definition spendPlayerEnergy (userId : string) (cost now : Q) : Async SpendAttempt :=
  if Qle_bool cost 0 then
    energy ← getPlayerEnergy userId;
    mret (mkSpendAttempt true energy)
  else
    state ← getOrCreatePlayerState userId;
    if JS.Qltb (PlayerState.energy state) cost then
      mret (mkSpendAttempt false (JS.toFixedPrecision (PlayerState.energy state)))
    else
      let nextEnergy :=
        JS.clamp (JS.toFixedPrecision (PlayerState.energy state - cost))
                 0 (Options.maxPlayerEnergy options) in
      persistPlayerState (with_energy state nextEnergy now);;
      mret (mkSpendAttempt true nextEnergy).

Definition addPlayerEnergy (userId : string) (gain now : Q) : Async Q :=
  if Qle_bool gain 0 then getPlayerEnergy userId
  else
    state ← getOrCreatePlayerState userId;
    let nextEnergy :=
      JS.clamp (JS.toFixedPrecision (PlayerState.energy state + gain))
               0 (Options.maxPlayerEnergy options) in
    persistPlayerState (with_energy state nextEnergy now);;
    mret nextEnergy.

Definition validateClaimDistance (userId : string) (targetQ targetR : Z)
  : Async RangeValidation :=
  ownedMembers ← sMembers (ownerTileKey userId);
  match ownedMembers with
  | [] => mret RangeOk
  | _ =>
      mret (nearestOwned (Options.maxClaimDistanceFromOwned options)
              (mkHexTile targetQ targetR) ownedMembers None)
  end.

Definition recordChunkActivity (tq tr amount : Z) : Async unit :=
  if amount <=? 0 then mret tt
  else
    let chunkField :=
      JS.String_of_int (toChunkIndex tq) ++ ":" ++ JS.String_of_int (toChunkIndex tr) in
    hIncrBy_activity chunkField amount;;
    mret tt.

(** [currentTile && currentTile.ownerId && currentTile.ownerId !== user]:
    the tile is held by somebody else. *)
Definition ownedByOther (currentTile : option TileState.t) (user : string) : bool :=
  match currentTile with
  | Some tile =>
      truthy (TileState.ownerId tile)
      && negb (same_string (TileState.ownerId tile) (Some user))
  | None => false
  end.

(** [currentTile?.ownerId]. *)
Definition ownerOf (currentTile : option TileState.t) : option string :=
  match currentTile with
  | Some tile => TileState.ownerId tile
  | None => None
  end.

Definition when (condition : bool) (action : Async unit) : Async unit :=
  if condition then action else mret tt.

(** [claimTile] is one method in the source; it is cut here at its two
    gates into [claimCommit] (lines 273-326), [claimCost] and [claimSpend]
    (lines 255-271),
    [claimGated] (lines 242-253) and the entry [claimTile] (lines 220-240),
    each block ending in a call of the next. *)

Definition claimCommit (normalizedUserId : string) (tq tr : Z)
           (currentTile : option TileState.t)
           (spendAttempt : SpendAttempt) (cost : Q) : Async ClaimTileResult :=
  let now := clock in
  let key := tileKey tq tr in
  let created := match currentTile with None => true | Some _ => false end in
  let captured := ownedByOther currentTile normalizedUserId in
  claimerProfile ← getPlayerProfile normalizedUserId;
  let nextTile :=
    match currentTile with
    | Some tile =>
        {| TileState.q := TileState.q tile;
           TileState.r := TileState.r tile;
           TileState.ownerId := Some normalizedUserId;
           TileState.ownerAllianceTag := Profile.allianceTag claimerProfile;
           TileState.ownerAllianceColor := Profile.allianceColor claimerProfile;
           TileState.energy := TileState.energy tile;
           TileState.lastUpdate := now;
           TileState.integrity := TileState.integrity tile;
           TileState.level := TileState.level tile;
           TileState.tileType := TileState.tileType tile |}
    | None =>
        {| TileState.q := tq;
           TileState.r := tr;
           TileState.ownerId := Some normalizedUserId;
           TileState.ownerAllianceTag := Profile.allianceTag claimerProfile;
           TileState.ownerAllianceColor := Profile.allianceColor claimerProfile;
           TileState.energy := Options.initialTileEnergy options;
           TileState.lastUpdate := now;
           TileState.integrity := Options.initialTileIntegrity options;
           TileState.level := Options.initialTileLevel options;
           TileState.tileType := normal |}
    end in
  persistTileState key nextTile;;
  let member := coordMember tq tr in
  sAdd (chunkKeyForTile tq tr) member;;
  sAdd TILE_INDEX_KEY member;;
  sAdd (ownerTileKey normalizedUserId) member;;
  when (ownedByOther currentTile normalizedUserId)
    (sRem (ownerTileKey (default "" (ownerOf currentTile))) member;;
     zIncrBy (-1) (default "" (ownerOf currentTile));;
     mret tt);;
  when (created || ownedByOther currentTile normalizedUserId
        || negb (truthy (ownerOf currentTile)))
    (zIncrBy 1 normalizedUserId;; mret tt);;
  when (TileType_eqb (TileState.tileType nextTile) nexus)
    (sAdd POI_INDEX_KEY (poiMember nextTile));;
  recordChunkActivity tq tr (if captured then 3 else 1);;
  mret (ClaimTileSuccess created captured nextTile
          (spend_energyAfter spendAttempt) cost).

(** The [cost] constant of lines 255-259. *)
Definition claimCost (currentTile : option TileState.t) (normalizedUserId : string) : Q :=
  let targetLevel :=
    match currentTile with
    | Some tile => TileState.level tile
    | None => Options.initialTileLevel options
    end in
  if ownedByOther currentTile normalizedUserId
  then (targetLevel * Options.hostileClaimCostMultiplier options)%Q
  else Options.freeClaimCost options.

Definition claimSpend (normalizedUserId : string) (tq tr : Z)
           (currentTile : option TileState.t) : Async ClaimTileResult :=
  let now := clock in
  let cost := claimCost currentTile normalizedUserId in
  spendAttempt ← spendPlayerEnergy normalizedUserId cost (inject_Z now);
  if negb (spend_ok spendAttempt) then
    mret (ClaimTileInsufficientEnergy currentTile cost
            (spend_energyAfter spendAttempt))
  else claimCommit normalizedUserId tq tr currentTile spendAttempt cost.

Definition claimGated (normalizedUserId : string) (tq tr : Z)
           (currentTile : option TileState.t) : Async ClaimTileResult :=
  rangeValidation ← validateClaimDistance normalizedUserId tq tr;
  match rangeValidation with
  | RangeFail nearestDistance =>
      playerEnergy ← getPlayerEnergy normalizedUserId;
      mret (ClaimTileOutOfRange currentTile
              (Options.maxClaimDistanceFromOwned options)
              nearestDistance playerEnergy)
  | RangeOk => claimSpend normalizedUserId tq tr currentTile
  end.

Definition claimTile (userId : string) (tq tr : Z) : Async ClaimTileResult :=
  normalizedUserId ← normalizeUserId userId;
  validateCoordinates tq tr;;
  currentTile ← loadTile tq tr;
  match currentTile with
  | Some tile =>
      if same_string (TileState.ownerId tile) (Some normalizedUserId) then
        playerEnergy ← getPlayerEnergy normalizedUserId;
        mret (ClaimTileSuccess false false tile playerEnergy 0)
      else claimGated normalizedUserId tq tr currentTile
  | None => claimGated normalizedUserId tq tr currentTile
  end.

(** [Number.isInteger] on a rational. *)
Definition isInteger (value : Q) : bool :=
  Qeq_bool (inject_Z (JS.Math_floor value)) value.

(** [registerNexus(q, r, level = 3)]: [levelArg = None] is the call that
    leaves the third argument out. *)
Definition registerNexus (tq tr : Z) (levelArg : option Q) : Async TileState.t :=
  let level := default 3%Q levelArg in
  validateCoordinates tq tr;;
  if negb (isInteger level) || Qle_bool level 0 then
    throw "level must be a positive integer"
  else
    let key := tileKey tq tr in
    existing ← loadTile tq tr;
    let now := clock in
    let nexusTile :=
      match existing with
      | Some tile =>
          {| TileState.q := TileState.q tile;
             TileState.r := TileState.r tile;
             TileState.ownerId := TileState.ownerId tile;
             TileState.ownerAllianceTag := TileState.ownerAllianceTag tile;
             TileState.ownerAllianceColor := TileState.ownerAllianceColor tile;
             TileState.energy := TileState.energy tile;
             TileState.lastUpdate := now;
             TileState.integrity := TileState.integrity tile;
             TileState.level := level;
             TileState.tileType := nexus |}
      | None =>
          {| TileState.q := tq;
             TileState.r := tr;
             TileState.ownerId := None;
             TileState.ownerAllianceTag := None;
             TileState.ownerAllianceColor := None;
             TileState.energy := Options.initialTileEnergy options;
             TileState.lastUpdate := now;
             TileState.integrity := Options.initialTileIntegrity options;
             TileState.level := level;
             TileState.tileType := nexus |}
      end in
    match existing with
    | Some tile =>
        when (TileType_eqb (TileState.tileType tile) nexus)
             (sRem POI_INDEX_KEY (poiMember tile))
    | None => mret tt
    end;;
    persistTileState key nexusTile;;
    let member := coordMember tq tr in
    sAdd (chunkKeyForTile tq tr) member;;
    sAdd TILE_INDEX_KEY member;;
    sAdd POI_INDEX_KEY (poiMember nexusTile);;
    mret nexusTile.

(** *** Alliances *)

(** [/^[A-Z0-9]{3,4}$/.test(s)]. *)
Definition is_tag_char (c : ascii) : bool :=
  let n := nat_of_ascii c in
  ((65 <=? n)%nat && (n <=? 90)%nat) || ((48 <=? n)%nat && (n <=? 57)%nat).

Definition allianceTagPattern (s : string) : bool :=
  ((String.length s =? 3)%nat || (String.length s =? 4)%nat)
  && forallb is_tag_char (list_ascii_of_string s).

Definition normalizeAllianceTag (rawTag : option string) : Async (option string) :=
  match rawTag with
  | None => mret None
  | Some raw =>
      let normalized := JS.toUpperCase (JS.trim raw) in
      if (String.length normalized =? 0)%nat then mret None
      else if negb (allianceTagPattern normalized) then
        throw "allianceTag must be 3-4 alphanumeric characters"
      else mret (Some normalized)
  end.

(** The inner [hueToRgb] of [hslToRgb], over binary64. *)
Definition hueToRgb (p q t : float) : float :=
  let corrected := if (t <? 0)%float then (t + 1)%float else t in
  let corrected := if (1 <? corrected)%float then (corrected - 1)%float else corrected in
  if (corrected <? 1 / 6)%float then (p + (q - p) * 6 * corrected)%float
  else if (corrected <? 1 / 2)%float then q
  else if (corrected <? 2 / 3)%float then (p + (q - p) * (2 / 3 - corrected) * 6)%float
  else p.

Definition hslToRgb (h s l : float) : float * float * float :=
  if (s =? 0)%float then
    let gray := HexMathFloat.Math_round (l * 255)%float in
    (gray, gray, gray)
  else
    let q := if (l <? 0.5)%float then (l * (1 + s))%float else (l + s - l * s)%float in
    let p := (2 * l - q)%float in
    let cr := hueToRgb p q (h + 1 / 3)%float in
    let cg := hueToRgb p q h in
    let cb := hueToRgb p q (h - 1 / 3)%float in
    (HexMathFloat.Math_round (cr * 255)%float,
     HexMathFloat.Math_round (cg * 255)%float,
     HexMathFloat.Math_round (cb * 255)%float).

(** [value.toString(16).padStart(2, "0")] for an integer-valued number. *)
Definition hexByte (value : float) : string :=
  let digits :=
    HexadecimalString.NilZero.string_of_int (Z.to_hex_int (HexMathFloat.Z_of_float value)) in
  if (String.length digits <? 2)%nat then "0" ++ digits else digits.

(** The rolling hash of [colorFromAllianceTag]. *)
Definition tagHash (allianceTag : string) : Z :=
  fold_left (fun hash c => (hash * 31 + Z.of_nat (nat_of_ascii c)) mod 360)
            (list_ascii_of_string allianceTag) 0.

Definition colorFromAllianceTag (allianceTag : string) : string :=
  let hue := HexMathFloat.float_of_Z (tagHash allianceTag) in
  let saturation := 68%float in
  let lightness := 56%float in
  let '(cr, cg, cb) :=
    hslToRgb (hue / 360)%float (saturation / 100)%float (lightness / 100)%float in
  "#" ++ JS.toUpperCase (hexByte cr ++ hexByte cg ++ hexByte cb).

Fixpoint syncAllianceTagLoop (members : list string)
         (allianceTag allianceColor : option string) : Async unit :=
  match members with
  | [] => mret tt
  | member :: rest =>
      match parseMember member with
      | None => syncAllianceTagLoop rest allianceTag allianceColor
      | Some coordinate =>
          hSet_tile (tileKey (q coordinate) (r coordinate))
            {| TileHash.ownerId := None;
               TileHash.ownerAllianceTag := Some (default "" allianceTag);
               TileHash.ownerAllianceColor := Some (default "" allianceColor);
               TileHash.energy := None;
               TileHash.lastUpdate := None;
               TileHash.integrity := None;
               TileHash.level := None;
               TileHash.tileType := None |};;
          syncAllianceTagLoop rest allianceTag allianceColor
      end
  end.

Definition syncAllianceTagToOwnedTiles (userId : string)
           (allianceTag allianceColor : option string) : Async unit :=
  members ← sMembers (ownerTileKey userId);
  syncAllianceTagLoop members allianceTag allianceColor.

Definition setAllianceTag (userId : string) (allianceTag : option string)
  : Async Profile.t :=
  normalizedUserId ← normalizeUserId userId;
  state ← getOrCreatePlayerState normalizedUserId;
  normalizedTag ← normalizeAllianceTag allianceTag;
  let allianceColor :=
    match normalizedTag with
    | Some tag => if truthy normalizedTag then Some (colorFromAllianceTag tag) else None
    | None => None
    end in
  let now := clock in
  let nextState :=
    {| PlayerState.userId := PlayerState.userId state;
       PlayerState.displayName := PlayerState.displayName state;
       PlayerState.allianceTag := normalizedTag;
       PlayerState.allianceColor := allianceColor;
       PlayerState.energy := PlayerState.energy state;
       PlayerState.lastUpdate := inject_Z now |} in
  persistPlayerState nextState;;
  syncAllianceTagToOwnedTiles normalizedUserId normalizedTag allianceColor;;
  mret {| Profile.userId := normalizedUserId;
          Profile.displayName := PlayerState.displayName nextState;
          Profile.allianceTag := PlayerState.allianceTag nextState;
          Profile.allianceColor := PlayerState.allianceColor nextState |}.

(** *** The recharge tick *)

Definition sameTileState (a b : TileState.t) : bool :=
  (TileState.q a =? TileState.q b)
  && (TileState.r a =? TileState.r b)
  && same_string (TileState.ownerId a) (TileState.ownerId b)
  && same_string (TileState.ownerAllianceTag a) (TileState.ownerAllianceTag b)
  && same_string (TileState.ownerAllianceColor a) (TileState.ownerAllianceColor b)
  && Qeq_bool (TileState.energy a) (TileState.energy b)
  && (TileState.lastUpdate a =? TileState.lastUpdate b)
  && Qeq_bool (TileState.integrity a) (TileState.integrity b)
  && Qeq_bool (TileState.level a) (TileState.level b)
  && TileType_eqb (TileState.tileType a) (TileState.tileType b).

(** [{ tile, playerEnergyGenerated }]. *)
Definition evolveTileState (tile : TileState.t) (now generationMultiplier : Q)
  : TileState.t * Q :=
  let elapsedMs := Qmax 0 (now - inject_Z (TileState.lastUpdate tile)) in
  if Qeq_bool elapsedMs 0 then (tile, 0%Q)
  else
    let elapsedSeconds := (elapsedMs / 1000)%Q in
    let elapsedMinutes := (elapsedSeconds / 60)%Q in
    let integrityLoss :=
      (elapsedMinutes * Options.integrityDecayPerMinute options)%Q in
    let nextIntegrity :=
      JS.clamp (JS.toFixedPrecision (TileState.integrity tile - integrityLoss)) 0 100 in
    let activeSeconds :=
      if JS.Qltb 0 (TileState.integrity tile) then
        if Qle_bool (Options.integrityDecayPerMinute options) 0 then elapsedSeconds
        else
          let secondsUntilZero :=
            (TileState.integrity tile / Options.integrityDecayPerMinute options * 60)%Q in
          Qmin elapsedSeconds (Qmax 0 secondsUntilZero)
      else 0%Q in
    let generatedEnergy :=
      (activeSeconds * Options.energyRechargePerSecond options * generationMultiplier)%Q in
    let nextTileEnergy :=
      JS.clamp (JS.toFixedPrecision (TileState.energy tile + generatedEnergy))
               0 (Options.maxEnergy options) in
    ({| TileState.q := TileState.q tile;
        TileState.r := TileState.r tile;
        TileState.ownerId := TileState.ownerId tile;
        TileState.ownerAllianceTag := TileState.ownerAllianceTag tile;
        TileState.ownerAllianceColor := TileState.ownerAllianceColor tile;
        TileState.energy := nextTileEnergy;
        TileState.lastUpdate := JS.Math_floor now;
        TileState.integrity := nextIntegrity;
        TileState.level := TileState.level tile;
        TileState.tileType := TileState.tileType tile |},
     generatedEnergy).

(** The local maps and the counter of one [rechargeEnergy] call.
    [ownerEnergyGains] keeps the insertion order of the JavaScript [Map]. *)
Record Sweep := mkSweep {
  tileCache : gmap (Z * Z) (option TileState.t);
  profileCache : gmap string Profile.t;
  ownerEnergyGains : list (string * Q);
  updatedTiles : Z;
}.

Definition emptySweep : Sweep := mkSweep ∅ ∅ [] 0.

Definition cacheTile (key : Z * Z) (tile : option TileState.t) (sw : Sweep) : Sweep :=
  mkSweep (<[key := tile]> (tileCache sw)) (profileCache sw)
          (ownerEnergyGains sw) (updatedTiles sw).

Definition cacheProfile (userId : string) (profile : Profile.t) (sw : Sweep) : Sweep :=
  mkSweep (tileCache sw) (<[userId := profile]> (profileCache sw))
          (ownerEnergyGains sw) (updatedTiles sw).

(** [ownerEnergyGains.get(ownerId) ?? 0]. *)
Fixpoint gainOf (ownerId : string) (gains : list (string * Q)) : Q :=
  match gains with
  | [] => 0%Q
  | (owner, gain) :: rest =>
      if String.eqb owner ownerId then gain else gainOf ownerId rest
  end.

(** [ownerEnergyGains.set(ownerId, value)]. *)
Fixpoint setGain (ownerId : string) (value : Q) (gains : list (string * Q))
  : list (string * Q) :=
  match gains with
  | [] => [(ownerId, value)]
  | (owner, gain) :: rest =>
      if String.eqb owner ownerId then (owner, value) :: rest
      else (owner, gain) :: setGain ownerId value rest
  end.

Definition loadTileCached (tq tr : Z) (sw : Sweep)
  : Async (option TileState.t * Sweep) :=
  let key := tileKey tq tr in
  match tileCache sw !! key with
  | Some cached => mret (cached, sw)
  | None =>
      hash ← hGetAll_tile key;
      let parsed := parseTile tq tr hash in
      mret (parsed, cacheTile key parsed sw)
  end.

Definition loadProfileCached (userId : string) (sw : Sweep)
  : Async (Profile.t * Sweep) :=
  match profileCache sw !! userId with
  | Some cached => mret (cached, sw)
  | None =>
      profile ← getPlayerProfile userId;
      mret (profile, cacheProfile userId profile sw)
  end.

(** The [for (const neighbor of neighbors)] loop of
    [getAllianceBonusMultiplier]. *)
Fixpoint allianceNeighborLoop (tile : TileState.t) (ownerProfile : Profile.t)
         (neighbors : list HexTile) (sw : Sweep) : Async (Q * Sweep) :=
  match neighbors with
  | [] => mret (1%Q, sw)
  | neighbor :: rest =>
      loaded ← loadTileCached (q neighbor) (r neighbor) sw;
      let '(neighborTile, sw1) := loaded in
      if negb (truthy (ownerOf neighborTile))
         || same_string (ownerOf neighborTile) (TileState.ownerId tile)
      then allianceNeighborLoop tile ownerProfile rest sw1
      else
        fetched ← loadProfileCached (default "" (ownerOf neighborTile)) sw1;
        let '(neighborProfile, sw2) := fetched in
        if same_string (Profile.allianceTag neighborProfile)
                       (Profile.allianceTag ownerProfile)
        then mret (Options.allianceNeighborBonusMultiplier options, sw2)
        else allianceNeighborLoop tile ownerProfile rest sw2
  end.

Definition getAllianceBonusMultiplier (tile : TileState.t) (sw : Sweep)
  : Async (Q * Sweep) :=
  if negb (truthy (TileState.ownerId tile)) then mret (1%Q, sw)
  else
    fetched ← loadProfileCached (default "" (TileState.ownerId tile)) sw;
    let '(ownerProfile, sw1) := fetched in
    if negb (truthy (Profile.allianceTag ownerProfile)) then mret (1%Q, sw1)
    else
      allianceNeighborLoop tile ownerProfile
        (HexMath.get_neighbors (TileState.q tile) (TileState.r tile)) sw1.

(** Lines 732-735: the energy a tile generated is added to its owner's
    entry of [ownerEnergyGains]. *)
Definition noteGain (tile : TileState.t) (playerEnergyGenerated : Q) (sw : Sweep) : Sweep :=
  if truthy (TileState.ownerId tile) && JS.Qltb 0 playerEnergyGenerated then
    let ownerId := default "" (TileState.ownerId tile) in
    let previous := gainOf ownerId (ownerEnergyGains sw) in
    mkSweep (tileCache sw) (profileCache sw)
            (setGain ownerId (previous + playerEnergyGenerated)%Q (ownerEnergyGains sw))
            (updatedTiles sw)
  else sw.

(** The body of the [for (const member of members)] loop. *)
Definition rechargeMember (now : Q) (sw : Sweep) (member : string) : Async Sweep :=
  match parseMember member with
  | None => mret sw
  | Some coordinate =>
      let key := tileKey (q coordinate) (r coordinate) in
      hash ← hGetAll_tile key;
      let parsed := parseTile (q coordinate) (r coordinate) hash in
      let sw0 := cacheTile key parsed sw in
      match parsed with
      | None => mret sw0
      | Some tile =>
          bonus ← getAllianceBonusMultiplier tile sw0;
          let '(allianceMultiplier, sw1) := bonus in
          let evolved := evolveTileState tile now allianceMultiplier in
          sw2 ← (if negb (sameTileState tile (fst evolved)) then
                   persistTileState key (fst evolved);;
                   mret (mkSweep (<[key := Some (fst evolved)]> (tileCache sw1))
                                 (profileCache sw1) (ownerEnergyGains sw1)
                                 (updatedTiles sw1 + 1))
                 else mret sw1);
          mret (noteGain tile (snd evolved) sw2)
      end
  end.

Fixpoint rechargeMembers (now : Q) (members : list string) (sw : Sweep)
  : Async Sweep :=
  match members with
  | [] => mret sw
  | member :: rest =>
      sw' ← rechargeMember now sw member;
      rechargeMembers now rest sw'
  end.

(** [scanTileIndex] with the sweep's callback: every member of
    [tiles:index] is visited once. *)
Definition rechargeSweep (now : Q) : Async Sweep :=
  members ← sMembers TILE_INDEX_KEY;
  rechargeMembers now members emptySweep.

Fixpoint creditOwners (gains : list (string * Q)) (now : Q) : Async unit :=
  match gains with
  | [] => mret tt
  | (ownerId, energyGain) :: rest =>
      addPlayerEnergy ownerId energyGain now;;
      creditOwners rest now
  end.

Definition rechargeEnergy (now : Q) : Async Z :=
  sw ← rechargeSweep now;
  creditOwners (ownerEnergyGains sw) now;;
  mret (updatedTiles sw).

End TileManager.

(** ** TileManager.ts: repair, range queries, leaderboard and snapshots *)

(** The entries of [TileManagerOptions] that only the queries and the
    snapshot read. *)
Module Limits.
Record t := mk {
  maxLeaderboardEntries : Q;
  maxRadarNexusPoints : Q;
  maxRadarBasePoints : Q;
  maxRadarHotspots : Q;
  snapshotBatchSize : Q;
}.
End Limits.


(** The array and [Set] operations these methods use. *)
Module JSArray.

(** [array.sort(compare)]: [compare] answers with a number whose sign
    orders its two arguments, and the sort is stable. *)
Fixpoint insert {A} (compare : A -> A -> Z) (item : A) (sorted : list A) : list A :=
  match sorted with
  | [] => [item]
  | head :: rest =>
      if compare item head <=? 0 then item :: head :: rest
      else head :: insert compare item rest
  end.

Fixpoint sort {A} (compare : A -> A -> Z) (items : list A) : list A :=
  match items with
  | [] => []
  | item :: rest => insert compare item (sort compare rest)
  end.




End JSArray.

Inductive RepairFailureReason := tile_not_found | not_owner | insufficient_energy.

Inductive RepairTileResult :=
| RepairTileSuccess (tile : TileState.t) (energyAfter energyCost : Q)
| RepairTileFailure (reason : RepairFailureReason) (message : string)
    (tile : option TileState.t) (requiredEnergy : option Q) (playerEnergy : Q).

Record LeaderboardEntry := mkLeaderboardEntry {
  entry_userId : string;
  entry_displayName : string;
  entry_allianceTag : option string;
  entry_allianceColor : option string;
  entry_score : Z;
}.

(** The order of [ZRANGE ... REV]: the higher score first, and of two
    members with the same score the lexicographically greater first. *)
Definition rankCompare (a b : string * Z) : Z :=
  if snd a =? snd b then
    match String.compare (fst b) (fst a) with
    | Lt => -1
    | Eq => 0
    | Gt => 1
    end
  else snd b - snd a.

(** [zRangeWithScores(LEADERBOARD_TILES_KEY, start, stop, { REV: true })];
    negative ranks count from the end. *)
Definition zRangeWithScores_REV (start stop : Z) : Async (list (string * Z)) :=
  fun s =>
    let ranked := JSArray.sort rankCompare (map_to_list (Redis.leaderboardTiles s)) in
    let len := Z.of_nat (length ranked) in
    let first := if start <? 0 then Z.max (len + start) 0 else start in
    let last := if stop <? 0 then len + stop else Z.min stop (len - 1) in
    (Returned (take (Z.to_nat (last - first + 1)) (drop (Z.to_nat first) ranked)), s).



(** [Promise.all(coordinates.map((c) => this.redis.hGetAll(this.tileKey(c.q, c.r))))]. *)
Fixpoint hGetAllTiles (coordinates : list HexTile) : Async (list TileHash.t) :=
  match coordinates with
  | [] => mret []
  | coordinate :: rest =>
      hash ← hGetAll_tile (tileKey (q coordinate) (r coordinate));
      hashes ← hGetAllTiles rest;
      mret (hash :: hashes)
  end.



(** The state of the loop of [flushSnapshotToPostgres]: the pending
    [batch], the [persisted] count and the [upsertTiles] calls made. *)
Record Flush := mkFlush {
  flush_batch : list TileState.t;
  flush_persisted : Z;
  flush_upserts : list (list TileState.t);
}.

Section TileManagerQueries.

Variable options : Options.t.
Variable limits : Limits.t.
Variable clock : Z.

Definition repairTile (userId : string) (tq tr : Z) : Async RepairTileResult :=
  normalizedUserId ← normalizeUserId userId;
  validateCoordinates tq tr;;
  let now := clock in
  let key := tileKey tq tr in
  loaded ← loadTile options tq tr;
  match loaded with
  | None =>
      playerEnergy ← getPlayerEnergy options clock normalizedUserId;
      mret (RepairTileFailure tile_not_found "tile not found" None None playerEnergy)
  | Some tile =>
      if negb (same_string (TileState.ownerId tile) (Some normalizedUserId)) then
        playerEnergy ← getPlayerEnergy options clock normalizedUserId;
        mret (RepairTileFailure not_owner "only the owner can repair this tile"
                (Some tile) None playerEnergy)
      else
        spendAttempt ← spendPlayerEnergy options clock normalizedUserId
                         (Options.repairCostEnergy options) (inject_Z now);
        if negb (spend_ok spendAttempt) then
          mret (RepairTileFailure insufficient_energy
                  "insufficient energy to repair tile" (Some tile)
                  (Some (Options.repairCostEnergy options))
                  (spend_energyAfter spendAttempt))
        else
          let repairedTile :=
            {| TileState.q := TileState.q tile;
               TileState.r := TileState.r tile;
               TileState.ownerId := TileState.ownerId tile;
               TileState.ownerAllianceTag := TileState.ownerAllianceTag tile;
               TileState.ownerAllianceColor := TileState.ownerAllianceColor tile;
               TileState.energy := TileState.energy tile;
               TileState.lastUpdate := now;
               TileState.integrity :=
                 JS.clamp (JS.toFixedPrecision
                             (TileState.integrity tile
                              + Options.repairIntegrityGain options)) 0 100;
               TileState.level := TileState.level tile;
               TileState.tileType := TileState.tileType tile |} in
          persistTileState key repairedTile;;
          recordChunkActivity options tq tr 2;;
          mret (RepairTileSuccess repairedTile (spend_energyAfter spendAttempt)
                  (Options.repairCostEnergy options))
  end.

(** The loop of [getLeaderboard] over the ranked entries. *)
Fixpoint leaderboardLoop (rankedEntries : list (string * Z))
  : Async (list LeaderboardEntry) :=
  match rankedEntries with
  | [] => mret []
  | (userId, rawScore) :: rest =>
      if String.eqb (JS.trim userId) "" then leaderboardLoop rest
      else
        let score := Z.max 0 rawScore in
        if score <=? 0 then leaderboardLoop rest
        else
          profile ← getPlayerProfile options clock userId;
          later ← leaderboardLoop rest;
          mret (mkLeaderboardEntry userId (Profile.displayName profile)
                  (Profile.allianceTag profile) (Profile.allianceColor profile)
                  score :: later)
  end.

(** [getLeaderboard(limit = this.options.maxLeaderboardEntries)]:
    [limitArg = None] is the call without an argument. *)
Definition getLeaderboard (limitArg : option Q) : Async (list LeaderboardEntry) :=
  let limit := default (Limits.maxLeaderboardEntries limits) limitArg in
  let normalizedLimit := JS.clamp (inject_Z (JS.Math_floor limit)) 1 100 in
  rankedEntries ← zRangeWithScores_REV 0 (JS.Math_floor normalizedLimit - 1);
  leaderboardLoop rankedEntries.


(** The loop that pairs [coordinates[index]] with [hashes[index]] and keeps
    the tiles [parseTile] reads. *)
Definition parsedTiles (coordinates : list HexTile) (hashes : list TileHash.t)
  : list TileState.t :=
  omap (fun pair => parseTile options (q (fst pair)) (r (fst pair)) (snd pair))
       (combine coordinates hashes).


Definition loadTilesForMembers (members : list string) : Async (list TileState.t) :=
  let coordinates := omap parseMember members in
  hashes ← hGetAllTiles coordinates;
  mret (parsedTiles coordinates hashes).

(** The [for (const tile of tiles)] loop of the scan callback. *)
Fixpoint flushTiles (tiles : list TileState.t) (state : Flush) : Flush :=
  match tiles with
  | [] => state
  | tile :: rest =>
      let batch := (flush_batch state ++ [tile])%list in
      if Qle_bool (Limits.snapshotBatchSize limits) (inject_Z (Z.of_nat (length batch)))
      then flushTiles rest
             (mkFlush [] (flush_persisted state + Z.of_nat (length batch))
                      (flush_upserts state ++ [batch])%list)
      else flushTiles rest
             (mkFlush batch (flush_persisted state) (flush_upserts state))
  end.

(** [flushSnapshotToPostgres]: [hasRepository] tells whether a snapshot
    repository was configured; the result pairs the returned count with
    the batches handed to [upsertTiles], in call order.  The index is
    scanned as by [rechargeSweep]. *)
Definition flushSnapshotToPostgres (hasRepository : bool)
  : Async (Z * list (list TileState.t)) :=
  if negb hasRepository then mret (0, [])
  else
    members ← sMembers TILE_INDEX_KEY;
    tiles ← loadTilesForMembers members;
    let state := flushTiles tiles (mkFlush [] 0 []) in
    if (0 <? length (flush_batch state))%nat then
      mret (flush_persisted state + Z.of_nat (length (flush_batch state)),
            (flush_upserts state ++ [flush_batch state])%list)
    else mret (flush_persisted state, flush_upserts state).

End TileManagerQueries.

(** ** TileManager.ts: the radar summary *)





(** What [parsePoiMember] returns. *)
Record PoiPoint := mkPoiPoint {
  poi_q : Z;
  poi_r : Z;
  poi_tileType : TileType;
  poi_level : Z;
}.




(** [parsePoiMember]: the level is [Number(parts[3] ?? 1)] brought to an
    integer of at least 1; a fourth part that [JS.Number_integer] does not
    read counts as not finite, which gives level 1. *)
Definition parsePoiMember (member : string) : option PoiPoint :=
  match JS.split_colon member with
  | part0 :: part1 :: part2 :: rest =>
      let tileType := if String.eqb part0 "nexus" then nexus else normal in
      let level :=
        match rest with
        | part3 :: _ =>
            match JS.Number_integer part3 with
            | Some value => Z.max 1 value
            | None => 1
            end
        | [] => 1
        end in
      match JS.Number_integer part1, JS.Number_integer part2 with
      | Some pq, Some pr => Some (mkPoiPoint pq pr tileType level)
      | _, _ => None
      end
  | _ => None
  end.

Section TileManagerRadar.

Variable options : Options.t.
Variable limits : Limits.t.






End TileManagerRadar.

(** ** socketHandler.ts: the chunk rooms of a view *)





(** ** Vocabulary of the statements *)

(** The call returned a profile carrying this alliance tag and colour. *)
Definition accepted (outcome : Outcome Profile.t)
           (allianceTag allianceColor : option string) : Prop :=
  exists profile,
    outcome = Returned profile
    /\ Profile.allianceTag profile = allianceTag
    /\ Profile.allianceColor profile = allianceColor.

(** The alliance fields of the player's hash hold these texts. *)
Definition storedAlliance (s : Redis.t) (userId : string)
           (allianceTag allianceColor : string) : Prop :=
  exists hash,
    Redis.playerHashes s !! userId = Some hash
    /\ PlayerHash.allianceTag hash = Some allianceTag
    /\ PlayerHash.allianceColor hash = Some allianceColor.

(** The integers from [- bound] to [bound]. *)
Definition window (bound : Z) : list Z :=
  map (fun i => Z.of_nat i - bound) (seq 0 (Z.to_nat (2 * bound + 1))).

(** Every coordinate pair of the window survives the pixel round trip at
    this hex size. *)
Definition round_trips_in_window (bound : Z) (size : float) : bool :=
  forallb (fun hq =>
    forallb (fun hr =>
      HexMathFloat.round_trip_ok
        (HexMathFloat.float_of_Z hq) (HexMathFloat.float_of_Z hr) size)
      (window bound))
    (window bound).

(** What [loadTile(q, r)] reads from a store. *)
Definition currentTileAt (options : Options.t) (s : Redis.t) (tq tr : Z)
  : option TileState.t :=
  parseTile options tq tr (default TileHash.empty (Redis.tileHashes s !! tileKey tq tr)).

(** [currentTile && currentTile.ownerId === user]. *)
Definition ownedBy (currentTile : option TileState.t) (user : string) : bool :=
  match currentTile with
  | Some tile => same_string (TileState.ownerId tile) (Some user)
  | None => false
  end.

(** The call went past the range gate: it ended in the spend gate's
    refusal or in a committed claim. *)
Definition proceeds (res : ClaimTileResult) : Prop :=
  match res with
  | ClaimTileSuccess _ _ _ _ _ => True
  | ClaimTileInsufficientEnergy _ _ _ => True
  | _ => False
  end.

(** [nearest] is the least hex distance from [target] to a member of
    [owned] that [parseMember] can read, [None] when it can read none. *)
Definition isNearest (target : HexTile) (owned : gset string) (nearest : option Z)
  : Prop :=
  match nearest with
  | None => forall member, member ∈ owned -> parseMember member = None
  | Some distance =>
      (exists member coordinate,
          member ∈ owned /\ parseMember member = Some coordinate
          /\ HexMath.hex_distance target coordinate = distance)
      /\ (forall member coordinate,
             member ∈ owned -> parseMember member = Some coordinate ->
             distance <= HexMath.hex_distance target coordinate)
  end.

(** The two tiles have safe integers for coordinates and lie at most 2^52
    apart: no difference of coordinates and no partial sum of
    [|dq| + |dr| + |dq + dr|] exceeds 2^53, so every step of [hex_distance]
    is exact in binary64 and the number returned is the hex distance. *)
Definition exactlyApart (a b : HexTile) : Prop :=
  Z.abs (q a) <= 2 ^ 53 /\ Z.abs (r a) <= 2 ^ 53
  /\ Z.abs (q b) <= 2 ^ 53 /\ Z.abs (r b) <= 2 ^ 53
  /\ HexMath.hex_distance a b <= 2 ^ 52.

(** Two stores that differ at most in the player hashes. *)
Definition sameWorld (s s' : Redis.t) : Prop :=
  Redis.tileHashes s' = Redis.tileHashes s
  /\ Redis.chunkActivity s' = Redis.chunkActivity s
  /\ Redis.leaderboardTiles s' = Redis.leaderboardTiles s
  /\ Redis.tileIndex s' = Redis.tileIndex s
  /\ Redis.poiIndex s' = Redis.poiIndex s
  /\ Redis.chunkTiles s' = Redis.chunkTiles s
  /\ Redis.ownerTiles s' = Redis.ownerTiles s.

(** A user id as [normalizeUserId] returns it. *)
Definition normalized (user : string) : Prop :=
  JS.trim user = user /\ String.eqb user "" = false.

(** How the running minimum [acc] and the members still to visit determine
    the value the loop ends with. *)
Definition leastOf (target : HexTile) (acc : option Z) (members : list string) (nearest : option Z) : Prop :=
  match nearest with
  | None => acc = None /\ forall member, In member members -> parseMember member = None
  | Some distance =>
      (acc = Some distance
       \/ exists member coordinate,
            In member members /\ parseMember member = Some coordinate
            /\ HexMath.hex_distance target coordinate = distance)
      /\ (forall best, acc = Some best -> distance <= best)
      /\ (forall member coordinate,
             In member members -> parseMember member = Some coordinate ->
             distance <= HexMath.hex_distance target coordinate)
  end.

(** A number with at most four decimals, as every number the engine
    writes. *)
Definition onGrid (x : Q) : Prop := exists k : Z, (x == inject_Z k / 10000)%Q.


(** "The tile currently exists and is owned by a different player". *)
Definition heldByOther (currentTile : option TileState.t) (user : string)
           (tile : TileState.t) : Prop :=
  currentTile = Some tile
  /\ exists owner, TileState.ownerId tile = Some owner /\ owner <> user.


(** The cost of taking the tile from its holder is a product binary64
    computes exactly: the multiplier is a whole number and the product does
    not exceed 2^53. *)
Definition exactHostileCost (options : Options.t) (currentTile : option TileState.t)
           (user : string) : Prop :=
  forall tile,
    heldByOther currentTile user tile ->
    (exists m : Z, Options.hostileClaimCostMultiplier options = inject_Z m)
    /\ (TileState.level tile * Options.hostileClaimCostMultiplier options
        <= inject_Z (2 ^ 53))%Q.

(** The call succeeded and reports a capture. *)
Definition captured (outcome : Outcome ClaimTileResult) : bool :=
  match outcome with
  | Returned (ClaimTileSuccess _ captured _ _ _) => captured
  | _ => false
  end.

(** The tile a successful call returns. *)
Definition claimedTile (outcome : Outcome ClaimTileResult) : option TileState.t :=
  match outcome with
  | Returned (ClaimTileSuccess _ _ tile _ _) => Some tile
  | _ => None
  end.

(** An owner id that [normalizeUserId] accepts, or no owner. *)
Definition readableOwner (owner : option string) : Prop :=
  match owner with
  | Some id => String.eqb (JS.trim id) "" = false
  | None => True
  end.

(** Every tile and every owner a sweep has noted has a readable owner id. *)
Definition sweepReadable (sw : Sweep) : Prop :=
  (forall key tile, tileCache sw !! key = Some (Some tile) ->
     readableOwner (TileState.ownerId tile))
  /\ (forall owner gain, In (owner, gain) (ownerEnergyGains sw) ->
        String.eqb (JS.trim owner) "" = false).

(** [s'] is [s] with, at most, hashes added for players that had none. *)
Definition playersGrow (s s' : Redis.t) : Prop :=
  sameWorld s s'
  /\ forall user hash,
       Redis.playerHashes s !! user = Some hash ->
       PlayerHash.hasValues hash = true ->
       Redis.playerHashes s' !! user = Some hash.

(** What the cached loaders and the bonus computation of a sweep do: they
    return, note things in the caches, and create hashes for unseen
    players; gains and counter are left alone. *)
Definition looksUp {A} (sw : Sweep) (s : Redis.t)
           (run : Outcome (A * Sweep) * Redis.t) (good : A -> Prop) : Prop :=
  exists a sw' s',
    run = (Returned (a, sw'), s')
    /\ good a
    /\ playersGrow s s'
    /\ sweepReadable sw'
    /\ ownerEnergyGains sw' = ownerEnergyGains sw
    /\ updatedTiles sw' = updatedTiles sw.

(** [s'] is [s] up to the tile hashes and hashes added for players that
    had none: indices, leaderboard and chunk activity are the same. *)
Definition tilesAside (s s' : Redis.t) : Prop :=
  Redis.chunkActivity s' = Redis.chunkActivity s
  /\ Redis.leaderboardTiles s' = Redis.leaderboardTiles s
  /\ Redis.tileIndex s' = Redis.tileIndex s
  /\ Redis.poiIndex s' = Redis.poiIndex s
  /\ Redis.chunkTiles s' = Redis.chunkTiles s
  /\ Redis.ownerTiles s' = Redis.ownerTiles s
  /\ forall user hash,
       Redis.playerHashes s !! user = Some hash ->
       PlayerHash.hasValues hash = true ->
       Redis.playerHashes s' !! user = Some hash.

(** The tile stored at [key], if there is one, was last updated at [now] or
    later: a tick at [now] finds no time elapsed for it. *)
Definition settledAt (options : Options.t) (now : Q) (s : Redis.t) (key : Z * Z)
  : Prop :=
  forall tile,
    currentTileAt options s (fst key) (snd key) = Some tile ->
    (now <= inject_Z (TileState.lastUpdate tile))%Q.

(** A time in whole milliseconds, as [Date.now()] returns it. *)
Definition wholeMs (now : Q) : Prop := (inject_Z (JS.Math_floor now) == now)%Q.

(** The energy field of a player's hash. *)
Definition storedEnergy (s : Redis.t) (userId : string) : option Q :=
  hash ← Redis.playerHashes s !! userId; PlayerHash.energy hash.

(** The energy field of a tile's hash. *)
Definition storedTileEnergy (s : Redis.t) (key : Z * Z) : option Q :=
  hash ← Redis.tileHashes s !! key; TileHash.energy hash.

(** The text holds no [":"]. *)
Fixpoint colonFree (s : string) : bool :=
  match s with
  | EmptyString => true
  | String c rest => negb (Ascii.eqb c ":") && colonFree rest
  end.

(** One [claimTile] call of a history: who claims which tile, and what
    [Date.now()] shows during the call. *)
Record ClaimCall := mkClaimCall {
  call_user : string;
  call_q : Z;
  call_r : Z;
  call_clock : Z;
}.

(** The store after a history of [claimTile] calls, each awaited before the
    next is made; a call that throws leaves the store as it was when it
    threw. *)
Fixpoint afterClaims (options : Options.t) (calls : list ClaimCall) (s : Redis.t)
  : Redis.t :=
  match calls with
  | [] => s
  | call :: rest =>
      afterClaims options rest
        (exec (claimTile options (call_clock call) (call_user call)
                 (call_q call) (call_r call)) s)
  end.

(** The owner sets, the tiles and the leaderboard are in step: a member of
    [owner:p:tiles] is the coordinate of a tile that [p] holds, every tile
    that [p] holds is in [owner:p:tiles], and the score of [p] is the
    number of members of [owner:p:tiles]. *)
Definition ownersTracked (options : Options.t) (s : Redis.t) : Prop :=
  (forall p member,
      member ∈ Redis.members (ownerTileKey p) s ->
      exists tq tr tile,
        member = coordMember tq tr
        /\ currentTileAt options s tq tr = Some tile
        /\ TileState.ownerId tile = Some p)
  /\ (forall tq tr tile p,
         currentTileAt options s tq tr = Some tile ->
         TileState.ownerId tile = Some p ->
         coordMember tq tr ∈ Redis.members (ownerTileKey p) s)
  /\ (forall p,
         Redis.score p s = Z.of_nat (size (Redis.members (ownerTileKey p) s))).

(** [s'] holds the same tiles for the same players as [s]: the owner sets,
    the leaderboard and the owner of the tile at every coordinate are the
    same. *)
Definition ownersKept (options : Options.t) (s s' : Redis.t) : Prop :=
  Redis.ownerTiles s' = Redis.ownerTiles s
  /\ Redis.leaderboardTiles s' = Redis.leaderboardTiles s
  /\ forall tq tr,
       ownerOf (currentTileAt options s' tq tr) = ownerOf (currentTileAt options s tq tr).

(** A call of one of the methods that write to the store. *)
Inductive Call :=
| CallClaimTile (userId : string) (tq tr : Z)
| CallRepairTile (userId : string) (tq tr : Z)
| CallRegisterNexus (tq tr : Z) (level : option Q)
| CallSetAllianceTag (userId : string) (allianceTag : option string)
| CallRechargeEnergy (now : Q).

(** The store a call leaves, [clock] being what [Date.now()] shows during
    the call. *)
Definition afterCall (options : Options.t) (clock : Z) (call : Call) (s : Redis.t)
  : Redis.t :=
  match call with
  | CallClaimTile userId tq tr => exec (claimTile options clock userId tq tr) s
  | CallRepairTile userId tq tr => exec (repairTile options clock userId tq tr) s
  | CallRegisterNexus tq tr level => exec (registerNexus options clock tq tr level) s
  | CallSetAllianceTag userId allianceTag =>
      exec (setAllianceTag options clock userId allianceTag) s
  | CallRechargeEnergy now => exec (rechargeEnergy options clock now) s
  end.

(** The store after a history of calls, each paired with the time it was
    made at and awaited before the next. *)
Fixpoint afterCalls (options : Options.t) (calls : list (Z * Call)) (s : Redis.t)
  : Redis.t :=
  match calls with
  | [] => s
  | (clock, call) :: rest => afterCalls options rest (afterCall options clock call s)
  end.

(** The leaderboard and the four families of sets are the same in [s']
    as in [s]. *)
Definition sameSets (s s' : Redis.t) : Prop :=
  Redis.leaderboardTiles s' = Redis.leaderboardTiles s
  /\ Redis.tileIndex s' = Redis.tileIndex s
  /\ Redis.poiIndex s' = Redis.poiIndex s
  /\ Redis.chunkTiles s' = Redis.chunkTiles s
  /\ Redis.ownerTiles s' = Redis.ownerTiles s.

(** The field of [chunk:activity] that counts the chunk of a tile. *)
Definition chunkField (options : Options.t) (tq tr : Z) : string :=
  JS.String_of_int (toChunkIndex options tq) ++ ":"
  ++ JS.String_of_int (toChunkIndex options tr).

(** The tile a successful [repairTile] writes: the integrity raised by
    [repairIntegrityGain], capped at 100, and the time of the call. *)
Definition repairedTile (options : Options.t) (clock : Z) (tile : TileState.t)
  : TileState.t :=
  {| TileState.q := TileState.q tile;
     TileState.r := TileState.r tile;
     TileState.ownerId := TileState.ownerId tile;
     TileState.ownerAllianceTag := TileState.ownerAllianceTag tile;
     TileState.ownerAllianceColor := TileState.ownerAllianceColor tile;
     TileState.energy := TileState.energy tile;
     TileState.lastUpdate := clock;
     TileState.integrity :=
       JS.clamp (JS.toFixedPrecision
                   (TileState.integrity tile + Options.repairIntegrityGain options))
                0 100;
     TileState.level := TileState.level tile;
     TileState.tileType := TileState.tileType tile |}.

(** How a [repairTile] call by [user] on [(tq, tr)] ends, by what the
    store holds at the coordinate and by what [spendPlayerEnergy] answers. *)
Definition repairOutcome (options : Options.t) (clock : Z) (s : Redis.t)
           (user : string) (tq tr : Z)
           (outcome : Outcome RepairTileResult) (final : Redis.t) : Prop :=
  match currentTileAt options s tq tr with
  | None =>
      exists energy,
        outcome = Returned (RepairTileFailure tile_not_found "tile not found"
                              None None energy)
        /\ sameWorld s final
  | Some tile =>
      if same_string (TileState.ownerId tile) (Some user) then
        exists attempt afterSpend,
          spendPlayerEnergy options clock user (Options.repairCostEnergy options)
            (inject_Z clock) s = (Returned attempt, afterSpend)
          /\ if spend_ok attempt then
               outcome = Returned (RepairTileSuccess (repairedTile options clock tile)
                                     (spend_energyAfter attempt)
                                     (Options.repairCostEnergy options))
               /\ Redis.tileHashes final
                  = <[(tq, tr) := tileHashFields (repairedTile options clock tile)]>
                      (Redis.tileHashes s)
               /\ Redis.playerHashes final = Redis.playerHashes afterSpend
               /\ sameSets s final
               /\ Redis.chunkActivity final
                  = <[chunkField options tq tr :=
                        default 0 (Redis.chunkActivity s !! chunkField options tq tr) + 2]>
                      (Redis.chunkActivity s)
             else
               outcome = Returned (RepairTileFailure insufficient_energy
                                     "insufficient energy to repair tile" (Some tile)
                                     (Some (Options.repairCostEnergy options))
                                     (spend_energyAfter attempt))
               /\ final = afterSpend
      else
        exists energy,
          outcome = Returned (RepairTileFailure not_owner
                                "only the owner can repair this tile"
                                (Some tile) None energy)
          /\ sameWorld s final
  end.

(** [s'] stores tiles at the coordinates [s] does, under the same index
    and chunk sets. *)
Definition tilesKept (options : Options.t) (s s' : Redis.t) : Prop :=
  Redis.tileIndex s' = Redis.tileIndex s
  /\ Redis.chunkTiles s' = Redis.chunkTiles s
  /\ forall tq tr,
       is_Some (currentTileAt options s' tq tr) <-> is_Some (currentTileAt options s tq tr).

(** The index sets name the stored tiles: a member of [tiles:index] or of
    a chunk set is the coordinate of a stored tile (of that chunk), and
    every stored tile is listed in [tiles:index] and in the set of its
    chunk. *)
Definition tilesIndexed (options : Options.t) (s : Redis.t) : Prop :=
  (forall member,
      member ∈ Redis.tileIndex s ->
      exists tq tr, member = coordMember tq tr /\ is_Some (currentTileAt options s tq tr))
  /\ (forall cq cr member,
         member ∈ Redis.members (chunkKey cq cr) s ->
         exists tq tr,
           member = coordMember tq tr
           /\ chunkKeyForTile options tq tr = chunkKey cq cr
           /\ is_Some (currentTileAt options s tq tr))
  /\ (forall tq tr,
         is_Some (currentTileAt options s tq tr) ->
         coordMember tq tr ∈ Redis.tileIndex s
         /\ coordMember tq tr ∈ Redis.members (chunkKeyForTile options tq tr) s).

(** [s'] is [s] with the tile [next] stored at [(tq, tr)] and its member
    added to [tiles:index] and to the set of its chunk. *)
Definition tileAdded (options : Options.t) (s s' : Redis.t) (tq tr : Z)
           (next : TileState.t) : Prop :=
  Redis.tileHashes s' = <[(tq, tr) := tileHashFields next]> (Redis.tileHashes s)
  /\ Redis.tileIndex s' = Redis.tileIndex s ∪ {[coordMember tq tr]}
  /\ Redis.chunkTiles s'
     = <[(toChunkIndex options tq, toChunkIndex options tr) :=
           Redis.members (chunkKeyForTile options tq tr) s ∪ {[coordMember tq tr]}]>
         (Redis.chunkTiles s).

(** The owner sets and the index sets both name the stored tiles. *)
Definition worldTracked (options : Options.t) (s : Redis.t) : Prop :=
  ownersTracked options s /\ tilesIndexed options s.



(** The tiles [loadTilesForMembers] reads for the members of
    [tiles:index]. *)
Definition indexedTiles (options : Options.t) (s : Redis.t) : list TileState.t :=
  omap (fun coordinate => currentTileAt options s (q coordinate) (r coordinate))
       (omap parseMember (elements (Redis.tileIndex s))).

(** The entries the loop of [getLeaderboard] keeps: a user id that is not
    blank and a positive score. *)
Definition listed (entry : string * Z) : bool :=
  negb (String.eqb (JS.trim (fst entry)) "") && (0 <? snd entry).

(** The number of ranks [getLeaderboard] asks for: the limit rounded down
    and brought into the range from 1 to 100. *)
Definition leaderboardLimit (limits : Limits.t) (limitArg : option Q) : Z :=
  Z.max 1 (Z.min 100 (JS.Math_floor (default (Limits.maxLeaderboardEntries limits) limitArg))).





(** The colour [colorFromAllianceTag] computes for a hue. *)
Definition colorOfHue (hue : Z) : string :=
  let '(cr, cg, cb) :=
    hslToRgb (HexMathFloat.float_of_Z hue / 360)%float (68 / 100)%float (56 / 100)%float in
  "#" ++ JS.toUpperCase (hexByte cr ++ hexByte cg ++ hexByte cb).

(** An upper-case hexadecimal digit. *)
Definition isHexDigit (c : ascii) : bool :=
  let n := nat_of_ascii c in
  ((48 <=? n) && (n <=? 57) || (65 <=? n) && (n <=? 70))%nat.

(** A colour of the form [#RRGGBB]. *)
Definition isHexColor (color : string) : bool :=
  match color with
  | String head digits =>
      Ascii.eqb head "#" && (String.length digits =? 6)%nat
      && forallb isHexDigit (list_ascii_of_string digits)
  | EmptyString => false
  end.

(** The fields [syncAllianceTagToOwnedTiles] writes to a tile. *)
Definition allianceFields (allianceTag allianceColor : option string) : TileHash.t :=
  {| TileHash.ownerId := None;
     TileHash.ownerAllianceTag := Some (default "" allianceTag);
     TileHash.ownerAllianceColor := Some (default "" allianceColor);
     TileHash.energy := None;
     TileHash.lastUpdate := None;
     TileHash.integrity := None;
     TileHash.level := None;
     TileHash.tileType := None |}.

(** The tile with the alliance of its owner replaced. *)
Definition withAlliance (tile : TileState.t) (allianceTag allianceColor : option string)
  : TileState.t :=
  {| TileState.q := TileState.q tile;
     TileState.r := TileState.r tile;
     TileState.ownerId := TileState.ownerId tile;
     TileState.ownerAllianceTag := allianceTag;
     TileState.ownerAllianceColor := allianceColor;
     TileState.energy := TileState.energy tile;
     TileState.lastUpdate := TileState.lastUpdate tile;
     TileState.integrity := TileState.integrity tile;
     TileState.level := TileState.level tile;
     TileState.tileType := TileState.tileType tile |}.

(** The level of a tile of type nexus. *)
Definition nexusOf (tile : option TileState.t) : option Q :=
  match tile with
  | Some t =>
      if TileType_eqb (TileState.tileType t) nexus then Some (TileState.level t) else None
  | None => None
  end.

(** [s'] has the POI index of [s], and the nexus tiles of [s], at their
    levels, and no other. *)
Definition nexusKept (options : Options.t) (s s' : Redis.t) : Prop :=
  Redis.poiIndex s' = Redis.poiIndex s
  /\ forall tq tr,
       nexusOf (currentTileAt options s' tq tr) = nexusOf (currentTileAt options s tq tr).

(** The POI index names the stored nexus tiles: each of its members is
    the [poiMember] of a stored tile of type nexus, and the [poiMember] of
    every stored tile of type nexus is in it. *)
Definition poiTracked (options : Options.t) (s : Redis.t) : Prop :=
  (forall member,
      member ∈ Redis.poiIndex s ->
      exists tq tr tile,
        currentTileAt options s tq tr = Some tile
        /\ TileState.tileType tile = nexus
        /\ member = poiMember tile)
  /\ (forall tq tr tile,
         currentTileAt options s tq tr = Some tile ->
         TileState.tileType tile = nexus ->
         poiMember tile ∈ Redis.poiIndex s).





(** Options a tick can work with: caps and rates that are not negative,
    and a cap and an initial integrity of at most four decimals. *)
Definition tickOptions (options : Options.t) : Prop :=
  (0 <= Options.maxEnergy options)%Q
  /\ onGrid (Options.maxEnergy options)
  /\ onGrid (Options.initialTileIntegrity options)
  /\ (0 <= Options.energyRechargePerSecond options)%Q
  /\ (0 <= Options.integrityDecayPerMinute options)%Q
  /\ (0 <= Options.allianceNeighborBonusMultiplier options)%Q.

(** Every stored tile has an energy and an integrity of at most four
    decimals. *)
Definition gridded (options : Options.t) (s : Redis.t) : Prop :=
  forall tq tr tile,
    currentTileAt options s tq tr = Some tile ->
    onGrid (TileState.energy tile) /\ onGrid (TileState.integrity tile).

(** [later] is [tile] charged and worn: no less energy, no more
    integrity, not updated earlier, and the same coordinates, owner,
    level and type. *)
Definition chargedAndWorn (options : Options.t) (tile later : TileState.t) : Prop :=
  (TileState.energy tile <= TileState.energy later <= Options.maxEnergy options)%Q
  /\ (0 <= TileState.integrity later <= TileState.integrity tile)%Q
  /\ TileState.lastUpdate tile <= TileState.lastUpdate later
  /\ TileState.q later = TileState.q tile
  /\ TileState.r later = TileState.r tile
  /\ TileState.ownerId later = TileState.ownerId tile
  /\ TileState.level later = TileState.level tile
  /\ TileState.tileType later = TileState.tileType tile.

(** Every tile of [s] is stored in [s'], charged and worn. *)
Definition ticked (options : Options.t) (s s' : Redis.t) : Prop :=
  forall tq tr tile,
    currentTileAt options s tq tr = Some tile ->
    exists later,
      currentTileAt options s' tq tr = Some later /\ chargedAndWorn options tile later.

(** ** Scenarios taken from TileManager.test.ts *)

Module Scenario.

(** The tile [(20, 0)] after [registerNexus(20, 0)]. *)
Definition nexus_seeded : Redis.t :=
  exec (registerNexus DEFAULT_OPTIONS 0 20 0 None) Redis.empty.

(** [player-a] holds [(0, 0)] and nothing else. *)
Definition one_tile : Redis.t :=
  exec (claimTile DEFAULT_OPTIONS 0 "player-a" 0 0) Redis.empty.

(** The options of the capture test: players start with 200 energy. *)
Definition rich_options : Options.t :=
  {| Options.chunkSize := 64;
     Options.maxEnergy := 100;
     Options.maxPlayerEnergy := 1000;
     Options.initialTileEnergy := 100;
     Options.initialTileIntegrity := 100;
     Options.initialTileLevel := 1;
     Options.initialPlayerEnergy := 200;
     Options.energyRechargePerSecond := 1;
     Options.integrityDecayPerMinute := 1;
     Options.freeClaimCost := 10;
     Options.hostileClaimCostMultiplier := 50;
     Options.repairCostEnergy := 5;
     Options.repairIntegrityGain := 20;
     Options.maxClaimDistanceFromOwned := 8;
     Options.allianceNeighborBonusMultiplier := 105 # 100 |}.



(** The options of the insufficient-energy test: players start with 20
    energy. *)
Definition poor_options : Options.t :=
  {| Options.chunkSize := 64;
     Options.maxEnergy := 100;
     Options.maxPlayerEnergy := 1000;
     Options.initialTileEnergy := 100;
     Options.initialTileIntegrity := 100;
     Options.initialTileLevel := 1;
     Options.initialPlayerEnergy := 20;
     Options.energyRechargePerSecond := 1;
     Options.integrityDecayPerMinute := 1;
     Options.freeClaimCost := 10;
     Options.hostileClaimCostMultiplier := 50;
     Options.repairCostEnergy := 5;
     Options.repairIntegrityGain := 20;
     Options.maxClaimDistanceFromOwned := 8;
     Options.allianceNeighborBonusMultiplier := 105 # 100 |}.

(** The same options with 20.03125 energy to start with, a number of five
    decimals that binary64 holds exactly. *)
Definition odd_energy_options : Options.t :=
  {| Options.chunkSize := 64;
     Options.maxEnergy := 100;
     Options.maxPlayerEnergy := 1000;
     Options.initialTileEnergy := 100;
     Options.initialTileIntegrity := 100;
     Options.initialTileLevel := 1;
     Options.initialPlayerEnergy := 641 # 32;
     Options.energyRechargePerSecond := 1;
     Options.integrityDecayPerMinute := 1;
     Options.freeClaimCost := 10;
     Options.hostileClaimCostMultiplier := 50;
     Options.repairCostEnergy := 5;
     Options.repairIntegrityGain := 20;
     Options.maxClaimDistanceFromOwned := 8;
     Options.allianceNeighborBonusMultiplier := 105 # 100 |}.

(** Players that start in debt and claims that cost nothing. *)
Definition free_claim_options : Options.t :=
  {| Options.chunkSize := 64;
     Options.maxEnergy := 100;
     Options.maxPlayerEnergy := 1000;
     Options.initialTileEnergy := 100;
     Options.initialTileIntegrity := 100;
     Options.initialTileLevel := 1;
     Options.initialPlayerEnergy := -1;
     Options.energyRechargePerSecond := 1;
     Options.integrityDecayPerMinute := 1;
     Options.freeClaimCost := 0;
     Options.hostileClaimCostMultiplier := 50;
     Options.repairCostEnergy := 5;
     Options.repairIntegrityGain := 20;
     Options.maxClaimDistanceFromOwned := 8;
     Options.allianceNeighborBonusMultiplier := 105 # 100 |}.


(** [player-a] holds [(0, 0)]; [player-b] has not been seen yet. *)
Definition poor_world : Redis.t :=
  exec (claimTile poor_options 0 "player-a" 0 0) Redis.empty.

(** The same world once [player-b] has been seen. *)
Definition poor_world_seen : Redis.t :=
  exec (getPlayerEnergy poor_options 0 "player-b") poor_world.

(** A nexus at [(20, 0)], held by [player-a], as in the radar test. *)
Definition held_nexus : Redis.t :=
  exec (claimTile rich_options 0 "player-a" 20 0)
       (exec (registerNexus rich_options 0 20 0 (Some 4%Q)) Redis.empty).

(** The options of the entropy test: tiles may hold up to 1000 energy. *)
Definition roomy_options : Options.t :=
  {| Options.chunkSize := 64;
     Options.maxEnergy := 1000;
     Options.maxPlayerEnergy := 1000;
     Options.initialTileEnergy := 100;
     Options.initialTileIntegrity := 100;
     Options.initialTileLevel := 1;
     Options.initialPlayerEnergy := 100;
     Options.energyRechargePerSecond := 1;
     Options.integrityDecayPerMinute := 1;
     Options.freeClaimCost := 10;
     Options.hostileClaimCostMultiplier := 50;
     Options.repairCostEnergy := 5;
     Options.repairIntegrityGain := 20;
     Options.maxClaimDistanceFromOwned := 8;
     Options.allianceNeighborBonusMultiplier := 105 # 100 |}.

(** The test's [redis.hSet("tile:0:0", { ownerId, energy: 0, integrity: 1,
    lastUpdate: 0, level: 1 })]. *)
Definition nearly_worn : TileHash.t :=
  {| TileHash.ownerId := Some "player-a";
     TileHash.ownerAllianceTag := None;
     TileHash.ownerAllianceColor := None;
     TileHash.energy := Some 0%Q;
     TileHash.lastUpdate := Some 0%Q;
     TileHash.integrity := Some 1%Q;
     TileHash.level := Some 1%Q;
     TileHash.tileType := None |}.

(** [player-a] holds [(0, 0)], with one point of integrity left at time 0. *)
Definition worn_at_start : Redis.t :=
  exec (hSet_tile (0, 0) nearly_worn)
       (exec (claimTile roomy_options 0 "player-a" 0 0) Redis.empty).

(** The same world after the tick at 60 s: the integrity is gone. *)
Definition worn_out : Redis.t :=
  exec (rechargeEnergy roomy_options 0 60000) worn_at_start.

End Scenario.




(** ** Histories taken from TileManager.test.ts *)

Module History.



(** The claims of the snapshot test. *)
Definition three_claims : list (Z * Call) :=
  [ (0, CallClaimTile "player-a" 0 0); (0, CallClaimTile "player-a" 1 0);
    (0, CallClaimTile "player-a" 1 (-1)) ].

(** The limits of the snapshot test: batches of two tiles. *)
Definition small_batches : Limits.t :=
  {| Limits.maxLeaderboardEntries := 10;
     Limits.maxRadarNexusPoints := 64;
     Limits.maxRadarBasePoints := 64;
     Limits.maxRadarHotspots := 32;
     Limits.snapshotBatchSize := 2 |}.

(** The test's [redis.hSet("tile:1:1", { integrity: 40 })]. *)
Definition integrity_forty : TileHash.t :=
  {| TileHash.ownerId := None;
     TileHash.ownerAllianceTag := None;
     TileHash.ownerAllianceColor := None;
     TileHash.energy := None;
     TileHash.lastUpdate := None;
     TileHash.integrity := Some 40%Q;
     TileHash.level := None;
     TileHash.tileType := None |}.

(** [player-a] holds [(1, 1)], worn down to 40 integrity. *)
Definition worn_tile : Redis.t :=
  exec (hSet_tile (1, 1) integrity_forty)
       (exec (claimTile DEFAULT_OPTIONS 0 "player-a" 1 1) Redis.empty).

(** The claim of the alliance test. *)
Definition one_claim : list (Z * Call) := [ (0, CallClaimTile "player-a" 2 2) ].

End History.

(** ** The history of the radar test *)

Module RadarHistory.

(** The options of the radar test: chunks of ten tiles. *)
Definition ten_chunks : Options.t :=
  {| Options.chunkSize := 10;
     Options.maxEnergy := 100;
     Options.maxPlayerEnergy := 1000;
     Options.initialTileEnergy := 100;
     Options.initialTileIntegrity := 100;
     Options.initialTileLevel := 1;
     Options.initialPlayerEnergy := 100;
     Options.energyRechargePerSecond := 1;
     Options.integrityDecayPerMinute := 1;
     Options.freeClaimCost := 10;
     Options.hostileClaimCostMultiplier := 50;
     Options.repairCostEnergy := 5;
     Options.repairIntegrityGain := 20;
     Options.maxClaimDistanceFromOwned := 8;
     Options.allianceNeighborBonusMultiplier := 105 # 100 |}.

(** A nexus of level 4, two tiles of [player-a] and the nexus claimed by
    [player-b]. *)
Definition calls : list (Z * Call) :=
  [ (0, CallRegisterNexus 20 0 (Some 4%Q)); (0, CallClaimTile "player-a" 0 0);
    (0, CallClaimTile "player-a" 1 0); (0, CallClaimTile "player-b" 20 0) ].

Definition world : Redis.t := afterCalls ten_chunks calls Redis.empty.

End RadarHistory.

(** * Properties *)

Arguments parseTile : simpl never.
Arguments tileHashFields : simpl never.
Arguments playerHashFields : simpl never.
Arguments poiMember : simpl never.
Arguments coordMember : simpl never.
Arguments chunkKeyForTile : simpl never.
Arguments JS.toFixedPrecision : simpl never.
Arguments JS.clamp : simpl never.
Arguments JS.Math_floor : simpl never.
Arguments JS.trim : simpl never.
Arguments isInteger : simpl never.
Arguments Qle_bool : simpl never.
Arguments Qeq_bool : simpl never.
Arguments inject_Z : simpl never.

(** Unfolds the monad and the Redis commands, then computes. *)
Ltac run_async :=
  unfold result, exec, mbind, mret, Async_bind, Async_ret, throw, when,
    hGetAll_tile, hSet_tile, hGetAll_player, hSet_player, hIncrBy_activity,
    zIncrBy, sAdd, sRem, sMembers; cbn.

(** ** Running a bind *)

Lemma bind_returned {A B} (m : Async A) (k : A -> Async B) s a s1 :
  m s = (Returned a, s1) -> (m ≫= k) s = k a s1.
Proof. intros H. unfold mbind, Async_bind. by rewrite H. Qed.

Lemma bind_thrown {A B} (m : Async A) (k : A -> Async B) s message s1 :
  m s = (Thrown message, s1) -> (m ≫= k) s = (Thrown message, s1).
Proof. intros H. unfold mbind, Async_bind. by rewrite H. Qed.

Lemma Returned_inj {A} (a b : A) : Returned a = Returned b -> a = b.
Proof. congruence. Qed.

Lemma run_pair {A} (m : Async A) s : m s = (result m s, exec m s).
Proof. unfold result, exec. by destruct (m s). Qed.

Lemma run_returned {A} (m : Async A) s a :
  result m s = Returned a -> m s = (Returned a, exec m s).
Proof. intros <-. apply run_pair. Qed.

(** ** Rational arithmetic of the engine *)

Lemma Qltb_true x y : JS.Qltb x y = true <-> (x < y)%Q.
Proof.
  unfold JS.Qltb. rewrite Bool.negb_true_iff. split.
  - intros H. apply Qnot_le_lt. intros Hle. apply Qle_bool_iff in Hle. congruence.
  - intros H. destruct (Qle_bool y x) eqn:Hle; [|reflexivity].
    apply Qle_bool_iff in Hle. lra.
Qed.

Lemma Qltb_false x y : JS.Qltb x y = false <-> (y <= x)%Q.
Proof. unfold JS.Qltb. rewrite Bool.negb_false_iff. apply Qle_bool_iff. Qed.

Lemma Qle_bool_false x y : Qle_bool x y = false <-> (y < x)%Q.
Proof.
  split.
  - intros H. apply Qnot_le_lt. intros Hle. apply Qle_bool_iff in Hle. congruence.
  - intros H. destruct (Qle_bool x y) eqn:Hle; [|reflexivity].
    apply Qle_bool_iff in Hle. lra.
Qed.

Lemma Qfloor_half n : Qfloor (inject_Z n + (1 # 2)) = n.
Proof.
  pose proof (Qfloor_le (inject_Z n + (1 # 2))) as Hlo.
  pose proof (Qlt_floor (inject_Z n + (1 # 2))) as Hhi.
  set (f := Qfloor (inject_Z n + (1 # 2))) in *.
  assert (inject_Z f < inject_Z (n + 1))%Q as H1.
  { rewrite inject_Z_plus. eapply Qle_lt_trans; [exact Hlo|].
    change (inject_Z 1) with 1%Q. lra. }
  assert (inject_Z n < inject_Z (f + 1))%Q as H2.
  { eapply Qle_lt_trans; [|exact Hhi]. lra. }
  rewrite <- Zlt_Qlt in H1, H2. lia.
Qed.

Lemma clamp_inside v lo hi : (lo <= v)%Q -> (v <= hi)%Q -> (JS.clamp v lo hi == v)%Q.
Proof.
  intros Hlo Hhi. unfold JS.clamp.
  rewrite (Q.min_r hi v Hhi). apply Q.max_r. exact Hlo.
Qed.

Lemma clamp_lower v lo hi : (lo <= JS.clamp v lo hi)%Q.
Proof. unfold JS.clamp. apply Q.le_max_l. Qed.

#[global] Instance clamp_proper : Proper (Qeq ==> Qeq ==> Qeq ==> Qeq) JS.clamp.
Proof. intros v v' Hv lo lo' Hlo hi hi' Hhi. unfold JS.clamp. by rewrite Hv, Hlo, Hhi. Qed.

Lemma clamp_idempotent v lo hi :
  (JS.clamp (JS.clamp v lo hi) lo hi == JS.clamp v lo hi)%Q.
Proof.
  unfold JS.clamp.
  destruct (Q.max_spec lo (Qmin hi v)) as [[Hlt Hmax] | [Hle Hmax]]; rewrite Hmax.
  - rewrite (Q.min_r hi (Qmin hi v)) by apply Q.le_min_l.
    apply Q.max_r. lra.
  - apply Q.max_l, Q.le_min_r.
Qed.

Lemma toFixedPrecision_onGrid x : onGrid x -> (JS.toFixedPrecision x == x)%Q.
Proof.
  intros [k Hk]. unfold JS.toFixedPrecision.
  destruct (JS.Qltb x 0) eqn:Hneg.
  - apply Qltb_true in Hneg.
    assert (Hfloor : Qfloor (Qabs x * 10000 + (1 # 2)) = (- k)%Z).
    { rewrite <- (Qfloor_half (- k)). apply Qfloor_comp.
      rewrite (Qabs_neg x) by lra. rewrite Hk, inject_Z_opp. field. }
    rewrite Hfloor, inject_Z_opp, Hk. field.
  - apply Qltb_false in Hneg.
    assert (Hfloor : Qfloor (Qabs x * 10000 + (1 # 2)) = k).
    { rewrite <- (Qfloor_half k). apply Qfloor_comp.
      rewrite (Qabs_pos x) by lra. rewrite Hk. field. }
    rewrite Hfloor, Hk. reflexivity.
Qed.



(** ** [trim] is idempotent *)

(** No white space at the head of the text. *)
Definition headClean (s : string) : Prop :=
  match s with
  | EmptyString => True
  | String c1 rest1 =>
      JS.is_js_space c1 = false
      /\ match rest1 with
         | EmptyString => True
         | String c2 rest2 =>
             JS.is_js_space2 c1 c2 = false
             /\ match rest2 with
                | EmptyString => True
                | String c3 rest3 => JS.is_js_space3 c1 c2 c3 = false
                end
         end
  end.

Lemma trimStart_clean_upto (n : nat) s :
  (String.length s <= n)%nat -> headClean (JS.trimStart s).
Proof.
  revert s. induction n as [|n IH]; intros s Hlen.
  - destruct s; [done | cbn in Hlen; lia].
  - assert (Hshorter : forall rest, (String.length rest < String.length s)%nat ->
                                    headClean (JS.trimStart rest))
      by (intros rest Hrest; apply IH; lia).
    destruct s as [|c1 [|c2 [|c3 rest3]]]; [done|..].
    + change (headClean (if JS.is_js_space c1 then "" else String c1 "")).
      destruct (JS.is_js_space c1) eqn:H1; cbn; by rewrite ?H1.
    + change (headClean
                (if JS.is_js_space c1 then JS.trimStart (String c2 "")
                 else if JS.is_js_space2 c1 c2 then ""
                      else String c1 (String c2 ""))).
      destruct (JS.is_js_space c1) eqn:H1; [apply Hshorter; cbn; lia|].
      destruct (JS.is_js_space2 c1 c2) eqn:H2; cbn; by rewrite ?H1, ?H2.
    + change (headClean
                (if JS.is_js_space c1 then JS.trimStart (String c2 (String c3 rest3))
                 else if JS.is_js_space2 c1 c2 then JS.trimStart (String c3 rest3)
                      else if JS.is_js_space3 c1 c2 c3 then JS.trimStart rest3
                           else String c1 (String c2 (String c3 rest3)))).
      destruct (JS.is_js_space c1) eqn:H1; [apply Hshorter; cbn; lia|].
      destruct (JS.is_js_space2 c1 c2) eqn:H2; [apply Hshorter; cbn; lia|].
      destruct (JS.is_js_space3 c1 c2 c3) eqn:H3; [apply Hshorter; cbn; lia|].
      cbn. by rewrite H1, H2, H3.
Qed.

Lemma trimStart_clean s : headClean (JS.trimStart s).
Proof. by apply (trimStart_clean_upto (String.length s)). Qed.

Lemma trimStart_fixed s : headClean s -> JS.trimStart s = s.
Proof.
  destruct s as [|c1 [|c2 [|c3 rest3]]]; cbn [headClean JS.trimStart]; [done|..].
  - by intros [-> _].
  - by intros (-> & -> & _).
  - by intros (-> & -> & ->).
Qed.

Lemma trimEnd_head c rest :
  match JS.trimEnd (String c rest) with
  | String d kept => d = c /\ kept = JS.trimEnd rest
  | EmptyString => True
  end.
Proof. cbn [JS.trimEnd]. by destruct (JS.trimStart (String c rest)). Qed.

Lemma trimEnd_clean s : headClean s -> headClean (JS.trimEnd s).
Proof.
  destruct s as [|c1 rest1]; [done|]. intros Hclean.
  pose proof (trimEnd_head c1 rest1) as H1.
  destruct (JS.trimEnd (String c1 rest1)) as [|d1 kept1]; [done|].
  destruct H1 as [-> ->]. destruct Hclean as [Hc1 Hclean]. split; [done|].
  destruct rest1 as [|c2 rest2]; [done|].
  pose proof (trimEnd_head c2 rest2) as H2.
  destruct (JS.trimEnd (String c2 rest2)) as [|d2 kept2]; [done|].
  destruct H2 as [-> ->]. destruct Hclean as [Hc2 Hclean]. split; [done|].
  destruct rest2 as [|c3 rest3]; [done|].
  pose proof (trimEnd_head c3 rest3) as H3.
  destruct (JS.trimEnd (String c3 rest3)) as [|d3 kept3]; [done|].
  by destruct H3 as [-> ->].
Qed.

(** What [trimEnd] drops is white space throughout. *)
Lemma trimEnd_tail s :
  exists tail, s = JS.trimEnd s ++ tail /\ JS.trimStart tail = "".
Proof.
  induction s as [|c rest (tail & Hrest & Htail)]; [by exists ""|].
  cbn [JS.trimEnd]. destruct (JS.trimStart (String c rest)) eqn:Hstart.
  - by exists (String c rest).
  - exists tail. split; [|done].
    change (String c rest = String c (JS.trimEnd rest ++ tail)). by f_equal.
Qed.

Lemma trimStart_white_upto (n : nat) white s :
  (String.length white <= n)%nat ->
  JS.trimStart white = "" -> JS.trimStart (white ++ s) = JS.trimStart s.
Proof.
  revert white. induction n as [|n IH]; intros white Hlen.
  - destruct white; [done | cbn in Hlen; lia].
  - assert (Hshorter : forall rest, (String.length rest < String.length white)%nat ->
              JS.trimStart rest = "" -> JS.trimStart (rest ++ s) = JS.trimStart s)
      by (intros rest Hrest; apply IH; lia).
    destruct white as [|c1 [|c2 [|c3 rest3]]]; [done|..].
    + change (JS.trimStart (String c1 "")) with (if JS.is_js_space c1 then "" else String c1 "").
      destruct (JS.is_js_space c1) eqn:H1; [|done]. intros _.
      change (String c1 "" ++ s) with (String c1 s).
      destruct s as [|d1 [|d2 rest]]; cbn [JS.trimStart]; by rewrite H1.
    + change (JS.trimStart (String c1 (String c2 "")))
        with (if JS.is_js_space c1 then JS.trimStart (String c2 "")
              else if JS.is_js_space2 c1 c2 then "" else String c1 (String c2 "")).
      change (String c1 (String c2 "") ++ s) with (String c1 (String c2 "" ++ s)).
      destruct (JS.is_js_space c1) eqn:H1.
      { intros Hwhite. rewrite <- (Hshorter (String c2 "")) by (cbn; lia || done).
        change (String c2 "" ++ s) with (String c2 s).
        destruct s as [|d1 rest]; cbn [JS.trimStart]; by rewrite H1. }
      destruct (JS.is_js_space2 c1 c2) eqn:H2; [|done]. intros _.
      change (String c2 "" ++ s) with (String c2 s).
      destruct s as [|d1 rest]; cbn [JS.trimStart]; by rewrite H1, H2.
    + change (JS.trimStart (String c1 (String c2 (String c3 rest3))))
        with (if JS.is_js_space c1 then JS.trimStart (String c2 (String c3 rest3))
              else if JS.is_js_space2 c1 c2 then JS.trimStart (String c3 rest3)
                   else if JS.is_js_space3 c1 c2 c3 then JS.trimStart rest3
                        else String c1 (String c2 (String c3 rest3))).
      change (String c1 (String c2 (String c3 rest3)) ++ s)
        with (String c1 (String c2 (String c3 (rest3 ++ s)))).
      change (JS.trimStart (String c1 (String c2 (String c3 (rest3 ++ s)))))
        with (if JS.is_js_space c1
              then JS.trimStart (String c2 (String c3 rest3) ++ s)
              else if JS.is_js_space2 c1 c2 then JS.trimStart (String c3 rest3 ++ s)
                   else if JS.is_js_space3 c1 c2 c3 then JS.trimStart (rest3 ++ s)
                        else String c1 (String c2 (String c3 (rest3 ++ s)))).
      destruct (JS.is_js_space c1) eqn:H1; [apply Hshorter; cbn; lia|].
      destruct (JS.is_js_space2 c1 c2) eqn:H2; [apply Hshorter; cbn; lia|].
      destruct (JS.is_js_space3 c1 c2 c3) eqn:H3; [apply Hshorter; cbn; lia|done].
Qed.

Lemma trimEnd_idempotent s : JS.trimEnd (JS.trimEnd s) = JS.trimEnd s.
Proof.
  induction s as [|c rest IH]; [done|]. cbn [JS.trimEnd].
  destruct (JS.trimStart (String c rest)) as [|d kept] eqn:Hstart; [done|].
  cbn [JS.trimEnd]. rewrite IH.
  destruct (JS.trimStart (String c (JS.trimEnd rest))) eqn:Hwhite; [|done].
  destruct (trimEnd_tail rest) as (tail & Hrest & Htail).
  pose proof (trimStart_white_upto _ (String c (JS.trimEnd rest)) tail
                (le_n _) Hwhite) as Happ.
  change (String c (JS.trimEnd rest) ++ tail)
    with (String c (JS.trimEnd rest ++ tail)) in Happ.
  rewrite <- Hrest, Hstart, Htail in Happ. done.
Qed.

Lemma trim_idempotent s : JS.trim (JS.trim s) = JS.trim s.
Proof.
  unfold JS.trim.
  rewrite (trimStart_fixed (JS.trimEnd (JS.trimStart s)))
    by apply trimEnd_clean, trimStart_clean.
  apply trimEnd_idempotent.
Qed.

(** ** Writes to one key family leave the others alone *)

Section RedisFrames.
Implicit Types (s : Redis.t) (key : SetKey).

Lemma tileHashes_with_members key f s :
  Redis.tileHashes (Redis.with_members key f s) = Redis.tileHashes s.
Proof. by destruct key. Qed.

Lemma playerHashes_with_members key f s :
  Redis.playerHashes (Redis.with_members key f s) = Redis.playerHashes s.
Proof. by destruct key. Qed.

Lemma chunkActivity_with_members key f s :
  Redis.chunkActivity (Redis.with_members key f s) = Redis.chunkActivity s.
Proof. by destruct key. Qed.

Lemma leaderboardTiles_with_members key f s :
  Redis.leaderboardTiles (Redis.with_members key f s) = Redis.leaderboardTiles s.
Proof. by destruct key. Qed.

Lemma members_with_members_eq key f s :
  Redis.members key (Redis.with_members key f s) = f (Redis.members key s).
Proof. destruct key; cbn; try done; by rewrite lookup_insert_eq. Qed.

Lemma members_with_members_ne key key' f s :
  key ≠ key' ->
  Redis.members key' (Redis.with_members key f s) = Redis.members key' s.
Proof.
  intros Hne. destruct key, key'; cbn; try done.
  - rewrite lookup_insert_ne; [done | congruence].
  - rewrite lookup_insert_ne; [done | congruence].
Qed.
End RedisFrames.

Create Rewrite HintDb redis.
#[local] Hint Rewrite tileHashes_with_members playerHashes_with_members
  chunkActivity_with_members leaderboardTiles_with_members
  members_with_members_eq : redis.

(** ** What [parseTile] reads back from a persisted tile *)

Section PersistParse.
Variable options : Options.t.

Lemma merge_tileHashFields old tile :
  TileHash.merge old (tileHashFields tile) = tileHashFields tile.
Proof. reflexivity. Qed.

Lemma floor_inject_Z z : JS.Math_floor (inject_Z z) = z.
Proof. apply Qfloor_Z. Qed.

Lemma parseTile_persisted_level tq tr tile parsed :
  parseTile options tq tr (tileHashFields tile) = Some parsed ->
  TileState.level parsed = inject_Z (Z.max 1 (JS.Math_floor (TileState.level tile))).
Proof.
  unfold parseTile, tileHashFields. cbn. intros [= <-]. cbn.
  rewrite floor_inject_Z. f_equal. lia.
Qed.

Lemma parseTile_persisted_tileType tq tr tile parsed :
  parseTile options tq tr (tileHashFields tile) = Some parsed ->
  TileState.tileType parsed = TileState.tileType tile.
Proof.
  unfold parseTile, tileHashFields. cbn. intros [= <-]. cbn.
  by destruct (TileState.tileType tile).
Qed.

Lemma parseTile_persisted_some tq tr tile :
  is_Some (parseTile options tq tr (tileHashFields tile)).
Proof. unfold parseTile, tileHashFields. cbn. eauto. Qed.

End PersistParse.

(** ** Player records: lazy creation, reading and spending *)

Section Players.
Variables (options : Options.t) (clock : Z).
Implicit Types (s : Redis.t) (user : string).

Lemma normalized_trim userId :
  String.eqb (JS.trim userId) "" = false -> normalized (JS.trim userId).
Proof. intros H. split; [apply trim_idempotent | exact H]. Qed.

Lemma normalizeUserId_run userId s :
  String.eqb (JS.trim userId) "" = false ->
  normalizeUserId userId s = (Returned (JS.trim userId), s).
Proof. intros H. unfold normalizeUserId. by rewrite H. Qed.

Lemma normalizeUserId_normalized user s :
  normalized user -> normalizeUserId user s = (Returned user, s).
Proof. intros [Htrim Hne]. unfold normalizeUserId. by rewrite Htrim, Hne. Qed.

Lemma getOrCreatePlayerState_returns user s :
  exists state,
    result (getOrCreatePlayerState options clock user) s = Returned state
    /\ PlayerState.userId state = user.
Proof.
  unfold getOrCreatePlayerState, persistPlayerState. run_async.
  destruct (PlayerHash.hasValues (default PlayerHash.empty (Redis.playerHashes s !! user))); run_async; eauto.
Qed.

Lemma getOrCreatePlayerState_sameWorld user s :
  sameWorld s (exec (getOrCreatePlayerState options clock user) s).
Proof.
  unfold getOrCreatePlayerState, persistPlayerState. run_async.
  destruct (PlayerHash.hasValues (default PlayerHash.empty (Redis.playerHashes s !! user))); run_async; by repeat split.
Qed.

Lemma getOrCreatePlayerState_others user other s :
  other <> user ->
  Redis.playerHashes (exec (getOrCreatePlayerState options clock user) s) !! other
  = Redis.playerHashes s !! other.
Proof.
  intros Hne. unfold getOrCreatePlayerState, persistPlayerState. run_async.
  destruct (PlayerHash.hasValues (default PlayerHash.empty (Redis.playerHashes s !! user))); run_async; [done|].
  by rewrite lookup_insert_ne.
Qed.

Lemma getOrCreatePlayerState_existing user s :
  PlayerHash.hasValues (default PlayerHash.empty (Redis.playerHashes s !! user)) = true ->
  exec (getOrCreatePlayerState options clock user) s = s.
Proof.
  intros H. unfold getOrCreatePlayerState, persistPlayerState. run_async.
  by rewrite H.
Qed.

Lemma getOrCreatePlayerState_created user s :
  PlayerHash.hasValues
    (default PlayerHash.empty
       (Redis.playerHashes (exec (getOrCreatePlayerState options clock user) s) !! user))
  = true.
Proof.
  unfold getOrCreatePlayerState, persistPlayerState. run_async.
  destruct (PlayerHash.hasValues (default PlayerHash.empty (Redis.playerHashes s !! user))) eqn:H; run_async; [exact H|].
  by rewrite lookup_insert_eq.
Qed.

Lemma getOrCreatePlayerState_again user s :
  exec (getOrCreatePlayerState options clock user)
       (exec (getOrCreatePlayerState options clock user) s)
  = exec (getOrCreatePlayerState options clock user) s.
Proof. apply getOrCreatePlayerState_existing, getOrCreatePlayerState_created. Qed.

Lemma getPlayerEnergy_run user s state :
  normalized user ->
  result (getOrCreatePlayerState options clock user) s = Returned state ->
  getPlayerEnergy options clock user s
  = (Returned (PlayerState.energy state),
     exec (getOrCreatePlayerState options clock user) s).
Proof.
  intros Hn Hstate. unfold getPlayerEnergy.
  rewrite (bind_returned _ _ _ _ _ (normalizeUserId_normalized user s Hn)).
  by rewrite (bind_returned _ _ _ _ _ (run_returned _ _ _ Hstate)).
Qed.

Lemma getPlayerProfile_run user s :
  normalized user ->
  exists profile,
    getPlayerProfile options clock user s
    = (Returned profile, exec (getOrCreatePlayerState options clock user) s).
Proof.
  intros Hn. destruct (getOrCreatePlayerState_returns user s) as (state & Hstate & _).
  unfold getPlayerProfile.
  rewrite (bind_returned _ _ _ _ _ (normalizeUserId_normalized user s Hn)).
  rewrite (bind_returned _ _ _ _ _ (run_returned _ _ _ Hstate)). eauto.
Qed.

(** The three ways [spendPlayerEnergy] ends. *)
Lemma spendPlayerEnergy_free user cost now s state :
  normalized user ->
  result (getOrCreatePlayerState options clock user) s = Returned state ->
  Qle_bool cost 0 = true ->
  spendPlayerEnergy options clock user cost now s
  = (Returned (mkSpendAttempt true (PlayerState.energy state)),
     exec (getOrCreatePlayerState options clock user) s).
Proof.
  intros Hn Hstate Hcost. unfold spendPlayerEnergy. rewrite Hcost.
  by rewrite (bind_returned _ _ _ _ _ (getPlayerEnergy_run user s state Hn Hstate)).
Qed.

Lemma spendPlayerEnergy_short user cost now s state :
  result (getOrCreatePlayerState options clock user) s = Returned state ->
  Qle_bool cost 0 = false ->
  JS.Qltb (PlayerState.energy state) cost = true ->
  spendPlayerEnergy options clock user cost now s
  = (Returned (mkSpendAttempt false (JS.toFixedPrecision (PlayerState.energy state))),
     exec (getOrCreatePlayerState options clock user) s).
Proof.
  intros Hstate Hcost Hshort. unfold spendPlayerEnergy. rewrite Hcost.
  rewrite (bind_returned _ _ _ _ _ (run_returned _ _ _ Hstate)). by rewrite Hshort.
Qed.

Lemma spendPlayerEnergy_paid user cost now s state :
  result (getOrCreatePlayerState options clock user) s = Returned state ->
  Qle_bool cost 0 = false ->
  JS.Qltb (PlayerState.energy state) cost = false ->
  let nextEnergy :=
    JS.clamp (JS.toFixedPrecision (PlayerState.energy state - cost))
             0 (Options.maxPlayerEnergy options) in
  spendPlayerEnergy options clock user cost now s
  = (Returned (mkSpendAttempt true nextEnergy),
     exec (persistPlayerState (with_energy state nextEnergy now))
          (exec (getOrCreatePlayerState options clock user) s)).
Proof.
  intros Hstate Hcost Hpaid nextEnergy. unfold spendPlayerEnergy. rewrite Hcost.
  rewrite (bind_returned _ _ _ _ _ (run_returned _ _ _ Hstate)). rewrite Hpaid.
  reflexivity.
Qed.

Lemma spendPlayerEnergy_returns user cost now s :
  normalized user ->
  exists attempt,
    result (spendPlayerEnergy options clock user cost now) s = Returned attempt.
Proof.
  intros Hn. destruct (getOrCreatePlayerState_returns user s) as (state & Hstate & _).
  destruct (Qle_bool cost 0) eqn:Hcost.
  - unfold result. rewrite (spendPlayerEnergy_free user cost now s state Hn Hstate Hcost). eauto.
  - destruct (JS.Qltb (PlayerState.energy state) cost) eqn:Hshort; unfold result.
    + rewrite (spendPlayerEnergy_short user cost now s state Hstate Hcost Hshort). eauto.
    + rewrite (spendPlayerEnergy_paid user cost now s state Hstate Hcost Hshort). eauto.
Qed.

End Players.

(** ** The stages of [claimTile] *)

Section ClaimStages.
Variables (options : Options.t) (clock : Z).
Implicit Types (s : Redis.t) (user : string).

Lemma loadTile_run tq tr s :
  loadTile options tq tr s = (Returned (currentTileAt options s tq tr), s).
Proof. reflexivity. Qed.

Lemma claimTile_entry userId tq tr s :
  String.eqb (JS.trim userId) "" = false ->
  HexMathFloat.validateCoordinates
    (HexMathFloat.float_of_Z tq) (HexMathFloat.float_of_Z tr) = true ->
  ownedBy (currentTileAt options s tq tr) (JS.trim userId) = false ->
  claimTile options clock userId tq tr s
  = claimGated options clock (JS.trim userId) tq tr (currentTileAt options s tq tr) s.
Proof.
  intros Huser Hvalid Hown. unfold claimTile.
  rewrite (bind_returned _ _ _ _ _ (normalizeUserId_run userId s Huser)).
  unfold validateCoordinates. rewrite Hvalid.
  rewrite (bind_returned (mret tt) _ s tt s eq_refl).
  rewrite (bind_returned _ _ _ _ _ (loadTile_run tq tr s)).
  destruct (currentTileAt options s tq tr) as [tile|]; [|done].
  cbn in Hown. by rewrite Hown.
Qed.

Lemma validateClaimDistance_run user tq tr s :
  validateClaimDistance options user tq tr s
  = (Returned
       match elements (Redis.members (ownerTileKey user) s) with
       | [] => RangeOk
       | _ :: _ =>
           nearestOwned (Options.maxClaimDistanceFromOwned options)
             (mkHexTile tq tr)
             (elements (Redis.members (ownerTileKey user) s)) None
       end, s).
Proof.
  unfold validateClaimDistance. run_async.
  by destruct (elements _).
Qed.

Lemma recordChunkActivity_returns tq tr amount s :
  result (recordChunkActivity options tq tr amount) s = Returned tt.
Proof. unfold recordChunkActivity. destruct (amount <=? 0); by run_async. Qed.

Lemma claimCommit_returns user tq tr currentTile attempt cost s :
  normalized user ->
  exists created captured tile,
    result (claimCommit options clock user tq tr currentTile attempt cost) s
    = Returned (ClaimTileSuccess created captured tile
                  (spend_energyAfter attempt) cost).
Proof.
  intros Hn. unfold claimCommit.
  destruct (getPlayerProfile_run options clock user s Hn) as (profile & Hprofile).
  unfold result. rewrite (bind_returned _ _ _ _ _ Hprofile).
  unfold persistTileState, recordChunkActivity. run_async.
  repeat match goal with
         | |- context [if ?b then _ else _] => destruct b; cbn
         end; eauto.
Qed.

Lemma claimSpend_proceeds user tq tr currentTile s :
  normalized user ->
  exists res,
    result (claimSpend options clock user tq tr currentTile) s = Returned res
    /\ proceeds res.
Proof.
  intros Hn. unfold claimSpend. cbv zeta.
  match goal with |- context [spendPlayerEnergy _ _ _ ?cost ?now] =>
    destruct (spendPlayerEnergy_returns options clock user cost now s Hn)
      as (attempt & Hattempt);
    unfold result; rewrite (bind_returned _ _ _ _ _ (run_returned _ _ _ Hattempt));
    destruct (spend_ok attempt); cbn [negb];
    [ destruct (claimCommit_returns user tq tr currentTile attempt cost
                  (exec (spendPlayerEnergy options clock user cost now) s) Hn)
        as (created & captured & tile & Hcommit);
      unfold result in Hcommit; rewrite Hcommit; by eexists
    | by eexists ]
  end.
Qed.

End ClaimStages.

(** ** The loop of [validateClaimDistance] *)

Section RangeGate.
Variables (maxDistance : Q) (target : HexTile).

Lemma nearestOwned_far members acc :
  (forall member coordinate,
      In member members -> parseMember member = Some coordinate ->
      Qle_bool (inject_Z (HexMath.hex_distance target coordinate)) maxDistance = false) ->
  exists nearest,
    nearestOwned maxDistance target members acc = RangeFail nearest
    /\ leastOf target acc members nearest.
Proof.
  revert acc. induction members as [|member rest IH]; intros acc Hfar.
  - exists acc. split; [done|]. destruct acc as [best|]; cbn.
    + split; [by left|]. split; [by intros ? [= <-]|]. by intros ? ? [].
    + split; [done|]. by intros ? [].
  - cbn [nearestOwned]. destruct (parseMember member) as [coordinate|] eqn:Hparse.
    + rewrite (Hfar member coordinate (or_introl eq_refl) Hparse).
      set (distance := HexMath.hex_distance target coordinate).
      set (acc' := match acc with
                   | Some best => if distance <? best then Some distance else Some best
                   | None => Some distance
                   end).
      destruct (IH acc') as (nearest & Hrun & Hleast).
      { intros m c Hin. apply Hfar. by right. }
      exists nearest. split; [exact Hrun|].
      destruct nearest as [d|]; cbn in Hleast |- *.
      * destruct Hleast as (Hwhere & Hbest & Hrest).
        assert (Hacc' : d <= distance /\ forall best, acc = Some best -> d <= best).
        { subst acc'. destruct acc as [best|].
          - destruct (Z.ltb_spec distance best).
            + specialize (Hbest _ eq_refl). split; [lia|]. intros ? [= <-]. lia.
            + specialize (Hbest _ eq_refl). split; [lia|]. intros ? [= <-]. lia.
          - specialize (Hbest _ eq_refl). split; [lia|]. done. }
        destruct Hacc' as [Hd Hacc]. repeat split.
        -- destruct Hwhere as [Hwhere | (m & c & Hin & Hp & Hdist)].
           ++ subst acc'. destruct acc as [best|].
              ** destruct (distance <? best); simplify_eq.
                 --- right. exists member, coordinate. by repeat split; [left|..].
                 --- by left.
              ** simplify_eq. right. exists member, coordinate. by repeat split; [left|..].
           ++ right. exists m, c. by repeat split; [right|..].
        -- exact Hacc.
        -- intros m c [<- | Hin] Hp; [|by eapply Hrest].
           rewrite Hparse in Hp. simplify_eq. exact Hd.
      * destruct Hleast as [Hnone _]. subst acc'. by destruct acc as [best|]; [destruct (distance <? best)|].
    + destruct (IH acc) as (nearest & Hrun & Hleast).
      { intros m c Hin. apply Hfar. by right. }
      exists nearest. split; [exact Hrun|].
      destruct nearest as [d|]; cbn in Hleast |- *.
      * destruct Hleast as (Hwhere & Hbest & Hrest). repeat split.
        -- destruct Hwhere as [Hwhere | (m & c & Hin & Hp & Hdist)]; [by left|].
           right. exists m, c. by repeat split; [right|..].
        -- exact Hbest.
        -- intros m c [<- | Hin] Hp; [congruence | by eapply Hrest].
      * destruct Hleast as [Hnone Hrest]. split; [done|].
        intros m [<- | Hin]; [done | by apply Hrest].
Qed.

End RangeGate.

(** ** C3: the range gate *)

Lemma leastOf_isNearest target (owned : gset string) nearest :
  leastOf target None (elements owned) nearest -> isNearest target owned nearest.
Proof.
  unfold leastOf, isNearest. destruct nearest as [distance|].
  - intros ([? | (m & c & Hin & Hp & Hd)] & _ & Hall); [done|]. split.
    + exists m, c. split; [|done]. by apply elem_of_elements, list_elem_of_In.
    + intros m' c' Hin'. apply Hall. by apply list_elem_of_In, elem_of_elements.
  - intros [_ Hall] m Hin. by apply Hall, list_elem_of_In, elem_of_elements.
Qed.

(** C3 (as the code has it).  A claim on a tile the player does not hold:
    with an empty owner set the range gate is passed and the call ends in
    the spend gate or in a committed claim; with a non-empty owner set
    whose readable members all lie farther than [maxClaimDistanceFromOwned]
    from the target, and within the range in which binary64 computes the
    distance exactly, the call returns [out-of-range] with that maximum,
    the least hex distance to a readable member ([null] when no member is
    readable) and the player's energy. *)
Theorem claimTile_range_gate (options : Options.t) (clock : Z)
        (userId : string) (tq tr : Z) (s : Redis.t) :
  let user := JS.trim userId in
  let currentTile := currentTileAt options s tq tr in
  let owned := Redis.members (ownerTileKey user) s in
  let outcome := result (claimTile options clock userId tq tr) s in
  String.eqb user "" = false ->
  HexMathFloat.validateCoordinates
    (HexMathFloat.float_of_Z tq) (HexMathFloat.float_of_Z tr) = true ->
  ownedBy currentTile user = false ->
  (owned = ∅ -> exists res, outcome = Returned res /\ proceeds res)
  /\ (owned <> ∅ ->
      (forall member coordinate,
          member ∈ owned -> parseMember member = Some coordinate ->
          exactlyApart (mkHexTile tq tr) coordinate
          /\ (Options.maxClaimDistanceFromOwned options
              < inject_Z (HexMath.hex_distance (mkHexTile tq tr) coordinate))%Q) ->
      exists nearest playerEnergy,
        outcome = Returned (ClaimTileOutOfRange currentTile
                              (Options.maxClaimDistanceFromOwned options)
                              nearest playerEnergy)
        /\ isNearest (mkHexTile tq tr) owned nearest
        /\ result (getPlayerEnergy options clock user) s = Returned playerEnergy).
Proof.
  intros user currentTile owned outcome Huser Hvalid Hown.
  pose proof (normalized_trim userId Huser) as Hn. fold user in Hn.
  subst outcome. unfold result.
  rewrite (claimTile_entry options clock userId tq tr s Huser Hvalid Hown).
  fold user currentTile. unfold claimGated.
  rewrite (bind_returned _ _ _ _ _ (validateClaimDistance_run options user tq tr s)).
  fold owned. split.
  - intros ->. rewrite elements_empty.
    exact (claimSpend_proceeds options clock user tq tr currentTile s Hn).
  - intros Hne Hfar.
    destruct (elements owned) as [|first rest] eqn:Helements.
    { by apply elements_empty_inv, leibniz_equiv in Helements. }
    rewrite <- Helements.
    destruct (nearestOwned_far (Options.maxClaimDistanceFromOwned options)
                (mkHexTile tq tr) (elements owned) None) as (nearest & Hrun & Hleast).
    { intros m c Hin Hp. apply list_elem_of_In, elem_of_elements in Hin.
      destruct (Hfar m c Hin Hp) as [_ Hlt].
      destruct (Qle_bool _ _) eqn:Hle; [|done].
      apply Qle_bool_iff in Hle. lra. }
    rewrite Hrun.
    destruct (getOrCreatePlayerState_returns options clock user s) as (state & Hstate & _).
    rewrite (bind_returned _ _ _ _ _ (getPlayerEnergy_run options clock user s state Hn Hstate)).
    exists nearest, (PlayerState.energy state). split; [reflexivity|]. split.
    + by apply leastOf_isNearest.
    + unfold result. by rewrite (getPlayerEnergy_run options clock user s state Hn Hstate).
Qed.

(** The out-of-range test with the default reach of 8: [player-a] holds
    [(0, 0)] and asks for [(20, 0)], 20 tiles away. *)
Lemma claimTile_range_gate_witness :
  exists playerEnergy,
    result (claimTile DEFAULT_OPTIONS 1 "player-a" 20 0) Scenario.one_tile
    = Returned (ClaimTileOutOfRange
                  (currentTileAt DEFAULT_OPTIONS Scenario.one_tile 20 0)
                  (Options.maxClaimDistanceFromOwned DEFAULT_OPTIONS)
                  (Some 20) playerEnergy).
Proof.
  destruct (claimTile_range_gate DEFAULT_OPTIONS 1 "player-a" 20 0 Scenario.one_tile
              eq_refl eq_refl eq_refl) as [_ Hfar].
  assert (Howned : Redis.members (ownerTileKey "player-a") Scenario.one_tile
                   = {[ coordMember 0 0 ]}) by (by vm_compute).
  assert (Hparse0 : parseMember (coordMember 0 0) = Some (mkHexTile 0 0))
    by (by vm_compute).
  destruct Hfar as (nearest & playerEnergy & Hres & Hnearest & _).
  - cbv zeta. change (JS.trim "player-a") with "player-a". rewrite Howned.
    intros Hempty. exact (non_empty_singleton_L (coordMember 0 0) Hempty).
  - cbv zeta. change (JS.trim "player-a") with "player-a". rewrite Howned.
    intros member coordinate ->%elem_of_singleton.
    rewrite Hparse0. intros [= <-]. split; [|reflexivity].
    unfold exactlyApart. change (HexMath.hex_distance _ _) with 20. cbn [q r]. lia.
  - cbv zeta in Hres, Hnearest. change (JS.trim "player-a") with "player-a" in *.
    rewrite Howned in Hnearest.
    assert (Hvalue : nearest = Some 20).
    { destruct nearest as [distance|]; cbn [isNearest] in Hnearest.
      - destruct Hnearest as [(member & coordinate & ->%elem_of_singleton & Hparse & <-) _].
        rewrite Hparse0 in Hparse. by injection Hparse as <-.
      - specialize (Hnearest (coordMember 0 0) (proj2 (elem_of_singleton _ _) eq_refl)).
        by rewrite Hparse0 in Hnearest. }
    subst nearest. by exists playerEnergy.
Defined.

(** C3 as stated fails beyond that range.  Both (-4503599627370500, 0) and
    (4503599627370497, 0) pass [validateCoordinates], so a player can hold
    the first (a first claim passes the range gate) and ask for the
    second; the hex distance between them is 9007199254740997, but
    [hex_distance], which [validateClaimDistance] reports as
    [nearestDistance], returns 9007199254740996: the sum of the three
    absolute differences is above 2^53 and is rounded. *)
Lemma hex_distance_rounds_far_apart :
  let held := -4503599627370500 in
  let target := 4503599627370497 in
  HexMathFloat.validateCoordinates
    (HexMathFloat.float_of_Z held) (HexMathFloat.float_of_Z 0) = true
  /\ HexMathFloat.validateCoordinates
       (HexMathFloat.float_of_Z target) (HexMathFloat.float_of_Z 0) = true
  /\ HexMathFloat.Z_of_float (HexMathFloat.float_of_Z held) = held
  /\ HexMathFloat.Z_of_float (HexMathFloat.float_of_Z target) = target
  /\ HexMathFloat.Z_of_float
       (HexMathFloat.hex_distance
          (HexMathFloat.mkFloatHex (HexMathFloat.float_of_Z target)
                                   (HexMathFloat.float_of_Z 0))
          (HexMathFloat.mkFloatHex (HexMathFloat.float_of_Z held)
                                   (HexMathFloat.float_of_Z 0)))
     = 9007199254740996
  /\ HexMath.hex_distance (mkHexTile target 0) (mkHexTile held 0) = 9007199254740997
  /\ ~ exactlyApart (mkHexTile target 0) (mkHexTile held 0).
Proof.
  cbv zeta. repeat split; try (vm_compute; reflexivity).
  intros (_ & _ & _ & _ & Hfar). by vm_compute in Hfar.
Qed.

(** ** C1: the cost of a claim and the energy it leaves *)

Section ClaimCost.
Variables (options : Options.t) (clock : Z).

Lemma parseTile_owner_truthy tq tr hash tile owner :
  parseTile options tq tr hash = Some tile ->
  TileState.ownerId tile = Some owner ->
  truthy (Some owner) = true.
Proof.
  unfold parseTile. destruct (negb (TileHash.hasValues hash)); [done|].
  intros [= <-]. cbn [TileState.ownerId].
  destruct (JS.nonblank (TileHash.ownerId hash)) eqn:Hblank; [|done].
  intros Howner. rewrite Howner in Hblank. cbn in Hblank |- *.
  destruct owner; [by vm_compute in Hblank | done].
Qed.

Lemma parseTile_level_integer tq tr hash tile :
  parseTile options tq tr hash = Some tile ->
  exists n : Z, 1 <= n /\ TileState.level tile = inject_Z n.
Proof.
  unfold parseTile. destruct (negb (TileHash.hasValues hash)); [done|].
  intros [= <-]. cbn [TileState.level]. eexists. split; [|reflexivity]. lia.
Qed.



End ClaimCost.

(** What [claimTile] does once the range gate is passed. *)
Lemma claimTile_spend (options : Options.t) (clock : Z) userId tq tr s :
  String.eqb (JS.trim userId) "" = false ->
  HexMathFloat.validateCoordinates
    (HexMathFloat.float_of_Z tq) (HexMathFloat.float_of_Z tr) = true ->
  ownedBy (currentTileAt options s tq tr) (JS.trim userId) = false ->
  result (validateClaimDistance options (JS.trim userId) tq tr) s = Returned RangeOk ->
  claimTile options clock userId tq tr s
  = claimSpend options clock (JS.trim userId) tq tr (currentTileAt options s tq tr) s.
Proof.
  intros Huser Hvalid Hown Hrange.
  rewrite (claimTile_entry options clock userId tq tr s Huser Hvalid Hown).
  unfold claimGated.
  pose proof (validateClaimDistance_run options (JS.trim userId) tq tr s) as Hrun.
  unfold result in Hrange. rewrite Hrun in Hrange. cbn [fst] in Hrange.
  apply Returned_inj in Hrange. rewrite Hrange in Hrun.
  by rewrite (bind_returned _ _ _ _ _ Hrun).
Qed.




(** ** C4: a claim the player cannot pay for *)

(** C4 (as the code has it).  When the cost of a claim is positive, a
    hostile cost being one that binary64 computes exactly, and exceeds the
    player's energy, the call returns [insufficient-energy] with the cost
    and the player's energy, the latter as [toFixedPrecision] rounds it (it
    is the energy itself when that has at most four decimals), and the
    store it leaves is the one [getOrCreatePlayerState]
    leaves: tiles, indices, leaderboard and chunk activity are untouched,
    every other player's hash is untouched, and a player who already has a
    hash keeps it unchanged; only a player seen for the first time gets a
    hash. *)
Theorem claimTile_insufficient_energy (options : Options.t) (clock : Z)
        (userId : string) (tq tr : Z) (s : Redis.t) (energy : Q) :
  let user := JS.trim userId in
  let currentTile := currentTileAt options s tq tr in
  let outcome := result (claimTile options clock userId tq tr) s in
  let final := exec (claimTile options clock userId tq tr) s in
  let cost := claimCost options currentTile user in
  String.eqb user "" = false ->
  HexMathFloat.validateCoordinates
    (HexMathFloat.float_of_Z tq) (HexMathFloat.float_of_Z tr) = true ->
  ownedBy currentTile user = false ->
  result (validateClaimDistance options user tq tr) s = Returned RangeOk ->
  result (getPlayerEnergy options clock user) s = Returned energy ->
  exactHostileCost options currentTile user ->
  (0 < cost)%Q ->
  (energy < cost)%Q ->
  outcome = Returned (ClaimTileInsufficientEnergy currentTile cost
                        (JS.toFixedPrecision energy))
  /\ (onGrid energy -> (JS.toFixedPrecision energy == energy)%Q)
  /\ final = exec (getOrCreatePlayerState options clock user) s
  /\ sameWorld s final
  /\ (forall other, other <> user ->
        Redis.playerHashes final !! other = Redis.playerHashes s !! other)
  /\ (PlayerHash.hasValues (default PlayerHash.empty (Redis.playerHashes s !! user)) = true ->
      final = s).
Proof.
  intros user currentTile outcome final cost Huser Hvalid Hown Hrange Henergy _ Hpos Hshort.
  pose proof (normalized_trim userId Huser) as Hn. fold user in Hn.
  destruct (getOrCreatePlayerState_returns options clock user s) as (state & Hstate & _).
  pose proof (getPlayerEnergy_run options clock user s state Hn Hstate) as Hget.
  unfold result in Henergy. rewrite Hget in Henergy. cbn [fst] in Henergy.
  apply Returned_inj in Henergy. subst energy.
  assert (Hrun : claimTile options clock userId tq tr s
                 = (Returned (ClaimTileInsufficientEnergy currentTile cost
                                (JS.toFixedPrecision (PlayerState.energy state))),
                    exec (getOrCreatePlayerState options clock user) s)).
  { rewrite (claimTile_spend options clock userId tq tr s Huser Hvalid Hown Hrange).
    fold user currentTile. unfold claimSpend. cbv zeta. fold cost.
    assert (Hzero : Qle_bool cost 0 = false) by (apply Qle_bool_false; lra).
    rewrite (bind_returned _ _ _ _ _
               (spendPlayerEnergy_short options clock user cost (inject_Z clock) s state
                  Hstate Hzero (proj2 (Qltb_true _ _) Hshort))).
    reflexivity. }
  subst outcome final. unfold result, exec. rewrite Hrun. cbn [fst snd].
  split; [reflexivity|]. split; [apply toFixedPrecision_onGrid|].
  split; [reflexivity|]. split; [|split].
  - apply getOrCreatePlayerState_sameWorld.
  - intros other Hother. by apply getOrCreatePlayerState_others.
  - apply getOrCreatePlayerState_existing.
Qed.

(** The insufficient-energy test, with [player-b] already seen: 20 energy
    against a cost of 50; the store is left as it was. *)
Lemma claimTile_insufficient_energy_witness :
  let s := Scenario.poor_world_seen in
  result (claimTile Scenario.poor_options 1 "player-b" 0 0) s
  = Returned (ClaimTileInsufficientEnergy
                (currentTileAt Scenario.poor_options s 0 0)
                (claimCost Scenario.poor_options
                   (currentTileAt Scenario.poor_options s 0 0) "player-b")
                (JS.toFixedPrecision (200000 # 10000)))
  /\ exec (claimTile Scenario.poor_options 1 "player-b" 0 0) s = s.
Proof.
  destruct (claimTile_insufficient_energy Scenario.poor_options 1 "player-b" 0 0
              Scenario.poor_world_seen (200000 # 10000)%Q)
    as (Hres & _ & _ & _ & _ & Hsame).
  - vm_compute; reflexivity.
  - vm_compute; reflexivity.
  - vm_compute; reflexivity.
  - vm_compute; reflexivity.
  - vm_compute; reflexivity.
  - intros tile [Hcurrent _]. vm_compute in Hcurrent. injection Hcurrent as <-.
    split; [by exists 50 | by vm_compute].
  - by vm_compute.
  - by vm_compute.
  - split; [exact Hres|]. apply Hsame. by vm_compute.
Defined.

(** C4 as stated fails in three ways.  For a player seen for the first
    time, the refused claim of the insufficient-energy test leaves a hash
    for [player-b] that was not in the store before.  The energy the
    refusal shows is rounded to four decimals: a new player whose initial
    energy is 20.03125 is shown 20.0313.  And a cost that is not positive
    is never refused: a new player with an initial energy of -1 claims a
    free tile at a cost of 0.  The cost of a capture, last, is a binary64
    product: at a multiplier of 0.7 a level-3 tile costs less than 2.1. *)
Lemma claimTile_insufficient_energy_creates_player :
  (let s := Scenario.poor_world in
   let outcome := result (claimTile Scenario.poor_options 1 "player-b" 0 0) s in
   let final := exec (claimTile Scenario.poor_options 1 "player-b" 0 0) s in
   (exists tile required playerEnergy,
       outcome = Returned (ClaimTileInsufficientEnergy tile required playerEnergy)
       /\ (required == 50)%Q /\ (playerEnergy == 20)%Q)
   /\ Redis.playerHashes s !! "player-b" = None
   /\ (exists hash, Redis.playerHashes final !! "player-b" = Some hash
                    /\ PlayerHash.energy hash = Some (JS.toFixedPrecision 20)))
  /\ (let s := exec (claimTile Scenario.odd_energy_options 0 "player-a" 0 0)
                    Redis.empty in
      result (getPlayerEnergy Scenario.odd_energy_options 1 "player-b") s
      = Returned (641 # 32)
      /\ exists tile required playerEnergy,
           result (claimTile Scenario.odd_energy_options 1 "player-b" 0 0) s
           = Returned (ClaimTileInsufficientEnergy tile required playerEnergy)
           /\ (required == 50)%Q
           /\ (playerEnergy == 200313 # 10000)%Q
           /\ ~ (playerEnergy == 641 # 32)%Q)
  /\ (result (getPlayerEnergy Scenario.free_claim_options 0 "player-a") Redis.empty
      = Returned (-1)%Q
      /\ claimCost Scenario.free_claim_options
           (currentTileAt Scenario.free_claim_options Redis.empty 0 0) "player-a"
         = 0%Q
      /\ exists created captured tile energyAfter,
           result (claimTile Scenario.free_claim_options 0 "player-a" 0 0) Redis.empty
           = Returned (ClaimTileSuccess created captured tile energyAfter 0))
  /\ PrimFloat.ltb (3 * 0.7)%float 2.1%float = true.
Proof.
  cbv zeta. split; [split; [|split]|split; [split|split; [split; [|split]|reflexivity]]].
  - vm_compute. do 3 eexists. split; [reflexivity|]. by split.
  - by vm_compute.
  - vm_compute. eexists. by split.
  - reflexivity.
  - vm_compute. do 3 eexists. split; [reflexivity|]. split; [reflexivity|].
    split; [reflexivity|]. by intros Heq.
  - reflexivity.
  - reflexivity.
  - vm_compute. by do 4 eexists.
Qed.

(** ** The commit of a claim *)

Section ClaimCommit.
Variables (options : Options.t) (clock : Z).

Lemma not_owned_gains currentTile user :
  ownedBy currentTile user = false ->
  match currentTile with None => true | Some _ => false end
  || ownedByOther currentTile user || negb (truthy (ownerOf currentTile)) = true.
Proof.
  unfold ownedBy, ownedByOther, ownerOf. destruct currentTile as [tile|]; [|done].
  cbn. intros ->. by destruct (truthy (TileState.ownerId tile)).
Qed.

Lemma ownedByOther_previous currentTile user :
  ownedByOther currentTile user = true ->
  default "" (ownerOf currentTile) <> user.
Proof.
  unfold ownedByOther, ownerOf. destruct currentTile as [tile|]; [|done].
  destruct (TileState.ownerId tile) as [owner|]; [|done]. cbn.
  intros [_ Hne%Bool.negb_true_iff]%andb_prop. by apply String.eqb_neq.
Qed.

(** The tile a committed claim returns and the store it leaves. *)
Lemma claimCommit_run user tq tr currentTile attempt cost s :
  normalized user ->
  ownedBy currentTile user = false ->
  let previous := default "" (ownerOf currentTile) in
  let captured := ownedByOther currentTile user in
  let member := coordMember tq tr in
  exists next final,
    claimCommit options clock user tq tr currentTile attempt cost s
    = (Returned (ClaimTileSuccess
                   match currentTile with None => true | Some _ => false end
                   captured next (spend_energyAfter attempt) cost), final)
    /\ TileState.ownerId next = Some user
    /\ TileState.lastUpdate next = clock
    /\ match currentTile with
       | Some tile =>
           TileState.q next = TileState.q tile
           /\ TileState.r next = TileState.r tile
           /\ TileState.energy next = TileState.energy tile
           /\ TileState.integrity next = TileState.integrity tile
           /\ TileState.level next = TileState.level tile
           /\ TileState.tileType next = TileState.tileType tile
       | None =>
           TileState.q next = tq
           /\ TileState.r next = tr
           /\ TileState.energy next = Options.initialTileEnergy options
           /\ TileState.integrity next = Options.initialTileIntegrity options
           /\ TileState.level next = Options.initialTileLevel options
           /\ TileState.tileType next = normal
       end
    /\ Redis.tileHashes final = <[(tq, tr) := tileHashFields next]> (Redis.tileHashes s)
    /\ Redis.playerHashes final
       = Redis.playerHashes (exec (getOrCreatePlayerState options clock user) s)
    /\ (forall p,
          Redis.members (ownerTileKey p) final
          = if decide (p = user) then Redis.members (ownerTileKey p) s ∪ {[member]}
            else if captured && bool_decide (p = previous)
                 then Redis.members (ownerTileKey p) s ∖ {[member]}
                 else Redis.members (ownerTileKey p) s)
    /\ (forall p,
          Redis.score p final
          = Redis.score p s
            + (if decide (p = user) then 1 else 0)
            - (if captured && bool_decide (p = previous) then 1 else 0)).
Proof.
  intros Hn Hown previous captured member.
  destruct (getPlayerProfile_run options clock user s Hn) as (profile & Hprofile).
  destruct (getOrCreatePlayerState_sameWorld options clock user s)
    as (Htiles & Hactivity & Hboard & Hindex & Hpoi & Hchunks & Howners).
  set (s1 := exec (getOrCreatePlayerState options clock user) s) in *.
  unfold claimCommit. rewrite (bind_returned _ _ _ _ _ Hprofile). cbv zeta.
  rewrite (not_owned_gains currentTile user Hown).
  fold captured previous member.
  match goal with |- context [persistTileState _ ?tile] => set (next := tile) end.
  exists next.
  assert (Hprev : captured = true -> previous <> user)
    by apply ownedByOther_previous.
  unfold persistTileState, recordChunkActivity, tileKey, chunkKeyForTile.
  run_async. unfold Redis.score. cbn.
  destruct captured eqn:Hcaptured;
    destruct (TileType_eqb (TileState.tileType next) nexus); cbn;
    (eexists; split; [reflexivity|]);
    (split; [by destruct currentTile|]);
    (split; [by destruct currentTile|]);
    (split; [by destruct currentTile|]);
    cbn; rewrite ?Htiles, ?Howners, ?Hboard.
  all: split; [reflexivity|]; split; [reflexivity|]; split; intros p.
  all: destruct (decide (p = user)) as [->|Hpu];
    try (specialize (Hprev eq_refl));
    try case_bool_decide; subst; simplify_map_eq; try done; try lia.
Qed.

End ClaimCommit.

(** ** C9: what a capture leaves of the tile *)

Section Capture.
Variables (options : Options.t) (clock : Z).

Lemma parseTile_energy tq tr hash tile :
  parseTile options tq tr hash = Some tile ->
  TileState.energy tile
  = JS.clamp (default 0%Q (TileHash.energy hash)) 0 (Options.maxEnergy options)
  /\ TileState.integrity tile
     = JS.clamp (default (Options.initialTileIntegrity options) (TileHash.integrity hash))
                0 100.
Proof.
  unfold parseTile. destruct (negb (TileHash.hasValues hash)); [done|].
  by intros [= <-].
Qed.

Lemma parseTile_persisted_owner tq tr tile parsed user :
  normalized user ->
  TileState.ownerId tile = Some user ->
  parseTile options tq tr (tileHashFields tile) = Some parsed ->
  TileState.ownerId parsed = Some user.
Proof.
  intros [Htrim Hne] Howner. unfold parseTile, tileHashFields. cbn.
  intros [= <-]. cbn. rewrite Howner. cbn. by rewrite Htrim, Hne.
Qed.

(** A successful call that reports a capture went through every stage. *)
Lemma claimTile_captured_stages userId tq tr s created next energyAfter energyCost :
  result (claimTile options clock userId tq tr) s
  = Returned (ClaimTileSuccess created true next energyAfter energyCost) ->
  let user := JS.trim userId in
  let currentTile := currentTileAt options s tq tr in
  normalized user
  /\ ownedBy currentTile user = false
  /\ exists attempt cost s1,
      claimTile options clock userId tq tr s
      = claimCommit options clock user tq tr currentTile attempt cost s1
      /\ Redis.tileHashes s1 = Redis.tileHashes s.
Proof.
  intros Hres user currentTile.
  destruct (String.eqb (JS.trim userId) "") eqn:Huser.
  { unfold result, claimTile, normalizeUserId in Hres. by rewrite Huser in Hres. }
  destruct (HexMathFloat.validateCoordinates
              (HexMathFloat.float_of_Z tq) (HexMathFloat.float_of_Z tr)) eqn:Hvalid.
  2:{ unfold result, claimTile in Hres.
      rewrite (bind_returned _ _ _ _ _ (normalizeUserId_run userId s Huser)) in Hres.
      unfold validateCoordinates in Hres. by rewrite Hvalid in Hres. }
  pose proof (normalized_trim userId Huser) as Hn. fold user in Hn.
  destruct (ownedBy currentTile user) eqn:Hown.
  { unfold result, claimTile in Hres.
    rewrite (bind_returned _ _ _ _ _ (normalizeUserId_run userId s Huser)) in Hres.
    unfold validateCoordinates in Hres. rewrite Hvalid in Hres.
    rewrite (bind_returned (mret tt) _ s tt s eq_refl) in Hres.
    rewrite (bind_returned _ _ _ _ _ (loadTile_run options tq tr s)) in Hres.
    fold currentTile user in Hres.
    destruct currentTile as [tile|]; [|done]. cbn in Hown. rewrite Hown in Hres.
    destruct (getOrCreatePlayerState_returns options clock user s) as (state & Hstate & _).
    by rewrite (bind_returned _ _ _ _ _
                  (getPlayerEnergy_run options clock user s state Hn Hstate)) in Hres. }
  split; [exact Hn|]. split; [reflexivity|].
  unfold result in Hres.
  rewrite (claimTile_entry options clock userId tq tr s Huser Hvalid Hown) in Hres |- *.
  fold user currentTile in Hres |- *. unfold claimGated in Hres |- *.
  rewrite (bind_returned _ _ _ _ _ (validateClaimDistance_run options user tq tr s))
    in Hres |- *.
  destruct (match elements (Redis.members (ownerTileKey user) s) with
            | [] => RangeOk
            | _ :: _ => _
            end) as [|nearest].
  2:{ destruct (getOrCreatePlayerState_returns options clock user s) as (state & Hstate & _).
      by rewrite (bind_returned _ _ _ _ _
                    (getPlayerEnergy_run options clock user s state Hn Hstate)) in Hres. }
  unfold claimSpend in Hres |- *. cbv zeta in Hres |- *.
  set (cost := claimCost options currentTile user) in *.
  destruct (spendPlayerEnergy_returns options clock user cost (inject_Z clock) s Hn)
    as (attempt & Hattempt).
  rewrite (bind_returned _ _ _ _ _ (run_returned _ _ _ Hattempt)) in Hres |- *.
  destruct (spend_ok attempt) eqn:Hok; [|done]. cbn [negb].
  exists attempt, cost, (exec (spendPlayerEnergy options clock user cost (inject_Z clock)) s).
  split; [reflexivity|].
  (* spending touches the player's hash only *)
  destruct (getOrCreatePlayerState_returns options clock user s) as (state & Hstate & _).
  destruct (getOrCreatePlayerState_sameWorld options clock user s) as (Htiles & _).
  unfold exec.
  destruct (Qle_bool cost 0) eqn:Hzero.
  - by rewrite (spendPlayerEnergy_free options clock user cost _ s state Hn Hstate Hzero).
  - destruct (JS.Qltb (PlayerState.energy state) cost) eqn:Hshort.
    + by rewrite (spendPlayerEnergy_short options clock user cost _ s state Hstate Hzero Hshort).
    + rewrite (spendPlayerEnergy_paid options clock user cost _ s state Hstate Hzero Hshort).
      cbn [snd]. unfold persistPlayerState. run_async. exact Htiles.
Qed.

End Capture.

(** C9.  A successful claim that captures a tile from another player
    returns a tile with the coordinates, energy, integrity, level and type
    of the tile before the claim; the owner is the claimer and [lastUpdate]
    the time of the call.  The tile read back from the store afterwards has
    the same level and type, and the same energy and integrity when those
    had at most four decimals.  A nexus stays a nexus. *)
Theorem claimTile_capture_preserves (options : Options.t) (clock : Z)
        (userId : string) (tq tr : Z) (s : Redis.t) :
  let outcome := result (claimTile options clock userId tq tr) s in
  let final := exec (claimTile options clock userId tq tr) s in
  captured outcome = true ->
  exists before next stored,
    currentTileAt options s tq tr = Some before
    /\ (exists owner, TileState.ownerId before = Some owner /\ owner <> JS.trim userId)
    /\ claimedTile outcome = Some next
    /\ currentTileAt options final tq tr = Some stored
    /\ TileState.q next = TileState.q before
    /\ TileState.r next = TileState.r before
    /\ TileState.energy next = TileState.energy before
    /\ TileState.integrity next = TileState.integrity before
    /\ TileState.level next = TileState.level before
    /\ TileState.tileType next = TileState.tileType before
    /\ TileState.ownerId next = Some (JS.trim userId)
    /\ TileState.lastUpdate next = clock
    /\ TileState.ownerId stored = Some (JS.trim userId)
    /\ TileState.level stored = TileState.level before
    /\ TileState.tileType stored = TileState.tileType before
    /\ (onGrid (TileState.energy before) ->
        (TileState.energy stored == TileState.energy before)%Q)
    /\ (onGrid (TileState.integrity before) ->
        (TileState.integrity stored == TileState.integrity before)%Q)
    /\ (TileState.tileType before = nexus ->
        TileState.tileType next = nexus /\ TileState.tileType stored = nexus).
Proof.
  intros outcome final Hcaptured.
  assert (Hres : exists created next energyAfter energyCost,
             outcome = Returned (ClaimTileSuccess created true next energyAfter energyCost)).
  { destruct outcome as [[created captured' next energyAfter energyCost| | |]|]; try done.
    cbn in Hcaptured. subst captured'. eauto. }
  destruct Hres as (created & next0 & energyAfter & energyCost & Hres).
  destruct (claimTile_captured_stages options clock userId tq tr s _ _ _ _ Hres)
    as (Hn & Hown & attempt & cost & s1 & Hrun & Htiles1).
  set (user := JS.trim userId) in *.
  set (currentTile := currentTileAt options s tq tr) in *.
  destruct (claimCommit_run options clock user tq tr currentTile attempt cost s1 Hn Hown)
    as (next & final' & Hcommit & Howner & Hupdate & Hfields & Htiles & _).
  rewrite Hcommit in Hrun.
  subst outcome final. unfold result, exec in *. rewrite Hrun in Hres |- *.
  cbn [fst snd] in Hres |- *. apply Returned_inj in Hres.
  injection Hres as _ Hother _ _ _.
  assert (Hcur : exists before, currentTile = Some before
                   /\ exists owner, TileState.ownerId before = Some owner /\ owner <> user).
  { unfold ownedByOther in Hother. destruct currentTile as [before|]; [|done].
    exists before. split; [done|].
    destruct (TileState.ownerId before) as [owner|]; [|done].
    exists owner. split; [done|]. apply andb_prop in Hother as [_ Hne].
    apply Bool.negb_true_iff in Hne. by apply String.eqb_neq. }
  destruct Hcur as (before & Hcur & Hheld). rewrite Hcur in Hfields.
  destruct Hfields as (Hq & Hr & Henergy & Hintegrity & Hlevel & Htype).
  destruct (parseTile_persisted_some options tq tr next) as [stored Hparse].
  assert (Hstored : currentTileAt options final' tq tr = Some stored).
  { unfold currentTileAt, tileKey. by rewrite Htiles, lookup_insert_eq. }
  destruct (parseTile_level_integer options tq tr _ _ Hcur) as (n & Hn1 & Hlevel_n).
  destruct (parseTile_energy options tq tr _ _ Hcur) as [Hbefore_energy Hbefore_integrity].
  destruct (parseTile_energy options tq tr _ _ Hparse) as [Hstored_energy Hstored_integrity].
  assert (Hstored_type : TileState.tileType stored = TileState.tileType before).
  { by rewrite (parseTile_persisted_tileType _ _ _ _ _ Hparse). }
  exists before, next, stored. repeat split; try done.
  - by apply (parseTile_persisted_owner options tq tr next stored user).
  - rewrite (parseTile_persisted_level _ _ _ _ _ Hparse), Hlevel, Hlevel_n.
    rewrite floor_inject_Z. f_equal. lia.
  - intros Hgrid. rewrite Hstored_energy. unfold tileHashFields. cbn. rewrite Henergy.
    rewrite (toFixedPrecision_onGrid _ Hgrid). rewrite Hbefore_energy.
    apply clamp_idempotent.
  - intros Hgrid. rewrite Hstored_integrity. unfold tileHashFields. cbn. rewrite Hintegrity.
    rewrite (toFixedPrecision_onGrid _ Hgrid). rewrite Hbefore_integrity.
    apply clamp_idempotent.
  - congruence.
  - congruence.
Qed.

(** [player-b] captures the nexus that [player-a] holds. *)
Lemma claimTile_capture_preserves_witness :
  let outcome := result (claimTile Scenario.rich_options 1 "player-b" 20 0)
                        Scenario.held_nexus in
  let final := exec (claimTile Scenario.rich_options 1 "player-b" 20 0)
                    Scenario.held_nexus in
  exists before next stored,
    currentTileAt Scenario.rich_options Scenario.held_nexus 20 0 = Some before
    /\ (exists owner, TileState.ownerId before = Some owner /\ owner <> JS.trim "player-b")
    /\ claimedTile outcome = Some next
    /\ currentTileAt Scenario.rich_options final 20 0 = Some stored
    /\ TileState.q next = TileState.q before
    /\ TileState.r next = TileState.r before
    /\ TileState.energy next = TileState.energy before
    /\ TileState.integrity next = TileState.integrity before
    /\ TileState.level next = TileState.level before
    /\ TileState.tileType next = TileState.tileType before
    /\ TileState.ownerId next = Some (JS.trim "player-b")
    /\ TileState.lastUpdate next = 1
    /\ TileState.ownerId stored = Some (JS.trim "player-b")
    /\ TileState.level stored = TileState.level before
    /\ TileState.tileType stored = TileState.tileType before
    /\ (onGrid (TileState.energy before) ->
        (TileState.energy stored == TileState.energy before)%Q)
    /\ (onGrid (TileState.integrity before) ->
        (TileState.integrity stored == TileState.integrity before)%Q)
    /\ (TileState.tileType before = nexus ->
        TileState.tileType next = nexus /\ TileState.tileType stored = nexus).
Proof.
  apply (claimTile_capture_preserves Scenario.rich_options 1 "player-b" 20 0
           Scenario.held_nexus).
  vm_compute; reflexivity.
Defined.

(** ** The recharge tick *)

Section Tick.
Variables (options : Options.t) (clock : Z).

Lemma sameWorld_refl s : sameWorld s s.
Proof. by repeat split. Qed.

Lemma sameWorld_trans s1 s2 s3 : sameWorld s1 s2 -> sameWorld s2 s3 -> sameWorld s1 s3.
Proof.
  intros (H1 & H2 & H3 & H4 & H5 & H6 & H7) (G1 & G2 & G3 & G4 & G5 & G6 & G7).
  repeat split; congruence.
Qed.

Lemma playersGrow_refl s : playersGrow s s.
Proof. split; [apply sameWorld_refl | done]. Qed.

Lemma playersGrow_trans s1 s2 s3 :
  playersGrow s1 s2 -> playersGrow s2 s3 -> playersGrow s1 s3.
Proof.
  intros [Hw1 Hp1] [Hw2 Hp2]. split; [by eapply sameWorld_trans|].
  intros user hash Hlook Hvals. apply Hp2; [|done]. by apply Hp1.
Qed.

Lemma getOrCreatePlayerState_grows user s :
  playersGrow s (exec (getOrCreatePlayerState options clock user) s).
Proof.
  split; [apply getOrCreatePlayerState_sameWorld|].
  intros other hash Hlook Hvals.
  destruct (decide (other = user)) as [->|Hne].
  - rewrite getOrCreatePlayerState_existing; [done|]. by rewrite Hlook.
  - by rewrite getOrCreatePlayerState_others.
Qed.

Lemma parseTile_owner_readable tq tr hash tile :
  parseTile options tq tr hash = Some tile ->
  readableOwner (TileState.ownerId tile).
Proof.
  unfold parseTile. destruct (negb (TileHash.hasValues hash)); [done|].
  intros [= <-]. cbn [TileState.ownerId].
  destruct (JS.nonblank (TileHash.ownerId hash)) eqn:Hblank; [|done].
  destruct (TileHash.ownerId hash) as [owner|]; [|done]. cbn in Hblank |- *.
  by apply Bool.negb_true_iff.
Qed.

Lemma getPlayerProfile_readable owner s :
  String.eqb (JS.trim owner) "" = false ->
  exists profile,
    getPlayerProfile options clock owner s
    = (Returned profile, exec (getOrCreatePlayerState options clock (JS.trim owner)) s).
Proof.
  intros Hreadable.
  destruct (getOrCreatePlayerState_returns options clock (JS.trim owner) s)
    as (state & Hstate & _).
  unfold getPlayerProfile.
  rewrite (bind_returned _ _ _ _ _ (normalizeUserId_run owner s Hreadable)).
  rewrite (bind_returned _ _ _ _ _ (run_returned _ _ _ Hstate)). eauto.
Qed.

Lemma loadTileCached_looksUp tq tr sw s :
  sweepReadable sw ->
  looksUp sw s (loadTileCached options tq tr sw s)
          (fun tile => readableOwner (ownerOf tile)).
Proof.
  intros [Hcache Hgains]. unfold loadTileCached, looksUp.
  destruct (tileCache sw !! tileKey tq tr) as [cached|] eqn:Hcached.
  - exists cached, sw, s. repeat split; try done.
    destruct cached as [tile|]; [|done]. by eapply Hcache.
  - run_async. fold (currentTileAt options s tq tr).
    eexists _, _, s. split; [reflexivity|]. repeat split; try done.
    + destruct (currentTileAt options s tq tr) as [tile|] eqn:Htile; [|done].
      by eapply parseTile_owner_readable.
    + intros key tile. cbn. intros Hlook.
      destruct (decide (key = tileKey tq tr)) as [->|Hne].
      * rewrite lookup_insert_eq in Hlook. injection Hlook as Hlook.
        by eapply parseTile_owner_readable.
      * rewrite lookup_insert_ne in Hlook by done. by eapply Hcache.
Qed.

Lemma loadProfileCached_looksUp owner sw s :
  sweepReadable sw ->
  String.eqb (JS.trim owner) "" = false ->
  looksUp sw s (loadProfileCached options clock owner sw s) (fun _ => True).
Proof.
  intros Hsw Hreadable. unfold loadProfileCached, looksUp.
  destruct (profileCache sw !! owner) as [cached|].
  - exists cached, sw, s. repeat split; try done; apply Hsw.
  - destruct (getPlayerProfile_readable owner s Hreadable) as (profile & Hprofile).
    rewrite (bind_returned _ _ _ _ _ Hprofile).
    eexists _, _, _. split; [reflexivity|]. split; [done|].
    split; [apply getOrCreatePlayerState_grows|]. by repeat split; try apply Hsw.
Qed.

Lemma looksUp_chain {A B} sw s (first : Async (A * Sweep))
      (next : A * Sweep -> Async (B * Sweep)) (goodA : A -> Prop) (goodB : B -> Prop) :
  looksUp sw s (first s) goodA ->
  (forall a sw' s', goodA a -> sweepReadable sw' ->
     looksUp sw' s' (next (a, sw') s') goodB) ->
  looksUp sw s ((first ≫= next) s) goodB.
Proof.
  intros (a & sw1 & s1 & Hfirst & Ha & Hgrow1 & Hread1 & Hgains1 & Hcount1) Hnext.
  destruct (Hnext a sw1 s1 Ha Hread1)
    as (b & sw2 & s2 & Hsecond & Hb & Hgrow2 & Hread2 & Hgains2 & Hcount2).
  exists b, sw2, s2. rewrite (bind_returned _ _ _ _ _ Hfirst).
  split; [done|]. split; [done|]. split; [by eapply playersGrow_trans|].
  split; [done|]. split; congruence.
Qed.

Lemma looksUp_ret {A} sw s (a : A) (good : A -> Prop) :
  sweepReadable sw -> good a ->
  looksUp sw s ((mret (a, sw) : Async (A * Sweep)) s) good.
Proof.
  intros Hsw Ha. exists a, sw, s. repeat split; try done; apply Hsw.
Qed.

Lemma allianceNeighborLoop_looksUp tile ownerProfile neighbors sw s :
  sweepReadable sw ->
  looksUp sw s (allianceNeighborLoop options clock tile ownerProfile neighbors sw s)
          (fun _ => True).
Proof.
  revert sw s. induction neighbors as [|neighbor rest IH]; intros sw s Hsw.
  - by apply looksUp_ret.
  - cbn [allianceNeighborLoop].
    eapply looksUp_chain; [by apply loadTileCached_looksUp|].
    intros neighborTile sw1 s1 Hreadable Hsw1. cbn beta iota in Hreadable |- *.
    destruct (negb (truthy (ownerOf neighborTile))
              || same_string (ownerOf neighborTile) (TileState.ownerId tile)) eqn:Hskip;
      [by apply IH|].
    apply Bool.orb_false_elim in Hskip as [Howned _].
    eapply looksUp_chain.
    + apply loadProfileCached_looksUp; [done|].
      by destruct (ownerOf neighborTile) as [owner|].
    + intros neighborProfile sw2 s2 _ Hsw2. cbn beta iota.
      destruct (same_string _ _); [by apply looksUp_ret | by apply IH].
Qed.

Lemma getAllianceBonusMultiplier_looksUp tile sw s :
  sweepReadable sw ->
  readableOwner (TileState.ownerId tile) ->
  looksUp sw s (getAllianceBonusMultiplier options clock tile sw s) (fun _ => True).
Proof.
  intros Hsw Hreadable. unfold getAllianceBonusMultiplier.
  destruct (negb (truthy (TileState.ownerId tile))) eqn:Howned; [by apply looksUp_ret|].
  eapply looksUp_chain.
  - apply loadProfileCached_looksUp; [done|].
    by destruct (TileState.ownerId tile) as [owner|].
  - intros ownerProfile sw1 s1 _ Hsw1. cbn beta iota.
    destruct (negb (truthy (Profile.allianceTag ownerProfile)));
      [by apply looksUp_ret | by apply allianceNeighborLoop_looksUp].
Qed.

Lemma emptySweep_readable : sweepReadable emptySweep.
Proof. split; [by intros key tile | by intros owner gain []]. Qed.

Lemma playersGrow_tilesAside s s' : playersGrow s s' -> tilesAside s s'.
Proof. intros [(H1 & H2 & H3 & H4 & H5 & H6 & H7) Hp]. by repeat split. Qed.

Lemma tilesAside_refl s : tilesAside s s.
Proof. by repeat split. Qed.

Lemma tilesAside_trans s1 s2 s3 : tilesAside s1 s2 -> tilesAside s2 s3 -> tilesAside s1 s3.
Proof.
  intros (H1 & H2 & H3 & H4 & H5 & H6 & H7) (G1 & G2 & G3 & G4 & G5 & G6 & G7).
  split; [congruence|]. split; [congruence|]. split; [congruence|].
  split; [congruence|]. split; [congruence|]. split; [congruence|].
  intros user hash Hlook Hvals. apply G7; [|done]. by apply H7.
Qed.

Lemma setGain_readable owner value gains :
  String.eqb (JS.trim owner) "" = false ->
  (forall o g, In (o, g) gains -> String.eqb (JS.trim o) "" = false) ->
  forall o g, In (o, g) (setGain owner value gains) -> String.eqb (JS.trim o) "" = false.
Proof.
  intros Howner. induction gains as [|[o' g'] rest IH]; intros Hall o g.
  - cbn. by intros [[= <- <-]|[]].
  - cbn [setGain]. destruct (String.eqb o' owner) eqn:Heq.
    + intros [[= <- <-]|Hin]; [by eapply (Hall o' g'); left | by eapply Hall; right].
    + intros [[= <- <-]|Hin]; [by eapply (Hall o' g'); left|].
      eapply IH; [|exact Hin]. intros o0 g0 Hin0. eapply Hall. by right.
Qed.

Lemma noteGain_readable tile generated sw :
  readableOwner (TileState.ownerId tile) ->
  sweepReadable sw -> sweepReadable (noteGain tile generated sw).
Proof.
  intros Hreadable Hsw. unfold noteGain.
  destruct (truthy (TileState.ownerId tile) && JS.Qltb 0 generated) eqn:Hcredit; [|done].
  split; [apply Hsw|]. cbn. apply setGain_readable; [|apply Hsw].
  apply andb_prop in Hcredit as [Howned _]. by destruct (TileState.ownerId tile).
Qed.

Lemma noteGain_counter tile generated sw :
  updatedTiles (noteGain tile generated sw) = updatedTiles sw.
Proof. unfold noteGain. by destruct (_ && _). Qed.

Lemma evolveTileState_owner tile now multiplier :
  TileState.ownerId (fst (evolveTileState options tile now multiplier))
  = TileState.ownerId tile.
Proof. unfold evolveTileState. cbv zeta. by destruct (Qeq_bool _ 0). Qed.

(** One iteration of the sweep, spelled out. *)
Lemma rechargeMember_step now sw member s :
  sweepReadable sw ->
  exists sw' s',
    rechargeMember options clock now sw member s = (Returned sw', s')
    /\ sweepReadable sw'
    /\ tilesAside s s'
    /\ match parseMember member with
       | None => sw' = sw /\ s' = s
       | Some coordinate =>
           match currentTileAt options s (q coordinate) (r coordinate) with
           | None =>
               Redis.tileHashes s' = Redis.tileHashes s
               /\ ownerEnergyGains sw' = ownerEnergyGains sw
               /\ updatedTiles sw' = updatedTiles sw
           | Some tile =>
               exists multiplier,
                 let evolved := evolveTileState options tile now multiplier in
                 (if sameTileState tile (fst evolved)
                  then Redis.tileHashes s' = Redis.tileHashes s
                       /\ updatedTiles sw' = updatedTiles sw
                  else Redis.tileHashes s'
                       = <[(q coordinate, r coordinate) := tileHashFields (fst evolved)]>
                           (Redis.tileHashes s)
                       /\ updatedTiles sw' = updatedTiles sw + 1)
                 /\ ownerEnergyGains sw'
                    = ownerEnergyGains (noteGain tile (snd evolved) sw)
           end
       end.
Proof.
  intros Hsw. unfold rechargeMember.
  destruct (parseMember member) as [coordinate|].
  2:{ exists sw, s. repeat split; try done; apply Hsw. }
  rewrite (bind_returned (hGetAll_tile _) _ s
             (default TileHash.empty
                (Redis.tileHashes s !! tileKey (q coordinate) (r coordinate))) s eq_refl).
  fold (currentTileAt options s (q coordinate) (r coordinate)).
  set (key := tileKey (q coordinate) (r coordinate)).
  set (parsed := currentTileAt options s (q coordinate) (r coordinate)).
  assert (Hsw0 : sweepReadable (cacheTile key parsed sw)).
  { split; [|apply Hsw]. intros key' tile'. cbn. intros Hlook.
    destruct (decide (key' = key)) as [->|Hne].
    - rewrite lookup_insert_eq in Hlook. injection Hlook as Hlook.
      by eapply parseTile_owner_readable.
    - rewrite lookup_insert_ne in Hlook by done. by eapply (proj1 Hsw). }
  destruct parsed as [tile|] eqn:Hparsed.
  2:{ eexists _, s. split; [reflexivity|]. split; [exact Hsw0|].
      split; [apply tilesAside_refl|]. by repeat split. }
  assert (Hreadable : readableOwner (TileState.ownerId tile))
    by by eapply parseTile_owner_readable.
  destruct (getAllianceBonusMultiplier_looksUp tile _ s Hsw0 Hreadable)
    as (multiplier & sw1 & s1 & Hbonus & _ & Hgrow & Hsw1 & Hgains1 & Hcount1).
  rewrite (bind_returned _ _ _ _ _ Hbonus). cbn beta iota zeta.
  set (evolved := evolveTileState options tile now multiplier).
  pose proof (playersGrow_tilesAside _ _ Hgrow) as Haside.
  destruct Hgrow as [(Htiles1 & _) _].
  assert (Hnote : forall sw2, ownerEnergyGains sw2 = ownerEnergyGains sw ->
            ownerEnergyGains (noteGain tile (snd evolved) sw2)
            = ownerEnergyGains (noteGain tile (snd evolved) sw)).
  { intros sw2 Hgains2. unfold noteGain. destruct (_ && _); cbn; by rewrite Hgains2. }
  destruct (sameTileState tile (fst evolved)) eqn:Hsame; cbn [negb].
  - rewrite (bind_returned (mret sw1) _ s1 sw1 s1 eq_refl).
    eexists _, s1. split; [reflexivity|].
    split; [by apply noteGain_readable|]. split; [done|].
    exists multiplier. fold evolved. cbn zeta. rewrite Hsame.
    rewrite noteGain_counter, Hcount1. split; [done|]. by apply Hnote.
  - unfold persistTileState. run_async.
    eexists _, _. split; [reflexivity|]. split; [|split].
    + apply noteGain_readable; [done|].
      split; [|apply Hsw1]. intros key' tile'. cbn. intros Hlook.
      destruct (decide (key' = key)) as [->|Hne].
      * rewrite lookup_insert_eq in Hlook. injection Hlook as Hlook. subst tile'.
        unfold evolved. by rewrite evolveTileState_owner.
      * rewrite lookup_insert_ne in Hlook by done. by eapply (proj1 Hsw1).
    + destruct Haside as (H1 & H2 & H3 & H4 & H5 & H6 & H7). by repeat split.
    + exists multiplier. fold evolved. cbn zeta. rewrite Hsame.
      rewrite noteGain_counter. cbn. rewrite Htiles1, Hcount1.
      split; [done|]. by apply Hnote.
Qed.

End Tick.

(** ** Set members name their coordinates *)

Lemma colonFree_uint d : colonFree (DecimalString.NilEmpty.string_of_uint d) = true.
Proof. induction d; cbn; done. Qed.

Lemma colonFree_String_of_int n : colonFree (JS.String_of_int n) = true.
Proof.
  unfold JS.String_of_int, DecimalString.NilZero.string_of_int,
    DecimalString.NilZero.string_of_uint.
  destruct (Z.to_int n) as [d|d]; destruct d; cbn; try done; apply colonFree_uint.
Qed.

Lemma split_colon_free s : colonFree s = true -> JS.split_colon s = [s].
Proof.
  induction s as [|c rest IH]; [done|]. cbn.
  intros [Hc Hrest]%andb_prop. apply Bool.negb_true_iff in Hc.
  by rewrite Hc, (IH Hrest).
Qed.

Lemma split_colon_app a b :
  colonFree a = true -> JS.split_colon (a ++ ":" ++ b) = a :: JS.split_colon b.
Proof.
  induction a as [|c rest IH]; [done|]. cbn [colonFree].
  intros [Hc Hrest]%andb_prop. apply Bool.negb_true_iff in Hc.
  change (String c rest ++ ":" ++ b) with (String c (rest ++ ":" ++ b)).
  cbn [JS.split_colon]. by rewrite Hc, (IH Hrest).
Qed.

Lemma Number_integer_String_of_int n : JS.Number_integer (JS.String_of_int n) = Some n.
Proof.
  unfold JS.Number_integer, JS.String_of_int.
  rewrite DecimalString.NilZero.isi.
  - cbn. f_equal. apply DecimalZ.of_to.
  - destruct n as [|p|p]; cbn; try discriminate.
    intros [= H]. by apply (DecimalPos.Unsigned.to_uint_nonnil p).
  - destruct n as [|p|p]; cbn; try discriminate.
    intros [= H]. by apply (DecimalPos.Unsigned.to_uint_nonnil p).
Qed.

Lemma parseMember_coordMember tq tr :
  parseMember (coordMember tq tr) = Some (mkHexTile tq tr).
Proof.
  unfold parseMember, coordMember.
  rewrite split_colon_app by apply colonFree_String_of_int.
  rewrite split_colon_free by apply colonFree_String_of_int.
  by rewrite !Number_integer_String_of_int.
Qed.

Lemma coordMember_inj tq tr tq' tr' :
  coordMember tq tr = coordMember tq' tr' -> (tq, tr) = (tq', tr').
Proof.
  intros Heq. pose proof (parseMember_coordMember tq tr) as H.
  rewrite Heq, parseMember_coordMember in H. by injection H as -> ->.
Qed.

(** ** C2: the leaderboard counts the tiles a player holds *)

Section Ledger.
Variables (options : Options.t) (clock : Z).

Lemma spendPlayerEnergy_sameWorld user cost now s :
  normalized user ->
  exists attempt s1,
    spendPlayerEnergy options clock user cost now s = (Returned attempt, s1)
    /\ sameWorld s s1.
Proof.
  intros Hn.
  destruct (getOrCreatePlayerState_returns options clock user s) as (state & Hstate & _).
  pose proof (getOrCreatePlayerState_sameWorld options clock user s) as Hsame.
  destruct (Qle_bool cost 0) eqn:Hcost.
  - rewrite (spendPlayerEnergy_free options clock user cost now s state Hn Hstate Hcost). eauto.
  - destruct (JS.Qltb (PlayerState.energy state) cost) eqn:Hshort.
    + rewrite (spendPlayerEnergy_short options clock user cost now s state Hstate Hcost Hshort).
      eauto.
    + rewrite (spendPlayerEnergy_paid options clock user cost now s state Hstate Hcost Hshort).
      eexists _, _. split; [reflexivity|].
      unfold persistPlayerState. run_async.
      destruct Hsame as (H1 & H2 & H3 & H4 & H5 & H6 & H7). by repeat split.
Qed.

Lemma getPlayerEnergy_sameWorld user s :
  normalized user ->
  exists energy s1,
    getPlayerEnergy options clock user s = (Returned energy, s1) /\ sameWorld s s1.
Proof.
  intros Hn.
  destruct (getOrCreatePlayerState_returns options clock user s) as (state & Hstate & _).
  rewrite (getPlayerEnergy_run options clock user s state Hn Hstate).
  eexists _, _. split; [reflexivity|]. apply getOrCreatePlayerState_sameWorld.
Qed.

(** What a [claimTile] call does to the tiles, the owner sets and the
    leaderboard: nothing, or the commit of [claimCommit_run]. *)
Lemma claimTile_effect userId tq tr s :
  let final := exec (claimTile options clock userId tq tr) s in
  let currentTile := currentTileAt options s tq tr in
  sameWorld s final
  \/ exists user next,
       normalized user
       /\ ownedBy currentTile user = false
       /\ TileState.ownerId next = Some user
       /\ Redis.tileHashes final
          = <[(tq, tr) := tileHashFields next]> (Redis.tileHashes s)
       /\ (forall p,
             Redis.members (ownerTileKey p) final
             = if decide (p = user)
               then Redis.members (ownerTileKey p) s ∪ {[coordMember tq tr]}
               else if ownedByOther currentTile user
                       && bool_decide (p = default "" (ownerOf currentTile))
                    then Redis.members (ownerTileKey p) s ∖ {[coordMember tq tr]}
                    else Redis.members (ownerTileKey p) s)
       /\ (forall p,
             Redis.score p final
             = Redis.score p s
               + (if decide (p = user) then 1 else 0)
               - (if ownedByOther currentTile user
                     && bool_decide (p = default "" (ownerOf currentTile))
                  then 1 else 0)).
Proof.
  intros final currentTile. subst final.
  destruct (String.eqb (JS.trim userId) "") eqn:Huser.
  { left. unfold exec, claimTile.
    assert (Hthrown : normalizeUserId userId s = (Thrown "userId must not be empty", s))
      by (unfold normalizeUserId; by rewrite Huser).
    rewrite (bind_thrown _ _ _ _ _ Hthrown). apply sameWorld_refl. }
  destruct (HexMathFloat.validateCoordinates
              (HexMathFloat.float_of_Z tq) (HexMathFloat.float_of_Z tr)) eqn:Hvalid.
  2:{ left. unfold exec, claimTile.
      rewrite (bind_returned _ _ _ _ _ (normalizeUserId_run userId s Huser)).
      assert (Hthrown : validateCoordinates tq tr s
                        = (Thrown "q and r are not valid axial coordinates", s))
        by (unfold validateCoordinates; by rewrite Hvalid).
      rewrite (bind_thrown _ _ _ _ _ Hthrown). apply sameWorld_refl. }
  pose proof (normalized_trim userId Huser) as Hn.
  set (user := JS.trim userId) in *.
  destruct (ownedBy currentTile user) eqn:Hown.
  { left. unfold exec, claimTile.
    rewrite (bind_returned _ _ _ _ _ (normalizeUserId_run userId s Huser)).
    unfold validateCoordinates. rewrite Hvalid.
    rewrite (bind_returned (mret tt) _ s tt s eq_refl).
    rewrite (bind_returned _ _ _ _ _ (loadTile_run options tq tr s)).
    fold currentTile user. destruct currentTile as [tile|]; [|done].
    cbn in Hown. rewrite Hown.
    destruct (getPlayerEnergy_sameWorld user s Hn) as (energy & s1 & Hrun & Hsame).
    by rewrite (bind_returned _ _ _ _ _ Hrun). }
  unfold exec. rewrite (claimTile_entry options clock userId tq tr s Huser Hvalid Hown).
  fold user currentTile. unfold claimGated.
  rewrite (bind_returned _ _ _ _ _ (validateClaimDistance_run options user tq tr s)).
  match goal with |- context [match ?range with RangeOk => _ | RangeFail _ => _ end] =>
    destruct range as [|nearest] end.
  2:{ left. destruct (getPlayerEnergy_sameWorld user s Hn) as (energy & s1 & Hrun & Hsame).
      by rewrite (bind_returned _ _ _ _ _ Hrun). }
  unfold claimSpend. cbv zeta.
  match goal with |- context [spendPlayerEnergy _ _ _ ?cost ?now] =>
    destruct (spendPlayerEnergy_sameWorld user cost now s Hn)
      as (attempt & s1 & Hspend & Hsame);
    rewrite (bind_returned _ _ _ _ _ Hspend)
  end.
  destruct (spend_ok attempt); cbn [negb]; [|by left].
  right. exists user.
  match goal with |- context [claimCommit _ _ _ _ _ _ _ ?cost] =>
    destruct (claimCommit_run options clock user tq tr currentTile attempt cost s1 Hn Hown)
      as (next & final & Hrun & Howner & _ & _ & Htiles & _ & Hmembers & Hscore)
  end.
  exists next. rewrite Hrun. cbn [snd].
  destruct Hsame as (Htiles1 & _ & Hboard1 & _ & _ & _ & Howners1).
  split; [done|]. split; [done|]. split; [done|]. split; [by rewrite Htiles, Htiles1|].
  split; intros p.
  - rewrite (Hmembers p). unfold Redis.members. by rewrite Howners1.
  - rewrite (Hscore p). unfold Redis.score. by rewrite Hboard1.
Qed.

Lemma ownersTracked_sameWorld s s' :
  sameWorld s s' -> ownersTracked options s -> ownersTracked options s'.
Proof.
  intros (Htiles & _ & Hboard & _ & _ & _ & Howners) (Hin & Hheld & Hscore).
  unfold ownersTracked, currentTileAt, Redis.members, Redis.score in *.
  rewrite Htiles, Hboard, Howners. done.
Qed.

Lemma currentTileAt_insert s s' tq tr fields xq xr :
  Redis.tileHashes s' = <[(tq, tr) := fields]> (Redis.tileHashes s) ->
  currentTileAt options s' xq xr
  = if decide ((xq, xr) = (tq, tr)) then parseTile options xq xr fields
    else currentTileAt options s xq xr.
Proof.
  intros Htiles. unfold currentTileAt, tileKey. rewrite Htiles.
  destruct (decide ((xq, xr) = (tq, tr))) as [->|Hne].
  - by rewrite lookup_insert_eq.
  - by rewrite lookup_insert_ne.
Qed.

Lemma ownedBy_owner tile user :
  TileState.ownerId tile = Some user -> ownedBy (Some tile) user = true.
Proof. intros Howner. cbn. rewrite Howner. apply String.eqb_refl. Qed.

Lemma ownedByOther_owner tq tr hash tile owner user :
  parseTile options tq tr hash = Some tile ->
  TileState.ownerId tile = Some owner ->
  owner <> user ->
  ownedByOther (Some tile) user = true /\ default "" (ownerOf (Some tile)) = owner.
Proof.
  intros Hparse Howner Hne. cbn. rewrite Howner.
  rewrite (parseTile_owner_truthy options tq tr hash tile owner Hparse Howner).
  cbn. split; [|done]. by apply Bool.negb_true_iff, String.eqb_neq.
Qed.

Lemma size_add_member (X : gset string) member :
  member ∉ X -> Z.of_nat (size (X ∪ {[member]})) = Z.of_nat (size X) + 1.
Proof.
  intros Hnew. rewrite size_union by set_solver. rewrite size_singleton. lia.
Qed.

Lemma size_remove_member (X : gset string) member :
  member ∈ X -> Z.of_nat (size (X ∖ {[member]})) = Z.of_nat (size X) - 1.
Proof.
  intros Hold.
  assert (Hsub : ({[member]} : gset string) ⊆ X) by set_solver.
  pose proof (subseteq_size _ _ Hsub) as Hle.
  rewrite (size_difference _ _ Hsub). rewrite size_singleton in *. lia.
Qed.

(** A [claimTile] call keeps the owner sets, the leaderboard and the
    tiles in step. *)
Lemma ownersTracked_claimTile userId tq tr s :
  ownersTracked options s ->
  ownersTracked options (exec (claimTile options clock userId tq tr) s).
Proof.
  intros Htracked.
  destruct (claimTile_effect userId tq tr s)
    as [Hsame|(user & next & Hn & Hown & Hnext & Htiles & Hmembers & Hscore)];
    [by eapply ownersTracked_sameWorld|].
  set (final := exec (claimTile options clock userId tq tr) s) in *.
  set (currentTile := currentTileAt options s tq tr) in *.
  set (target := coordMember tq tr) in *.
  destruct Htracked as (Hin & Hheld & Hcount).
  destruct (parseTile_persisted_some options tq tr next) as [parsed Hparsed].
  pose proof (parseTile_persisted_owner options tq tr next parsed user Hn Hnext Hparsed)
    as Hparsed_owner.
  assert (Hfresh : target ∉ Redis.members (ownerTileKey user) s).
  { intros (xq & xr & tile & Heq & Htile & Howner)%Hin.
    apply coordMember_inj in Heq. injection Heq as <- <-.
    fold currentTile in Htile. rewrite Htile in Hown.
    by rewrite (ownedBy_owner tile user Howner) in Hown. }
  assert (Hother : forall xq xr tile p,
             currentTileAt options s xq xr = Some tile ->
             TileState.ownerId tile = Some p ->
             (xq, xr) = (tq, tr) -> p <> user ->
             ownedByOther currentTile user = true
             /\ default "" (ownerOf currentTile) = p).
  { intros xq xr tile p Htile Howner [= -> ->] Hne. fold currentTile in Htile.
    rewrite Htile. by eapply ownedByOther_owner. }
  split; [|split].
  - intros p member. rewrite (Hmembers p). intros Hmember.
    destruct (decide (p = user)) as [->|Hpu].
    + apply elem_of_union in Hmember as [Hmember|Hmember%elem_of_singleton].
      * destruct (Hin _ _ Hmember) as (xq & xr & tile & Heq & Htile & Howner).
        exists xq, xr, tile. split; [done|]. split; [|done].
        rewrite (currentTileAt_insert s final tq tr _ xq xr Htiles).
        destruct (decide ((xq, xr) = (tq, tr))) as [[= -> ->]|Hne]; [|done].
        fold currentTile in Htile. rewrite Htile in Hown.
        by rewrite (ownedBy_owner tile user Howner) in Hown.
      * exists tq, tr, parsed. split; [done|]. split; [|done].
        rewrite (currentTileAt_insert s final tq tr _ tq tr Htiles).
        by rewrite decide_True.
    + assert (Hbefore : member ∈ Redis.members (ownerTileKey p) s).
      { destruct (_ && _); [by apply elem_of_difference in Hmember as [? _] | done]. }
      destruct (Hin _ _ Hbefore) as (xq & xr & tile & Heq & Htile & Howner).
      exists xq, xr, tile. split; [done|]. split; [|done].
      rewrite (currentTileAt_insert s final tq tr _ xq xr Htiles).
      destruct (decide ((xq, xr) = (tq, tr))) as [Hat|Hne]; [|done].
      destruct (Hother xq xr tile p Htile Howner Hat Hpu) as [Hcap Hprev].
      rewrite Hcap, Hprev, bool_decide_eq_true_2 in Hmember by done.
      injection Hat as -> ->. subst member.
      apply elem_of_difference in Hmember as [_ Hnot]. exfalso. by apply Hnot, elem_of_singleton.
  - intros xq xr tile p. rewrite (currentTileAt_insert s final tq tr _ xq xr Htiles).
    rewrite (Hmembers p).
    destruct (decide ((xq, xr) = (tq, tr))) as [[= -> ->]|Hne].
    + rewrite Hparsed. intros [= <-]. rewrite Hparsed_owner. intros [= <-].
      rewrite decide_True by done. by apply elem_of_union_r, elem_of_singleton.
    + intros Htile Howner. pose proof (Hheld xq xr tile p Htile Howner) as Hmember.
      assert (Hdiff : coordMember xq xr <> target).
      { intros Heq. by apply coordMember_inj in Heq. }
      destruct (decide (p = user)); [by apply elem_of_union_l|].
      destruct (_ && _); [|done].
      apply elem_of_difference. split; [done|]. by rewrite elem_of_singleton.
  - intros p. rewrite (Hscore p), (Hmembers p), (Hcount p).
    destruct (decide (p = user)) as [->|Hpu].
    + rewrite size_add_member by done.
      destruct (ownedByOther currentTile user) eqn:Hcap; [|cbn; lia].
      rewrite bool_decide_eq_false_2; [cbn; lia|].
      intros Heq. by apply (ownedByOther_previous currentTile user Hcap).
    + destruct (ownedByOther currentTile user && bool_decide _) eqn:Hcap; [|lia].
      apply andb_prop in Hcap as [Hcap Hprev%bool_decide_eq_true_1].
      rewrite size_remove_member; [lia|].
      unfold ownedByOther in Hcap. unfold ownerOf in Hprev.
      destruct currentTile as [tile|] eqn:Htile; [|done].
      apply andb_prop in Hcap as [Htruthy _].
      destruct (TileState.ownerId tile) as [owner|] eqn:Howner; [|done].
      cbn in Hprev. subst owner. by eapply Hheld.
Qed.

Lemma ownersTracked_empty : ownersTracked options Redis.empty.
Proof.
  split; [|split].
  - intros p member. cbn. rewrite lookup_empty. cbn. set_solver.
  - intros tq tr tile p. unfold currentTileAt. cbn. rewrite lookup_empty. by cbn.
  - intros p. unfold Redis.score. cbn. by rewrite !lookup_empty.
Qed.

End Ledger.

Lemma ownersTracked_afterClaims options calls s :
  ownersTracked options s -> ownersTracked options (afterClaims options calls s).
Proof.
  revert s. induction calls as [|call rest IH]; intros s Htracked; [done|].
  cbn [afterClaims]. by apply IH, ownersTracked_claimTile.
Qed.

(** C2.  After any finite history of [claimTile] calls on an empty world,
    whoever calls, on whatever coordinates and at whatever times, and
    whether the calls succeed, are refused or throw: for every player [p]
    the leaderboard score of [p] is the number of members of
    [owner:p:tiles]; and after every prefix of the history the score of
    [p] is at least zero. *)
Theorem leaderboard_counts_owned_tiles (options : Options.t)
        (calls : list ClaimCall) (p : string) :
  Redis.score p (afterClaims options calls Redis.empty)
  = Z.of_nat (size (Redis.members (ownerTileKey p)
                      (afterClaims options calls Redis.empty)))
  /\ forall n : nat,
       0 <= Redis.score p (afterClaims options (take n calls) Redis.empty).
Proof.
  split.
  - apply (ownersTracked_afterClaims options calls Redis.empty
             (ownersTracked_empty options)).
  - intros n.
    destruct (ownersTracked_afterClaims options (take n calls) Redis.empty
                (ownersTracked_empty options)) as (_ & _ & Hcount).
    rewrite (Hcount p). lia.
Qed.

(** The capture scenario of the tests as a history: [player-a] claims
    [(3, -1)], [player-b] claims [(0, 0)] and then captures [(3, -1)]. *)
Example leaderboard_after_capture :
  let calls := [mkClaimCall "player-a" 3 (-1) 0; mkClaimCall "player-b" 0 0 0;
                mkClaimCall "player-b" 3 (-1) 0] in
  let world := afterClaims Scenario.rich_options calls Redis.empty in
  Redis.score "player-a" world = 0
  /\ Redis.members (ownerTileKey "player-a") world = ∅
  /\ Redis.score "player-b" world = 2
  /\ size (Redis.members (ownerTileKey "player-b") world) = 2%nat.
Proof. vm_compute. repeat split; reflexivity. Qed.

(** ** A tile without integrity *)

#[global] Instance toFixedPrecision_proper : Proper (Qeq ==> Qeq) JS.toFixedPrecision.
Proof.
  intros x y Hxy. unfold JS.toFixedPrecision, JS.Qltb.
  rewrite (Qfloor_comp (Qabs x * 10000 + (1 # 2)) (Qabs y * 10000 + (1 # 2)))
    by by rewrite Hxy.
  by rewrite (Qleb_comp 0%Q 0%Q (reflexivity 0%Q) x y Hxy).
Qed.

Lemma onGrid_proper x y : (x == y)%Q -> onGrid x -> onGrid y.
Proof. intros Hxy [k Hk]. exists k. by rewrite <- Hxy. Qed.

Section ZeroIntegrity.
Variables (options : Options.t) (clock : Z).



End ZeroIntegrity.

(** ** C5: a second tick at the same time *)

Section AtRest.
Variable options : Options.t.

Lemma same_string_refl a : same_string a a = true.
Proof. destruct a; [apply String.eqb_refl | done]. Qed.

Lemma sameTileState_refl tile : sameTileState tile tile = true.
Proof.
  unfold sameTileState.
  rewrite !Z.eqb_refl, !same_string_refl, !Qeq_bool_refl.
  by destruct (TileState.tileType tile).
Qed.

Lemma sameTileState_lastUpdate a b :
  sameTileState a b = true -> TileState.lastUpdate a = TileState.lastUpdate b.
Proof.
  unfold sameTileState. rewrite !Bool.andb_true_iff.
  intros [[[[_ Hupdate] _] _] _]. by apply Z.eqb_eq.
Qed.

(** No time elapsed: [evolveTileState] hands the tile back. *)
Lemma evolveTileState_at_rest tile now multiplier :
  (now <= inject_Z (TileState.lastUpdate tile))%Q ->
  evolveTileState options tile now multiplier = (tile, 0%Q).
Proof.
  intros Hle. unfold evolveTileState. cbv zeta.
  assert (Hrest : Qeq_bool (Qmax 0 (now - inject_Z (TileState.lastUpdate tile))) 0 = true).
  { apply Qeq_bool_iff, Q.max_l. lra. }
  by rewrite Hrest.
Qed.

(** At a time in whole milliseconds the evolved tile is up to date. *)
Lemma evolveTileState_reaches tile now multiplier :
  wholeMs now ->
  (now <= inject_Z (TileState.lastUpdate (fst (evolveTileState options tile now multiplier))))%Q.
Proof.
  intros Hwhole. unfold evolveTileState. cbv zeta.
  destruct (Qeq_bool _ 0) eqn:Hrest; cbn [fst TileState.lastUpdate].
  - apply Qeq_bool_iff in Hrest.
    pose proof (Q.le_max_r 0 (now - inject_Z (TileState.lastUpdate tile))). lra.
  - unfold wholeMs in Hwhole. rewrite Hwhole. apply Qle_refl.
Qed.

Lemma parseTile_persisted_lastUpdate tq tr tile parsed :
  parseTile options tq tr (tileHashFields tile) = Some parsed ->
  TileState.lastUpdate parsed = TileState.lastUpdate tile.
Proof.
  unfold parseTile, tileHashFields. cbn. intros [= <-]. cbn.
  apply floor_inject_Z.
Qed.

Lemma settledAt_tiles now s s' key :
  Redis.tileHashes s' = Redis.tileHashes s ->
  settledAt options now s key -> settledAt options now s' key.
Proof. unfold settledAt, currentTileAt. by intros ->. Qed.

End AtRest.

Section SecondTick.
Variables (options : Options.t) (clock : Z).

(** One iteration at a time in whole milliseconds leaves its tile up to
    date and keeps every tile up to date that was. *)
Lemma rechargeMember_settles now sw member s :
  wholeMs now ->
  sweepReadable sw ->
  exists sw' s',
    rechargeMember options clock now sw member s = (Returned sw', s')
    /\ sweepReadable sw'
    /\ tilesAside s s'
    /\ (forall coordinate,
          parseMember member = Some coordinate ->
          settledAt options now s' (q coordinate, r coordinate))
    /\ (forall key, settledAt options now s key -> settledAt options now s' key).
Proof.
  intros Hwhole Hsw.
  destruct (rechargeMember_step options clock now sw member s Hsw)
    as (sw' & s' & Hrun & Hsw' & Haside & Hstep).
  exists sw', s'. split; [exact Hrun|]. split; [exact Hsw'|]. split; [exact Haside|].
  destruct (parseMember member) as [coordinate|].
  2:{ destruct Hstep as [_ ->]. by split. }
  destruct (currentTileAt options s (q coordinate) (r coordinate)) as [tile|] eqn:Htile.
  2:{ destruct Hstep as (Htiles & _ & _). split.
      - intros c [= <-] tile'. unfold currentTileAt in *. cbn [fst snd].
        rewrite Htiles, Htile. discriminate.
      - intros key. by apply settledAt_tiles. }
  destruct Hstep as (multiplier & Hstored & _).
  pose proof (evolveTileState_reaches options tile now multiplier Hwhole) as Hreach.
  set (evolved := evolveTileState options tile now multiplier) in *.
  destruct (sameTileState tile (fst evolved)) eqn:Hsame.
  - destruct Hstored as [Htiles _]. split; [|intros key; by apply settledAt_tiles].
    intros c [= <-] tile'. unfold currentTileAt in *. cbn [fst snd].
    rewrite Htiles, Htile. intros [= <-].
    by rewrite (sameTileState_lastUpdate _ _ Hsame).
  - destruct Hstored as [Htiles _].
    assert (Hown : settledAt options now s' (q coordinate, r coordinate)).
    { intros tile'. unfold currentTileAt, tileKey. cbn [fst snd].
      rewrite Htiles, lookup_insert_eq. cbn [default from_option]. intros Hparsed.
      by rewrite (parseTile_persisted_lastUpdate options _ _ _ _ Hparsed). }
    split; [by intros c [= <-]|].
    intros key Hkey. destruct (decide (key = (q coordinate, r coordinate))) as [->|Hne]; [done|].
    intros tile'. unfold currentTileAt, tileKey. rewrite Htiles.
    destruct key as [kq kr]. cbn [fst snd]. rewrite lookup_insert_ne by done.
    apply (Hkey tile').
Qed.

Lemma rechargeMembers_settle now members sw s :
  wholeMs now ->
  sweepReadable sw ->
  exists sw' s',
    rechargeMembers options clock now members sw s = (Returned sw', s')
    /\ sweepReadable sw'
    /\ tilesAside s s'
    /\ (forall member coordinate,
          In member members -> parseMember member = Some coordinate ->
          settledAt options now s' (q coordinate, r coordinate))
    /\ (forall key, settledAt options now s key -> settledAt options now s' key).
Proof.
  intros Hwhole. revert sw s.
  induction members as [|member rest IH]; intros sw s Hsw.
  - exists sw, s. split; [done|]. split; [done|]. split; [apply tilesAside_refl|].
    split; [by intros member coordinate []|done].
  - destruct (rechargeMember_settles now sw member s Hwhole Hsw)
      as (sw1 & s1 & Hrun1 & Hsw1 & Haside1 & Hown1 & Hkeep1).
    destruct (IH sw1 s1 Hsw1) as (sw2 & s2 & Hrun2 & Hsw2 & Haside2 & Hown2 & Hkeep2).
    exists sw2, s2. cbn [rechargeMembers].
    rewrite (bind_returned _ _ _ _ _ Hrun1). split; [exact Hrun2|].
    split; [exact Hsw2|]. split; [by eapply tilesAside_trans|]. split.
    + intros m c [<-|Hin] Hparse; [by apply Hkeep2, Hown1 | by eapply Hown2].
    + intros key Hkey. by apply Hkeep2, Hkeep1.
Qed.

(** Once every tile of the list is up to date, the loop writes no tile,
    counts none and notes no gain. *)
Lemma rechargeMembers_at_rest now members sw s :
  sweepReadable sw ->
  (forall member coordinate,
      In member members -> parseMember member = Some coordinate ->
      settledAt options now s (q coordinate, r coordinate)) ->
  exists sw' s',
    rechargeMembers options clock now members sw s = (Returned sw', s')
    /\ tilesAside s s'
    /\ Redis.tileHashes s' = Redis.tileHashes s
    /\ ownerEnergyGains sw' = ownerEnergyGains sw
    /\ updatedTiles sw' = updatedTiles sw.
Proof.
  revert sw s. induction members as [|member rest IH]; intros sw s Hsw Hsettled.
  - exists sw, s. split; [done|]. split; [apply tilesAside_refl|]. done.
  - destruct (rechargeMember_step options clock now sw member s Hsw)
      as (sw1 & s1 & Hrun1 & Hsw1 & Haside1 & Hstep).
    assert (Hquiet : Redis.tileHashes s1 = Redis.tileHashes s
                     /\ ownerEnergyGains sw1 = ownerEnergyGains sw
                     /\ updatedTiles sw1 = updatedTiles sw).
    { pose proof (Hsettled member) as Hmine.
      destruct (parseMember member) as [coordinate|]; [|by destruct Hstep as [-> ->]].
      specialize (Hmine coordinate (or_introl eq_refl) eq_refl).
      unfold settledAt in Hmine. cbn [fst snd] in Hmine.
      destruct (currentTileAt options s (q coordinate) (r coordinate)) as [tile|];
        [|exact Hstep].
      destruct Hstep as (multiplier & Hstored & Hgains).
      rewrite (evolveTileState_at_rest options tile now multiplier (Hmine tile eq_refl))
        in Hstored, Hgains.
      cbn [fst snd] in Hstored, Hgains. rewrite sameTileState_refl in Hstored.
      destruct Hstored as [Htiles Hcount]. split; [done|]. split; [|done].
      rewrite Hgains. unfold noteGain.
      assert (Hnone : JS.Qltb 0 0 = false) by (apply Qltb_false; lra).
      by rewrite Hnone, Bool.andb_false_r. }
    destruct Hquiet as (Htiles1 & Hgains1 & Hcount1).
    destruct (IH sw1 s1 Hsw1) as (sw2 & s2 & Hrun2 & Haside2 & Htiles2 & Hgains2 & Hcount2).
    { intros m c Hin Hparse. eapply settledAt_tiles; [exact Htiles1|].
      apply (Hsettled m c); [by right | done]. }
    exists sw2, s2. cbn [rechargeMembers].
    rewrite (bind_returned _ _ _ _ _ Hrun1). split; [exact Hrun2|].
    split; [by eapply tilesAside_trans|]. split; [congruence|]. split; congruence.
Qed.

Lemma sameWorld_tilesAside s s' :
  sameWorld s s' ->
  (forall user hash,
      Redis.playerHashes s !! user = Some hash ->
      PlayerHash.hasValues hash = true ->
      Redis.playerHashes s' !! user = Some hash) ->
  tilesAside s s'.
Proof. intros (H1 & H2 & H3 & H4 & H5 & H6 & H7) Hp. by repeat split. Qed.

Lemma addPlayerEnergy_run owner gain now s :
  String.eqb (JS.trim owner) "" = false ->
  exists energy s',
    addPlayerEnergy options clock owner gain now s = (Returned energy, s')
    /\ sameWorld s s'.
Proof.
  intros Hreadable. unfold addPlayerEnergy. destruct (Qle_bool gain 0).
  - destruct (getOrCreatePlayerState_returns options clock (JS.trim owner) s)
      as (state & Hstate & _).
    unfold getPlayerEnergy.
    rewrite (bind_returned _ _ _ _ _ (normalizeUserId_run owner s Hreadable)).
    rewrite (bind_returned _ _ _ _ _ (run_returned _ _ _ Hstate)).
    eexists _, _. split; [reflexivity|]. apply getOrCreatePlayerState_sameWorld.
  - destruct (getOrCreatePlayerState_returns options clock owner s)
      as (state & Hstate & _).
    rewrite (bind_returned _ _ _ _ _ (run_returned _ _ _ Hstate)).
    pose proof (getOrCreatePlayerState_sameWorld options clock owner s) as Hsame.
    unfold persistPlayerState. run_async.
    eexists _, _. split; [reflexivity|].
    destruct Hsame as (H1 & H2 & H3 & H4 & H5 & H6 & H7). by repeat split.
Qed.

Lemma creditOwners_run gains now s :
  (forall owner gain, In (owner, gain) gains -> String.eqb (JS.trim owner) "" = false) ->
  exists s', creditOwners options clock gains now s = (Returned tt, s') /\ sameWorld s s'.
Proof.
  revert s. induction gains as [|[owner gain] rest IH]; intros s Hreadable.
  - exists s. split; [done|apply sameWorld_refl].
  - destruct (addPlayerEnergy_run owner gain now s) as (energy & s1 & Hrun1 & Hsame1);
      [by eapply Hreadable; left|].
    destruct (IH s1) as (s2 & Hrun2 & Hsame2);
      [intros o g Hin; eapply Hreadable; by right|].
    exists s2. cbn [creditOwners]. rewrite (bind_returned _ _ _ _ _ Hrun1).
    split; [exact Hrun2 | by eapply sameWorld_trans].
Qed.

(** A whole tick at a time in whole milliseconds returns and leaves every
    tile of the index up to date. *)
Lemma rechargeEnergy_settles now s :
  wholeMs now ->
  exists updated s',
    rechargeEnergy options clock now s = (Returned updated, s')
    /\ Redis.tileIndex s' = Redis.tileIndex s
    /\ forall member coordinate,
         member ∈ Redis.tileIndex s -> parseMember member = Some coordinate ->
         settledAt options now s' (q coordinate, r coordinate).
Proof.
  intros Hwhole.
  destruct (rechargeMembers_settle now (elements (Redis.tileIndex s)) emptySweep s
              Hwhole emptySweep_readable)
    as (sw & s1 & Hrun1 & Hsw & Haside & Hown & _).
  destruct (creditOwners_run (ownerEnergyGains sw) now s1 (proj2 Hsw))
    as (s2 & Hrun2 & Hsame).
  assert (Hsweep : rechargeSweep options clock now s = (Returned sw, s1)).
  { unfold rechargeSweep.
    by rewrite (bind_returned (sMembers TILE_INDEX_KEY) _ s
                  (elements (Redis.tileIndex s)) s eq_refl). }
  exists (updatedTiles sw), s2. unfold rechargeEnergy.
  rewrite (bind_returned _ _ _ _ _ Hsweep), (bind_returned _ _ _ _ _ Hrun2).
  split; [reflexivity|].
  destruct Haside as (_ & _ & Hindex & _). destruct Hsame as (Htiles & _ & _ & Hindex2 & _).
  split; [congruence|].
  intros member coordinate Hin Hparse. eapply settledAt_tiles; [exact Htiles|].
  eapply Hown; [|exact Hparse]. by apply list_elem_of_In, elem_of_elements.
Qed.

End SecondTick.

(** C5.  At a time [now] in whole milliseconds, as [Date.now()] returns it:
    [rechargeEnergy(now)] returns, and a second [rechargeEnergy(now)] run on
    the store it leaves (whatever the clock shows then) returns 0 updated
    tiles; its sweep ends with an empty [ownerEnergyGains], so no player is
    credited; the tile hashes are the same after it as before it, and so
    are the indices, the leaderboard, the chunk activity and the hash of
    every player that had one. *)
Theorem rechargeEnergy_second_run (options : Options.t) (clock clock' : Z)
        (now : Q) (s : Redis.t) :
  wholeMs now ->
  exists updated s1 sw s2,
    rechargeEnergy options clock now s = (Returned updated, s1)
    /\ rechargeSweep options clock' now s1 = (Returned sw, s2)
    /\ updatedTiles sw = 0
    /\ ownerEnergyGains sw = []
    /\ rechargeEnergy options clock' now s1 = (Returned 0, s2)
    /\ Redis.tileHashes s2 = Redis.tileHashes s1
    /\ tilesAside s1 s2.
Proof.
  intros Hwhole.
  destruct (rechargeEnergy_settles options clock now s Hwhole)
    as (updated & s1 & Hfirst & Hindex & Hsettled).
  destruct (rechargeMembers_at_rest options clock' now (elements (Redis.tileIndex s1))
              emptySweep s1 emptySweep_readable)
    as (sw & s2 & Hrun & Haside & Htiles & Hgains & Hcount).
  { intros member coordinate Hin Hparse. apply (Hsettled member); [|done].
    rewrite <- Hindex. by apply elem_of_elements, list_elem_of_In. }
  assert (Hsweep : rechargeSweep options clock' now s1 = (Returned sw, s2)).
  { unfold rechargeSweep.
    by rewrite (bind_returned (sMembers TILE_INDEX_KEY) _ s1
                  (elements (Redis.tileIndex s1)) s1 eq_refl). }
  exists updated, s1, sw, s2. split; [exact Hfirst|]. split; [exact Hsweep|].
  split; [exact Hcount|]. split; [exact Hgains|]. split; [|by split].
  unfold rechargeEnergy. rewrite (bind_returned _ _ _ _ _ Hsweep).
  rewrite Hgains, Hcount. reflexivity.
Qed.

(** The entropy test: a second tick at 60 s on the world the first tick at
    60 s left. *)
Lemma rechargeEnergy_second_run_witness :
  wholeMs 60000
  /\ result (rechargeEnergy Scenario.roomy_options 0 60000) Scenario.worn_out = Returned 0
  /\ Redis.tileHashes (exec (rechargeEnergy Scenario.roomy_options 0 60000) Scenario.worn_out)
     = Redis.tileHashes Scenario.worn_out.
Proof.
  assert (Hwhole : wholeMs 60000) by (vm_compute; reflexivity).
  split; [exact Hwhole|].
  destruct (rechargeEnergy_second_run Scenario.roomy_options 0 0 60000
              Scenario.worn_at_start Hwhole)
    as (updated & s1 & sw & s2 & Hfirst & _ & _ & _ & Hsecond & Htiles & _).
  assert (Hs1 : Scenario.worn_out = s1).
  { unfold Scenario.worn_out, exec. rewrite Hfirst. reflexivity. }
  rewrite Hs1. unfold result, exec. rewrite Hsecond. cbn [fst snd].
  split; [reflexivity | exact Htiles].
Defined.

(** At [now] = 0.5 ms the tile's [lastUpdate] stays [Math.floor(0.5)] = 0,
    so the second tick finds the same half millisecond elapsed: it counts
    one updated tile again, the tile's energy goes from 0.0005 to 0.0010 and
    the owner's from 90.0005 to 90.0010. *)
Lemma rechargeEnergy_fractional_now_repeats :
  let now := (1 # 2)%Q in
  let first := exec (rechargeEnergy Scenario.roomy_options 0 now) Scenario.worn_at_start in
  let second := exec (rechargeEnergy Scenario.roomy_options 0 now) first in
  result (rechargeEnergy Scenario.roomy_options 0 now) first = Returned 1
  /\ storedTileEnergy first (0, 0) = Some (5 # 10000)%Q
  /\ storedTileEnergy second (0, 0) = Some (10 # 10000)%Q
  /\ storedEnergy first "player-a" = Some (900005 # 10000)%Q
  /\ storedEnergy second "player-a" = Some (900010 # 10000)%Q.
Proof. vm_compute. repeat split; reflexivity. Qed.

(** ** C10: the default level of [registerNexus] *)

Section RegisterNexus.
Variables (options : Options.t) (clock : Z).

(** What a [registerNexus] call with a valid level does, in one equation:
    the tile it returns and the store it leaves. *)
Lemma registerNexus_run tq tr level s :
  HexMathFloat.validateCoordinates
    (HexMathFloat.float_of_Z tq) (HexMathFloat.float_of_Z tr) = true ->
  negb (isInteger level) || Qle_bool level 0 = false ->
  exists tile,
    result (registerNexus options clock tq tr (Some level)) s = Returned tile
    /\ TileState.level tile = level
    /\ TileState.tileType tile = nexus
    /\ Redis.tileHashes (exec (registerNexus options clock tq tr (Some level)) s)
         !! (tq, tr) = Some (tileHashFields tile)
    /\ (result (loadTile options tq tr) s = Returned None ->
        TileState.ownerId tile = None
        /\ TileState.energy tile = Options.initialTileEnergy options)
    /\ (forall old, result (loadTile options tq tr) s = Returned (Some old) ->
        TileState.ownerId tile = TileState.ownerId old
        /\ TileState.energy tile = TileState.energy old).
Proof.
  intros Hv Hlevel. unfold registerNexus, validateCoordinates. rewrite Hv.
  change (default 3%Q (Some level)) with level. rewrite Hlevel.
  unfold loadTile, persistTileState, tileKey.
  set (cur := parseTile options tq tr
                (default TileHash.empty (Redis.tileHashes s !! (tq, tr)))).
  run_async. fold cur. clearbody cur.
  destruct cur as [old|].
  - destruct (TileType_eqb (TileState.tileType old) nexus); run_async;
      (eexists; split; [reflexivity|]; cbn; repeat split;
       try (autorewrite with redis; cbn; by rewrite lookup_insert_eq);
       by simplify_eq).
  - run_async. eexists; split; [reflexivity|]; cbn. repeat split;
      try (autorewrite with redis; cbn; by rewrite lookup_insert_eq);
      by simplify_eq.
Qed.

End RegisterNexus.

(** C10.  Called without a level, [registerNexus] behaves as with level 3:
    the tile it returns, and the tile read back from the store afterwards,
    is a nexus of level 3, whether the coordinate was fresh or already held a
    tile; 3 is not the [initialTileLevel] default of 1. *)
Theorem registerNexus_default_level (options : Options.t) (clock tq tr : Z) (s : Redis.t) :
  HexMathFloat.validateCoordinates
    (HexMathFloat.float_of_Z tq) (HexMathFloat.float_of_Z tr) = true ->
  registerNexus options clock tq tr None s
    = registerNexus options clock tq tr (Some 3%Q) s
  /\ (exists tile stored,
        result (registerNexus options clock tq tr None) s = Returned tile
        /\ TileState.level tile = 3%Q
        /\ TileState.tileType tile = nexus
        /\ result (loadTile options tq tr)
             (exec (registerNexus options clock tq tr None) s) = Returned (Some stored)
        /\ TileState.level stored = 3%Q
        /\ TileState.tileType stored = nexus)
  /\ ~ (3 == Options.initialTileLevel DEFAULT_OPTIONS)%Q.
Proof.
  intros Hv. split; [reflexivity|]. split; [|by intros H; vm_compute in H].
  change (registerNexus options clock tq tr None)
    with (registerNexus options clock tq tr (Some 3%Q)).
  destruct (registerNexus_run options clock tq tr 3%Q s Hv eq_refl)
    as (tile & Hres & Hlevel & Htype & Hstored & _).
  destruct (parseTile_persisted_some options tq tr tile) as [stored Hparse].
  exists tile, stored. repeat split; try done.
  - unfold loadTile, tileKey. run_async. unfold exec in Hstored.
    rewrite Hstored. cbn. by rewrite Hparse.
  - rewrite (parseTile_persisted_level _ _ _ _ _ Hparse), Hlevel. reflexivity.
  - by rewrite (parseTile_persisted_tileType _ _ _ _ _ Hparse).
Qed.

(** The nexus of the radar test, seeded without a level. *)
Lemma registerNexus_default_level_witness :
  registerNexus DEFAULT_OPTIONS 0 20 0 None Redis.empty
    = registerNexus DEFAULT_OPTIONS 0 20 0 (Some 3%Q) Redis.empty
  /\ (exists tile stored,
        result (registerNexus DEFAULT_OPTIONS 0 20 0 None) Redis.empty = Returned tile
        /\ TileState.level tile = 3%Q
        /\ TileState.tileType tile = nexus
        /\ result (loadTile DEFAULT_OPTIONS 20 0)
             (exec (registerNexus DEFAULT_OPTIONS 0 20 0 None) Redis.empty)
           = Returned (Some stored)
        /\ TileState.level stored = 3%Q
        /\ TileState.tileType stored = nexus)
  /\ ~ (3 == Options.initialTileLevel DEFAULT_OPTIONS)%Q.
Proof.
  apply (registerNexus_default_level DEFAULT_OPTIONS 0 20 0 Redis.empty).
  vm_compute. reflexivity.
Defined.


(** ** C7: which alliance tags [setAllianceTag] accepts *)

Section Alliance.
Variables (options : Options.t) (clock : Z).

Lemma syncAllianceTagLoop_players members tag color s :
  result (syncAllianceTagLoop members tag color) s = Returned tt
  /\ Redis.playerHashes (exec (syncAllianceTagLoop members tag color) s)
     = Redis.playerHashes s.
Proof.
  revert s. induction members as [|member rest IH]; intros s; [done|].
  cbn [syncAllianceTagLoop]. destruct (parseMember member) as [coordinate|]; [|apply IH].
  run_async.
  match goal with |- context [syncAllianceTagLoop rest tag color ?s'] =>
    destruct (IH s') as [Hres Hplayers]; unfold result, exec in Hres, Hplayers;
    destruct (syncAllianceTagLoop rest tag color s') as [outcome final] end.
  cbn in *. by subst.
Qed.

Lemma setAllianceTag_accepts userId normalizedTag allianceColor s state :
  result (getOrCreatePlayerState options clock (JS.trim userId)) s = Returned state ->
  PlayerState.userId state = JS.trim userId ->
  let write :=
    persistPlayerState
      {| PlayerState.userId := PlayerState.userId state;
         PlayerState.displayName := PlayerState.displayName state;
         PlayerState.allianceTag := normalizedTag;
         PlayerState.allianceColor := allianceColor;
         PlayerState.energy := PlayerState.energy state;
         PlayerState.lastUpdate := inject_Z clock |};;
    syncAllianceTagToOwnedTiles (JS.trim userId) normalizedTag allianceColor;;
    mret {| Profile.userId := JS.trim userId;
            Profile.displayName := PlayerState.displayName state;
            Profile.allianceTag := normalizedTag;
            Profile.allianceColor := allianceColor |} in
  forall s',
    accepted (result write s') normalizedTag allianceColor
    /\ storedAlliance (exec write s') (JS.trim userId)
         (default "" normalizedTag) (default "" allianceColor).
Proof.
  intros _ Huser write s'. subst write.
  unfold persistPlayerState, syncAllianceTagToOwnedTiles. cbn [PlayerState.userId].
  rewrite Huser. run_async.
  match goal with |- context [syncAllianceTagLoop ?ms _ _ ?s0] =>
    destruct (syncAllianceTagLoop_players ms normalizedTag allianceColor s0)
      as [Hres Hplayers];
    unfold result, exec in Hres, Hplayers;
    destruct (syncAllianceTagLoop ms normalizedTag allianceColor s0) as [outcome final]
  end.
  cbn in Hres, Hplayers. subst outcome. cbn. split.
  - by eexists.
  - eexists. rewrite Hplayers. cbn. rewrite lookup_insert_eq. by split.
Qed.

End Alliance.

(** C7 (as the code has it).  For a non-blank user id: a [null] tag, and
    also a string that is empty once trimmed, is accepted and leaves the
    alliance (tag and colour null in the returned profile, empty in the
    player's hash); a string whose trimmed upper-case form matches
    [^[A-Z0-9]{3,4}$] is accepted with that form as the tag and
    [colorFromAllianceTag] of it as the colour; every other string makes
    the call throw the validation error. *)
Theorem setAllianceTag_tags (options : Options.t) (clock : Z)
        (userId : string) (tag : option string) (s : Redis.t) :
  String.eqb (JS.trim userId) "" = false ->
  let outcome := result (setAllianceTag options clock userId tag) s in
  let final := exec (setAllianceTag options clock userId tag) s in
  match tag with
  | None =>
      accepted outcome None None
      /\ storedAlliance final (JS.trim userId) "" ""
  | Some raw =>
      let normalized := JS.toUpperCase (JS.trim raw) in
      if String.eqb normalized "" then
        accepted outcome None None
        /\ storedAlliance final (JS.trim userId) "" ""
      else if allianceTagPattern normalized then
        accepted outcome (Some normalized) (Some (colorFromAllianceTag normalized))
        /\ storedAlliance final (JS.trim userId)
             normalized (colorFromAllianceTag normalized)
      else outcome = Thrown "allianceTag must be 3-4 alphanumeric characters"
  end.
Proof.
  intros Huser outcome final. subst outcome final.
  unfold setAllianceTag, normalizeUserId. rewrite Huser.
  destruct (getOrCreatePlayerState_returns options clock (JS.trim userId) s)
    as (state & Hstate & Hid).
  unfold result, exec.
  rewrite (bind_returned (mret (JS.trim userId)) _ s (JS.trim userId) s eq_refl).
  rewrite (bind_returned _ _ s state _ (run_returned _ _ _ Hstate)).
  set (s1 := exec (getOrCreatePlayerState options clock (JS.trim userId)) s).
  unfold normalizeAllianceTag.
  destruct tag as [raw|].
  - cbn zeta. 
    destruct (String.eqb (JS.toUpperCase (JS.trim raw)) "") eqn:Hempty.
    + apply String.eqb_eq in Hempty. rewrite Hempty. cbn [String.length Nat.eqb].
      rewrite (bind_returned (mret None) _ s1 None s1 eq_refl).
      exact (setAllianceTag_accepts options clock userId None None s state Hstate Hid s1).
    + assert (Hlen : (String.length (JS.toUpperCase (JS.trim raw)) =? 0)%nat = false).
      { destruct (JS.toUpperCase (JS.trim raw)); [done|reflexivity]. }
      rewrite Hlen.
      destruct (allianceTagPattern (JS.toUpperCase (JS.trim raw))) eqn:Hpattern; cbn [negb].
      * rewrite (bind_returned (mret (Some (JS.toUpperCase (JS.trim raw)))) _ s1 _ s1 eq_refl).
        assert (Htruthy : truthy (Some (JS.toUpperCase (JS.trim raw))) = true).
        { unfold truthy. by rewrite Hempty. }
        rewrite Htruthy.
        exact (setAllianceTag_accepts options clock userId
                 (Some (JS.toUpperCase (JS.trim raw)))
                 (Some (colorFromAllianceTag (JS.toUpperCase (JS.trim raw))))
                 s state Hstate Hid s1).
      * reflexivity.
  - rewrite (bind_returned (mret None) _ s1 None s1 eq_refl).
    exact (setAllianceTag_accepts options clock userId None None s state Hstate Hid s1).
Qed.

(** The tag of the alliance test, typed in lower case with blanks around it. *)
Lemma setAllianceTag_tags_witness :
  accepted (result (setAllianceTag DEFAULT_OPTIONS 0 "player-a" (Some " ax3 ")) Redis.empty)
           (Some "AX3") (Some (colorFromAllianceTag "AX3"))
  /\ storedAlliance (exec (setAllianceTag DEFAULT_OPTIONS 0 "player-a" (Some " ax3 ")) Redis.empty)
       "player-a" "AX3" (colorFromAllianceTag "AX3").
Proof.
  exact (setAllianceTag_tags DEFAULT_OPTIONS 0 "player-a" (Some " ax3 ") Redis.empty eq_refl).
Defined.

(** C7 as stated fails: the empty string matches no tag pattern, yet
    [setAllianceTag] returns a profile (outside any alliance) instead of
    throwing; so does a string of blanks. *)
Lemma setAllianceTag_blank_is_accepted :
  allianceTagPattern (JS.toUpperCase (JS.trim "")) = false
  /\ result (setAllianceTag DEFAULT_OPTIONS 0 "player-a" (Some "")) Redis.empty
     = Returned {| Profile.userId := "player-a";
                   Profile.displayName := "player-a";
                   Profile.allianceTag := None;
                   Profile.allianceColor := None |}
  /\ allianceTagPattern (JS.toUpperCase (JS.trim "   ")) = false
  /\ result (setAllianceTag DEFAULT_OPTIONS 0 "player-a" (Some "   ")) Redis.empty
     = Returned {| Profile.userId := "player-a";
                   Profile.displayName := "player-a";
                   Profile.allianceTag := None;
                   Profile.allianceColor := None |}.
Proof. repeat split; vm_compute; reflexivity. Qed.

(** Tags beyond ASCII: [toUpperCase] maps the two letters [aß] to the three
    letters [ASS], which is a tag, and [trim] removes the no-break spaces
    (U+00A0, the bytes 194 and 160) around [abc]; [äbc] stays outside the
    pattern. *)
Example setAllianceTag_beyond_ascii :
  let nbsp := String (ascii_of_nat 194) (String (ascii_of_nat 160) "") in
  accepted (result (setAllianceTag DEFAULT_OPTIONS 0 "player-a" (Some "aß")) Redis.empty)
           (Some "ASS") (Some (colorFromAllianceTag "ASS"))
  /\ accepted (result (setAllianceTag DEFAULT_OPTIONS 0 "player-a"
                         (Some (nbsp ++ "abc" ++ nbsp))) Redis.empty)
              (Some "ABC") (Some (colorFromAllianceTag "ABC"))
  /\ result (setAllianceTag DEFAULT_OPTIONS 0 "player-a" (Some "äbc")) Redis.empty
     = Thrown "allianceTag must be 3-4 alphanumeric characters".
Proof.
  cbv zeta. split; [|split].
  - eexists. split; [vm_compute; reflexivity|]. split; vm_compute; reflexivity.
  - eexists. split; [vm_compute; reflexivity|]. split; vm_compute; reflexivity.
  - vm_compute. reflexivity.
Qed.

(** ** C8: the pixel round trip, in binary64 *)

Lemma window_spec bound z : In z (window bound) <-> - bound <= z <= bound.
Proof.
  unfold window. rewrite in_map_iff. split.
  - intros (i & <- & Hi%in_seq). lia.
  - intros Hz. exists (Z.to_nat (z + bound)). split; [lia|]. apply in_seq. lia.
Qed.

Lemma round_trips_in_window_spec bound size hq hr :
  round_trips_in_window bound size = true ->
  - bound <= hq <= bound -> - bound <= hr <= bound ->
  HexMathFloat.round_trip_ok
    (HexMathFloat.float_of_Z hq) (HexMathFloat.float_of_Z hr) size = true.
Proof.
  unfold round_trips_in_window. rewrite forallb_forall. intros Hall Hq Hr.
  specialize (Hall hq (proj2 (window_spec bound hq) Hq)).
  rewrite forallb_forall in Hall. apply Hall, window_spec, Hr.
Qed.

Lemma isInteger_in_window bound z :
  forallb (fun n => HexMathFloat.isInteger (HexMathFloat.float_of_Z n)) (window bound) = true ->
  - bound <= z <= bound ->
  HexMathFloat.isInteger (HexMathFloat.float_of_Z z) = true.
Proof. rewrite forallb_forall. intros Hall Hz. apply Hall, window_spec, Hz. Qed.

(** C8 (as the code has it).  For integer coordinates of magnitude at most
    64, [pixel_to_hex] applied to [hex_to_pixel(q, r, size)] gives back
    [(q, r)] at the hex size 1 of [validateCoordinates] and at the size 48
    of the conversion test, and [validateCoordinates] accepts the pair. *)
Theorem hex_round_trip_small (hq hr : Z) :
  - 64 <= hq <= 64 -> - 64 <= hr <= 64 ->
  HexMathFloat.round_trip_ok
    (HexMathFloat.float_of_Z hq) (HexMathFloat.float_of_Z hr) 1 = true
  /\ HexMathFloat.round_trip_ok
       (HexMathFloat.float_of_Z hq) (HexMathFloat.float_of_Z hr) 48 = true
  /\ HexMathFloat.validateCoordinates
       (HexMathFloat.float_of_Z hq) (HexMathFloat.float_of_Z hr) = true.
Proof.
  intros Hq Hr.
  assert (H1 : round_trips_in_window 64 1 = true) by (vm_compute; reflexivity).
  assert (H48 : round_trips_in_window 64 48 = true) by (vm_compute; reflexivity).
  assert (Hint : forallb (fun n => HexMathFloat.isInteger (HexMathFloat.float_of_Z n))
                         (window 64) = true) by (vm_compute; reflexivity).
  pose proof (round_trips_in_window_spec 64 1 hq hr H1 Hq Hr) as Hone.
  split; [exact Hone|]. split.
  - exact (round_trips_in_window_spec 64 48 hq hr H48 Hq Hr).
  - unfold HexMathFloat.validateCoordinates.
    rewrite (isInteger_in_window 64 hq Hint Hq), (isInteger_in_window 64 hr Hint Hr).
    exact Hone.
Qed.

(** The fixture [(2, -3)] of the conversion test. *)
Lemma hex_round_trip_small_witness :
  HexMathFloat.round_trip_ok
    (HexMathFloat.float_of_Z 2) (HexMathFloat.float_of_Z (-3)) 1 = true
  /\ HexMathFloat.round_trip_ok
       (HexMathFloat.float_of_Z 2) (HexMathFloat.float_of_Z (-3)) 48 = true
  /\ HexMathFloat.validateCoordinates
       (HexMathFloat.float_of_Z 2) (HexMathFloat.float_of_Z (-3)) = true.
Proof. apply (hex_round_trip_small 2 (-3)); lia. Defined.

(** C8 as stated fails.  [2^53] is an integer for [Number.isInteger], but
    at size 1 the round trip of [(2^53, 0)] comes back as [2^53 - 1], so
    [validateCoordinates] rejects the pair; and at the smallest positive
    size the round trip of [(4, 0)] comes back as [5]. *)
Lemma hex_round_trip_fails :
  HexMathFloat.isInteger (HexMathFloat.float_of_Z (2 ^ 53)) = true
  /\ (let back :=
        point ← HexMathFloat.hex_to_pixel (HexMathFloat.float_of_Z (2 ^ 53)) 0 1;
        HexMathFloat.pixel_to_hex (HexMathFloat.x point) (HexMathFloat.y point) 1 in
      HexMathFloat.fq <$> back = Some (HexMathFloat.float_of_Z (2 ^ 53 - 1)))
  /\ HexMathFloat.validateCoordinates (HexMathFloat.float_of_Z (2 ^ 53)) 0 = false
  /\ HexMathFloat.assertPositiveSize 0x1p-1074 = true
  /\ (let back :=
        point ← HexMathFloat.hex_to_pixel 4 0 0x1p-1074;
        HexMathFloat.pixel_to_hex (HexMathFloat.x point) (HexMathFloat.y point) 0x1p-1074 in
      HexMathFloat.fq <$> back = Some 5%float)
  /\ HexMathFloat.round_trip_ok 4 0 0x1p-1074 = false.
Proof. repeat split; vm_compute; reflexivity. Qed.

Section HexDistance.

Lemma hex_distance_double a b :
  2 * HexMath.hex_distance a b
  = Z.abs (q a - q b) + Z.abs (r a - r b) + Z.abs (q a - q b + (r a - r b)).
Proof.
  unfold HexMath.hex_distance. cbv zeta.
  assert (Heven : exists k, Z.abs (q a - q b) + Z.abs (r a - r b)
                            + Z.abs (q a - q b + (r a - r b)) = 2 * k)
    by (exists (Z.max (Z.max (Z.abs (q a - q b)) (Z.abs (r a - r b)))
                      (Z.abs (q a - q b + (r a - r b)))); lia).
  destruct Heven as [k ->]. rewrite (Z.mul_comm 2 k), Z.div_mul by done. lia.
Qed.

Lemma hex_distance_max a b :
  HexMath.hex_distance a b
  = Z.max (Z.max (Z.abs (q a - q b)) (Z.abs (r a - r b)))
          (Z.abs (q a - q b + (r a - r b))).
Proof. pose proof (hex_distance_double a b). lia. Qed.

Lemma hex_distance_triangle a b c :
  HexMath.hex_distance a c <= HexMath.hex_distance a b + HexMath.hex_distance b c.
Proof.
  pose proof (hex_distance_double a b) as Hab.
  pose proof (hex_distance_double b c) as Hbc.
  pose proof (hex_distance_double a c) as Hac.
  pose proof (Z.abs_triangle (q a - q b) (q b - q c)) as Hq.
  pose proof (Z.abs_triangle (r a - r b) (r b - r c)) as Hr.
  pose proof (Z.abs_triangle (q a - q b + (r a - r b)) (q b - q c + (r b - r c))) as Hs.
  replace (q a - q b + (q b - q c)) with (q a - q c) in Hq by ring.
  replace (r a - r b + (r b - r c)) with (r a - r c) in Hr by ring.
  replace (q a - q b + (r a - r b) + (q b - q c + (r b - r c)))
    with (q a - q c + (r a - r c)) in Hs by ring.
  revert Hab Hbc Hac Hq Hr Hs.
  generalize (Z.abs (q a - q b)) (Z.abs (r a - r b)) (Z.abs (q a - q b + (r a - r b)))
    (Z.abs (q b - q c)) (Z.abs (r b - r c)) (Z.abs (q b - q c + (r b - r c)))
    (Z.abs (q a - q c)) (Z.abs (r a - r c)) (Z.abs (q a - q c + (r a - r c))).
  intros. lia.
Qed.

End HexDistance.

(** X1.  Between tiles with safe integers for coordinates that lie at
    most 2^52 apart, where binary64 evaluates the formula of the source
    without rounding, [hex_distance] is a metric on the axial grid: it is
    symmetric, never negative, zero exactly between a tile and itself, and
    obeys the triangle inequality; its value is the largest of the three
    absolute differences [|dq|], [|dr|] and [|dq + dr|], and twice its
    value is their sum, so the division by 2 in the source is exact. *)
Theorem hex_distance_is_a_metric (a b c : HexTile) :
  exactlyApart a b -> exactlyApart b c -> exactlyApart a c ->
  HexMath.hex_distance a b = HexMath.hex_distance b a
  /\ 0 <= HexMath.hex_distance a b
  /\ (HexMath.hex_distance a b = 0 <-> a = b)
  /\ HexMath.hex_distance a c <= HexMath.hex_distance a b + HexMath.hex_distance b c
  /\ HexMath.hex_distance a b
     = Z.max (Z.max (Z.abs (q a - q b)) (Z.abs (r a - r b)))
             (Z.abs (q a - q b + (r a - r b)))
  /\ 2 * HexMath.hex_distance a b
     = Z.abs (q a - q b) + Z.abs (r a - r b) + Z.abs (q a - q b + (r a - r b)).
Proof.
  intros _ _ _.
  split; [rewrite !hex_distance_max; lia|]. split; [rewrite hex_distance_max; lia|].
  split; [|split; [apply hex_distance_triangle
                  |split; [apply hex_distance_max | apply hex_distance_double]]].
  rewrite hex_distance_max. destruct a as [aq ar]. destruct b as [bq br]. cbn [q r].
  split.
  - intros H. f_equal; lia.
  - intros [= -> ->]. lia.
Qed.

(** The tiles of the range query test: [(0, 0)], [(3, -1)] and [(1, 0)]. *)
Lemma hex_distance_is_a_metric_witness :
  HexMath.hex_distance (mkHexTile 0 0) (mkHexTile 3 (-1)) = 3
  /\ HexMath.hex_distance (mkHexTile 0 0) (mkHexTile 3 (-1))
     <= HexMath.hex_distance (mkHexTile 0 0) (mkHexTile 1 0)
        + HexMath.hex_distance (mkHexTile 1 0) (mkHexTile 3 (-1)).
Proof.
  assert (Hnear : forall a b,
            Z.abs (q a) <= 3 -> Z.abs (r a) <= 3 -> Z.abs (q b) <= 3 -> Z.abs (r b) <= 3 ->
            exactlyApart a b).
  { intros a b Hqa Hra Hqb Hrb. unfold exactlyApart.
    rewrite hex_distance_max. repeat split; lia. }
  destruct (hex_distance_is_a_metric (mkHexTile 0 0) (mkHexTile 1 0) (mkHexTile 3 (-1)))
    as (_ & _ & _ & Htriangle & _); try (apply Hnear; cbn; lia).
  split; [reflexivity | exact Htriangle].
Defined.


Lemma toFixedPrecision_rounded x : onGrid (JS.toFixedPrecision x).
Proof.
  unfold JS.toFixedPrecision. set (n := Qfloor (Qabs x * 10000 + (1 # 2))).
  destruct (JS.Qltb x 0).
  - exists (- n). rewrite inject_Z_opp. field.
  - exists n. reflexivity.
Qed.

Lemma toFixedPrecision_close x :
  (Qabs (JS.toFixedPrecision x - x) <= 1 # 20000)%Q.
Proof.
  unfold JS.toFixedPrecision.
  pose proof (Qfloor_le (Qabs x * 10000 + (1 # 2))) as Hlo.
  pose proof (Qlt_floor (Qabs x * 10000 + (1 # 2))) as Hhi.
  rewrite inject_Z_plus in Hhi. change (inject_Z 1) with 1%Q in Hhi.
  set (n := inject_Z (Qfloor (Qabs x * 10000 + (1 # 2)))) in *.
  apply Qabs_Qle_condition.
  destruct (JS.Qltb x 0) eqn:Hneg.
  - apply Qltb_true in Hneg. rewrite (Qabs_neg x) in Hlo, Hhi by lra.
    assert (Hdiv : (n / 10000 == n * (1 # 10000))%Q) by field.
    rewrite Hdiv. lra.
  - apply Qltb_false in Hneg. rewrite (Qabs_pos x) in Hlo, Hhi by lra.
    assert (Hdiv : (n / 10000 == n * (1 # 10000))%Q) by field.
    rewrite Hdiv. lra.
Qed.

Lemma toFixedPrecision_mono x y :
  (x <= y)%Q -> (JS.toFixedPrecision x <= JS.toFixedPrecision y)%Q.
Proof.
  intros Hxy. unfold JS.toFixedPrecision.
  assert (Hscale : forall a b : Z, a <= b -> (inject_Z a / 10000 <= inject_Z b / 10000)%Q).
  { intros a b Hab. rewrite Zle_Qle in Hab.
    assert (Ha : (inject_Z a / 10000 == inject_Z a * (1 # 10000))%Q) by field.
    assert (Hb : (inject_Z b / 10000 == inject_Z b * (1 # 10000))%Q) by field.
    rewrite Ha, Hb. lra. }
  assert (Hpos : forall v, (0 <= inject_Z (Qfloor (Qabs v * 10000 + (1 # 2))) / 10000)%Q).
  { intros v.
    assert (Hfloor : 0 <= Qfloor (Qabs v * 10000 + (1 # 2))).
    { change 0 with (Qfloor 0). apply Qfloor_resp_le.
      pose proof (Qabs_nonneg v). lra. }
    pose proof (Hscale 0 _ Hfloor) as Hle.
    assert (Hzero : (inject_Z 0 / 10000 == 0)%Q) by reflexivity.
    by rewrite Hzero in Hle. }
  destruct (JS.Qltb x 0) eqn:Hx, (JS.Qltb y 0) eqn:Hy.
  - apply Qltb_true in Hx, Hy. apply Qopp_le_compat, Hscale, Qfloor_resp_le.
    rewrite (Qabs_neg x), (Qabs_neg y) by lra. lra.
  - pose proof (Hpos x). pose proof (Hpos y). lra.
  - apply Qltb_false in Hx. apply Qltb_true in Hy. lra.
  - apply Qltb_false in Hx, Hy. apply Hscale, Qfloor_resp_le.
    rewrite (Qabs_pos x), (Qabs_pos y) by lra. lra.
Qed.

(** X3.  [toFixedPrecision] rounds to a number of at most four decimals
    that is within half of the last decimal (0.00005) of its argument;
    rounding again changes nothing, and the rounding keeps the order of
    two numbers. *)
Theorem toFixedPrecision_rounds_to_four_decimals (x y : Q) :
  onGrid (JS.toFixedPrecision x)
  /\ (Qabs (JS.toFixedPrecision x - x) <= 1 # 20000)%Q
  /\ (JS.toFixedPrecision (JS.toFixedPrecision x) == JS.toFixedPrecision x)%Q
  /\ ((x <= y)%Q -> (JS.toFixedPrecision x <= JS.toFixedPrecision y)%Q).
Proof.
  split; [apply toFixedPrecision_rounded|]. split; [apply toFixedPrecision_close|].
  split; [apply toFixedPrecision_onGrid, toFixedPrecision_rounded|].
  apply toFixedPrecision_mono.
Qed.

Lemma clamp_upper v lo hi : (lo <= hi)%Q -> (JS.clamp v lo hi <= hi)%Q.
Proof.
  intros Hle. unfold JS.clamp. apply Q.max_lub; [exact Hle | apply Q.le_min_l].
Qed.

Lemma clamp_mono v w lo hi : (v <= w)%Q -> (JS.clamp v lo hi <= JS.clamp w lo hi)%Q.
Proof.
  intros Hvw. unfold JS.clamp.
  apply Q.max_le_compat_l, Q.min_le_compat_l, Hvw.
Qed.

Section Evolve.
Variable options : Options.t.

(** The seconds of a tick during which the tile still generates. *)
Lemma evolveTileState_generated tile now multiplier :
  (0 <= Options.energyRechargePerSecond options)%Q ->
  (0 <= multiplier)%Q ->
  (0 <= snd (evolveTileState options tile now multiplier))%Q.
Proof.
  intros Hrate Hmult. unfold evolveTileState. cbv zeta.
  destruct (Qeq_bool _ 0) eqn:Hrest; cbn [snd]; [lra|].
  assert (Hneq : ~ (Qmax 0 (now - inject_Z (TileState.lastUpdate tile)) == 0)%Q).
  { intros Heq. apply Qeq_bool_iff in Heq. congruence. }
  pose proof (Q.le_max_l 0 (now - inject_Z (TileState.lastUpdate tile))) as Hnonneg.
  set (elapsedMs := Qmax 0 (now - inject_Z (TileState.lastUpdate tile))) in *.
  assert (Hseconds : (0 <= elapsedMs / 1000)%Q).
  { assert (H : (elapsedMs / 1000 == elapsedMs * (1 # 1000))%Q) by field.
    rewrite H. lra. }
  assert (Hactive :
    (0 <= (if JS.Qltb 0 (TileState.integrity tile) then
             if Qle_bool (Options.integrityDecayPerMinute options) 0
             then elapsedMs / 1000
             else Qmin (elapsedMs / 1000)
                       (Qmax 0 (TileState.integrity tile
                                / Options.integrityDecayPerMinute options * 60))
           else 0))%Q).
  { destruct (JS.Qltb 0 _); [|lra]. destruct (Qle_bool _ 0); [done|].
    apply Q.min_glb; [done | apply Q.le_max_l]. }
  apply Qmult_le_0_compat; [apply Qmult_le_0_compat|]; done.
Qed.

Lemma parseTile_in_range tq tr hash tile :
  parseTile options tq tr hash = Some tile ->
  (0 <= Options.maxEnergy options)%Q ->
  (0 <= TileState.energy tile <= Options.maxEnergy options)%Q
  /\ (0 <= TileState.integrity tile <= 100)%Q.
Proof.
  intros Hparse Hmax. destruct (parseTile_energy options tq tr hash tile Hparse) as [-> ->].
  split; (split; [apply clamp_lower | apply clamp_upper]); [done | lra].
Qed.

Lemma evolveTileState_frame tile now multiplier :
  let evolved := fst (evolveTileState options tile now multiplier) in
  TileState.q evolved = TileState.q tile
  /\ TileState.r evolved = TileState.r tile
  /\ TileState.ownerId evolved = TileState.ownerId tile
  /\ TileState.ownerAllianceTag evolved = TileState.ownerAllianceTag tile
  /\ TileState.ownerAllianceColor evolved = TileState.ownerAllianceColor tile
  /\ TileState.level evolved = TileState.level tile
  /\ TileState.tileType evolved = TileState.tileType tile.
Proof. unfold evolveTileState. cbv zeta. by destruct (Qeq_bool _ 0). Qed.

Lemma evolveTileState_in_range tq tr hash tile now multiplier :
  parseTile options tq tr hash = Some tile ->
  (0 <= Options.maxEnergy options)%Q ->
  let evolved := fst (evolveTileState options tile now multiplier) in
  (0 <= TileState.energy evolved <= Options.maxEnergy options)%Q
  /\ (0 <= TileState.integrity evolved <= 100)%Q.
Proof.
  intros Hparse Hmax.
  destruct (parseTile_in_range tq tr hash tile Hparse Hmax) as [Henergy Hintegrity].
  unfold evolveTileState. cbv zeta.
  destruct (Qeq_bool _ 0); cbn [fst TileState.energy TileState.integrity]; [done|].
  split; (split; [apply clamp_lower | apply clamp_upper]); [done | lra].
Qed.

Lemma evolveTileState_wears tq tr hash tile now multiplier :
  parseTile options tq tr hash = Some tile ->
  (0 <= Options.maxEnergy options)%Q ->
  (0 <= Options.integrityDecayPerMinute options)%Q ->
  onGrid (TileState.integrity tile) ->
  (TileState.integrity (fst (evolveTileState options tile now multiplier))
   <= TileState.integrity tile)%Q.
Proof.
  intros Hparse Hmax Hdecay Hgrid.
  destruct (parseTile_in_range tq tr hash tile Hparse Hmax) as [_ Hintegrity].
  unfold evolveTileState. cbv zeta.
  destruct (Qeq_bool _ 0); cbn [fst TileState.integrity]; [lra|].
  pose proof (Q.le_max_l 0 (now - inject_Z (TileState.lastUpdate tile))) as Hnonneg.
  set (elapsedMs := Qmax 0 (now - inject_Z (TileState.lastUpdate tile))) in *.
  assert (Hloss : (0 <= elapsedMs / 1000 / 60 * Options.integrityDecayPerMinute options)%Q).
  { apply Qmult_le_0_compat; [|done].
    assert (H : (elapsedMs / 1000 / 60 == elapsedMs * (1 # 60000))%Q) by field.
    rewrite H. lra. }
  set (loss := (elapsedMs / 1000 / 60 * Options.integrityDecayPerMinute options)%Q) in *.
  eapply Qle_trans.
  - apply clamp_mono, (toFixedPrecision_mono _ (TileState.integrity tile)). lra.
  - rewrite (toFixedPrecision_onGrid _ Hgrid).
    rewrite (clamp_inside (TileState.integrity tile) 0 100) by lra. lra.
Qed.

Lemma evolveTileState_charges tq tr hash tile now multiplier :
  parseTile options tq tr hash = Some tile ->
  (0 <= Options.maxEnergy options)%Q ->
  (0 <= Options.energyRechargePerSecond options)%Q ->
  (0 <= multiplier)%Q ->
  onGrid (TileState.energy tile) ->
  (TileState.energy tile
   <= TileState.energy (fst (evolveTileState options tile now multiplier)))%Q.
Proof.
  intros Hparse Hmax Hrate Hmult Hgrid.
  destruct (parseTile_in_range tq tr hash tile Hparse Hmax) as [Henergy _].
  pose proof (evolveTileState_generated tile now multiplier Hrate Hmult) as Hgenerated.
  unfold evolveTileState in *. cbv zeta in *.
  destruct (Qeq_bool _ 0); cbn [fst snd TileState.energy] in *; [lra|].
  eapply Qle_trans.
  2:{ apply clamp_mono, (toFixedPrecision_mono (TileState.energy tile)).
      match type of Hgenerated with (0 <= ?g)%Q => set (generated := g) in * end. lra. }
  rewrite (toFixedPrecision_onGrid _ Hgrid).
  rewrite (clamp_inside (TileState.energy tile) 0 (Options.maxEnergy options)) by lra. lra.
Qed.

End Evolve.

(** X4.  A tile read from the store and evolved to a later (or earlier)
    time, with rates and a multiplier that are not negative: its energy
    does not drop and stays at most [maxEnergy], its integrity does not
    rise and stays at least 0, the energy generated for the owner is not
    negative, and coordinates, owner, alliance, level and type are what
    they were.  The stored energy and integrity are numbers of at most four
    decimals, as every number the engine writes. *)
Theorem evolveTileState_stays_in_bounds (options : Options.t) (tq tr : Z)
        (hash : TileHash.t) (tile : TileState.t) (now multiplier : Q) :
  parseTile options tq tr hash = Some tile ->
  (0 <= Options.maxEnergy options)%Q ->
  (0 <= Options.energyRechargePerSecond options)%Q ->
  (0 <= Options.integrityDecayPerMinute options)%Q ->
  (0 <= multiplier)%Q ->
  onGrid (TileState.energy tile) ->
  onGrid (TileState.integrity tile) ->
  let evolved := fst (evolveTileState options tile now multiplier) in
  let generated := snd (evolveTileState options tile now multiplier) in
  (TileState.energy tile <= TileState.energy evolved <= Options.maxEnergy options)%Q
  /\ (0 <= TileState.integrity evolved <= TileState.integrity tile)%Q
  /\ (0 <= generated)%Q
  /\ TileState.q evolved = TileState.q tile
  /\ TileState.r evolved = TileState.r tile
  /\ TileState.ownerId evolved = TileState.ownerId tile
  /\ TileState.ownerAllianceTag evolved = TileState.ownerAllianceTag tile
  /\ TileState.ownerAllianceColor evolved = TileState.ownerAllianceColor tile
  /\ TileState.level evolved = TileState.level tile
  /\ TileState.tileType evolved = TileState.tileType tile.
Proof.
  intros Hparse Hmax Hrate Hdecay Hmult Henergy Hintegrity evolved generated.
  destruct (evolveTileState_in_range options tq tr hash tile now multiplier Hparse Hmax)
    as [[_ Hcap] [Hfloor _]].
  split; [split; [by eapply evolveTileState_charges | exact Hcap]|].
  split; [split; [exact Hfloor | by eapply evolveTileState_wears]|].
  split; [by apply evolveTileState_generated|].
  apply evolveTileState_frame.
Qed.

Section OwnersKept.
Variables (options : Options.t) (clock : Z).

Lemma ownerOf_Some currentTile p :
  ownerOf currentTile = Some p
  <-> exists tile, currentTile = Some tile /\ TileState.ownerId tile = Some p.
Proof.
  unfold ownerOf. destruct currentTile as [tile|]; split.
  - intros H. by exists tile.
  - by intros (tile' & [= <-] & H).
  - done.
  - by intros (tile' & H & _).
Qed.

Lemma ownersKept_refl s : ownersKept options s s.
Proof. by repeat split. Qed.

Lemma ownersKept_trans s1 s2 s3 :
  ownersKept options s1 s2 -> ownersKept options s2 s3 -> ownersKept options s1 s3.
Proof.
  intros (H1 & H2 & H3) (G1 & G2 & G3). split; [congruence|]. split; [congruence|].
  intros tq tr. by rewrite G3, H3.
Qed.

Lemma sameWorld_ownersKept s s' : sameWorld s s' -> ownersKept options s s'.
Proof.
  intros (Htiles & _ & Hboard & _ & _ & _ & Howners). split; [done|]. split; [done|].
  intros tq tr. unfold currentTileAt. by rewrite Htiles.
Qed.

Lemma ownersTracked_kept s s' :
  ownersKept options s s' -> ownersTracked options s -> ownersTracked options s'.
Proof.
  intros (Howners & Hboard & Htiles) (Hin & Hheld & Hcount).
  unfold ownersTracked, Redis.members, Redis.score in *. rewrite Howners, Hboard.
  split; [|split; [|done]].
  - intros p member Hmember.
    destruct (Hin p member Hmember) as (tq & tr & tile & Heq & Htile & Howner).
    assert (Hkept : ownerOf (currentTileAt options s' tq tr) = Some p).
    { rewrite Htiles. apply ownerOf_Some. eauto. }
    apply ownerOf_Some in Hkept as (tile' & Htile' & Howner'). eauto 10.
  - intros tq tr tile p Htile Howner.
    assert (Hkept : ownerOf (currentTileAt options s tq tr) = Some p).
    { rewrite <- Htiles. apply ownerOf_Some. eauto. }
    apply ownerOf_Some in Hkept as (tile' & Htile' & Howner'). eauto.
Qed.

(** A tile written back with the owner it was read with reads back with
    that owner. *)
Lemma parseTile_persisted_ownerOf tq tr tile :
  readableOwner (TileState.ownerId tile) ->
  ownerOf (parseTile options tq tr (tileHashFields tile)) = TileState.ownerId tile.
Proof.
  intros Hreadable. unfold parseTile, tileHashFields. cbn.
  destruct (TileState.ownerId tile) as [owner|]; cbn in *; [|done].
  by rewrite Hreadable.
Qed.

(** Writing a tile over the one at its key, with the owner unchanged, keeps
    every owner. *)
Lemma ownersKept_rewrite s s' tq tr tile next :
  Redis.ownerTiles s' = Redis.ownerTiles s ->
  Redis.leaderboardTiles s' = Redis.leaderboardTiles s ->
  currentTileAt options s tq tr = tile ->
  Redis.tileHashes s' = <[(tq, tr) := tileHashFields next]> (Redis.tileHashes s) ->
  TileState.ownerId next = ownerOf tile ->
  ownersKept options s s'.
Proof.
  intros Howners Hboard Htile Htiles Hnext. split; [done|]. split; [done|].
  intros xq xr. unfold currentTileAt at 1. unfold tileKey. rewrite Htiles.
  destruct (decide ((xq, xr) = (tq, tr))) as [[= -> ->]|Hne].
  - rewrite lookup_insert_eq.
    change (default TileHash.empty (Some (tileHashFields next))) with (tileHashFields next).
    rewrite parseTile_persisted_ownerOf; [by rewrite Hnext, Htile|].
    rewrite Hnext. subst tile. unfold currentTileAt, ownerOf.
    destruct (parseTile _ _ _ _) as [old|] eqn:Hold; [|done].
    by eapply parseTile_owner_readable.
  - by rewrite lookup_insert_ne.
Qed.

Lemma repairTile_run userId tq tr s :
  String.eqb (JS.trim userId) "" = false ->
  HexMathFloat.validateCoordinates
    (HexMathFloat.float_of_Z tq) (HexMathFloat.float_of_Z tr) = true ->
  repairOutcome options clock s (JS.trim userId) tq tr
    (result (repairTile options clock userId tq tr) s)
    (exec (repairTile options clock userId tq tr) s).
Proof.
  intros Huser Hvalid. pose proof (normalized_trim userId Huser) as Hn.
  unfold repairOutcome, result, exec, repairTile.
  rewrite (bind_returned _ _ _ _ _ (normalizeUserId_run userId s Huser)).
  unfold validateCoordinates. rewrite Hvalid.
  rewrite (bind_returned (mret tt) _ s tt s eq_refl).
  rewrite (bind_returned _ _ _ _ _ (loadTile_run options tq tr s)).
  set (user := JS.trim userId) in *.
  destruct (currentTileAt options s tq tr) as [tile|].
  2:{ destruct (getPlayerEnergy_sameWorld options clock user s Hn)
        as (energy & s1 & Hrun & Hsame).
      rewrite (bind_returned _ _ _ _ _ Hrun). by exists energy. }
  destruct (same_string (TileState.ownerId tile) (Some user)); cbn [negb].
  2:{ destruct (getPlayerEnergy_sameWorld options clock user s Hn)
        as (energy & s1 & Hrun & Hsame).
      rewrite (bind_returned _ _ _ _ _ Hrun). by exists energy. }
  destruct (spendPlayerEnergy_sameWorld options clock user
              (Options.repairCostEnergy options) (inject_Z clock) s Hn)
    as (attempt & s1 & Hspend & Hsame).
  rewrite (bind_returned _ _ _ _ _ Hspend). exists attempt, s1. split; [done|].
  destruct (spend_ok attempt); cbn [negb]; [|done].
  fold (repairedTile options clock tile).
  destruct Hsame as (H1 & H2 & H3 & H4 & H5 & H6 & H7).
  unfold persistTileState, recordChunkActivity, tileKey. run_async.
  rewrite H1, H2. repeat split; try done.
Qed.

Lemma repairTile_ownersKept userId tq tr s :
  ownersKept options s (exec (repairTile options clock userId tq tr) s).
Proof.
  destruct (String.eqb (JS.trim userId) "") eqn:Huser.
  { unfold exec, repairTile.
    assert (Hthrown : normalizeUserId userId s = (Thrown "userId must not be empty", s))
      by (unfold normalizeUserId; by rewrite Huser).
    rewrite (bind_thrown _ _ _ _ _ Hthrown). apply ownersKept_refl. }
  destruct (HexMathFloat.validateCoordinates
              (HexMathFloat.float_of_Z tq) (HexMathFloat.float_of_Z tr)) eqn:Hvalid.
  2:{ unfold exec, repairTile.
      rewrite (bind_returned _ _ _ _ _ (normalizeUserId_run userId s Huser)).
      assert (Hthrown : validateCoordinates tq tr s
                        = (Thrown "q and r are not valid axial coordinates", s))
        by (unfold validateCoordinates; by rewrite Hvalid).
      rewrite (bind_thrown _ _ _ _ _ Hthrown). apply ownersKept_refl. }
  pose proof (repairTile_run userId tq tr s Huser Hvalid) as Hrun.
  unfold repairOutcome in Hrun.
  destruct (currentTileAt options s tq tr) as [tile|] eqn:Htile.
  2:{ destruct Hrun as (energy & _ & Hsame). by apply sameWorld_ownersKept. }
  destruct (same_string (TileState.ownerId tile) (Some (JS.trim userId))).
  2:{ destruct Hrun as (energy & _ & Hsame). by apply sameWorld_ownersKept. }
  destruct Hrun as (attempt & s1 & Hspend & Hrun).
  destruct (spendPlayerEnergy_sameWorld options clock (JS.trim userId)
              (Options.repairCostEnergy options) (inject_Z clock) s
              (normalized_trim userId Huser))
    as (attempt' & s1' & Hspend' & Hsame).
  rewrite Hspend in Hspend'. injection Hspend' as <- <-.
  destruct (spend_ok attempt).
  - destruct Hrun as (_ & Htiles & _ & (Hboard & _ & _ & _ & Howners) & _).
    by eapply ownersKept_rewrite.
  - destruct Hrun as [_ ->]. by apply sameWorld_ownersKept.
Qed.

Lemma registerNexus_ownersKept tq tr level s :
  ownersKept options s (exec (registerNexus options clock tq tr level) s).
Proof.
  unfold exec, registerNexus. cbv zeta.
  destruct (HexMathFloat.validateCoordinates
              (HexMathFloat.float_of_Z tq) (HexMathFloat.float_of_Z tr)) eqn:Hvalid.
  2:{ assert (Hthrown : validateCoordinates tq tr s
                        = (Thrown "q and r are not valid axial coordinates", s))
        by (unfold validateCoordinates; by rewrite Hvalid).
      rewrite (bind_thrown _ _ _ _ _ Hthrown). apply ownersKept_refl. }
  unfold validateCoordinates. rewrite Hvalid.
  rewrite (bind_returned (mret tt) _ s tt s eq_refl).
  destruct (negb (isInteger (default 3%Q level)) || Qle_bool (default 3%Q level) 0);
    [apply ownersKept_refl|].
  rewrite (bind_returned _ _ _ _ _ (loadTile_run options tq tr s)).
  destruct (currentTileAt options s tq tr) as [tile|] eqn:Htile.
  - match goal with |- context [persistTileState _ ?t] => set (next := t) end.
    eapply (ownersKept_rewrite s _ tq tr (Some tile) next); [| |done| |done];
      unfold persistTileState, tileKey, when, chunkKeyForTile;
      destruct (TileType_eqb (TileState.tileType tile) nexus); by run_async.
  - match goal with |- context [persistTileState _ ?t] => set (next := t) end.
    eapply (ownersKept_rewrite s _ tq tr None next); [| |done| |done];
      unfold persistTileState, tileKey, chunkKeyForTile; by run_async.
Qed.

Lemma ownersKept_tiles s s' :
  Redis.ownerTiles s' = Redis.ownerTiles s ->
  Redis.leaderboardTiles s' = Redis.leaderboardTiles s ->
  Redis.tileHashes s' = Redis.tileHashes s ->
  ownersKept options s s'.
Proof.
  intros Howners Hboard Htiles. split; [done|]. split; [done|].
  intros tq tr. unfold currentTileAt. by rewrite Htiles.
Qed.

(** Writing only the two alliance fields of a hash leaves the owner the
    hash names, also when the hash did not exist. *)
Lemma allianceWrite_ownersKept key tag color s :
  ownersKept options s
    (exec (hSet_tile key
             {| TileHash.ownerId := None;
                TileHash.ownerAllianceTag := Some tag;
                TileHash.ownerAllianceColor := Some color;
                TileHash.energy := None;
                TileHash.lastUpdate := None;
                TileHash.integrity := None;
                TileHash.level := None;
                TileHash.tileType := None |}) s).
Proof.
  split; [done|]. split; [done|]. intros tq tr.
  unfold exec, hSet_tile, currentTileAt, tileKey. cbn [snd Redis.with_tileHashes Redis.tileHashes].
  destruct (decide (key = (tq, tr))) as [->|Hne]; [|by rewrite lookup_insert_ne].
  rewrite lookup_insert_eq.
  destruct (default TileHash.empty (Redis.tileHashes s !! (tq, tr)))
    as [owner oldTag oldColor energy lastUpdate integrity level tileType].
  unfold parseTile, TileHash.merge, TileHash.hasValues. cbn.
  destruct owner as [owner|]; [done|].
  destruct oldTag, oldColor, energy, lastUpdate, integrity, level, tileType; reflexivity.
Qed.

Lemma syncAllianceTagLoop_ownersKept members tag color s :
  ownersKept options s (exec (syncAllianceTagLoop members tag color) s).
Proof.
  revert s. induction members as [|member rest IH]; intros s; [apply ownersKept_refl|].
  cbn [syncAllianceTagLoop]. destruct (parseMember member) as [coordinate|]; [|apply IH].
  match goal with |- context [hSet_tile ?key ?values] =>
    pose proof (allianceWrite_ownersKept key (default "" tag) (default "" color) s) as Hwrite;
    unfold exec; rewrite (bind_returned (hSet_tile key values) _ s tt _ eq_refl)
  end.
  eapply ownersKept_trans; [exact Hwrite | apply IH].
Qed.

Lemma syncAllianceTagToOwnedTiles_run user tag color s :
  exists s',
    syncAllianceTagToOwnedTiles user tag color s = (Returned tt, s')
    /\ ownersKept options s s'.
Proof.
  unfold syncAllianceTagToOwnedTiles.
  rewrite (bind_returned (sMembers _) _ s _ s eq_refl).
  match goal with |- context [syncAllianceTagLoop ?ms tag color] =>
    pose proof (syncAllianceTagLoop_ownersKept ms tag color s) as Hloop;
    destruct (syncAllianceTagLoop_players ms tag color s) as [Hres _];
    rewrite (run_returned _ _ _ Hres)
  end.
  by eexists.
Qed.

Lemma setAllianceTag_ownersKept userId tag s :
  ownersKept options s (exec (setAllianceTag options clock userId tag) s).
Proof.
  unfold exec, setAllianceTag.
  destruct (String.eqb (JS.trim userId) "") eqn:Huser.
  { assert (Hthrown : normalizeUserId userId s = (Thrown "userId must not be empty", s))
      by (unfold normalizeUserId; by rewrite Huser).
    rewrite (bind_thrown _ _ _ _ _ Hthrown). apply ownersKept_refl. }
  rewrite (bind_returned _ _ _ _ _ (normalizeUserId_run userId s Huser)).
  destruct (getOrCreatePlayerState_returns options clock (JS.trim userId) s)
    as (state & Hstate & _).
  pose proof (getOrCreatePlayerState_sameWorld options clock (JS.trim userId) s) as Hsame.
  rewrite (bind_returned _ _ _ _ _ (run_returned _ _ _ Hstate)).
  set (s1 := exec (getOrCreatePlayerState options clock (JS.trim userId)) s) in *.
  apply sameWorld_ownersKept in Hsame.
  eapply ownersKept_trans; [exact Hsame|].
  destruct (normalizeAllianceTag tag s1) as [[normalizedTag|message] s2] eqn:Htag.
  2:{ rewrite (bind_thrown _ _ _ _ _ Htag).
      unfold normalizeAllianceTag in Htag. destruct tag as [raw|]; [|done].
      destruct (_ =? _)%nat; [done|]. destruct (negb _); [|done].
      injection Htag as _ <-. apply ownersKept_refl. }
  rewrite (bind_returned _ _ _ _ _ Htag).
  assert (Hs2 : s2 = s1).
  { unfold normalizeAllianceTag in Htag. destruct tag as [raw|]; [|by injection Htag].
    destruct (_ =? _)%nat; [by injection Htag|]. destruct (negb _); [done|].
    by injection Htag. }
  subst s2. cbv zeta.
  unfold persistPlayerState.
  rewrite (bind_returned _ _ _ _ _ (run_returned (hSet_player _ _) s1 tt eq_refl)).
  match goal with |- context [exec (hSet_player ?u ?v) s1] =>
    set (s3 := exec (hSet_player u v) s1) end.
  eapply (ownersKept_trans s1 s3); [by apply ownersKept_tiles|].
  match goal with |- context [syncAllianceTagToOwnedTiles ?u ?t ?c] =>
    destruct (syncAllianceTagToOwnedTiles_run u t c s3) as (s4 & Hsync & Hkept);
    by rewrite (bind_returned _ _ _ _ _ Hsync)
  end.
Qed.

Lemma rechargeMember_ownersKept now sw member s :
  sweepReadable sw ->
  exists sw' s',
    rechargeMember options clock now sw member s = (Returned sw', s')
    /\ sweepReadable sw'
    /\ ownersKept options s s'.
Proof.
  intros Hsw.
  destruct (rechargeMember_step options clock now sw member s Hsw)
    as (sw' & s' & Hrun & Hsw' & Haside & Hstep).
  exists sw', s'. split; [exact Hrun|]. split; [exact Hsw'|].
  destruct Haside as (_ & Hboard & _ & _ & _ & Howners & _).
  destruct (parseMember member) as [coordinate|].
  2:{ destruct Hstep as [_ ->]. apply ownersKept_refl. }
  destruct (currentTileAt options s (q coordinate) (r coordinate)) as [tile|] eqn:Htile.
  2:{ destruct Hstep as (Htiles & _). by apply ownersKept_tiles. }
  destruct Hstep as (multiplier & Hstored & _).
  destruct (sameTileState tile _).
  - destruct Hstored as [Htiles _]. by apply ownersKept_tiles.
  - destruct Hstored as [Htiles _].
    eapply ownersKept_rewrite; [done|done|exact Htile|exact Htiles|].
    apply evolveTileState_owner.
Qed.

Lemma rechargeMembers_ownersKept now members sw s :
  sweepReadable sw ->
  exists sw' s',
    rechargeMembers options clock now members sw s = (Returned sw', s')
    /\ sweepReadable sw'
    /\ ownersKept options s s'.
Proof.
  revert sw s. induction members as [|member rest IH]; intros sw s Hsw.
  - exists sw, s. split; [done|]. split; [done|]. apply ownersKept_refl.
  - destruct (rechargeMember_ownersKept now sw member s Hsw)
      as (sw1 & s1 & Hrun1 & Hsw1 & Hkept1).
    destruct (IH sw1 s1 Hsw1) as (sw2 & s2 & Hrun2 & Hsw2 & Hkept2).
    exists sw2, s2. cbn [rechargeMembers]. rewrite (bind_returned _ _ _ _ _ Hrun1).
    split; [exact Hrun2|]. split; [exact Hsw2|]. by eapply ownersKept_trans.
Qed.

Lemma rechargeEnergy_ownersKept now s :
  ownersKept options s (exec (rechargeEnergy options clock now) s).
Proof.
  destruct (rechargeMembers_ownersKept now (elements (Redis.tileIndex s)) emptySweep s
              emptySweep_readable)
    as (sw & s1 & Hrun & Hsw & Hkept).
  destruct (creditOwners_run options clock (ownerEnergyGains sw) now s1 (proj2 Hsw))
    as (s2 & Hcredit & Hsame).
  assert (Hsweep : rechargeSweep options clock now s = (Returned sw, s1)).
  { unfold rechargeSweep.
    by rewrite (bind_returned (sMembers TILE_INDEX_KEY) _ s
                  (elements (Redis.tileIndex s)) s eq_refl). }
  unfold exec, rechargeEnergy.
  rewrite (bind_returned _ _ _ _ _ Hsweep), (bind_returned _ _ _ _ _ Hcredit).
  eapply ownersKept_trans; [exact Hkept | by apply sameWorld_ownersKept].
Qed.

End OwnersKept.

Lemma ownersTracked_afterCall options clock call s :
  ownersTracked options s -> ownersTracked options (afterCall options clock call s).
Proof.
  intros Htracked. destruct call as [userId tq tr|userId tq tr|tq tr level|userId tag|now];
    cbn [afterCall].
  - by apply ownersTracked_claimTile.
  - eapply ownersTracked_kept; [apply repairTile_ownersKept | done].
  - eapply ownersTracked_kept; [apply registerNexus_ownersKept | done].
  - eapply ownersTracked_kept; [apply setAllianceTag_ownersKept | done].
  - eapply ownersTracked_kept; [apply rechargeEnergy_ownersKept | done].
Qed.

Lemma ownersTracked_afterCalls options calls s :
  ownersTracked options s -> ownersTracked options (afterCalls options calls s).
Proof.
  revert s. induction calls as [|[clock call] rest IH]; intros s Htracked; [done|].
  cbn [afterCalls]. by apply IH, ownersTracked_afterCall.
Qed.

(** X5.  After any history of [claimTile], [repairTile], [registerNexus],
    [setAllianceTag] and [rechargeEnergy] calls on an empty store,
    whatever their arguments and outcomes, the leaderboard score of every
    player is the number of members of the player's owner set, and the
    members of that set are exactly the coordinates of the stored tiles
    the player owns. *)
Theorem leaderboard_counts_owned_tiles_in_every_history (options : Options.t)
        (calls : list (Z * Call)) (p : string) :
  let world := afterCalls options calls Redis.empty in
  Redis.score p world = Z.of_nat (size (Redis.members (ownerTileKey p) world))
  /\ (forall member,
        member ∈ Redis.members (ownerTileKey p) world <->
        exists tq tr tile,
          member = coordMember tq tr
          /\ currentTileAt options world tq tr = Some tile
          /\ TileState.ownerId tile = Some p).
Proof.
  intros world.
  destruct (ownersTracked_afterCalls options calls Redis.empty
              (ownersTracked_empty options)) as (Hin & Hheld & Hcount).
  split; [apply Hcount|]. intros member. split; [apply Hin|].
  intros (tq & tr & tile & -> & Htile & Howner). by eapply Hheld.
Qed.

Section TilesKept.
Variables (options : Options.t) (clock : Z).

Lemma tilesKept_refl s : tilesKept options s s.
Proof. by repeat split. Qed.

Lemma tilesKept_trans s1 s2 s3 :
  tilesKept options s1 s2 -> tilesKept options s2 s3 -> tilesKept options s1 s3.
Proof.
  intros (H1 & H2 & H3) (G1 & G2 & G3). split; [congruence|]. split; [congruence|].
  intros tq tr. by rewrite G3, H3.
Qed.

Lemma tilesKept_tiles s s' :
  Redis.tileIndex s' = Redis.tileIndex s ->
  Redis.chunkTiles s' = Redis.chunkTiles s ->
  Redis.tileHashes s' = Redis.tileHashes s ->
  tilesKept options s s'.
Proof.
  intros Hindex Hchunks Htiles. split; [done|]. split; [done|].
  intros tq tr. unfold currentTileAt. by rewrite Htiles.
Qed.

Lemma sameWorld_tilesKept s s' : sameWorld s s' -> tilesKept options s s'.
Proof. intros (Htiles & _ & _ & Hindex & _ & Hchunks & _). by apply tilesKept_tiles. Qed.

Lemma tilesIndexed_kept s s' :
  tilesKept options s s' -> tilesIndexed options s -> tilesIndexed options s'.
Proof.
  intros (Hindex & Hchunks & Htiles) (Hlisted & Hchunked & Hstored).
  unfold tilesIndexed, chunkKeyForTile, Redis.members in *. rewrite Hindex, Hchunks.
  split; [|split].
  - intros member Hmember. destruct (Hlisted member Hmember) as (tq & tr & -> & Htile).
    exists tq, tr. split; [done|]. by apply Htiles.
  - intros cq cr member Hmember.
    destruct (Hchunked cq cr member Hmember) as (tq & tr & -> & Hkey & Htile).
    exists tq, tr. split; [done|]. split; [done|]. by apply Htiles.
  - intros tq tr Htile. apply Hstored. by apply Htiles.
Qed.

(** Writing a whole tile over an existing one keeps what is stored where. *)
Lemma tilesKept_rewrite s s' tq tr next :
  Redis.tileIndex s' = Redis.tileIndex s ->
  Redis.chunkTiles s' = Redis.chunkTiles s ->
  is_Some (currentTileAt options s tq tr) ->
  Redis.tileHashes s' = <[(tq, tr) := tileHashFields next]> (Redis.tileHashes s) ->
  tilesKept options s s'.
Proof.
  intros Hindex Hchunks Htile Htiles. split; [done|]. split; [done|].
  intros xq xr. unfold currentTileAt at 1. unfold tileKey. rewrite Htiles.
  destruct (decide ((xq, xr) = (tq, tr))) as [[= -> ->]|Hne].
  - rewrite lookup_insert_eq.
    change (default TileHash.empty (Some (tileHashFields next))) with (tileHashFields next).
    split; [done|]. intros _. apply parseTile_persisted_some.
  - by rewrite lookup_insert_ne.
Qed.

Lemma repairTile_tilesKept userId tq tr s :
  tilesKept options s (exec (repairTile options clock userId tq tr) s).
Proof.
  destruct (String.eqb (JS.trim userId) "") eqn:Huser.
  { unfold exec, repairTile.
    assert (Hthrown : normalizeUserId userId s = (Thrown "userId must not be empty", s))
      by (unfold normalizeUserId; by rewrite Huser).
    rewrite (bind_thrown _ _ _ _ _ Hthrown). apply tilesKept_refl. }
  destruct (HexMathFloat.validateCoordinates
              (HexMathFloat.float_of_Z tq) (HexMathFloat.float_of_Z tr)) eqn:Hvalid.
  2:{ unfold exec, repairTile.
      rewrite (bind_returned _ _ _ _ _ (normalizeUserId_run userId s Huser)).
      assert (Hthrown : validateCoordinates tq tr s
                        = (Thrown "q and r are not valid axial coordinates", s))
        by (unfold validateCoordinates; by rewrite Hvalid).
      rewrite (bind_thrown _ _ _ _ _ Hthrown). apply tilesKept_refl. }
  pose proof (repairTile_run options clock userId tq tr s Huser Hvalid) as Hrun.
  unfold repairOutcome in Hrun.
  destruct (currentTileAt options s tq tr) as [tile|] eqn:Htile.
  2:{ destruct Hrun as (energy & _ & Hsame). by apply sameWorld_tilesKept. }
  destruct (same_string (TileState.ownerId tile) (Some (JS.trim userId))).
  2:{ destruct Hrun as (energy & _ & Hsame). by apply sameWorld_tilesKept. }
  destruct Hrun as (attempt & s1 & Hspend & Hrun).
  destruct (spendPlayerEnergy_sameWorld options clock (JS.trim userId)
              (Options.repairCostEnergy options) (inject_Z clock) s
              (normalized_trim userId Huser))
    as (attempt' & s1' & Hspend' & Hsame).
  rewrite Hspend in Hspend'. injection Hspend' as <- <-.
  destruct (spend_ok attempt).
  - destruct Hrun as (_ & Htiles & _ & (_ & Hindex & _ & Hchunks & _) & _).
    eapply tilesKept_rewrite; [done|done| |exact Htiles]. by rewrite Htile.
  - destruct Hrun as [_ ->]. by apply sameWorld_tilesKept.
Qed.

Lemma rechargeMember_tilesKept now sw member s :
  sweepReadable sw ->
  exists sw' s',
    rechargeMember options clock now sw member s = (Returned sw', s')
    /\ sweepReadable sw'
    /\ tilesKept options s s'.
Proof.
  intros Hsw.
  destruct (rechargeMember_step options clock now sw member s Hsw)
    as (sw' & s' & Hrun & Hsw' & Haside & Hstep).
  exists sw', s'. split; [exact Hrun|]. split; [exact Hsw'|].
  destruct Haside as (_ & _ & Hindex & _ & Hchunks & _).
  destruct (parseMember member) as [coordinate|].
  2:{ destruct Hstep as [_ ->]. apply tilesKept_refl. }
  destruct (currentTileAt options s (q coordinate) (r coordinate)) as [tile|] eqn:Htile.
  2:{ destruct Hstep as (Htiles & _). by apply tilesKept_tiles. }
  destruct Hstep as (multiplier & Hstored & _).
  destruct (sameTileState tile _).
  - destruct Hstored as [Htiles _]. by apply tilesKept_tiles.
  - destruct Hstored as [Htiles _].
    eapply tilesKept_rewrite; [done|done| |exact Htiles]. by rewrite Htile.
Qed.

Lemma rechargeMembers_tilesKept now members sw s :
  sweepReadable sw ->
  exists sw' s',
    rechargeMembers options clock now members sw s = (Returned sw', s')
    /\ sweepReadable sw'
    /\ tilesKept options s s'.
Proof.
  revert sw s. induction members as [|member rest IH]; intros sw s Hsw.
  - exists sw, s. split; [done|]. split; [done|]. apply tilesKept_refl.
  - destruct (rechargeMember_tilesKept now sw member s Hsw)
      as (sw1 & s1 & Hrun1 & Hsw1 & Hkept1).
    destruct (IH sw1 s1 Hsw1) as (sw2 & s2 & Hrun2 & Hsw2 & Hkept2).
    exists sw2, s2. cbn [rechargeMembers]. rewrite (bind_returned _ _ _ _ _ Hrun1).
    split; [exact Hrun2|]. split; [exact Hsw2|]. by eapply tilesKept_trans.
Qed.

Lemma rechargeEnergy_tilesKept now s :
  tilesKept options s (exec (rechargeEnergy options clock now) s).
Proof.
  destruct (rechargeMembers_tilesKept now (elements (Redis.tileIndex s)) emptySweep s
              emptySweep_readable)
    as (sw & s1 & Hrun & Hsw & Hkept).
  destruct (creditOwners_run options clock (ownerEnergyGains sw) now s1 (proj2 Hsw))
    as (s2 & Hcredit & Hsame).
  assert (Hsweep : rechargeSweep options clock now s = (Returned sw, s1)).
  { unfold rechargeSweep.
    by rewrite (bind_returned (sMembers TILE_INDEX_KEY) _ s
                  (elements (Redis.tileIndex s)) s eq_refl). }
  unfold exec, rechargeEnergy.
  rewrite (bind_returned _ _ _ _ _ Hsweep), (bind_returned _ _ _ _ _ Hcredit).
  eapply tilesKept_trans; [exact Hkept | by apply sameWorld_tilesKept].
Qed.

Lemma allianceWrite_tilesKept tq tr tag color s :
  is_Some (currentTileAt options s tq tr) ->
  tilesKept options s
    (exec (hSet_tile (tileKey tq tr)
             {| TileHash.ownerId := None;
                TileHash.ownerAllianceTag := Some tag;
                TileHash.ownerAllianceColor := Some color;
                TileHash.energy := None;
                TileHash.lastUpdate := None;
                TileHash.integrity := None;
                TileHash.level := None;
                TileHash.tileType := None |}) s).
Proof.
  intros Htile. split; [done|]. split; [done|]. intros xq xr.
  unfold exec, hSet_tile, currentTileAt, tileKey in *.
  cbn [snd Redis.with_tileHashes Redis.tileHashes].
  destruct (decide ((tq, tr) = (xq, xr))) as [[= <- <-]|Hne]; [|by rewrite lookup_insert_ne].
  rewrite lookup_insert_eq. split; [done|]. intros _.
  unfold parseTile, TileHash.merge, TileHash.hasValues. cbn.
  rewrite !Bool.orb_true_r. cbn. eauto.
Qed.

Lemma syncAllianceTagLoop_tilesKept members tag color s :
  (forall member coordinate,
      member ∈ members -> parseMember member = Some coordinate ->
      is_Some (currentTileAt options s (q coordinate) (r coordinate))) ->
  tilesKept options s (exec (syncAllianceTagLoop members tag color) s).
Proof.
  revert s. induction members as [|member rest IH]; intros s Hstored;
    [apply tilesKept_refl|].
  cbn [syncAllianceTagLoop].
  destruct (parseMember member) as [coordinate|] eqn:Hparse.
  2:{ apply IH. intros m c Hin. apply Hstored. by right. }
  match goal with |- context [hSet_tile ?key ?values] =>
    pose proof (allianceWrite_tilesKept (q coordinate) (r coordinate)
                  (default "" tag) (default "" color) s
                  (Hstored member coordinate (list_elem_of_here _ _) Hparse)) as Hwrite;
    unfold exec; rewrite (bind_returned (hSet_tile key values) _ s tt _ eq_refl)
  end.
  eapply tilesKept_trans; [exact Hwrite|]. apply IH.
  intros m c Hin Hm. apply (proj2 (proj2 Hwrite)). apply (Hstored m c); [by right|done].
Qed.

Lemma setAllianceTag_tilesKept userId tag s :
  ownersTracked options s ->
  tilesKept options s (exec (setAllianceTag options clock userId tag) s).
Proof.
  intros (Hin & _ & _). unfold exec, setAllianceTag.
  destruct (String.eqb (JS.trim userId) "") eqn:Huser.
  { assert (Hthrown : normalizeUserId userId s = (Thrown "userId must not be empty", s))
      by (unfold normalizeUserId; by rewrite Huser).
    rewrite (bind_thrown _ _ _ _ _ Hthrown). apply tilesKept_refl. }
  rewrite (bind_returned _ _ _ _ _ (normalizeUserId_run userId s Huser)).
  destruct (getOrCreatePlayerState_returns options clock (JS.trim userId) s)
    as (state & Hstate & _).
  pose proof (getOrCreatePlayerState_sameWorld options clock (JS.trim userId) s) as Hsame.
  rewrite (bind_returned _ _ _ _ _ (run_returned _ _ _ Hstate)).
  set (s1 := exec (getOrCreatePlayerState options clock (JS.trim userId)) s) in *.
  eapply tilesKept_trans; [by apply sameWorld_tilesKept|].
  destruct (normalizeAllianceTag tag s1) as [[normalizedTag|message] s2] eqn:Htag.
  2:{ rewrite (bind_thrown _ _ _ _ _ Htag).
      unfold normalizeAllianceTag in Htag. destruct tag as [raw|]; [|done].
      destruct (_ =? _)%nat; [done|]. destruct (negb _); [|done].
      injection Htag as _ <-. apply tilesKept_refl. }
  rewrite (bind_returned _ _ _ _ _ Htag).
  assert (Hs2 : s2 = s1).
  { unfold normalizeAllianceTag in Htag. destruct tag as [raw|]; [|by injection Htag].
    destruct (_ =? _)%nat; [by injection Htag|]. destruct (negb _); [done|].
    by injection Htag. }
  subst s2. cbv zeta. unfold persistPlayerState.
  rewrite (bind_returned _ _ _ _ _ (run_returned (hSet_player _ _) s1 tt eq_refl)).
  match goal with |- context [exec (hSet_player ?u ?v) s1] =>
    set (s3 := exec (hSet_player u v) s1) end.
  eapply (tilesKept_trans s1 s3); [by apply tilesKept_tiles|].
  unfold syncAllianceTagToOwnedTiles.
  match goal with |- context [syncAllianceTagLoop _ ?t ?c] =>
    set (normalizedColor := c) end.
  assert (Hloop : tilesKept options s3
            (exec (syncAllianceTagLoop
                     (elements (Redis.members (ownerTileKey (JS.trim userId)) s3))
                     normalizedTag normalizedColor) s3)).
  { apply syncAllianceTagLoop_tilesKept. intros member coordinate Hmember Hparse.
    apply elem_of_elements in Hmember.
    destruct Hsame as (Htiles & _ & _ & _ & _ & _ & Howners).
    assert (Hbefore : member ∈ Redis.members (ownerTileKey (JS.trim userId)) s)
      by (unfold Redis.members in *; by rewrite <- Howners).
    destruct (Hin _ _ Hbefore) as (tq & tr & tile & -> & Htile & _).
    rewrite parseMember_coordMember in Hparse. injection Hparse as <-. cbn [q r].
    unfold currentTileAt in *. cbn [Redis.tileHashes Redis.with_playerHashes exec snd hSet_player s3].
    rewrite Htiles, Htile. eauto. }
  destruct (syncAllianceTagLoop_players
              (elements (Redis.members (ownerTileKey (JS.trim userId)) s3))
              normalizedTag normalizedColor s3) as [Hres _].
  assert (Hsync : syncAllianceTagToOwnedTiles (JS.trim userId) normalizedTag
                    normalizedColor s3
                  = (Returned tt,
                     exec (syncAllianceTagLoop
                             (elements (Redis.members (ownerTileKey (JS.trim userId)) s3))
                             normalizedTag normalizedColor) s3)).
  { unfold syncAllianceTagToOwnedTiles.
    rewrite (bind_returned (sMembers _) _ s3 _ s3 eq_refl).
    by rewrite (run_returned _ _ _ Hres). }
  fold (syncAllianceTagToOwnedTiles (JS.trim userId) normalizedTag normalizedColor).
  by rewrite (bind_returned _ _ _ _ _ Hsync).
Qed.

Lemma tilesIndexed_added s s' tq tr next :
  tileAdded options s s' tq tr next -> tilesIndexed options s -> tilesIndexed options s'.
Proof.
  intros (Htiles & Hindex & Hchunks) (Hlisted & Hchunked & Hstored).
  assert (Hgrow : forall xq xr,
             is_Some (currentTileAt options s xq xr) ->
             is_Some (currentTileAt options s' xq xr)).
  { intros xq xr Hsome. rewrite (currentTileAt_insert options s s' tq tr _ xq xr Htiles).
    destruct (decide _) as [_|_]; [apply parseTile_persisted_some | done]. }
  assert (Hnew : is_Some (currentTileAt options s' tq tr)).
  { rewrite (currentTileAt_insert options s s' tq tr _ tq tr Htiles).
    rewrite decide_True by done. apply parseTile_persisted_some. }
  assert (Hmembers : forall cq cr,
             Redis.members (chunkKey cq cr) s'
             = if decide ((cq, cr) = (toChunkIndex options tq, toChunkIndex options tr))
               then Redis.members (chunkKey cq cr) s ∪ {[coordMember tq tr]}
               else Redis.members (chunkKey cq cr) s).
  { intros cq cr. unfold Redis.members at 1. rewrite Hchunks.
    destruct (decide _) as [[= -> ->]|Hne].
    - by rewrite lookup_insert_eq.
    - by rewrite lookup_insert_ne. }
  split; [|split].
  - intros member. rewrite Hindex.
    intros [Hmember| ->%elem_of_singleton]%elem_of_union; [|eauto].
    destruct (Hlisted member Hmember) as (xq & xr & -> & Htile). eauto.
  - intros cq cr member. rewrite Hmembers.
    assert (Hold : member ∈ Redis.members (chunkKey cq cr) s ->
              exists xq xr, member = coordMember xq xr
                /\ chunkKeyForTile options xq xr = chunkKey cq cr
                /\ is_Some (currentTileAt options s' xq xr)).
    { intros Hmember.
      destruct (Hchunked cq cr member Hmember) as (xq & xr & -> & Hkey & Htile). eauto 6. }
    destruct (decide _) as [[= -> ->]|Hne]; [|done].
    intros [Hmember| ->%elem_of_singleton]%elem_of_union; [by apply Hold|].
    exists tq, tr. by repeat split.
  - intros xq xr. rewrite (currentTileAt_insert options s s' tq tr _ xq xr Htiles).
    rewrite Hindex. unfold chunkKeyForTile. rewrite Hmembers.
    destruct (decide ((xq, xr) = (tq, tr))) as [[= -> ->]|Hne].
    + intros _. rewrite decide_True by done.
      split; by apply elem_of_union_r, elem_of_singleton.
    + intros Htile. destruct (Hstored xq xr Htile) as [Hlist Hchunk].
      split; [by apply elem_of_union_l|].
      unfold chunkKeyForTile in Hchunk.
      destruct (decide _); [by apply elem_of_union_l | done].
Qed.

Lemma registerNexus_tiles tq tr level s :
  s = exec (registerNexus options clock tq tr level) s
  \/ exists next,
       tileAdded options s (exec (registerNexus options clock tq tr level) s) tq tr next.
Proof.
  unfold exec, registerNexus. cbv zeta.
  destruct (HexMathFloat.validateCoordinates
              (HexMathFloat.float_of_Z tq) (HexMathFloat.float_of_Z tr)) eqn:Hvalid.
  2:{ assert (Hthrown : validateCoordinates tq tr s
                        = (Thrown "q and r are not valid axial coordinates", s))
        by (unfold validateCoordinates; by rewrite Hvalid).
      left. by rewrite (bind_thrown _ _ _ _ _ Hthrown). }
  unfold validateCoordinates. rewrite Hvalid.
  rewrite (bind_returned (mret tt) _ s tt s eq_refl).
  destruct (negb (isInteger (default 3%Q level)) || Qle_bool (default 3%Q level) 0);
    [by left|].
  rewrite (bind_returned _ _ _ _ _ (loadTile_run options tq tr s)).
  match goal with |- context [persistTileState _ ?t] => set (next := t) end.
  right. exists next.
  unfold tileAdded, persistTileState, tileKey, when, chunkKeyForTile.
  destruct (currentTileAt options s tq tr) as [tile|];
    [destruct (TileType_eqb (TileState.tileType tile) nexus)|]; by run_async.
Qed.

Lemma registerNexus_tilesIndexed tq tr level s :
  tilesIndexed options s ->
  tilesIndexed options (exec (registerNexus options clock tq tr level) s).
Proof.
  intros Hindexed.
  destruct (registerNexus_tiles tq tr level s) as [<-|(next & Hadded)]; [done|].
  by eapply tilesIndexed_added.
Qed.

Lemma claimCommit_added user tq tr currentTile attempt cost s :
  normalized user ->
  ownedBy currentTile user = false ->
  exists next,
    tileAdded options s (exec (claimCommit options clock user tq tr currentTile attempt cost) s)
      tq tr next.
Proof.
  intros Hn Hown.
  destruct (getPlayerProfile_run options clock user s Hn) as (profile & Hprofile).
  destruct (getOrCreatePlayerState_sameWorld options clock user s)
    as (Htiles & Hactivity & Hboard & Hindex & Hpoi & Hchunks & Howners).
  set (s1 := exec (getOrCreatePlayerState options clock user) s) in *.
  unfold exec, claimCommit. rewrite (bind_returned _ _ _ _ _ Hprofile). cbv zeta.
  rewrite (not_owned_gains currentTile user Hown).
  match goal with |- context [persistTileState _ ?tile] => set (next := tile) end.
  exists next.
  unfold tileAdded, persistTileState, recordChunkActivity, tileKey, chunkKeyForTile.
  run_async.
  destruct (ownedByOther currentTile user);
    destruct (TileType_eqb (TileState.tileType next) nexus); cbn;
    by rewrite ?Htiles, ?Hindex, ?Hchunks.
Qed.

Lemma claimTile_tiles userId tq tr s :
  sameWorld s (exec (claimTile options clock userId tq tr) s)
  \/ exists s1 next,
       sameWorld s s1
       /\ tileAdded options s1 (exec (claimTile options clock userId tq tr) s) tq tr next.
Proof.
  destruct (String.eqb (JS.trim userId) "") eqn:Huser.
  { unfold exec, claimTile.
    assert (Hthrown : normalizeUserId userId s = (Thrown "userId must not be empty", s))
      by (unfold normalizeUserId; by rewrite Huser).
    rewrite (bind_thrown _ _ _ _ _ Hthrown). left. apply sameWorld_refl. }
  destruct (HexMathFloat.validateCoordinates
              (HexMathFloat.float_of_Z tq) (HexMathFloat.float_of_Z tr)) eqn:Hvalid.
  2:{ unfold exec, claimTile.
      rewrite (bind_returned _ _ _ _ _ (normalizeUserId_run userId s Huser)).
      assert (Hthrown : validateCoordinates tq tr s
                        = (Thrown "q and r are not valid axial coordinates", s))
        by (unfold validateCoordinates; by rewrite Hvalid).
      rewrite (bind_thrown _ _ _ _ _ Hthrown). left. apply sameWorld_refl. }
  pose proof (normalized_trim userId Huser) as Hn.
  set (user := JS.trim userId) in *.
  set (currentTile := currentTileAt options s tq tr).
  destruct (ownedBy currentTile user) eqn:Hown.
  { unfold exec, claimTile.
    rewrite (bind_returned _ _ _ _ _ (normalizeUserId_run userId s Huser)).
    unfold validateCoordinates. rewrite Hvalid.
    rewrite (bind_returned (mret tt) _ s tt s eq_refl).
    rewrite (bind_returned _ _ _ _ _ (loadTile_run options tq tr s)).
    fold currentTile user. destruct currentTile as [tile|]; [|done].
    cbn in Hown. rewrite Hown.
    destruct (getPlayerEnergy_sameWorld options clock user s Hn)
      as (energy & s1 & Hrun & Hsame).
    rewrite (bind_returned _ _ _ _ _ Hrun). by left. }
  unfold exec. rewrite (claimTile_entry options clock userId tq tr s Huser Hvalid Hown).
  fold user currentTile. unfold claimGated.
  rewrite (bind_returned _ _ _ _ _ (validateClaimDistance_run options user tq tr s)).
  match goal with |- context [match ?range with RangeOk => _ | RangeFail _ => _ end] =>
    destruct range as [|nearest] end.
  2:{ destruct (getPlayerEnergy_sameWorld options clock user s Hn)
        as (energy & s1 & Hrun & Hsame).
      rewrite (bind_returned _ _ _ _ _ Hrun). by left. }
  unfold claimSpend. cbv zeta.
  match goal with |- context [spendPlayerEnergy _ _ _ ?cost ?now] =>
    destruct (spendPlayerEnergy_sameWorld options clock user cost now s Hn)
      as (attempt & s1 & Hspend & Hsame);
    rewrite (bind_returned _ _ _ _ _ Hspend)
  end.
  destruct (spend_ok attempt); cbn [negb]; [|by left].
  match goal with |- context [claimCommit _ _ _ _ _ _ _ ?cost] =>
    destruct (claimCommit_added user tq tr currentTile attempt cost s1 Hn Hown)
      as (next & Hadded)
  end.
  right. by exists s1, next.
Qed.

Lemma claimTile_tilesIndexed userId tq tr s :
  tilesIndexed options s ->
  tilesIndexed options (exec (claimTile options clock userId tq tr) s).
Proof.
  intros Hindexed.
  destruct (claimTile_tiles userId tq tr s) as [Hsame|(s1 & next & Hsame & Hadded)].
  - eapply tilesIndexed_kept; [by apply sameWorld_tilesKept | done].
  - eapply tilesIndexed_added; [done|].
    eapply tilesIndexed_kept; [by apply sameWorld_tilesKept | done].
Qed.

Lemma tilesIndexed_empty : tilesIndexed options Redis.empty.
Proof.
  split; [|split].
  - intros member Hmember. by apply elem_of_empty in Hmember.
  - intros cq cr member. cbn. rewrite lookup_empty. cbn. intros Hmember.
    by apply elem_of_empty in Hmember.
  - intros tq tr. unfold currentTileAt. cbn. rewrite lookup_empty. cbn.
    by intros [tile Htile].
Qed.

End TilesKept.

Lemma worldTracked_afterCall options clock call s :
  worldTracked options s -> worldTracked options (afterCall options clock call s).
Proof.
  intros [Howners Hindexed].
  destruct call as [userId tq tr|userId tq tr|tq tr level|userId tag|now];
    cbn [afterCall]; split.
  - by apply ownersTracked_claimTile.
  - by apply claimTile_tilesIndexed.
  - eapply ownersTracked_kept; [apply repairTile_ownersKept | done].
  - eapply tilesIndexed_kept; [apply repairTile_tilesKept | done].
  - eapply ownersTracked_kept; [apply registerNexus_ownersKept | done].
  - by apply registerNexus_tilesIndexed.
  - eapply ownersTracked_kept; [apply setAllianceTag_ownersKept | done].
  - eapply tilesIndexed_kept; [by apply setAllianceTag_tilesKept | done].
  - eapply ownersTracked_kept; [apply rechargeEnergy_ownersKept | done].
  - eapply tilesIndexed_kept; [apply rechargeEnergy_tilesKept | done].
Qed.

Lemma worldTracked_afterCalls options calls s :
  worldTracked options s -> worldTracked options (afterCalls options calls s).
Proof.
  revert s. induction calls as [|[clock call] rest IH]; intros s Htracked; [done|].
  cbn [afterCalls]. by apply IH, worldTracked_afterCall.
Qed.

Lemma worldTracked_history options calls :
  worldTracked options (afterCalls options calls Redis.empty).
Proof.
  apply worldTracked_afterCalls. split; [apply ownersTracked_empty | apply tilesIndexed_empty].
Qed.

(** ** The whole tick and a tile without integrity *)

Section Yield.
Variables (options : Options.t) (clock : Z).














End Yield.




(** ** [Array.prototype.sort] *)

Section Sort.
Context {A : Type} (compare : A -> A -> Z).

Lemma insert_Permutation item sorted :
  JSArray.insert compare item sorted ≡ₚ item :: sorted.
Proof.
  induction sorted as [|head rest IH]; [done|]. cbn [JSArray.insert].
  destruct (compare item head <=? 0); [done|].
  rewrite IH. apply Permutation_swap.
Qed.

Lemma sort_Permutation items : JSArray.sort compare items ≡ₚ items.
Proof.
  induction items as [|item rest IH]; [done|]. cbn [JSArray.sort].
  by rewrite insert_Permutation, IH.
Qed.

Hypothesis compare_total : forall a b, 0 < compare a b -> compare b a <= 0.

Lemma insert_Sorted item sorted :
  Sorted (fun a b => compare a b <= 0) sorted ->
  Sorted (fun a b => compare a b <= 0) (JSArray.insert compare item sorted).
Proof.
  induction sorted as [|head rest IH]; intros Hsorted; cbn [JSArray.insert].
  - by constructor.
  - destruct (compare item head <=? 0) eqn:Hle.
    + constructor; [done|]. constructor. lia.
    + apply Sorted_inv in Hsorted as [Hrest Hhead]. constructor; [by apply IH|].
      destruct rest as [|next rest']; cbn [JSArray.insert].
      * constructor. apply compare_total. lia.
      * destruct (compare item next <=? 0).
        -- constructor. apply compare_total. lia.
        -- constructor. by apply HdRel_inv in Hhead.
Qed.

Lemma sort_Sorted items :
  Sorted (fun a b => compare a b <= 0) (JSArray.sort compare items).
Proof.
  induction items as [|item rest IH]; [constructor|]. cbn [JSArray.sort].
  by apply insert_Sorted.
Qed.

End Sort.

Lemma omap_combine_map {A B C} (f : A * B -> option C) (g : A -> B) (items : list A) :
  omap f (combine items (map g items)) = omap (fun item => f (item, g item)) items.
Proof.
  induction items as [|item rest IH]; [done|]. cbn [map combine].
  change (omap f ((item, g item) :: combine rest (map g rest)))
    with (match f (item, g item) with
          | Some y => y :: omap f (combine rest (map g rest))
          | None => omap f (combine rest (map g rest))
          end).
  by rewrite IH.
Qed.

Section RangeQuery.
Variable options : Options.t.






Lemma hGetAllTiles_run coordinates s :
  hGetAllTiles coordinates s
  = (Returned (map (fun coordinate =>
                      default TileHash.empty
                        (Redis.tileHashes s !! tileKey (q coordinate) (r coordinate)))
                   coordinates), s).
Proof.
  induction coordinates as [|coordinate rest IH]; [done|]. cbn [hGetAllTiles map].
  rewrite (bind_returned (hGetAll_tile _) _ s _ s eq_refl).
  by rewrite (bind_returned _ _ _ _ _ IH).
Qed.

Lemma parsedTiles_stored coordinates s :
  parsedTiles options coordinates
    (map (fun coordinate =>
            default TileHash.empty
              (Redis.tileHashes s !! tileKey (q coordinate) (r coordinate)))
         coordinates)
  = omap (fun coordinate => currentTileAt options s (q coordinate) (r coordinate))
         coordinates.
Proof.
  unfold parsedTiles.
  rewrite (omap_combine_map (fun pair => parseTile options (q (fst pair)) (r (fst pair)) (snd pair))).
  reflexivity.
Qed.








Lemma parseTile_coordinates tq tr hash tile :
  parseTile options tq tr hash = Some tile ->
  TileState.q tile = tq /\ TileState.r tile = tr.
Proof.
  unfold parseTile. destruct (negb (TileHash.hasValues hash)); [done|].
  by intros [= <-].
Qed.





End RangeQuery.


Lemma NoDup_omap_inj {A B} (f : A -> option B) (items : list A) :
  NoDup items ->
  (forall x y z, x ∈ items -> y ∈ items -> f x = Some z -> f y = Some z -> x = y) ->
  NoDup (omap f items).
Proof.
  induction items as [|item rest IH]; intros Hnodup Hinj; [constructor|].
  apply NoDup_cons in Hnodup as [Hfresh Hrest].
  change (omap f (item :: rest))
    with (match f item with Some y => y :: omap f rest | None => omap f rest end).
  assert (Htail : NoDup (omap f rest)).
  { apply IH; [done|]. intros x y z Hx Hy. apply Hinj; by right. }
  destruct (f item) as [image|] eqn:Himage; [|done].
  apply NoDup_cons. split; [|done].
  intros (other & Hother & Hsame)%list_elem_of_omap.
  assert (item = other) by (eapply Hinj; [by left | by right | done | done]).
  by subst other.
Qed.

Section RangeQueryComplete.
Variable options : Options.t.




End RangeQueryComplete.


Section Snapshot.
Variables (options : Options.t) (limits : Limits.t).

Lemma loadTilesForMembers_run members s :
  loadTilesForMembers options members s
  = (Returned (omap (fun coordinate =>
                       currentTileAt options s (q coordinate) (r coordinate))
                    (omap parseMember members)), s).
Proof.
  unfold loadTilesForMembers. cbv zeta.
  rewrite (bind_returned _ _ _ _ _ (hGetAllTiles_run _ s)).
  by rewrite parsedTiles_stored.
Qed.

(** The loop of [flushSnapshotToPostgres], for a batch size of [size]
    tiles: what has been handed over plus what is pending is what came in,
    every batch handed over is full, and the pending batch is not. *)
Lemma flushTiles_batches (size : Z) tiles state :
  (Limits.snapshotBatchSize limits == inject_Z size)%Q ->
  1 <= size ->
  Z.of_nat (length (flush_batch state)) < size ->
  Forall (fun batch => Z.of_nat (length batch) = size) (flush_upserts state) ->
  let final := flushTiles limits tiles state in
  (concat (flush_upserts final) ++ flush_batch final
   = (concat (flush_upserts state) ++ flush_batch state) ++ tiles)%list
  /\ flush_persisted final + Z.of_nat (length (flush_batch final))
     = flush_persisted state + Z.of_nat (length (flush_batch state))
       + Z.of_nat (length tiles)
  /\ Z.of_nat (length (flush_batch final)) < size
  /\ Forall (fun batch => Z.of_nat (length batch) = size) (flush_upserts final).
Proof.
  intros Hsize Hpositive. revert state.
  induction tiles as [|tile rest IH]; intros state Hpending Hfull; cbn [flushTiles].
  - cbn [length]. rewrite app_nil_r. repeat split; (done || lia).
  - cbv zeta. rewrite Hsize.
    set (batch := (flush_batch state ++ [tile])%list).
    assert (Hlength : Z.of_nat (length batch) = Z.of_nat (length (flush_batch state)) + 1).
    { unfold batch. rewrite length_app. cbn [length]. lia. }
    destruct (Qle_bool (inject_Z size) (inject_Z (Z.of_nat (length batch)))) eqn:Hreached.
    + apply Qle_bool_iff in Hreached. rewrite <- Zle_Qle in Hreached.
      destruct (IH (mkFlush [] (flush_persisted state + Z.of_nat (length batch))
                            (flush_upserts state ++ [batch])%list))
        as (Hall & Hcount & Hshort & Hfulls).
      { cbn [flush_batch length]. lia. }
      { cbn [flush_upserts]. apply Forall_app. split; [done|]. constructor; [lia|constructor]. }
      cbn [flush_batch flush_persisted flush_upserts length] in *.
      split; [|split; [|done]].
      * rewrite Hall, concat_app. cbn [concat]. unfold batch.
        rewrite !app_nil_r, <- !app_assoc. reflexivity.
      * rewrite Hcount. cbn [length]. lia.
    + apply Qle_bool_false in Hreached. rewrite <- Zlt_Qlt in Hreached.
      destruct (IH (mkFlush batch (flush_persisted state) (flush_upserts state)))
        as (Hall & Hcount & Hshort & Hfulls); [done|done|].
      cbn [flush_batch flush_persisted flush_upserts] in *.
      split; [|split; [|done]].
      * rewrite Hall. unfold batch. rewrite <- !app_assoc. reflexivity.
      * rewrite Hcount. cbn [length]. lia.
Qed.

Lemma flushSnapshotToPostgres_run (size : Z) s :
  (Limits.snapshotBatchSize limits == inject_Z size)%Q ->
  1 <= size ->
  exists batches,
    flushSnapshotToPostgres options limits true s
    = (Returned (Z.of_nat (length (indexedTiles options s)), batches), s)
    /\ concat batches = indexedTiles options s
    /\ Forall (fun batch => 1 <= Z.of_nat (length batch) <= size) batches
    /\ (forall (index : nat) batch,
          batches !! index = Some batch -> (S index < length batches)%nat ->
          Z.of_nat (length batch) = size).
Proof.
  intros Hsize Hpositive. unfold flushSnapshotToPostgres. cbn [negb].
  rewrite (bind_returned (sMembers TILE_INDEX_KEY) _ s _ s eq_refl).
  rewrite (bind_returned _ _ _ _ _ (loadTilesForMembers_run _ s)).
  change (Redis.members TILE_INDEX_KEY s) with (Redis.tileIndex s).
  fold (indexedTiles options s). cbv zeta.
  destruct (flushTiles_batches size (indexedTiles options s) (mkFlush [] 0 []) Hsize Hpositive)
    as (Hall & Hcount & Hshort & Hfull);
    [change (Z.of_nat 0 < size); lia | constructor |].
  cbn [flush_batch flush_persisted flush_upserts concat app length] in Hall, Hcount.
  set (final := flushTiles limits (indexedTiles options s) (mkFlush [] 0 [])) in *.
  assert (Hfull' : Forall (fun batch => 1 <= Z.of_nat (length batch) <= size)
                          (flush_upserts final)).
  { eapply Forall_impl; [exact Hfull|]. cbn. lia. }
  clearbody final.
  destruct (flush_batch final) as [|tile pending] eqn:Hpending;
    [change (0 <? length (@nil TileState.t))%nat with false
    |change (0 <? length (tile :: pending))%nat with true]; cbv iota.
  - exists (flush_upserts final). rewrite app_nil_r in Hall. cbn [length] in Hcount.
    replace (flush_persisted final) with (Z.of_nat (length (indexedTiles options s))) by lia.
    split; [done|]. split; [done|]. split; [done|].
    intros index batch Hlookup _. by eapply (proj1 (Forall_lookup _ _) Hfull).
  - exists (flush_upserts final ++ [tile :: pending])%list.
    replace (flush_persisted final + Z.of_nat (length (tile :: pending)))
      with (Z.of_nat (length (indexedTiles options s))) by lia.
    split; [done|].
    split; [by rewrite concat_app; cbn [concat]; rewrite app_nil_r|].
    split.
    + apply Forall_app. split; [done|]. constructor; [|constructor].
      cbn [length] in *. lia.
    + intros index batch Hlookup Hinner. rewrite length_app in Hinner. cbn [length] in Hinner.
      rewrite lookup_app_l in Hlookup by lia.
      by eapply (proj1 (Forall_lookup _ _) Hfull).
Qed.

Lemma indexedTiles_exact s :
  tilesIndexed options s ->
  NoDup (indexedTiles options s)
  /\ forall tile,
       tile ∈ indexedTiles options s
       <-> currentTileAt options s (TileState.q tile) (TileState.r tile) = Some tile.
Proof.
  intros (Hlisted & _ & Hstored). unfold indexedTiles. split.
  - apply NoDup_omap_inj.
    + apply NoDup_omap_inj; [apply NoDup_elements|].
      intros m1 m2 coordinate H1%elem_of_elements H2%elem_of_elements Hp1 Hp2.
      destruct (Hlisted m1 H1) as (q1 & r1 & -> & _).
      destruct (Hlisted m2 H2) as (q2 & r2 & -> & _).
      rewrite parseMember_coordMember in Hp1, Hp2. congruence.
    + intros c1 c2 tile _ _ H1 H2. unfold currentTileAt in H1, H2.
      destruct (parseTile_coordinates options _ _ _ _ H1) as [Hq1 Hr1].
      destruct (parseTile_coordinates options _ _ _ _ H2) as [Hq2 Hr2].
      destruct c1 as [q1 r1]. destruct c2 as [q2 r2]. cbn [q r] in *. congruence.
  - intros tile. rewrite list_elem_of_omap. split.
    + intros (coordinate & _ & Htile). unfold currentTileAt in Htile.
      by destruct (parseTile_coordinates options _ _ _ _ Htile) as [-> ->].
    + intros Htile. exists (mkHexTile (TileState.q tile) (TileState.r tile)).
      split; [|done]. apply list_elem_of_omap.
      exists (coordMember (TileState.q tile) (TileState.r tile)).
      split; [|apply parseMember_coordMember].
      apply elem_of_elements, Hstored. by rewrite Htile.
Qed.

End Snapshot.

(** X8.  After any history of calls, with a repository and a batch size
    that is a positive integer, [flushSnapshotToPostgres] hands the
    repository every stored tile, each once and as it is stored, in
    batches that are never empty and never larger than the batch size,
    all but the last of them full; it returns the number of tiles handed
    over and leaves the store as it was. *)
Theorem flushSnapshotToPostgres_hands_over_every_tile_once (options : Options.t)
        (limits : Limits.t) (calls : list (Z * Call)) (size : Z) :
  (Limits.snapshotBatchSize limits == inject_Z size)%Q ->
  1 <= size ->
  let world := afterCalls options calls Redis.empty in
  exists batches,
    flushSnapshotToPostgres options limits true world
    = (Returned (Z.of_nat (length (concat batches)), batches), world)
    /\ NoDup (concat batches)
    /\ (forall tile,
          tile ∈ concat batches
          <-> currentTileAt options world (TileState.q tile) (TileState.r tile) = Some tile)
    /\ Forall (fun batch => 1 <= Z.of_nat (length batch) <= size) batches
    /\ (forall (index : nat) batch,
          batches !! index = Some batch -> (S index < length batches)%nat ->
          Z.of_nat (length batch) = size).
Proof.
  intros Hsize Hpositive world.
  destruct (flushSnapshotToPostgres_run options limits size world Hsize Hpositive)
    as (batches & Hrun & Hall & Hsizes & Hfull).
  destruct (indexedTiles_exact options world (proj2 (worldTracked_history options calls)))
    as [Hnodup Hexact].
  exists batches. rewrite Hall.
  split; [exact Hrun|]. split; [exact Hnodup|]. split; [exact Hexact|]. by split.
Qed.

Lemma StronglySorted_sublist {A} (R : A -> A -> Prop) (short long : list A) :
  short `sublist_of` long -> StronglySorted R long -> StronglySorted R short.
Proof.
  induction 1 as [|x short long Hsub IH|x short long Hsub IH]; intros Hsorted.
  - constructor.
  - apply StronglySorted_inv in Hsorted as [Hrest Hall]. constructor; [by apply IH|].
    apply Forall_forall. intros y Hy. apply (proj1 (Forall_forall _ _) Hall).
    by eapply elem_of_sublist.
  - apply StronglySorted_inv in Hsorted as [Hrest _]. by apply IH.
Qed.

Lemma List_filter_sublist {A} (keep : A -> bool) (items : list A) :
  List.filter keep items `sublist_of` items.
Proof.
  induction items as [|item rest IH]; [constructor|]. cbn [List.filter].
  destruct (keep item); by constructor.
Qed.

Section Leaderboard.
Variables (options : Options.t) (limits : Limits.t) (clock : Z).

Lemma leaderboardLoop_run rankedEntries s :
  exists entries s',
    leaderboardLoop options clock rankedEntries s = (Returned entries, s')
    /\ playersGrow s s'
    /\ map (fun entry => (entry_userId entry, entry_score entry)) entries
       = List.filter listed rankedEntries.
Proof.
  revert s. induction rankedEntries as [|[userId rawScore] rest IH]; intros s.
  - exists [], s. split; [done|]. split; [apply playersGrow_refl | done].
  - cbn [leaderboardLoop List.filter]. unfold listed at 1. cbn [fst snd].
    destruct (String.eqb (JS.trim userId) "") eqn:Hblank; cbn [negb andb]; [apply IH|].
    cbv zeta. destruct (0 <? rawScore) eqn:Hpositive.
    + apply Z.ltb_lt in Hpositive.
      replace (Z.max 0 rawScore <=? 0) with false by (symmetry; apply Z.leb_gt; lia).
      destruct (getPlayerProfile_readable options clock userId s Hblank)
        as (profile & Hprofile).
      rewrite (bind_returned _ _ _ _ _ Hprofile).
      destruct (IH (exec (getOrCreatePlayerState options clock (JS.trim userId)) s))
        as (entries & s' & Hrun & Hgrow & Hentries).
      rewrite (bind_returned _ _ _ _ _ Hrun).
      eexists _, s'. split; [reflexivity|]. split.
      * eapply playersGrow_trans; [apply getOrCreatePlayerState_grows | exact Hgrow].
      * cbn [map entry_userId entry_score]. rewrite Hentries. f_equal. f_equal. lia.
    + apply Z.ltb_ge in Hpositive.
      replace (Z.max 0 rawScore <=? 0) with true by (symmetry; apply Z.leb_le; lia).
      apply IH.
Qed.

Lemma clamp_integer f :
  JS.Math_floor (JS.clamp (inject_Z f) 1 100) = Z.max 1 (Z.min 100 f).
Proof.
  unfold JS.Math_floor. rewrite <- (Qfloor_Z (Z.max 1 (Z.min 100 f))).
  apply Qfloor_comp. unfold JS.clamp.
  change 1%Q with (inject_Z 1). change 100%Q with (inject_Z 100).
  destruct (Z.min_spec 100 f) as [[Hlt ->]|[Hle ->]].
  - rewrite (Q.min_l (inject_Z 100) (inject_Z f)) by (rewrite <- Zle_Qle; lia).
    rewrite Z.max_r by lia. apply Q.max_r. by rewrite <- Zle_Qle.
  - rewrite (Q.min_r (inject_Z 100) (inject_Z f)) by (rewrite <- Zle_Qle; lia).
    destruct (Z.max_spec 1 f) as [[Hlt ->]|[Hge ->]].
    + apply Q.max_r. rewrite <- Zle_Qle. lia.
    + apply Q.max_l. rewrite <- Zle_Qle. lia.
Qed.

Lemma zRangeWithScores_REV_top (count : Z) s :
  1 <= count ->
  zRangeWithScores_REV 0 (count - 1) s
  = (Returned (take (Z.to_nat count)
                 (JSArray.sort rankCompare (map_to_list (Redis.leaderboardTiles s)))), s).
Proof.
  intros Hcount. unfold zRangeWithScores_REV. cbv zeta.
  set (ranked := JSArray.sort rankCompare (map_to_list (Redis.leaderboardTiles s))).
  replace (0 <? 0) with false by done.
  replace (count - 1 <? 0) with false by (symmetry; apply Z.ltb_ge; lia).
  change (Z.to_nat 0) with 0%nat. rewrite drop_0. f_equal. f_equal.
  destruct (Z.min_spec (count - 1) (Z.of_nat (length ranked) - 1)) as [[Hlt ->]|[Hle ->]].
  - f_equal. lia.
  - replace (Z.to_nat (Z.of_nat (length ranked) - 1 - 0 + 1)) with (length ranked) by lia.
    rewrite firstn_all. symmetry. apply take_ge. lia.
Qed.

Lemma rankCompare_total a b : 0 < rankCompare a b -> rankCompare b a <= 0.
Proof.
  unfold rankCompare. rewrite (Z.eqb_sym (snd b) (snd a)).
  destruct (snd a =? snd b) eqn:Hscore; [|lia].
  rewrite (String.compare_antisym (fst b) (fst a)).
  destruct (String.compare (fst a) (fst b)); cbn; lia.
Qed.

Lemma rankCompare_score a b : rankCompare a b <= 0 -> snd b <= snd a.
Proof.
  unfold rankCompare. destruct (snd a =? snd b) eqn:Hscore; [|lia].
  apply Z.eqb_eq in Hscore. lia.
Qed.

Lemma ranked_sorted (entries : list (string * Z)) :
  StronglySorted (fun a b => snd b <= snd a) (JSArray.sort rankCompare entries).
Proof.
  apply Sorted_StronglySorted; [intros a b c; lia|].
  pose proof (sort_Sorted rankCompare rankCompare_total entries) as Hsorted.
  induction Hsorted as [|head rest Hrest IH Hhead]; constructor; [done|].
  destruct Hhead as [|next rest' Hle]; constructor. by apply rankCompare_score.
Qed.

End Leaderboard.

Lemma getLeaderboard_kept (options : Options.t) (limits : Limits.t)
      (clock : Z) (limitArg : option Q) (s : Redis.t) :
  exists entries final,
    getLeaderboard options limits clock limitArg s = (Returned entries, final)
    /\ playersGrow s final
    /\ map (fun entry => (entry_userId entry, entry_score entry)) entries
       = List.filter listed
           (take (Z.to_nat (leaderboardLimit limits limitArg))
              (JSArray.sort rankCompare (map_to_list (Redis.leaderboardTiles s)))).
Proof.
  unfold getLeaderboard. cbv zeta. rewrite clamp_integer.
  fold (leaderboardLimit limits limitArg).
  set (count := leaderboardLimit limits limitArg).
  assert (Hcount : 1 <= count <= 100) by (unfold count, leaderboardLimit; lia).
  rewrite (bind_returned _ _ _ _ _ (zRangeWithScores_REV_top count s (proj1 Hcount))).
  apply leaderboardLoop_run.
Qed.

Lemma kept_stored (s : Redis.t) (count : nat) (userId : string) (score : Z) :
  (userId, score)
  ∈ List.filter listed
      (take count (JSArray.sort rankCompare (map_to_list (Redis.leaderboardTiles s)))) ->
  1 <= score
  /\ Redis.leaderboardTiles s !! userId = Some score
  /\ String.eqb (JS.trim userId) "" = false.
Proof.
  intros Hkept. apply list_elem_of_In, filter_In in Hkept as [Hin Hlisted].
  apply andb_prop in Hlisted as [Hname Hscore]. cbn [fst snd] in *.
  split; [apply Z.ltb_lt in Hscore; lia|]. split; [|by apply Bool.negb_true_iff].
  apply elem_of_map_to_list. rewrite <- (sort_Permutation rankCompare).
  eapply elem_of_sublist; [apply list_elem_of_In, Hin | apply sublist_take].
Qed.

(** X9.  [getLeaderboard] never throws and changes nothing but player
    records of users seen for the first time.  It asks for the limit
    rounded down and brought into the range 1 to 100, and returns at most
    that many entries, by score from the highest down, no user twice;
    every entry has a user id that is not blank and a positive score, the
    one the leaderboard stores; and when the leaderboard has no more
    members than the limit, every member with a positive score and a user
    id that is not blank is listed. *)
Theorem getLeaderboard_lists_the_top_scores (options : Options.t) (limits : Limits.t)
        (clock : Z) (limitArg : option Q) (s : Redis.t) :
  exists entries final,
    getLeaderboard options limits clock limitArg s = (Returned entries, final)
    /\ playersGrow s final
    /\ Z.of_nat (length entries) <= leaderboardLimit limits limitArg <= 100
    /\ StronglySorted (fun a b => entry_score b <= entry_score a) entries
    /\ NoDup (map entry_userId entries)
    /\ (forall entry,
          entry ∈ entries ->
          1 <= entry_score entry
          /\ Redis.leaderboardTiles s !! entry_userId entry = Some (entry_score entry)
          /\ String.eqb (JS.trim (entry_userId entry)) "" = false)
    /\ (Z.of_nat (size (Redis.leaderboardTiles s)) <= leaderboardLimit limits limitArg ->
        forall userId score,
          Redis.leaderboardTiles s !! userId = Some score ->
          1 <= score -> String.eqb (JS.trim userId) "" = false ->
          exists entry,
            entry ∈ entries /\ entry_userId entry = userId /\ entry_score entry = score).
Proof.
  destruct (getLeaderboard_kept options limits clock limitArg s)
    as (entries & final & Hrun & Hgrow & Hentries).
  set (count := leaderboardLimit limits limitArg) in *.
  assert (Hcount : 1 <= count <= 100) by (unfold count, leaderboardLimit; lia).
  set (ranked := JSArray.sort rankCompare (map_to_list (Redis.leaderboardTiles s))) in *.
  exists entries, final. split; [exact Hrun|]. split; [exact Hgrow|].
  set (kept := List.filter listed (take (Z.to_nat count) ranked)) in *.
  assert (Hsub : kept `sublist_of` ranked).
  { unfold kept. etrans; [apply List_filter_sublist | apply sublist_take]. }
  assert (Hperm : ranked ≡ₚ map_to_list (Redis.leaderboardTiles s))
    by apply sort_Permutation.
  assert (Hlength : length entries = length kept) by (by rewrite <- Hentries, length_map).
  assert (Hkept : forall entry, entry ∈ entries ->
            (entry_userId entry, entry_score entry) ∈ kept).
  { intros entry Hentry. rewrite <- Hentries. apply list_elem_of_In.
    apply (in_map (fun e => (entry_userId e, entry_score e))). by apply list_elem_of_In. }
  split; [|split; [|split; [|split]]].
  - split; [|lia]. rewrite Hlength.
    assert (length kept <= length (take (Z.to_nat count) ranked))%nat
      by apply List.filter_length_le.
    rewrite length_take in H. lia.
  - pose proof (StronglySorted_sublist _ _ _ Hsub (ranked_sorted _)) as Hsorted.
    rewrite <- Hentries in Hsorted. clear -Hsorted.
    induction entries as [|entry rest IH]; [constructor|].
    cbn [map] in Hsorted. apply StronglySorted_inv in Hsorted as [Hrest Hall].
    constructor; [by apply IH|]. apply Forall_forall. intros other Hother.
    apply (proj1 (Forall_forall _ _) Hall (entry_userId other, entry_score other)).
    apply list_elem_of_In. apply (in_map (fun e => (entry_userId e, entry_score e))).
    by apply list_elem_of_In.
  - replace (map entry_userId entries) with (fst <$> kept)
      by (rewrite <- Hentries; clear; induction entries as [|entry rest IH];
          [done | cbn; by f_equal]).
    eapply (sublist_NoDup _ (fst <$> ranked)); [|by apply fmap_sublist].
    rewrite Hperm. apply NoDup_fst_map_to_list.
  - intros entry Hentry. by apply (kept_stored s (Z.to_nat count)), Hkept.
  - intros Hall userId score Hlookup Hscore Hname.
    assert (Hin : (userId, score) ∈ kept).
    { unfold kept. apply list_elem_of_In, filter_In. split.
      - rewrite take_ge.
        + apply list_elem_of_In. rewrite Hperm. by apply elem_of_map_to_list.
        + rewrite Hperm, length_map_to_list. fold count in Hall. lia.
      - unfold listed. cbn [fst snd]. rewrite Hname. cbn.
        apply Z.ltb_lt. lia. }
    rewrite <- Hentries in Hin. apply list_elem_of_In, in_map_iff in Hin
      as (entry & [= Hu Hs] & Hentry).
    exists entry. split; [by apply list_elem_of_In | done].
Qed.

(** X10.  After any history of calls, [getLeaderboard] returns, and the
    score of every entry it lists is the number of tiles in the owner set
    of that user, at least one. *)
Theorem getLeaderboard_scores_are_tile_counts (options : Options.t) (limits : Limits.t)
        (clock : Z) (limitArg : option Q) (calls : list (Z * Call)) :
  let world := afterCalls options calls Redis.empty in
  exists entries final,
    getLeaderboard options limits clock limitArg world = (Returned entries, final)
    /\ Forall (fun entry =>
                 1 <= entry_score entry
                 /\ entry_score entry
                    = Z.of_nat (size (Redis.members (ownerTileKey (entry_userId entry))
                                        world)))
              entries.
Proof.
  intros world. subst world.
  destruct (getLeaderboard_kept options limits clock limitArg
              (afterCalls options calls Redis.empty))
    as (entries & final & Hrun & _ & Hentries).
  exists entries, final. split; [exact Hrun|].
  apply Forall_forall. intros entry Hentry.
  assert (Hkept : (entry_userId entry, entry_score entry)
                  ∈ map (fun e => (entry_userId e, entry_score e)) entries).
  { apply list_elem_of_In. apply (in_map (fun e => (entry_userId e, entry_score e))).
    by apply list_elem_of_In. }
  rewrite Hentries in Hkept.
  destruct (kept_stored _ _ _ _ Hkept) as (Hpositive & Hscore & _). split; [done|].
  destruct (worldTracked_history options calls) as [(_ & _ & Hcount) _].
  rewrite <- (Hcount (entry_userId entry)). unfold Redis.score. by rewrite Hscore.
Qed.

(** ** [repairTile] *)

Lemma same_string_Some owner user :
  same_string owner (Some user) = true <-> owner = Some user.
Proof.
  destruct owner as [name|]; cbn; [|split; discriminate].
  rewrite String.eqb_eq. split; [by intros ->|by intros [= ->]].
Qed.

Lemma onGrid_inject_Z n : onGrid (inject_Z n).
Proof. exists (n * 10000). rewrite inject_Z_mult. field. Qed.

Lemma onGrid_clamp v lo hi : onGrid v -> onGrid lo -> onGrid hi -> onGrid (JS.clamp v lo hi).
Proof.
  intros Hv Hlo Hhi. unfold JS.clamp.
  destruct (Q.max_spec lo (Qmin hi v)) as [[_ Hmax]|[_ Hmax]];
    (eapply onGrid_proper; [symmetry; exact Hmax|]); [|done].
  destruct (Q.min_spec hi v) as [[_ Hmin]|[_ Hmin]];
    (eapply onGrid_proper; [symmetry; exact Hmin|]); done.
Qed.

Section Repair.
Variables (options : Options.t) (clock : Z).

Lemma repairedTile_integrity tile :
  (0 <= Options.repairIntegrityGain options)%Q ->
  onGrid (TileState.integrity tile) ->
  (0 <= TileState.integrity tile <= 100)%Q ->
  (TileState.integrity tile <= TileState.integrity (repairedTile options clock tile) <= 100)%Q
  /\ onGrid (TileState.integrity (repairedTile options clock tile)).
Proof.
  intros Hgain Hgrid [Hlow Hhigh]. cbn [repairedTile TileState.integrity]. split; [split|].
  - rewrite <- (clamp_inside (TileState.integrity tile) 0 100 Hlow Hhigh) at 1.
    apply clamp_mono. rewrite <- (toFixedPrecision_onGrid _ Hgrid) at 1.
    apply toFixedPrecision_mono. lra.
  - by apply clamp_upper.
  - apply onGrid_clamp; [apply toFixedPrecision_rounded|apply (onGrid_inject_Z 0)
                        |apply (onGrid_inject_Z 100)].
Qed.


Lemma parseTile_persisted_integrity tq tr tile parsed :
  onGrid (TileState.integrity tile) ->
  (0 <= TileState.integrity tile <= 100)%Q ->
  parseTile options tq tr (tileHashFields tile) = Some parsed ->
  (TileState.integrity parsed == TileState.integrity tile)%Q.
Proof.
  intros Hgrid [Hlow Hhigh] Hparse.
  destruct (parseTile_energy options tq tr _ _ Hparse) as [_ ->].
  cbn [tileHashFields TileHash.integrity default].
  rewrite clamp_inside; rewrite (toFixedPrecision_onGrid _ Hgrid); done.
Qed.

Lemma parseTile_persisted_same_level tq tr hash tile next parsed :
  parseTile options tq tr hash = Some tile ->
  TileState.level next = TileState.level tile ->
  parseTile options tq tr (tileHashFields next) = Some parsed ->
  TileState.level parsed = TileState.level tile.
Proof.
  intros Hparse Hlevel Hnext.
  rewrite (parseTile_persisted_level _ _ _ _ _ Hnext), Hlevel.
  destruct (parseTile_level_integer options tq tr hash tile Hparse) as (n & Hn & ->).
  rewrite floor_inject_Z. f_equal. lia.
Qed.

End Repair.

(** X11.  A [repairTile] call with a user id that is not blank and valid
    coordinates never throws.  When it succeeds the tile was stored and
    the caller owned it, the tile it returns is the stored one with the
    integrity raised and the time of the call, and the cost it reports is
    [repairCostEnergy].  When it refuses, the tiles, the index sets, the
    leaderboard and the chunk activity are what they were, the refusal
    shows the stored tile, and the reason tells the case: no tile at the
    coordinate, a tile of somebody else (or of nobody), or the caller's
    own tile with [repairCostEnergy] as the energy required. *)
Theorem repairTile_succeeds_for_the_owner_only (options : Options.t) (clock : Z)
        (userId : string) (tq tr : Z) (s : Redis.t) :
  String.eqb (JS.trim userId) "" = false ->
  HexMathFloat.validateCoordinates
    (HexMathFloat.float_of_Z tq) (HexMathFloat.float_of_Z tr) = true ->
  let user := JS.trim userId in
  let final := exec (repairTile options clock userId tq tr) s in
  match result (repairTile options clock userId tq tr) s with
  | Thrown _ => False
  | Returned (RepairTileSuccess repaired energyAfter energyCost) =>
      exists tile,
        currentTileAt options s tq tr = Some tile
        /\ TileState.ownerId tile = Some user
        /\ repaired = repairedTile options clock tile
        /\ energyCost = Options.repairCostEnergy options
  | Returned (RepairTileFailure reason message shown required playerEnergy) =>
      sameWorld s final
      /\ shown = currentTileAt options s tq tr
      /\ match reason with
         | tile_not_found => shown = None /\ required = None
         | not_owner =>
             exists tile,
               shown = Some tile /\ TileState.ownerId tile <> Some user /\ required = None
         | insufficient_energy =>
             exists tile,
               shown = Some tile /\ TileState.ownerId tile = Some user
               /\ required = Some (Options.repairCostEnergy options)
         end
  end.
Proof.
  intros Huser Hvalid user final. subst user final.
  pose proof (repairTile_run options clock userId tq tr s Huser Hvalid) as Hrun.
  unfold repairOutcome in Hrun.
  destruct (currentTileAt options s tq tr) as [tile|] eqn:Htile.
  2:{ destruct Hrun as (energy & -> & Hsame). split; [exact Hsame|done]. }
  destruct (same_string (TileState.ownerId tile) (Some (JS.trim userId))) eqn:Howner.
  2:{ destruct Hrun as (energy & -> & Hsame). split; [exact Hsame|]. split; [done|].
      exists tile. repeat split. intros Hsame'.
      apply same_string_Some in Hsame'. congruence. }
  apply same_string_Some in Howner.
  destruct Hrun as (attempt & afterSpend & Hspend & Hrun).
  destruct (spend_ok attempt).
  - destruct Hrun as (-> & _). by exists tile.
  - destruct Hrun as (-> & ->). split; [|split; [done|by exists tile]].
    destruct (spendPlayerEnergy_sameWorld options clock (JS.trim userId)
                (Options.repairCostEnergy options) (inject_Z clock) s
                (normalized_trim userId Huser))
      as (attempt' & s1 & Hspend' & Hsame).
    rewrite Hspend in Hspend'. by simplify_eq.
Qed.

(** X12.  The owner of a stored tile who can pay [repairCostEnergy] gets the
    tile repaired: the call succeeds, the integrity does not drop and
    stays at most 100 (and is 100 when the gain reaches it), the tile read
    back from the store carries the new integrity and the time of the
    call with the owner, level and type it had, every other tile is left
    as it was, and the owner sets and the leaderboard are untouched. *)
Theorem repairTile_raises_integrity (options : Options.t) (clock : Z)
        (userId : string) (tq tr : Z) (s : Redis.t) (tile : TileState.t) (energy : Q) :
  String.eqb (JS.trim userId) "" = false ->
  HexMathFloat.validateCoordinates
    (HexMathFloat.float_of_Z tq) (HexMathFloat.float_of_Z tr) = true ->
  currentTileAt options s tq tr = Some tile ->
  TileState.ownerId tile = Some (JS.trim userId) ->
  result (getPlayerEnergy options clock (JS.trim userId)) s = Returned energy ->
  (Options.repairCostEnergy options <= energy)%Q ->
  (0 <= Options.repairIntegrityGain options)%Q ->
  onGrid (TileState.integrity tile) ->
  let final := exec (repairTile options clock userId tq tr) s in
  exists repaired energyAfter stored,
    result (repairTile options clock userId tq tr) s
    = Returned (RepairTileSuccess repaired energyAfter (Options.repairCostEnergy options))
    /\ (TileState.integrity tile <= TileState.integrity repaired <= 100)%Q
    /\ ((100 <= TileState.integrity tile + Options.repairIntegrityGain options)%Q ->
        (TileState.integrity repaired == 100)%Q)
    /\ TileState.energy repaired = TileState.energy tile
    /\ currentTileAt options final tq tr = Some stored
    /\ (TileState.integrity stored == TileState.integrity repaired)%Q
    /\ TileState.lastUpdate stored = clock
    /\ TileState.ownerId stored = TileState.ownerId tile
    /\ TileState.level stored = TileState.level tile
    /\ TileState.tileType stored = TileState.tileType tile
    /\ (forall xq xr, (xq, xr) <> (tq, tr) ->
          currentTileAt options final xq xr = currentTileAt options s xq xr)
    /\ Redis.ownerTiles final = Redis.ownerTiles s
    /\ Redis.leaderboardTiles final = Redis.leaderboardTiles s.
Proof.
  intros Huser Hvalid Htile Howner Henergy Hpay Hgain Hgrid final. subst final.
  pose proof (normalized_trim userId Huser) as Hn.
  pose proof (repairTile_run options clock userId tq tr s Huser Hvalid) as Hrun.
  unfold repairOutcome in Hrun. rewrite Htile in Hrun.
  rewrite (proj2 (same_string_Some _ _) Howner) in Hrun.
  destruct Hrun as (attempt & afterSpend & Hspend & Hrun).
  assert (Hok : spend_ok attempt = true).
  { destruct (getOrCreatePlayerState_returns options clock (JS.trim userId) s)
      as (state & Hstate & _).
    unfold result in Henergy.
    rewrite (getPlayerEnergy_run options clock _ s state Hn Hstate) in Henergy.
    cbn [fst] in Henergy. apply Returned_inj in Henergy. subst energy.
    destruct (Qle_bool (Options.repairCostEnergy options) 0) eqn:Hcost.
    - rewrite (spendPlayerEnergy_free options clock _ _ _ s state Hn Hstate Hcost) in Hspend.
      by simplify_eq.
    - assert (Hpaid : JS.Qltb (PlayerState.energy state) (Options.repairCostEnergy options)
                      = false) by by apply Qltb_false.
      rewrite (spendPlayerEnergy_paid options clock _ _ _ s state Hstate Hcost Hpaid)
        in Hspend.
      by simplify_eq. }
  rewrite Hok in Hrun. destruct Hrun as (Hres & Htiles & _ & Hsets & _).
  assert (Hrange : (0 <= TileState.integrity tile <= 100)%Q).
  { unfold currentTileAt in Htile.
    destruct (parseTile_energy options tq tr _ _ Htile) as [_ ->].
    split; [apply clamp_lower|by apply clamp_upper]. }
  destruct (repairedTile_integrity options clock tile Hgain Hgrid Hrange)
    as [Hraised Hrepaired].
  destruct (parseTile_persisted_some options tq tr (repairedTile options clock tile))
    as [stored Hstored].
  exists (repairedTile options clock tile), (spend_energyAfter attempt), stored.
  split; [exact Hres|]. split; [exact Hraised|]. split.
  { intros Hfull. cbn [repairedTile TileState.integrity].
    apply Qle_antisym; [by apply clamp_upper|].
    rewrite <- (clamp_inside 100 0 100) at 1 by done.
    apply clamp_mono. rewrite <- (toFixedPrecision_onGrid 100 (onGrid_inject_Z 100)) at 1.
    by apply toFixedPrecision_mono. }
  split; [reflexivity|]. split.
  { rewrite (currentTileAt_insert options s _ tq tr _ tq tr Htiles).
    by rewrite decide_True. }
  split.
  { apply (parseTile_persisted_integrity options tq tr); [done| |done].
    split; [lra|apply Hraised]. }
  split; [exact (parseTile_persisted_lastUpdate options tq tr _ _ Hstored)|]. split.
  { rewrite Howner.
    by apply (parseTile_persisted_owner options tq tr
                (repairedTile options clock tile) stored). }
  split.
  { unfold currentTileAt in Htile.
    by apply (parseTile_persisted_same_level options tq tr _ tile
                (repairedTile options clock tile) stored Htile). }
  split; [exact (parseTile_persisted_tileType options tq tr _ _ Hstored)|]. split.
  { intros xq xr Hne. rewrite (currentTileAt_insert options s _ tq tr _ xq xr Htiles).
    by rewrite decide_False. }
  destruct Hsets as (Hboard & _ & _ & _ & Howners). by split.
Qed.

(** ** Claiming a tile one holds *)

Section ClaimAgain.
Variables (options : Options.t) (clock : Z).

Lemma claimTile_guards userId tq tr s outcome :
  result (claimTile options clock userId tq tr) s = Returned outcome ->
  String.eqb (JS.trim userId) "" = false
  /\ HexMathFloat.validateCoordinates
       (HexMathFloat.float_of_Z tq) (HexMathFloat.float_of_Z tr) = true.
Proof.
  intros Hres.
  destruct (String.eqb (JS.trim userId) "") eqn:Huser.
  { unfold result, claimTile in Hres.
    assert (Hthrown : normalizeUserId userId s = (Thrown "userId must not be empty", s))
      by (unfold normalizeUserId; by rewrite Huser).
    by rewrite (bind_thrown _ _ _ _ _ Hthrown) in Hres. }
  split; [done|].
  destruct (HexMathFloat.validateCoordinates
              (HexMathFloat.float_of_Z tq) (HexMathFloat.float_of_Z tr)) eqn:Hvalid; [done|].
  unfold result, claimTile in Hres.
  rewrite (bind_returned _ _ _ _ _ (normalizeUserId_run userId s Huser)) in Hres.
  assert (Hthrown : validateCoordinates tq tr s
                    = (Thrown "q and r are not valid axial coordinates", s))
    by (unfold validateCoordinates; by rewrite Hvalid).
  by rewrite (bind_thrown _ _ _ _ _ Hthrown) in Hres.
Qed.

(** A claim by the holder of the tile: the tile, the holder's energy, no
    cost, and the store [getOrCreatePlayerState] leaves. *)
Lemma claimTile_own userId tq tr s tile :
  String.eqb (JS.trim userId) "" = false ->
  HexMathFloat.validateCoordinates
    (HexMathFloat.float_of_Z tq) (HexMathFloat.float_of_Z tr) = true ->
  currentTileAt options s tq tr = Some tile ->
  TileState.ownerId tile = Some (JS.trim userId) ->
  exists energy,
    claimTile options clock userId tq tr s
    = (Returned (ClaimTileSuccess false false tile energy 0),
       exec (getOrCreatePlayerState options clock (JS.trim userId)) s).
Proof.
  intros Huser Hvalid Htile Howner. pose proof (normalized_trim userId Huser) as Hn.
  destruct (getOrCreatePlayerState_returns options clock (JS.trim userId) s)
    as (state & Hstate & _).
  exists (PlayerState.energy state). unfold claimTile.
  rewrite (bind_returned _ _ _ _ _ (normalizeUserId_run userId s Huser)).
  unfold validateCoordinates. rewrite Hvalid.
  rewrite (bind_returned (mret tt) _ s tt s eq_refl).
  rewrite (bind_returned _ _ _ _ _ (loadTile_run options tq tr s)).
  rewrite Htile, (proj2 (same_string_Some _ _) Howner).
  by rewrite (bind_returned _ _ _ _ _
                (getPlayerEnergy_run options clock _ s state Hn Hstate)).
Qed.

(** After a claim that succeeded the claimer holds the tile and has a
    player record. *)
Lemma claimTile_held userId tq tr s created captured tile energyAfter energyCost :
  result (claimTile options clock userId tq tr) s
  = Returned (ClaimTileSuccess created captured tile energyAfter energyCost) ->
  let held := exec (claimTile options clock userId tq tr) s in
  (exists stored,
      currentTileAt options held tq tr = Some stored
      /\ TileState.ownerId stored = Some (JS.trim userId))
  /\ PlayerHash.hasValues
       (default PlayerHash.empty (Redis.playerHashes held !! JS.trim userId)) = true.
Proof.
  intros Hres held. subst held.
  destruct (claimTile_guards userId tq tr s _ Hres) as [Huser Hvalid].
  pose proof (normalized_trim userId Huser) as Hn.
  set (user := JS.trim userId) in *.
  destruct (ownedBy (currentTileAt options s tq tr) user) eqn:Hown.
  { destruct (currentTileAt options s tq tr) as [old|] eqn:Hold; [|done].
    cbn in Hown. apply same_string_Some in Hown.
    destruct (claimTile_own userId tq tr s old Huser Hvalid Hold Hown) as (energy & Hrun).
    unfold exec. rewrite Hrun. cbn [snd]. fold user. split.
    - exists old. split; [|done].
      destruct (getOrCreatePlayerState_sameWorld options clock user s) as (Htiles & _).
      unfold currentTileAt in *. by rewrite Htiles.
    - apply getOrCreatePlayerState_created. }
  unfold result, exec in *.
  rewrite (claimTile_entry options clock userId tq tr s Huser Hvalid Hown) in Hres |- *.
  fold user in Hres |- *. unfold claimGated in Hres |- *.
  rewrite (bind_returned _ _ _ _ _ (validateClaimDistance_run options user tq tr s))
    in Hres |- *.
  match type of Hres with context [match ?range with RangeOk => _ | RangeFail _ => _ end] =>
    destruct range as [|nearest] end.
  2:{ destruct (getPlayerEnergy_sameWorld options clock user s Hn)
        as (energy & s1 & Hrun & _).
      by rewrite (bind_returned _ _ _ _ _ Hrun) in Hres. }
  unfold claimSpend in Hres |- *. cbv zeta in Hres |- *.
  match type of Hres with context [spendPlayerEnergy _ _ _ ?cost ?now] =>
    destruct (spendPlayerEnergy_sameWorld options clock user cost now s Hn)
      as (attempt & s1 & Hspend & _);
    rewrite (bind_returned _ _ _ _ _ Hspend) in Hres |- *
  end.
  destruct (spend_ok attempt); cbn [negb] in Hres |- *; [|done].
  match type of Hres with context [claimCommit _ _ _ _ _ _ _ ?cost] =>
    destruct (claimCommit_run options clock user tq tr (currentTileAt options s tq tr)
                attempt cost s1 Hn Hown)
      as (next & final & Hrun & Howner & _ & _ & Htiles & Hplayers & _)
  end.
  rewrite Hrun. cbn [snd]. split.
  - destruct (parseTile_persisted_some options tq tr next) as [stored Hstored].
    exists stored. split.
    + rewrite (currentTileAt_insert options s1 final tq tr _ tq tr Htiles).
      by rewrite decide_True.
    + by apply (parseTile_persisted_owner options tq tr next stored).
  - rewrite Hplayers. apply getOrCreatePlayerState_created.
Qed.

End ClaimAgain.

(** X13.  Claiming a tile again after a claim that succeeded costs nothing
    and changes nothing: whatever the store was, and whenever the second
    call is made, it succeeds with [created] and [captured] false, a cost
    of 0 and the stored tile, which the claimer owns, and it leaves the
    store exactly as the first call left it. *)
Theorem claimTile_again_is_free (options : Options.t) (clock clock' : Z)
        (userId : string) (tq tr : Z) (s : Redis.t)
        (created captured : bool) (tile : TileState.t) (energyAfter energyCost : Q) :
  result (claimTile options clock userId tq tr) s
  = Returned (ClaimTileSuccess created captured tile energyAfter energyCost) ->
  let held := exec (claimTile options clock userId tq tr) s in
  exists stored energy,
    claimTile options clock' userId tq tr held
    = (Returned (ClaimTileSuccess false false stored energy 0), held)
    /\ currentTileAt options held tq tr = Some stored
    /\ TileState.ownerId stored = Some (JS.trim userId).
Proof.
  intros Hres held.
  destruct (claimTile_guards options clock userId tq tr s _ Hres) as [Huser Hvalid].
  destruct (claimTile_held options clock userId tq tr s _ _ _ _ _ Hres)
    as [(stored & Hstored & Howner) Hplayer].
  fold held in Hstored, Hplayer.
  destruct (claimTile_own options clock' userId tq tr held stored Huser Hvalid Hstored Howner)
    as (energy & Hrun).
  exists stored, energy. rewrite Hrun.
  by rewrite (getOrCreatePlayerState_existing options clock' _ held Hplayer).
Qed.

(** ** Tiles are kept, and only a claim moves them *)

Lemma tileAdded_grows options s s' tq tr next xq xr :
  tileAdded options s s' tq tr next ->
  is_Some (currentTileAt options s xq xr) -> is_Some (currentTileAt options s' xq xr).
Proof.
  intros (Htiles & _) Hsome.
  rewrite (currentTileAt_insert options s s' tq tr _ xq xr Htiles).
  destruct (decide _) as [_|_]; [apply parseTile_persisted_some | done].
Qed.

Lemma afterCall_grows options clock call s xq xr :
  worldTracked options s ->
  is_Some (currentTileAt options s xq xr) ->
  is_Some (currentTileAt options (afterCall options clock call s) xq xr).
Proof.
  intros [Howners Hindexed] Hsome.
  destruct call as [userId tq tr|userId tq tr|tq tr level|userId tag|now];
    cbn [afterCall].
  - destruct (claimTile_tiles options clock userId tq tr s)
      as [Hsame|(s1 & next & Hsame & Hadded)].
    + by apply (sameWorld_tilesKept options s _ Hsame).
    + apply (tileAdded_grows options s1 _ tq tr next xq xr Hadded).
      by apply (sameWorld_tilesKept options s _ Hsame).
  - by apply (repairTile_tilesKept options clock userId tq tr s).
  - destruct (registerNexus_tiles options clock tq tr level s) as [<-|(next & Hadded)];
      [done|].
    by apply (tileAdded_grows options s _ tq tr next xq xr Hadded).
  - by apply (setAllianceTag_tilesKept options clock userId tag s Howners).
  - by apply (rechargeEnergy_tilesKept options clock now s).
Qed.

Lemma afterCalls_app options calls more s :
  afterCalls options (calls ++ more)%list s
  = afterCalls options more (afterCalls options calls s).
Proof.
  revert s. induction calls as [|[clock call] rest IH]; intros s; [done|].
  cbn [afterCalls app]. apply IH.
Qed.

Lemma afterCalls_grows options calls s xq xr :
  worldTracked options s ->
  is_Some (currentTileAt options s xq xr) ->
  is_Some (currentTileAt options (afterCalls options calls s) xq xr).
Proof.
  revert s. induction calls as [|[clock call] rest IH]; intros s Htracked Hsome; [done|].
  cbn [afterCalls]. apply IH; [by apply worldTracked_afterCall|by apply afterCall_grows].
Qed.

(** X14.  No method deletes a tile: a tile stored after a history of calls
    is still stored after any calls that follow, and its coordinates are
    still listed in [tiles:index] and in the set of its chunk. *)
Theorem stored_tiles_stay_stored (options : Options.t) (calls more : list (Z * Call))
        (tq tr : Z) :
  is_Some (currentTileAt options (afterCalls options calls Redis.empty) tq tr) ->
  let later := afterCalls options (calls ++ more)%list Redis.empty in
  is_Some (currentTileAt options later tq tr)
  /\ coordMember tq tr ∈ Redis.tileIndex later
  /\ coordMember tq tr ∈ Redis.members (chunkKeyForTile options tq tr) later.
Proof.
  intros Hsome later.
  assert (Hlater : is_Some (currentTileAt options later tq tr)).
  { subst later. rewrite afterCalls_app.
    apply afterCalls_grows; [apply worldTracked_history | done]. }
  split; [done|].
  destruct (worldTracked_history options (calls ++ more)%list) as [_ (_ & _ & Hstored)].
  by apply Hstored.
Qed.

(** X15.  Only [claimTile] changes who holds a tile: [repairTile],
    [registerNexus], [setAllianceTag] and [rechargeEnergy], whatever their
    arguments and whether they succeed, refuse or throw, leave the owner
    sets and the leaderboard as they were and the owner of every tile the
    owner it had. *)
Theorem only_claimTile_changes_owners (options : Options.t) (clock : Z) (s : Redis.t)
        (userId : string) (tq tr : Z) (level : option Q) (allianceTag : option string)
        (now : Q) :
  ownersKept options s (exec (repairTile options clock userId tq tr) s)
  /\ ownersKept options s (exec (registerNexus options clock tq tr level) s)
  /\ ownersKept options s (exec (setAllianceTag options clock userId allianceTag) s)
  /\ ownersKept options s (exec (rechargeEnergy options clock now) s).
Proof.
  split; [apply repairTile_ownersKept|].
  split; [apply registerNexus_ownersKept|].
  split; [apply setAllianceTag_ownersKept|apply rechargeEnergy_ownersKept].
Qed.

(** X16.  The member [coordMember] writes for a coordinate pair is read
    back by [parseMember] as that pair, whatever the integers and their
    signs, so two coordinate pairs never share a member. *)
Theorem coordMember_round_trip (tq tr tq' tr' : Z) :
  parseMember (coordMember tq tr) = Some (mkHexTile tq tr)
  /\ (coordMember tq tr = coordMember tq' tr' <-> tq = tq' /\ tr = tr').
Proof.
  split; [apply parseMember_coordMember|]. split.
  - intros Heq. apply coordMember_inj in Heq. by injection Heq.
  - by intros [-> ->].
Qed.

Lemma tagHash_step_range hash c : 0 <= (hash * 31 + Z.of_nat (nat_of_ascii c)) mod 360 < 360.
Proof. apply Z.mod_pos_bound. lia. Qed.

Lemma tagHash_range allianceTag : 0 <= tagHash allianceTag < 360.
Proof.
  unfold tagHash.
  assert (Hgen : forall chars start, 0 <= start < 360 ->
            0 <= fold_left (fun hash c => (hash * 31 + Z.of_nat (nat_of_ascii c)) mod 360)
                   chars start < 360).
  { induction chars as [|c rest IH]; intros start Hstart; [done|].
    cbn [fold_left]. apply IH, tagHash_step_range. }
  apply Hgen. lia.
Qed.

Lemma colorFromAllianceTag_hue allianceTag :
  colorFromAllianceTag allianceTag = colorOfHue (tagHash allianceTag).
Proof. reflexivity. Qed.

Lemma colorOfHue_hex :
  forallb (fun hue => isHexColor (colorOfHue (Z.of_nat hue))) (seq 0 360) = true.
Proof. vm_compute. reflexivity. Qed.

(** X17.  Whatever the tag, [colorFromAllianceTag] answers a colour of the
    form [#RRGGBB] with upper-case hexadecimal digits, computed from a hue
    between 0 and 359. *)
Theorem colorFromAllianceTag_is_a_hex_colour (allianceTag : string) :
  isHexColor (colorFromAllianceTag allianceTag) = true
  /\ 0 <= tagHash allianceTag < 360
  /\ colorFromAllianceTag allianceTag = colorOfHue (tagHash allianceTag).
Proof.
  pose proof (tagHash_range allianceTag) as Hrange.
  split; [|split; [done|reflexivity]].
  rewrite colorFromAllianceTag_hue.
  pose proof colorOfHue_hex as Hall. rewrite forallb_forall in Hall.
  specialize (Hall (Z.to_nat (tagHash allianceTag))).
  rewrite Z2Nat.id in Hall by lia. apply Hall, in_seq. lia.
Qed.

(** ** [setAllianceTag] and the tiles of the player *)

Lemma trim_head c rest :
  JS.is_js_space c = false -> (JS.byte c < 194)%N -> JS.trim (String c rest) <> "".
Proof.
  intros Hc Hbyte.
  assert (H2 : forall c2, JS.is_js_space2 c c2 = false).
  { intros c2. unfold JS.is_js_space2, JS.wellFormed2.
    by rewrite (proj2 (N.leb_gt 194 (JS.byte c)) Hbyte). }
  assert (H3 : forall c2 c3, JS.is_js_space3 c c2 c3 = false).
  { intros c2 c3. unfold JS.is_js_space3, JS.wellFormed3.
    by rewrite (proj2 (N.leb_gt 224 (JS.byte c))) by lia. }
  assert (Hclean : headClean (String c rest)).
  { split; [done|]. destruct rest as [|c2 [|c3 rest3]]; [done|..]; by repeat split. }
  unfold JS.trim. rewrite (trimStart_fixed _ Hclean). cbn [JS.trimEnd].
  by rewrite (trimStart_fixed _ Hclean).
Qed.

Lemma tag_char_no_space c :
  is_tag_char c = true -> JS.is_js_space c = false /\ (JS.byte c < 194)%N.
Proof.
  destruct c as [[] [] [] [] [] [] [] []]; intros Hc; try (by vm_compute in Hc);
    by vm_compute.
Qed.

Lemma nonblank_tag tag : allianceTagPattern tag = true -> JS.nonblank (Some tag) = true.
Proof.
  unfold allianceTagPattern. intros [Hlen Hchars]%andb_prop.
  destruct tag as [|c rest]; [done|]. cbn [list_ascii_of_string forallb] in Hchars.
  apply andb_prop in Hchars as [Hc _]. cbn [JS.nonblank].
  apply Bool.negb_true_iff, String.eqb_neq, trim_head; by apply tag_char_no_space.
Qed.

Lemma nonblank_color tag : JS.nonblank (Some (colorFromAllianceTag tag)) = true.
Proof.
  pose proof (colorOfHue_hex) as Hall. rewrite forallb_forall in Hall.
  pose proof (tagHash_range tag) as Hrange.
  specialize (Hall (Z.to_nat (tagHash tag))).
  rewrite Z2Nat.id in Hall by lia. rewrite <- colorFromAllianceTag_hue in Hall.
  assert (Hin : In (Z.to_nat (tagHash tag)) (seq 0 360)) by (apply in_seq; lia).
  specialize (Hall Hin). unfold isHexColor in Hall.
  destruct (colorFromAllianceTag tag) as [|head digits]; [done|].
  apply andb_prop in Hall as [[Hhead _]%andb_prop _].
  apply Ascii.eqb_eq in Hhead. subst head. cbn [JS.nonblank].
  by apply Bool.negb_true_iff, String.eqb_neq, trim_head.
Qed.

Section AllianceTiles.
Variables (options : Options.t) (clock : Z).

Lemma merge_allianceFields_again old tag color :
  TileHash.merge (TileHash.merge old (allianceFields tag color)) (allianceFields tag color)
  = TileHash.merge old (allianceFields tag color).
Proof. by destruct old. Qed.

(** What the loop leaves at a key: the hash it found, or that hash with
    the alliance fields written. *)
Lemma syncAllianceTagLoop_either members tag color s key :
  let final := exec (syncAllianceTagLoop members tag color) s in
  Redis.tileHashes final !! key = Redis.tileHashes s !! key
  \/ Redis.tileHashes final !! key
     = Some (TileHash.merge (default TileHash.empty (Redis.tileHashes s !! key))
               (allianceFields tag color)).
Proof.
  revert s. induction members as [|member rest IH]; intros s; [by left|].
  cbn [syncAllianceTagLoop]. destruct (parseMember member) as [coordinate|]; [|apply IH].
  fold (allianceFields tag color). cbv zeta. unfold exec.
  rewrite (bind_returned (hSet_tile _ _) _ s tt _ eq_refl).
  match goal with |- context [syncAllianceTagLoop rest tag color ?s'] =>
    destruct (IH s') as [Hsame|Hwritten]; set (s1 := s') in * end;
    unfold exec in Hsame || unfold exec in Hwritten.
  - rewrite Hsame. subst s1. unfold hSet_tile, tileKey.
    cbn [snd Redis.tileHashes Redis.with_tileHashes].
    destruct (decide ((q coordinate, r coordinate) = key)) as [<-|Hne].
    + right. by rewrite lookup_insert_eq.
    + left. by rewrite lookup_insert_ne.
  - rewrite Hwritten. subst s1. unfold hSet_tile, tileKey.
    cbn [snd Redis.tileHashes Redis.with_tileHashes].
    destruct (decide ((q coordinate, r coordinate) = key)) as [<-|Hne].
    + right. rewrite lookup_insert_eq. f_equal.
    + right. by rewrite lookup_insert_ne.
Qed.

Lemma syncAllianceTagLoop_untouched members tag color s key :
  (forall member coordinate,
      member ∈ members -> parseMember member = Some coordinate ->
      (q coordinate, r coordinate) <> key) ->
  Redis.tileHashes (exec (syncAllianceTagLoop members tag color) s) !! key
  = Redis.tileHashes s !! key.
Proof.
  revert s. induction members as [|member rest IH]; intros s Hother; [done|].
  cbn [syncAllianceTagLoop].
  destruct (parseMember member) as [coordinate|] eqn:Hparse.
  2:{ apply IH. intros m c Hin. apply Hother. by right. }
  unfold exec. rewrite (bind_returned (hSet_tile _ _) _ s tt _ eq_refl).
  match goal with |- context [syncAllianceTagLoop rest tag color ?s'] =>
    pose proof (IH s') as Hrest; unfold exec in Hrest; rewrite Hrest end.
  - unfold hSet_tile, tileKey. cbn [snd Redis.tileHashes Redis.with_tileHashes].
    rewrite lookup_insert_ne; [done|].
    apply (Hother member coordinate); [left|done].
  - intros m c Hin. apply Hother. by right.
Qed.

Lemma syncAllianceTagLoop_written members tag color s key :
  (exists member coordinate,
      member ∈ members /\ parseMember member = Some coordinate
      /\ (q coordinate, r coordinate) = key) ->
  Redis.tileHashes (exec (syncAllianceTagLoop members tag color) s) !! key
  = Some (TileHash.merge (default TileHash.empty (Redis.tileHashes s !! key))
            (allianceFields tag color)).
Proof.
  revert s. induction members as [|member rest IH];
    intros s (m & c & Hin & Hparse & Hkey); [by apply elem_of_nil in Hin|].
  cbn [syncAllianceTagLoop].
  destruct (parseMember member) as [coordinate|] eqn:Hmember.
  2:{ apply IH. exists m, c. split; [|done].
      apply elem_of_cons in Hin as [->|Hin]; [congruence|done]. }
  fold (allianceFields tag color). unfold exec.
  rewrite (bind_returned (hSet_tile _ _) _ s tt _ eq_refl).
  match goal with |- context [syncAllianceTagLoop rest tag color ?s'] =>
    set (s1 := s') end.
  destruct (decide ((q coordinate, r coordinate) = key)) as [Hhere|Hne].
  - assert (Hs1 : Redis.tileHashes s1 !! key
                  = Some (TileHash.merge (default TileHash.empty (Redis.tileHashes s !! key))
                            (allianceFields tag color))).
    { subst s1. unfold hSet_tile, tileKey.
      cbn [snd Redis.tileHashes Redis.with_tileHashes]. rewrite Hhere.
      by rewrite lookup_insert_eq. }
    destruct (syncAllianceTagLoop_either rest tag color s1 key) as [Hsame|Hwritten];
      unfold exec in Hsame || unfold exec in Hwritten.
    + by rewrite Hsame.
    + rewrite Hwritten, Hs1. f_equal.
  - assert (Hs1 : Redis.tileHashes s1 !! key = Redis.tileHashes s !! key).
    { subst s1. unfold hSet_tile, tileKey.
      cbn [snd Redis.tileHashes Redis.with_tileHashes]. by rewrite lookup_insert_ne. }
    pose proof (IH s1) as Hrest. unfold exec in Hrest. rewrite Hrest, Hs1; [done|].
    exists m, c. split; [|done].
    apply elem_of_cons in Hin as [->|Hin]; [|done].
    rewrite Hmember in Hparse. injection Hparse as ->. done.
Qed.

(** What [parseTile] makes of a tile's hash once the alliance fields are
    written to it. *)
Lemma parseTile_allianceFields tq tr hash tile owner tag color :
  parseTile options tq tr hash = Some tile ->
  TileState.ownerId tile = Some owner ->
  (forall text, tag = Some text -> JS.nonblank (Some text) = true) ->
  (forall text, color = Some text -> JS.nonblank (Some text) = true) ->
  parseTile options tq tr (TileHash.merge hash (allianceFields tag color))
  = Some (withAlliance tile tag color).
Proof.
  intros Hparse Howner Htag Hcolor.
  pose proof (parseTile_owner_truthy options tq tr hash tile owner Hparse Howner) as Htruthy.
  unfold parseTile in Hparse |- *.
  destruct (negb (TileHash.hasValues hash)) eqn:Hvalues; [done|].
  injection Hparse as <-. cbn [TileState.ownerId] in Howner.
  assert (Hmerged : TileHash.hasValues (TileHash.merge hash (allianceFields tag color))
                    = true).
  { destruct hash as [o t c e l i v y]. cbn.
    by destruct o, t, c, e, l, i, v, y. }
  rewrite Hmerged. cbn [negb]. unfold withAlliance. cbn.
  rewrite Howner, Htruthy. cbn [andb].
  f_equal. f_equal.
  - destruct tag as [text|]; cbn [default from_option id]; [|reflexivity].
    pose proof (Htag text eq_refl) as Hkept. cbn [JS.nonblank] in Hkept. by rewrite Hkept.
  - destruct color as [text|]; cbn [default from_option id]; [|reflexivity].
    pose proof (Hcolor text eq_refl) as Hkept. cbn [JS.nonblank] in Hkept. by rewrite Hkept.
Qed.


(** A [setAllianceTag] call that returns a profile ran the loop over the
    owner set with the tag and the colour of the profile. *)
Lemma setAllianceTag_loop userId tag s profile :
  result (setAllianceTag options clock userId tag) s = Returned profile ->
  exists s3,
    Redis.tileHashes s3 = Redis.tileHashes s
    /\ exec (setAllianceTag options clock userId tag) s
       = exec (syncAllianceTagLoop
                 (elements (Redis.members (ownerTileKey (JS.trim userId)) s))
                 (Profile.allianceTag profile) (Profile.allianceColor profile)) s3
    /\ (forall text, Profile.allianceTag profile = Some text ->
          JS.nonblank (Some text) = true)
    /\ (forall text, Profile.allianceColor profile = Some text ->
          JS.nonblank (Some text) = true).
Proof.
  unfold result, exec, setAllianceTag. intros Hres.
  destruct (String.eqb (JS.trim userId) "") eqn:Huser.
  { assert (Hthrown : normalizeUserId userId s = (Thrown "userId must not be empty", s))
      by (unfold normalizeUserId; by rewrite Huser).
    by rewrite (bind_thrown _ _ _ _ _ Hthrown) in Hres. }
  rewrite (bind_returned _ _ _ _ _ (normalizeUserId_run userId s Huser)) in Hres |- *.
  destruct (getOrCreatePlayerState_returns options clock (JS.trim userId) s)
    as (state & Hstate & _).
  destruct (getOrCreatePlayerState_sameWorld options clock (JS.trim userId) s)
    as (Htiles & _ & _ & _ & _ & _ & Howners).
  rewrite (bind_returned _ _ _ _ _ (run_returned _ _ _ Hstate)) in Hres |- *.
  set (s1 := exec (getOrCreatePlayerState options clock (JS.trim userId)) s) in *.
  destruct (normalizeAllianceTag tag s1) as [[normalizedTag|message] s2] eqn:Htag.
  2:{ by rewrite (bind_thrown _ _ _ _ _ Htag) in Hres. }
  rewrite (bind_returned _ _ _ _ _ Htag) in Hres |- *.
  assert (Hnormal : s2 = s1
            /\ forall text, normalizedTag = Some text ->
                 allianceTagPattern text = true /\ truthy (Some text) = true).
  { unfold normalizeAllianceTag in Htag. destruct tag as [raw|].
    2:{ injection Htag as <- <-. by split. }
    destruct (String.length _ =? 0)%nat eqn:Hlen.
    { injection Htag as <- <-. by split. }
    destruct (allianceTagPattern _) eqn:Hpattern; cbn [negb] in Htag; [|done].
    injection Htag as <- <-. split; [done|]. intros text [= <-]. split; [done|].
    unfold truthy. destruct (JS.toUpperCase (JS.trim raw)); [done|reflexivity]. }
  destruct Hnormal as [-> Hpattern].
  cbv zeta in Hres |- *. unfold persistPlayerState in Hres |- *.
  rewrite (bind_returned _ _ _ _ _ (run_returned (hSet_player _ _) s1 tt eq_refl))
    in Hres |- *.
  match goal with |- context [exec (hSet_player ?u ?v) s1] =>
    set (s3 := exec (hSet_player u v) s1) in * end.
  match goal with |- context [syncAllianceTagToOwnedTiles _ ?t ?c] =>
    set (normalizedColor := c) in * end.
  destruct (syncAllianceTagLoop_players
              (elements (Redis.members (ownerTileKey (JS.trim userId)) s3))
              normalizedTag normalizedColor s3) as [Hloop _].
  assert (Hsync : syncAllianceTagToOwnedTiles (JS.trim userId) normalizedTag
                    normalizedColor s3
                  = (Returned tt,
                     exec (syncAllianceTagLoop
                             (elements (Redis.members (ownerTileKey (JS.trim userId)) s3))
                             normalizedTag normalizedColor) s3)).
  { unfold syncAllianceTagToOwnedTiles.
    rewrite (bind_returned (sMembers _) _ s3 _ s3 eq_refl).
    by rewrite (run_returned _ _ _ Hloop). }
  rewrite (bind_returned _ _ _ _ _ Hsync) in Hres |- *.
  cbn [fst mret Async_ret] in Hres. apply Returned_inj in Hres. subst profile.
  cbn [Profile.allianceTag Profile.allianceColor PlayerState.allianceTag
       PlayerState.allianceColor].
  exists s3. split; [exact Htiles|]. split.
  { cbn [snd mret Async_ret].
    replace (Redis.members (ownerTileKey (JS.trim userId)) s3)
      with (Redis.members (ownerTileKey (JS.trim userId)) s); [done|].
    unfold Redis.members. cbn. by rewrite Howners. }
  split.
  - intros text Htext. apply nonblank_tag. by apply Hpattern.
  - intros text. subst normalizedColor. destruct normalizedTag as [name|]; [|done].
    destruct (Hpattern name eq_refl) as [_ ->]. intros [= <-]. apply nonblank_color.
Qed.

End AllianceTiles.

(** X18.  After any history of calls, a [setAllianceTag] call that returns
    a profile writes the alliance of the profile to the tiles of the
    player and to no other tile: every stored tile the player holds reads
    back with the tag and the colour of the profile and is otherwise what
    it was, and every other stored tile reads back unchanged. *)
Theorem setAllianceTag_marks_the_tiles_of_the_player (options : Options.t) (clock : Z)
        (calls : list (Z * Call)) (userId : string) (allianceTag : option string)
        (profile : Profile.t) (tq tr : Z) (tile : TileState.t) :
  let world := afterCalls options calls Redis.empty in
  let final := exec (setAllianceTag options clock userId allianceTag) world in
  result (setAllianceTag options clock userId allianceTag) world = Returned profile ->
  currentTileAt options world tq tr = Some tile ->
  currentTileAt options final tq tr
  = Some (if same_string (TileState.ownerId tile) (Some (JS.trim userId))
          then withAlliance tile (Profile.allianceTag profile)
                 (Profile.allianceColor profile)
          else tile).
Proof.
  intros world final Hres Htile. subst final.
  destruct (setAllianceTag_loop options clock userId allianceTag world profile Hres)
    as (s3 & Htiles & -> & Htag & Hcolor).
  destruct (worldTracked_history options calls) as [(Hin & Hheld & _) _].
  fold world in Hin, Hheld.
  unfold currentTileAt in *. unfold tileKey in *.
  destruct (same_string (TileState.ownerId tile) (Some (JS.trim userId))) eqn:Howner.
  - apply same_string_Some in Howner.
    rewrite (syncAllianceTagLoop_written _ _ _ s3 (tq, tr)).
    + rewrite Htiles. cbn [default].
      by apply (parseTile_allianceFields options tq tr _ tile (JS.trim userId)).
    + exists (coordMember tq tr), (mkHexTile tq tr). split; [|split; [|done]].
      * apply elem_of_elements. by apply (Hheld tq tr tile).
      * apply parseMember_coordMember.
  - rewrite (syncAllianceTagLoop_untouched _ _ _ s3 (tq, tr)); [by rewrite Htiles|].
    intros member coordinate Hmember Hparse Hkey.
    apply elem_of_elements in Hmember.
    destruct (Hin _ _ Hmember) as (xq & xr & held & -> & Hheld' & Hholder).
    rewrite parseMember_coordMember in Hparse. injection Hparse as <-.
    cbn [q r] in Hkey. injection Hkey as -> ->.
    unfold currentTileAt, tileKey in Hheld'. rewrite Htile in Hheld'.
    injection Hheld' as <-. apply same_string_Some in Hholder. congruence.
Qed.

(** ** POI members name their tiles *)

Lemma colonFree_TileType_name tileType : colonFree (TileType_name tileType) = true.
Proof. by destruct tileType. Qed.

Lemma parsePoiMember_poiMember tile :
  parsePoiMember (poiMember tile)
  = Some (mkPoiPoint (TileState.q tile) (TileState.r tile) (TileState.tileType tile)
            (Z.max 1 (JS.Math_floor (TileState.level tile)))).
Proof.
  unfold parsePoiMember, poiMember.
  rewrite split_colon_app by apply colonFree_TileType_name.
  rewrite split_colon_app by apply colonFree_String_of_int.
  rewrite split_colon_app by apply colonFree_String_of_int.
  rewrite split_colon_free by apply colonFree_String_of_int.
  rewrite !Number_integer_String_of_int.
  f_equal. f_equal; [by destruct (TileState.tileType tile)|lia].
Qed.

Lemma poiMember_inj a b :
  poiMember a = poiMember b ->
  TileState.q a = TileState.q b /\ TileState.r a = TileState.r b.
Proof.
  intros Heq. pose proof (parsePoiMember_poiMember a) as Ha.
  rewrite Heq, parsePoiMember_poiMember in Ha. by injection Ha as -> ->.
Qed.

Lemma poiMember_kind a b :
  TileState.q a = TileState.q b -> TileState.r a = TileState.r b ->
  TileState.tileType a = TileState.tileType b ->
  TileState.level a = TileState.level b ->
  poiMember a = poiMember b.
Proof. unfold poiMember. by intros -> -> -> ->. Qed.

Section NexusKept.
Variables (options : Options.t) (clock : Z).

Lemma nexusOf_Some tile level :
  nexusOf tile = Some level
  <-> exists t, tile = Some t /\ TileState.tileType t = nexus /\ TileState.level t = level.
Proof.
  destruct tile as [t|]; cbn; [|split; [done|by intros (t' & ? & _)]].
  destruct (TileState.tileType t) eqn:Htype; cbn; split.
  - done.
  - intros (t' & [= <-] & Hnexus & _). congruence.
  - intros [= <-]. by exists t.
  - by intros (t' & [= <-] & _ & ->).
Qed.

Lemma nexusKept_refl s : nexusKept options s s.
Proof. by split. Qed.

Lemma nexusKept_trans s1 s2 s3 :
  nexusKept options s1 s2 -> nexusKept options s2 s3 -> nexusKept options s1 s3.
Proof.
  intros [Hpoi1 Hkind1] [Hpoi2 Hkind2]. split; [by rewrite Hpoi2|].
  intros tq tr. by rewrite Hkind2.
Qed.

Lemma nexusKept_tiles s s' :
  Redis.poiIndex s' = Redis.poiIndex s ->
  Redis.tileHashes s' = Redis.tileHashes s ->
  nexusKept options s s'.
Proof. intros Hpoi Htiles. split; [done|]. intros tq tr. unfold currentTileAt. by rewrite Htiles. Qed.

Lemma sameWorld_nexusKept s s' : sameWorld s s' -> nexusKept options s s'.
Proof. intros (Htiles & _ & _ & _ & Hpoi & _). by apply nexusKept_tiles. Qed.

Lemma poiTracked_kept s s' :
  nexusKept options s s' -> poiTracked options s -> poiTracked options s'.
Proof.
  intros [Hpoi Hkind] [Hin Hall].
  assert (Hmove : forall a b tq tr tile,
             nexusOf (currentTileAt options a tq tr) = nexusOf (currentTileAt options b tq tr) ->
             currentTileAt options a tq tr = Some tile ->
             TileState.tileType tile = nexus ->
             exists tile',
               currentTileAt options b tq tr = Some tile'
               /\ TileState.tileType tile' = nexus
               /\ poiMember tile' = poiMember tile).
  { intros a b tq tr tile Hsame Htile Htype.
    assert (Hlevel : nexusOf (currentTileAt options a tq tr) = Some (TileState.level tile))
      by (apply nexusOf_Some; by exists tile).
    rewrite Hsame in Hlevel.
    apply nexusOf_Some in Hlevel as (tile' & Htile' & Htype' & Hlevel').
    exists tile'. split; [done|]. split; [done|].
    unfold currentTileAt in Htile, Htile'.
    destruct (parseTile_coordinates options tq tr _ _ Htile) as [Hq Hr].
    destruct (parseTile_coordinates options tq tr _ _ Htile') as [Hq' Hr'].
    apply poiMember_kind; congruence. }
  split.
  - intros member. rewrite Hpoi. intros Hmember.
    destruct (Hin member Hmember) as (tq & tr & tile & Htile & Htype & ->).
    destruct (Hmove s s' tq tr tile (eq_sym (Hkind tq tr)) Htile Htype)
      as (tile' & Htile' & Htype' & Hsame).
    exists tq, tr, tile'. by split.
  - intros tq tr tile' Htile' Htype'. rewrite Hpoi.
    destruct (Hmove s' s tq tr tile' (Hkind tq tr) Htile' Htype')
      as (tile & Htile & Htype & <-).
    by apply (Hall tq tr tile Htile).
Qed.

(** Writing a tile with the type and level of the stored one keeps the
    kinds. *)
Lemma nexusKept_rewrite s s' tq tr tile next :
  Redis.poiIndex s' = Redis.poiIndex s ->
  currentTileAt options s tq tr = Some tile ->
  Redis.tileHashes s' = <[(tq, tr) := tileHashFields next]> (Redis.tileHashes s) ->
  TileState.tileType next = TileState.tileType tile ->
  TileState.level next = TileState.level tile ->
  nexusKept options s s'.
Proof.
  intros Hpoi Htile Htiles Htype Hlevel. split; [done|].
  intros xq xr. rewrite (currentTileAt_insert options s s' tq tr _ xq xr Htiles).
  destruct (decide ((xq, xr) = (tq, tr))) as [[= -> ->]|Hne]; [|done].
  rewrite Htile.
  destruct (parseTile_persisted_some options tq tr next) as [stored Hstored].
  rewrite Hstored. cbn [nexusOf].
  rewrite (parseTile_persisted_tileType options tq tr _ _ Hstored), Htype.
  unfold currentTileAt in Htile.
  by rewrite (parseTile_persisted_same_level options tq tr _ tile next stored Htile).
Qed.

Lemma repairTile_nexusKept userId tq tr s :
  nexusKept options s (exec (repairTile options clock userId tq tr) s).
Proof.
  destruct (String.eqb (JS.trim userId) "") eqn:Huser.
  { unfold exec, repairTile.
    assert (Hthrown : normalizeUserId userId s = (Thrown "userId must not be empty", s))
      by (unfold normalizeUserId; by rewrite Huser).
    rewrite (bind_thrown _ _ _ _ _ Hthrown). apply nexusKept_refl. }
  destruct (HexMathFloat.validateCoordinates
              (HexMathFloat.float_of_Z tq) (HexMathFloat.float_of_Z tr)) eqn:Hvalid.
  2:{ unfold exec, repairTile.
      rewrite (bind_returned _ _ _ _ _ (normalizeUserId_run userId s Huser)).
      assert (Hthrown : validateCoordinates tq tr s
                        = (Thrown "q and r are not valid axial coordinates", s))
        by (unfold validateCoordinates; by rewrite Hvalid).
      rewrite (bind_thrown _ _ _ _ _ Hthrown). apply nexusKept_refl. }
  pose proof (repairTile_run options clock userId tq tr s Huser Hvalid) as Hrun.
  unfold repairOutcome in Hrun.
  destruct (currentTileAt options s tq tr) as [tile|] eqn:Htile.
  2:{ destruct Hrun as (energy & _ & Hsame). by apply sameWorld_nexusKept. }
  destruct (same_string (TileState.ownerId tile) (Some (JS.trim userId))).
  2:{ destruct Hrun as (energy & _ & Hsame). by apply sameWorld_nexusKept. }
  destruct Hrun as (attempt & s1 & Hspend & Hrun).
  destruct (spendPlayerEnergy_sameWorld options clock (JS.trim userId)
              (Options.repairCostEnergy options) (inject_Z clock) s
              (normalized_trim userId Huser))
    as (attempt' & s1' & Hspend' & Hsame).
  rewrite Hspend in Hspend'. injection Hspend' as <- <-.
  destruct (spend_ok attempt).
  - destruct Hrun as (_ & Htiles & _ & (_ & _ & Hpoi & _) & _).
    by eapply (nexusKept_rewrite s _ tq tr tile (repairedTile options clock tile)).
  - destruct Hrun as [_ ->]. by apply sameWorld_nexusKept.
Qed.

Lemma allianceWrite_nexusKept key tag color s :
  nexusKept options s (exec (hSet_tile key (allianceFields tag color)) s).
Proof.
  split; [done|]. intros tq tr.
  unfold exec, hSet_tile, currentTileAt, tileKey.
  cbn [snd Redis.with_tileHashes Redis.tileHashes].
  destruct (decide (key = (tq, tr))) as [->|Hne]; [|by rewrite lookup_insert_ne].
  rewrite lookup_insert_eq.
  destruct (default TileHash.empty (Redis.tileHashes s !! (tq, tr)))
    as [owner oldTag oldColor energy lastUpdate integrity level tileType].
  unfold parseTile, TileHash.merge, TileHash.hasValues, allianceFields. cbn.
  destruct owner, oldTag, oldColor, energy, lastUpdate, integrity, level, tileType;
    try reflexivity; cbn; by destruct (_ =? "nexus")%string.
Qed.

Lemma syncAllianceTagLoop_nexusKept members tag color s :
  nexusKept options s (exec (syncAllianceTagLoop members tag color) s).
Proof.
  revert s. induction members as [|member rest IH]; intros s; [apply nexusKept_refl|].
  cbn [syncAllianceTagLoop]. destruct (parseMember member) as [coordinate|]; [|apply IH].
  fold (allianceFields tag color).
  match goal with |- context [hSet_tile ?key ?values] =>
    pose proof (allianceWrite_nexusKept key tag color s) as Hwrite;
    unfold exec; rewrite (bind_returned (hSet_tile key values) _ s tt _ eq_refl)
  end.
  eapply nexusKept_trans; [exact Hwrite | apply IH].
Qed.

Lemma setAllianceTag_nexusKept userId tag s :
  nexusKept options s (exec (setAllianceTag options clock userId tag) s).
Proof.
  unfold exec, setAllianceTag.
  destruct (String.eqb (JS.trim userId) "") eqn:Huser.
  { assert (Hthrown : normalizeUserId userId s = (Thrown "userId must not be empty", s))
      by (unfold normalizeUserId; by rewrite Huser).
    rewrite (bind_thrown _ _ _ _ _ Hthrown). apply nexusKept_refl. }
  rewrite (bind_returned _ _ _ _ _ (normalizeUserId_run userId s Huser)).
  destruct (getOrCreatePlayerState_returns options clock (JS.trim userId) s)
    as (state & Hstate & _).
  pose proof (getOrCreatePlayerState_sameWorld options clock (JS.trim userId) s) as Hsame.
  rewrite (bind_returned _ _ _ _ _ (run_returned _ _ _ Hstate)).
  set (s1 := exec (getOrCreatePlayerState options clock (JS.trim userId)) s) in *.
  apply sameWorld_nexusKept in Hsame.
  eapply nexusKept_trans; [exact Hsame|].
  destruct (normalizeAllianceTag tag s1) as [[normalizedTag|message] s2] eqn:Htag.
  2:{ rewrite (bind_thrown _ _ _ _ _ Htag).
      unfold normalizeAllianceTag in Htag. destruct tag as [raw|]; [|done].
      destruct (_ =? _)%nat; [done|]. destruct (negb _); [|done].
      injection Htag as _ <-. apply nexusKept_refl. }
  rewrite (bind_returned _ _ _ _ _ Htag).
  assert (Hs2 : s2 = s1).
  { unfold normalizeAllianceTag in Htag. destruct tag as [raw|]; [|by injection Htag].
    destruct (_ =? _)%nat; [by injection Htag|]. destruct (negb _); [done|].
    by injection Htag. }
  subst s2. cbv zeta.
  unfold persistPlayerState.
  rewrite (bind_returned _ _ _ _ _ (run_returned (hSet_player _ _) s1 tt eq_refl)).
  match goal with |- context [exec (hSet_player ?u ?v) s1] =>
    set (s3 := exec (hSet_player u v) s1) end.
  eapply (nexusKept_trans s1 s3); [by apply nexusKept_tiles|].
  match goal with |- context [syncAllianceTagToOwnedTiles ?u ?t ?c] =>
    destruct (syncAllianceTagToOwnedTiles_run options u t c s3) as (s4 & Hsync & _);
    rewrite (bind_returned _ _ _ _ _ Hsync); cbn [snd mret Async_ret];
    unfold syncAllianceTagToOwnedTiles in Hsync;
    rewrite (bind_returned (sMembers _) _ s3 _ s3 eq_refl) in Hsync;
    pose proof (syncAllianceTagLoop_nexusKept
                  (elements (Redis.members (ownerTileKey u) s3)) t c s3) as Hloop;
    unfold exec in Hloop; rewrite Hsync in Hloop; exact Hloop
  end.
Qed.

Lemma rechargeMember_nexusKept now sw member s :
  sweepReadable sw ->
  exists sw' s',
    rechargeMember options clock now sw member s = (Returned sw', s')
    /\ sweepReadable sw'
    /\ nexusKept options s s'.
Proof.
  intros Hsw.
  destruct (rechargeMember_step options clock now sw member s Hsw)
    as (sw' & s' & Hrun & Hsw' & Haside & Hstep).
  exists sw', s'. split; [exact Hrun|]. split; [exact Hsw'|].
  destruct Haside as (_ & _ & _ & Hpoi & _).
  destruct (parseMember member) as [coordinate|].
  2:{ destruct Hstep as [_ ->]. apply nexusKept_refl. }
  destruct (currentTileAt options s (q coordinate) (r coordinate)) as [tile|] eqn:Htile.
  2:{ destruct Hstep as (Htiles & _). by apply nexusKept_tiles. }
  destruct Hstep as (multiplier & Hstored & _).
  destruct (sameTileState tile _).
  - destruct Hstored as [Htiles _]. by apply nexusKept_tiles.
  - destruct Hstored as [Htiles _].
    destruct (evolveTileState_frame options tile now multiplier)
      as (_ & _ & _ & _ & _ & Hlevel & Htype).
    by eapply nexusKept_rewrite.
Qed.

Lemma rechargeMembers_nexusKept now members sw s :
  sweepReadable sw ->
  exists sw' s',
    rechargeMembers options clock now members sw s = (Returned sw', s')
    /\ sweepReadable sw'
    /\ nexusKept options s s'.
Proof.
  revert sw s. induction members as [|member rest IH]; intros sw s Hsw.
  - exists sw, s. split; [done|]. split; [done|]. apply nexusKept_refl.
  - destruct (rechargeMember_nexusKept now sw member s Hsw)
      as (sw1 & s1 & Hrun1 & Hsw1 & Hkept1).
    destruct (IH sw1 s1 Hsw1) as (sw2 & s2 & Hrun2 & Hsw2 & Hkept2).
    exists sw2, s2. cbn [rechargeMembers]. rewrite (bind_returned _ _ _ _ _ Hrun1).
    split; [exact Hrun2|]. split; [exact Hsw2|]. by eapply nexusKept_trans.
Qed.

Lemma rechargeEnergy_nexusKept now s :
  nexusKept options s (exec (rechargeEnergy options clock now) s).
Proof.
  destruct (rechargeMembers_nexusKept now (elements (Redis.tileIndex s)) emptySweep s
              emptySweep_readable)
    as (sw & s1 & Hrun & Hsw & Hkept).
  destruct (creditOwners_run options clock (ownerEnergyGains sw) now s1 (proj2 Hsw))
    as (s2 & Hcredit & Hsame).
  assert (Hsweep : rechargeSweep options clock now s = (Returned sw, s1)).
  { unfold rechargeSweep.
    by rewrite (bind_returned (sMembers TILE_INDEX_KEY) _ s
                  (elements (Redis.tileIndex s)) s eq_refl). }
  unfold exec, rechargeEnergy.
  rewrite (bind_returned _ _ _ _ _ Hsweep), (bind_returned _ _ _ _ _ Hcredit).
  eapply nexusKept_trans; [exact Hkept | by apply sameWorld_nexusKept].
Qed.

End NexusKept.

Section PoiTracked.
Variables (options : Options.t) (clock : Z).

Lemma poiMember_persisted tq tr next stored :
  parseTile options tq tr (tileHashFields next) = Some stored ->
  TileState.q next = tq -> TileState.r next = tr ->
  poiMember stored = poiMember next.
Proof.
  intros Hstored Hq Hr.
  destruct (parseTile_coordinates options tq tr _ _ Hstored) as [Hq' Hr'].
  unfold poiMember.
  rewrite (parseTile_persisted_tileType options tq tr _ _ Hstored).
  rewrite (parseTile_persisted_level options tq tr _ _ Hstored).
  rewrite floor_inject_Z, Hq, Hr, Hq', Hr'.
  by replace (1 `max` (1 `max` JS.Math_floor (TileState.level next)))
    with (1 `max` JS.Math_floor (TileState.level next)) by lia.
Qed.

(** A tile of type normal written where none was stored keeps the nexus
    tiles. *)
Lemma nexusKept_created s s' tq tr next :
  Redis.poiIndex s' = Redis.poiIndex s ->
  currentTileAt options s tq tr = None ->
  Redis.tileHashes s' = <[(tq, tr) := tileHashFields next]> (Redis.tileHashes s) ->
  TileState.tileType next = normal ->
  nexusKept options s s'.
Proof.
  intros Hpoi Htile Htiles Htype. split; [done|].
  intros xq xr. rewrite (currentTileAt_insert options s s' tq tr _ xq xr Htiles).
  destruct (decide ((xq, xr) = (tq, tr))) as [[= -> ->]|Hne]; [|done].
  rewrite Htile.
  destruct (parseTile_persisted_some options tq tr next) as [stored Hstored].
  rewrite Hstored. cbn [nexusOf].
  by rewrite (parseTile_persisted_tileType options tq tr _ _ Hstored), Htype.
Qed.

(** What the commit of a claim does to the tile and to the POI index. *)
Lemma claimCommit_poi user tq tr currentTile attempt cost s :
  normalized user ->
  ownedBy currentTile user = false ->
  exists next,
    let final := exec (claimCommit options clock user tq tr currentTile attempt cost) s in
    Redis.tileHashes final = <[(tq, tr) := tileHashFields next]> (Redis.tileHashes s)
    /\ Redis.poiIndex final
       = (if TileType_eqb (TileState.tileType next) nexus
          then Redis.poiIndex s ∪ {[poiMember next]} else Redis.poiIndex s)
    /\ match currentTile with
       | Some tile =>
           TileState.q next = TileState.q tile
           /\ TileState.r next = TileState.r tile
           /\ TileState.level next = TileState.level tile
           /\ TileState.tileType next = TileState.tileType tile
       | None => TileState.tileType next = normal
       end.
Proof.
  intros Hn Hown.
  destruct (getPlayerProfile_run options clock user s Hn) as (profile & Hprofile).
  destruct (getOrCreatePlayerState_sameWorld options clock user s)
    as (Htiles & Hactivity & Hboard & Hindex & Hpoi & Hchunks & Howners).
  set (s1 := exec (getOrCreatePlayerState options clock user) s) in *.
  unfold exec, claimCommit. rewrite (bind_returned _ _ _ _ _ Hprofile). cbv zeta.
  rewrite (not_owned_gains currentTile user Hown).
  match goal with |- context [persistTileState _ ?tile] => set (next := tile) end.
  exists next.
  unfold persistTileState, recordChunkActivity, tileKey, chunkKeyForTile.
  run_async.
  destruct (ownedByOther currentTile user);
    destruct (TileType_eqb (TileState.tileType next) nexus); cbn;
    rewrite ?Htiles, ?Hpoi; (split; [done|]); (split; [done|]);
    by destruct currentTile.
Qed.

(** What a [claimTile] call does to the tile and to the POI index:
    nothing, or the commit. *)
Lemma claimTile_poi userId tq tr s :
  let final := exec (claimTile options clock userId tq tr) s in
  sameWorld s final
  \/ exists s1 next,
       sameWorld s s1
       /\ Redis.tileHashes final = <[(tq, tr) := tileHashFields next]> (Redis.tileHashes s1)
       /\ Redis.poiIndex final
          = (if TileType_eqb (TileState.tileType next) nexus
             then Redis.poiIndex s1 ∪ {[poiMember next]} else Redis.poiIndex s1)
       /\ match currentTileAt options s tq tr with
          | Some tile =>
              TileState.q next = TileState.q tile
              /\ TileState.r next = TileState.r tile
              /\ TileState.level next = TileState.level tile
              /\ TileState.tileType next = TileState.tileType tile
          | None => TileState.tileType next = normal
          end.
Proof.
  intros final. subst final.
  destruct (String.eqb (JS.trim userId) "") eqn:Huser.
  { unfold exec, claimTile.
    assert (Hthrown : normalizeUserId userId s = (Thrown "userId must not be empty", s))
      by (unfold normalizeUserId; by rewrite Huser).
    rewrite (bind_thrown _ _ _ _ _ Hthrown). left. apply sameWorld_refl. }
  destruct (HexMathFloat.validateCoordinates
              (HexMathFloat.float_of_Z tq) (HexMathFloat.float_of_Z tr)) eqn:Hvalid.
  2:{ unfold exec, claimTile.
      rewrite (bind_returned _ _ _ _ _ (normalizeUserId_run userId s Huser)).
      assert (Hthrown : validateCoordinates tq tr s
                        = (Thrown "q and r are not valid axial coordinates", s))
        by (unfold validateCoordinates; by rewrite Hvalid).
      rewrite (bind_thrown _ _ _ _ _ Hthrown). left. apply sameWorld_refl. }
  pose proof (normalized_trim userId Huser) as Hn.
  set (user := JS.trim userId) in *.
  set (currentTile := currentTileAt options s tq tr).
  destruct (ownedBy currentTile user) eqn:Hown.
  { unfold exec, claimTile.
    rewrite (bind_returned _ _ _ _ _ (normalizeUserId_run userId s Huser)).
    unfold validateCoordinates. rewrite Hvalid.
    rewrite (bind_returned (mret tt) _ s tt s eq_refl).
    rewrite (bind_returned _ _ _ _ _ (loadTile_run options tq tr s)).
    fold currentTile user. destruct currentTile as [tile|]; [|done].
    cbn in Hown. rewrite Hown.
    destruct (getPlayerEnergy_sameWorld options clock user s Hn)
      as (energy & s1 & Hrun & Hsame).
    rewrite (bind_returned _ _ _ _ _ Hrun). by left. }
  unfold exec. rewrite (claimTile_entry options clock userId tq tr s Huser Hvalid Hown).
  fold user currentTile. unfold claimGated.
  rewrite (bind_returned _ _ _ _ _ (validateClaimDistance_run options user tq tr s)).
  match goal with |- context [match ?range with RangeOk => _ | RangeFail _ => _ end] =>
    destruct range as [|nearest] end.
  2:{ destruct (getPlayerEnergy_sameWorld options clock user s Hn)
        as (energy & s1 & Hrun & Hsame).
      rewrite (bind_returned _ _ _ _ _ Hrun). by left. }
  unfold claimSpend. cbv zeta.
  match goal with |- context [spendPlayerEnergy _ _ _ ?cost ?now] =>
    destruct (spendPlayerEnergy_sameWorld options clock user cost now s Hn)
      as (attempt & s1 & Hspend & Hsame);
    rewrite (bind_returned _ _ _ _ _ Hspend)
  end.
  destruct (spend_ok attempt); cbn [negb]; [|by left].
  match goal with |- context [claimCommit _ _ _ _ _ _ _ ?cost] =>
    destruct (claimCommit_poi user tq tr currentTile attempt cost s1 Hn Hown)
      as (next & Hcommit)
  end.
  right. by exists s1, next.
Qed.

Lemma union_member (X : gset string) member : member ∈ X -> X ∪ {[member]} = X.
Proof.
  intros Hmember. apply set_eq. intros x. rewrite elem_of_union, elem_of_singleton.
  split; [by intros [?| ->] | by left].
Qed.

Lemma claimTile_poiTracked userId tq tr s :
  poiTracked options s ->
  poiTracked options (exec (claimTile options clock userId tq tr) s).
Proof.
  intros Htracked.
  destruct (claimTile_poi userId tq tr s)
    as [Hsame|(s1 & next & Hsame & Htiles & Hpoi & Hnext)].
  { eapply poiTracked_kept; [by apply sameWorld_nexusKept | done]. }
  assert (Htracked1 : poiTracked options s1)
    by (eapply poiTracked_kept; [by apply sameWorld_nexusKept | done]).
  eapply poiTracked_kept; [|exact Htracked1].
  assert (Hcurrent : currentTileAt options s1 tq tr = currentTileAt options s tq tr).
  { destruct Hsame as (Hsame & _). unfold currentTileAt. by rewrite Hsame. }
  destruct (currentTileAt options s tq tr) as [tile|] eqn:Htile.
  - destruct Hnext as (Hq & Hr & Hlevel & Htype).
    eapply (nexusKept_rewrite options s1 _ tq tr tile next); try done.
    rewrite Hpoi. destruct (TileType_eqb (TileState.tileType next) nexus) eqn:Hnexus; [|done].
    apply union_member.
    replace (poiMember next) with (poiMember tile) by (by apply poiMember_kind).
    apply (proj2 Htracked1 tq tr tile Hcurrent).
    rewrite <- Htype. by destruct (TileState.tileType next).
  - eapply (nexusKept_created s1 _ tq tr next); try done.
    rewrite Hpoi, Hnext. done.
Qed.

Lemma registerNexus_poiTracked tq tr level s :
  poiTracked options s ->
  poiTracked options (exec (registerNexus options clock tq tr level) s).
Proof.
  intros [Hin Hall]. unfold exec, registerNexus. cbv zeta.
  destruct (HexMathFloat.validateCoordinates
              (HexMathFloat.float_of_Z tq) (HexMathFloat.float_of_Z tr)) eqn:Hvalid.
  2:{ assert (Hthrown : validateCoordinates tq tr s
                        = (Thrown "q and r are not valid axial coordinates", s))
        by (unfold validateCoordinates; by rewrite Hvalid).
      by rewrite (bind_thrown _ _ _ _ _ Hthrown). }
  unfold validateCoordinates. rewrite Hvalid.
  rewrite (bind_returned (mret tt) _ s tt s eq_refl).
  destruct (negb (isInteger (default 3%Q level)) || Qle_bool (default 3%Q level) 0);
    [done|].
  rewrite (bind_returned _ _ _ _ _ (loadTile_run options tq tr s)).
  match goal with |- context [persistTileState _ ?t] => set (next := t) end.
  set (kept := match currentTileAt options s tq tr with
               | Some tile =>
                   if TileType_eqb (TileState.tileType tile) nexus
                   then Redis.poiIndex s ∖ {[poiMember tile]} else Redis.poiIndex s
               | None => Redis.poiIndex s
               end).
  match goal with |- poiTracked options ?final' => set (final := final') end.
  assert (Hfinal : Redis.tileHashes final
                   = <[(tq, tr) := tileHashFields next]> (Redis.tileHashes s)
                   /\ Redis.poiIndex final = kept ∪ {[poiMember next]}).
  { subst final kept. unfold persistTileState, tileKey, when, chunkKeyForTile.
    destruct (currentTileAt options s tq tr) as [tile|];
      [destruct (TileType_eqb (TileState.tileType tile) nexus)|]; by run_async. }
  destruct Hfinal as [Htiles Hpoi]. clearbody final.
  assert (Hcoordinates : TileState.q next = tq /\ TileState.r next = tr).
  { subst next. destruct (currentTileAt options s tq tr) as [tile|] eqn:Htile; [|done].
    unfold currentTileAt in Htile. cbn.
    exact (parseTile_coordinates options tq tr _ _ Htile). }
  destruct Hcoordinates as [Hq Hr].
  assert (Htype : TileState.tileType next = nexus)
    by (subst next; by destruct (currentTileAt options s tq tr)).
  destruct (parseTile_persisted_some options tq tr next) as [stored Hstored].
  pose proof (poiMember_persisted tq tr next stored Hstored Hq Hr) as Hmember.
  pose proof (parseTile_persisted_tileType options tq tr _ _ Hstored) as Hstored_type.
  rewrite Htype in Hstored_type.
  split.
  - intros member. rewrite Hpoi.
    intros [Hkept| ->%elem_of_singleton]%elem_of_union.
    2:{ exists tq, tr, stored. split; [|by split].
        rewrite (currentTileAt_insert options s final tq tr _ tq tr Htiles).
        by rewrite decide_True. }
    assert (Hold : member ∈ Redis.poiIndex s).
    { subst kept. destruct (currentTileAt options s tq tr) as [tile|]; [|done].
      destruct (TileType_eqb (TileState.tileType tile) nexus); [|done].
      by apply elem_of_difference in Hkept as [? _]. }
    destruct (Hin member Hold) as (xq & xr & tile & Htile & Hnexus & ->).
    exists xq, xr, tile. split; [|by split].
    rewrite (currentTileAt_insert options s final tq tr _ xq xr Htiles).
    destruct (decide ((xq, xr) = (tq, tr))) as [[= -> ->]|Hne]; [|done].
    exfalso. subst kept. rewrite Htile, Hnexus in Hkept. cbn in Hkept.
    apply elem_of_difference in Hkept as [_ Hkept]. by apply Hkept, elem_of_singleton.
  - intros xq xr tile. rewrite (currentTileAt_insert options s final tq tr _ xq xr Htiles).
    rewrite Hpoi.
    destruct (decide ((xq, xr) = (tq, tr))) as [[= -> ->]|Hne].
    + rewrite Hstored. intros [= <-] _. apply elem_of_union_r, elem_of_singleton. done.
    + intros Htile Hnexus. apply elem_of_union_l.
      pose proof (Hall xq xr tile Htile Hnexus) as Hold.
      subst kept. destruct (currentTileAt options s tq tr) as [old|] eqn:Hold_tile; [|done].
      destruct (TileType_eqb (TileState.tileType old) nexus); [|done].
      apply elem_of_difference. split; [done|].
      intros Hsame%elem_of_singleton. apply poiMember_inj in Hsame as [Hq' Hr'].
      unfold currentTileAt in Htile, Hold_tile.
      destruct (parseTile_coordinates options xq xr _ _ Htile) as [? ?].
      destruct (parseTile_coordinates options tq tr _ _ Hold_tile) as [? ?].
      apply Hne. f_equal; congruence.
Qed.

Lemma poiTracked_empty : poiTracked options Redis.empty.
Proof.
  split.
  - intros member Hmember. by apply elem_of_empty in Hmember.
  - intros tq tr tile Htile. by vm_compute in Htile.
Qed.

End PoiTracked.

Lemma poiTracked_afterCall options clock call s :
  poiTracked options s -> poiTracked options (afterCall options clock call s).
Proof.
  intros Htracked.
  destruct call as [userId tq tr|userId tq tr|tq tr level|userId tag|now];
    cbn [afterCall].
  - by apply claimTile_poiTracked.
  - eapply poiTracked_kept; [apply repairTile_nexusKept | done].
  - by apply registerNexus_poiTracked.
  - eapply poiTracked_kept; [apply setAllianceTag_nexusKept | done].
  - eapply poiTracked_kept; [apply rechargeEnergy_nexusKept | done].
Qed.

Lemma poiTracked_afterCalls options calls s :
  poiTracked options s -> poiTracked options (afterCalls options calls s).
Proof.
  revert s. induction calls as [|[clock call] rest IH]; intros s Htracked; [done|].
  cbn [afterCalls]. by apply IH, poiTracked_afterCall.
Qed.

Lemma poiTracked_history options calls :
  poiTracked options (afterCalls options calls Redis.empty).
Proof. apply poiTracked_afterCalls, poiTracked_empty. Qed.

(** X19.  After any history of calls the POI index names the stored nexus
    tiles and nothing else: its members are exactly the members
    [nexus:q:r:level] of the stored tiles of type nexus, with the level the
    tile has in the store, one member for each such tile. *)
Theorem poi_index_names_the_nexus_tiles (options : Options.t) (calls : list (Z * Call))
        (member : string) :
  let world := afterCalls options calls Redis.empty in
  (member ∈ Redis.poiIndex world
   <-> exists tq tr tile,
         currentTileAt options world tq tr = Some tile
         /\ TileState.tileType tile = nexus
         /\ member = poiMember tile)
  /\ forall tq tr tile,
       currentTileAt options world tq tr = Some tile ->
       parsePoiMember (poiMember tile)
       = Some (mkPoiPoint tq tr (TileState.tileType tile)
                 (JS.Math_floor (TileState.level tile)))
       /\ TileState.level tile = inject_Z (JS.Math_floor (TileState.level tile))
       /\ 1 <= JS.Math_floor (TileState.level tile).
Proof.
  intros world. destruct (poiTracked_history options calls) as [Hin Hall].
  fold world in Hin, Hall. split; [split|].
  - apply Hin.
  - intros (tq & tr & tile & Htile & Htype & ->). by apply (Hall tq tr tile).
  - intros tq tr tile Htile. unfold currentTileAt in Htile.
    destruct (parseTile_coordinates options tq tr _ _ Htile) as [Hq Hr].
    destruct (parseTile_level_integer options tq tr _ _ Htile) as (n & Hn & Hlevel).
    rewrite parsePoiMember_poiMember, Hq, Hr, Hlevel, floor_inject_Z.
    split; [|done]. f_equal. f_equal. lia.
Qed.

(** ** The radar summary *)

Section Collect.
Context {A : Type} (limit : Q).



End Collect.

Section Radar.
Variables (options : Options.t) (limits : Limits.t).




End Radar.






Section Hotspots.
Variables (options : Options.t) (limits : Limits.t).






End Hotspots.


(** ** [registerNexus] *)

Lemma isInteger_floor level :
  isInteger level = true -> (inject_Z (JS.Math_floor level) == level)%Q.
Proof. unfold isInteger. apply Qeq_bool_iff. Qed.

(** X20.  [registerNexus] at valid coordinates: a level that is not a
    positive integer makes it throw and leaves the store as it is.
    Otherwise it returns a tile of type nexus at that level, updated at
    the time of the call, which keeps the owner, alliance, energy and
    integrity of the tile stored there, or is unowned with the initial
    energy and integrity when none was; the tile is read back from the
    store as a nexus of that level with the same owner, it is listed in
    [tiles:index], in the set of its chunk and in the POI index, and every
    other tile is left as it was. *)
Theorem registerNexus_places_a_nexus (options : Options.t) (clock tq tr : Z)
        (levelArg : option Q) (s : Redis.t) :
  HexMathFloat.validateCoordinates
    (HexMathFloat.float_of_Z tq) (HexMathFloat.float_of_Z tr) = true ->
  let level := default 3%Q levelArg in
  let final := exec (registerNexus options clock tq tr levelArg) s in
  if negb (isInteger level) || Qle_bool level 0 then
    registerNexus options clock tq tr levelArg s
    = (Thrown "level must be a positive integer", s)
  else
    exists tile stored,
      result (registerNexus options clock tq tr levelArg) s = Returned tile
      /\ TileState.tileType tile = nexus
      /\ TileState.level tile = level
      /\ TileState.lastUpdate tile = clock
      /\ match currentTileAt options s tq tr with
         | Some old =>
             TileState.ownerId tile = TileState.ownerId old
             /\ TileState.ownerAllianceTag tile = TileState.ownerAllianceTag old
             /\ TileState.ownerAllianceColor tile = TileState.ownerAllianceColor old
             /\ TileState.energy tile = TileState.energy old
             /\ TileState.integrity tile = TileState.integrity old
         | None =>
             TileState.ownerId tile = None
             /\ TileState.energy tile = Options.initialTileEnergy options
             /\ TileState.integrity tile = Options.initialTileIntegrity options
         end
      /\ currentTileAt options final tq tr = Some stored
      /\ TileState.tileType stored = nexus
      /\ (TileState.level stored == level)%Q
      /\ TileState.ownerId stored = TileState.ownerId tile
      /\ coordMember tq tr ∈ Redis.tileIndex final
      /\ coordMember tq tr ∈ Redis.members (chunkKeyForTile options tq tr) final
      /\ poiMember stored ∈ Redis.poiIndex final
      /\ (forall xq xr, (xq, xr) <> (tq, tr) ->
            currentTileAt options final xq xr = currentTileAt options s xq xr).
Proof.
  intros Hvalid level final. subst final.
  unfold result, exec, registerNexus. cbv zeta. fold level.
  unfold validateCoordinates. rewrite Hvalid.
  rewrite (bind_returned (mret tt) _ s tt s eq_refl).
  destruct (negb (isInteger level) || Qle_bool level 0) eqn:Hguard; [done|].
  apply Bool.orb_false_iff in Hguard as [Hinteger Hpositive].
  apply Bool.negb_false_iff in Hinteger. apply Qle_bool_false in Hpositive.
  rewrite (bind_returned _ _ _ _ _ (loadTile_run options tq tr s)).
  match goal with |- context [persistTileState _ ?t] => set (next := t) end.
  match goal with |- context [fst (?m s)] => set (run := m s) end.
  assert (Hrun : run.1 = Returned next
                 /\ tileAdded options s run.2 tq tr next
                 /\ exists kept, Redis.poiIndex run.2 = kept ∪ {[poiMember next]}).
  { subst run. unfold tileAdded, persistTileState, tileKey, when, chunkKeyForTile.
    destruct (currentTileAt options s tq tr) as [tile|];
      [destruct (TileType_eqb (TileState.tileType tile) nexus)|]; run_async;
      (split; [done|]); (split; [done|]); by eexists. }
  clearbody run. destruct Hrun as (Hres & (Htiles & Hlisted & Hchunks) & kept & Hkept).
  assert (Hindex : coordMember tq tr ∈ Redis.tileIndex run.2)
    by (rewrite Hlisted; by apply elem_of_union_r, elem_of_singleton).
  assert (Hchunk : coordMember tq tr ∈ Redis.members (chunkKeyForTile options tq tr) run.2).
  { unfold chunkKeyForTile at 1. unfold Redis.members at 1. rewrite Hchunks.
    rewrite lookup_insert_eq. unfold default. cbn [from_option id].
    by apply elem_of_union_r, elem_of_singleton. }
  assert (Hpoi : poiMember next ∈ Redis.poiIndex run.2)
    by (rewrite Hkept; by apply elem_of_union_r, elem_of_singleton).
  destruct (parseTile_persisted_some options tq tr next) as [stored Hstored].
  assert (Hcoordinates : TileState.q next = tq /\ TileState.r next = tr).
  { subst next. destruct (currentTileAt options s tq tr) as [tile|] eqn:Htile; [|done].
    unfold currentTileAt in Htile. cbn.
    exact (parseTile_coordinates options tq tr _ _ Htile). }
  destruct Hcoordinates as [Hq Hr].
  assert (Htype : TileState.tileType next = nexus)
    by (subst next; by destruct (currentTileAt options s tq tr)).
  assert (Hlevel : TileState.level next = level)
    by (subst next; by destruct (currentTileAt options s tq tr)).
  exists next, stored. split; [exact Hres|]. split; [exact Htype|].
  split; [exact Hlevel|].
  split; [subst next; by destruct (currentTileAt options s tq tr)|].
  split; [subst next; by destruct (currentTileAt options s tq tr)|].
  split.
  { rewrite (currentTileAt_insert options s _ tq tr _ tq tr Htiles).
    by rewrite decide_True. }
  split; [by rewrite (parseTile_persisted_tileType options tq tr _ _ Hstored)|].
  split.
  { rewrite (parseTile_persisted_level options tq tr _ _ Hstored), Hlevel.
    assert (Hfloor : 1 <= JS.Math_floor level).
    { assert (H : (0 < inject_Z (JS.Math_floor level))%Q)
        by (rewrite (isInteger_floor level Hinteger); exact Hpositive).
      change 0%Q with (inject_Z 0) in H. rewrite <- Zlt_Qlt in H. lia. }
    rewrite Z.max_r by lia. by apply isInteger_floor. }
  split.
  { assert (Hreadable : readableOwner (TileState.ownerId next)).
    { subst next. destruct (currentTileAt options s tq tr) as [tile|] eqn:Htile; [|done].
      cbn. unfold currentTileAt in Htile. by eapply parseTile_owner_readable. }
    pose proof (parseTile_persisted_ownerOf options tq tr next Hreadable) as Howner.
    by rewrite Hstored in Howner. }
  split; [exact Hindex|]. split; [exact Hchunk|]. split.
  { by rewrite (poiMember_persisted options tq tr next stored Hstored Hq Hr). }
  intros xq xr Hne. rewrite (currentTileAt_insert options s _ tq tr _ xq xr Htiles).
  by rewrite decide_False.
Qed.

(** ** The rooms of a view *)





(** ** What a tick does to the tiles *)

Section Gridded.
Variables (options : Options.t) (clock : Z).
Hypothesis Hoptions : tickOptions options.

Lemma parseTile_persisted_gridded tq tr next stored :
  parseTile options tq tr (tileHashFields next) = Some stored ->
  onGrid (TileState.energy stored) /\ onGrid (TileState.integrity stored).
Proof.
  intros Hstored. destruct Hoptions as (_ & Hmax & _).
  destruct (parseTile_energy options tq tr _ _ Hstored) as [-> ->].
  cbn [tileHashFields TileHash.energy TileHash.integrity default from_option id].
  split; apply onGrid_clamp; try apply toFixedPrecision_rounded; try done;
    try apply (onGrid_inject_Z 0); apply (onGrid_inject_Z 100).
Qed.

Lemma gridded_written s s' tq tr next :
  Redis.tileHashes s' = <[(tq, tr) := tileHashFields next]> (Redis.tileHashes s) ->
  gridded options s -> gridded options s'.
Proof.
  intros Htiles Hgrid xq xr tile.
  rewrite (currentTileAt_insert options s s' tq tr _ xq xr Htiles).
  destruct (decide _) as [_|_]; [apply parseTile_persisted_gridded|apply Hgrid].
Qed.

Lemma gridded_tiles s s' :
  Redis.tileHashes s' = Redis.tileHashes s -> gridded options s -> gridded options s'.
Proof. intros Htiles Hgrid tq tr tile. unfold currentTileAt. rewrite Htiles. apply Hgrid. Qed.

Lemma gridded_alliance key tag color s :
  gridded options s ->
  gridded options (exec (hSet_tile key (allianceFields tag color)) s).
Proof.
  intros Hgrid tq tr tile.
  unfold exec, hSet_tile, currentTileAt, tileKey.
  cbn [snd Redis.with_tileHashes Redis.tileHashes].
  destruct (decide (key = (tq, tr))) as [->|Hne];
    [|rewrite lookup_insert_ne by done; apply Hgrid].
  rewrite lookup_insert_eq. cbn [default from_option id].
  intros Htile. destruct (parseTile_energy options tq tr _ _ Htile) as [-> ->].
  destruct Hoptions as (_ & Hmax & Hinitial & _).
  specialize (Hgrid tq tr). unfold currentTileAt, tileKey in Hgrid.
  destruct (default TileHash.empty (Redis.tileHashes s !! (tq, tr)))
    as [owner oldTag oldColor energy lastUpdate integrity level tileType] eqn:Hold.
  cbn [TileHash.merge TileHash.energy TileHash.integrity TileHash.override allianceFields].
  destruct (parseTile options tq tr
              (TileHash.mk owner oldTag oldColor energy lastUpdate integrity level tileType))
    as [old|] eqn:Hparse.
  - destruct (Hgrid old eq_refl) as [Henergy Hintegrity].
    destruct (parseTile_energy options tq tr _ _ Hparse) as [Ee Ei].
    cbn [TileHash.energy TileHash.integrity] in Ee, Ei. by rewrite <- Ee, <- Ei.
  - unfold parseTile in Hparse.
    destruct (negb (TileHash.hasValues _)) eqn:Hvalues; [|done].
    destruct owner, oldTag, oldColor, energy, lastUpdate, integrity, level, tileType;
      try done.
    cbn [default from_option id].
    split; apply onGrid_clamp; try done; try apply (onGrid_inject_Z 0);
      apply (onGrid_inject_Z 100).
Qed.

Lemma gridded_allianceLoop members tag color s :
  gridded options s ->
  gridded options (exec (syncAllianceTagLoop members tag color) s).
Proof.
  revert s. induction members as [|member rest IH]; intros s Hgrid; [done|].
  cbn [syncAllianceTagLoop]. destruct (parseMember member) as [coordinate|]; [|by apply IH].
  fold (allianceFields tag color). unfold exec.
  rewrite (bind_returned (hSet_tile _ _) _ s tt _ eq_refl).
  apply IH. by apply gridded_alliance.
Qed.

End Gridded.

Section Bonus.
Variables (options : Options.t) (clock : Z).

(** The multiplier is 1 or the alliance bonus. *)
Lemma allianceNeighborLoop_value tile ownerProfile neighbors sw s :
  sweepReadable sw ->
  looksUp sw s (allianceNeighborLoop options clock tile ownerProfile neighbors sw s)
          (fun multiplier =>
             multiplier = 1%Q
             \/ multiplier = Options.allianceNeighborBonusMultiplier options).
Proof.
  revert sw s. induction neighbors as [|neighbor rest IH]; intros sw s Hsw.
  - apply looksUp_ret; [done|by left].
  - cbn [allianceNeighborLoop].
    eapply looksUp_chain; [by apply loadTileCached_looksUp|].
    intros neighborTile sw1 s1 Hreadable Hsw1. cbn beta iota in Hreadable |- *.
    destruct (negb (truthy (ownerOf neighborTile))
              || same_string (ownerOf neighborTile) (TileState.ownerId tile)) eqn:Hskip;
      [by apply IH|].
    apply Bool.orb_false_elim in Hskip as [Howned _].
    eapply looksUp_chain.
    + apply loadProfileCached_looksUp; [done|].
      by destruct (ownerOf neighborTile) as [owner|].
    + intros neighborProfile sw2 s2 _ Hsw2. cbn beta iota.
      destruct (same_string _ _); [apply looksUp_ret; [done|by right] | by apply IH].
Qed.

Lemma getAllianceBonusMultiplier_value tile sw s :
  sweepReadable sw ->
  readableOwner (TileState.ownerId tile) ->
  looksUp sw s (getAllianceBonusMultiplier options clock tile sw s)
          (fun multiplier =>
             multiplier = 1%Q
             \/ multiplier = Options.allianceNeighborBonusMultiplier options).
Proof.
  intros Hsw Hreadable. unfold getAllianceBonusMultiplier.
  destruct (negb (truthy (TileState.ownerId tile))) eqn:Howned;
    [apply looksUp_ret; [done|by left]|].
  eapply looksUp_chain.
  - apply loadProfileCached_looksUp; [done|].
    by destruct (TileState.ownerId tile) as [owner|].
  - intros ownerProfile sw1 s1 _ Hsw1. cbn beta iota.
    destruct (negb (truthy (Profile.allianceTag ownerProfile)));
      [apply looksUp_ret; [done|by left] | by apply allianceNeighborLoop_value].
Qed.

(** One member of the sweep: the store is left as it is, or the tile the
    member names is rewritten as [evolveTileState] evolves it, with a
    multiplier of 1 or the alliance bonus. *)
Lemma rechargeMember_writes now sw member s :
  sweepReadable sw ->
  exists sw' s',
    rechargeMember options clock now sw member s = (Returned sw', s')
    /\ sweepReadable sw'
    /\ (Redis.tileHashes s' = Redis.tileHashes s
        \/ exists tq tr tile multiplier,
             currentTileAt options s tq tr = Some tile
             /\ (multiplier = 1%Q
                 \/ multiplier = Options.allianceNeighborBonusMultiplier options)
             /\ Redis.tileHashes s'
                = <[(tq, tr) := tileHashFields
                                  (fst (evolveTileState options tile now multiplier))]>
                    (Redis.tileHashes s)).
Proof.
  intros Hsw. unfold rechargeMember.
  destruct (parseMember member) as [coordinate|].
  2:{ exists sw, s. split; [done|]. split; [done|by left]. }
  rewrite (bind_returned (hGetAll_tile _) _ s
             (default TileHash.empty
                (Redis.tileHashes s !! tileKey (q coordinate) (r coordinate))) s eq_refl).
  fold (currentTileAt options s (q coordinate) (r coordinate)).
  set (key := tileKey (q coordinate) (r coordinate)).
  set (parsed := currentTileAt options s (q coordinate) (r coordinate)).
  assert (Hsw0 : sweepReadable (cacheTile key parsed sw)).
  { split; [|apply Hsw]. intros key' tile'. cbn. intros Hlook.
    destruct (decide (key' = key)) as [->|Hne].
    - rewrite lookup_insert_eq in Hlook. injection Hlook as Hlook.
      by eapply parseTile_owner_readable.
    - rewrite lookup_insert_ne in Hlook by done. by eapply (proj1 Hsw). }
  destruct parsed as [tile|] eqn:Hparsed.
  2:{ eexists _, s. split; [reflexivity|]. split; [exact Hsw0|by left]. }
  assert (Hreadable : readableOwner (TileState.ownerId tile))
    by by eapply parseTile_owner_readable.
  destruct (getAllianceBonusMultiplier_value tile _ s Hsw0 Hreadable)
    as (multiplier & sw1 & s1 & Hbonus & Hvalue & Hgrow & Hsw1 & Hgains1 & Hcount1).
  rewrite (bind_returned _ _ _ _ _ Hbonus). cbn beta iota zeta.
  set (evolved := evolveTileState options tile now multiplier).
  destruct Hgrow as [(Htiles1 & _) _].
  destruct (sameTileState tile (fst evolved)) eqn:Hsame; cbn [negb].
  - rewrite (bind_returned (mret sw1) _ s1 sw1 s1 eq_refl).
    eexists _, s1. split; [reflexivity|].
    split; [by apply noteGain_readable|]. by left.
  - unfold persistTileState. run_async.
    eexists _, _. split; [reflexivity|]. split.
    + apply noteGain_readable; [done|].
      split; [|apply Hsw1]. intros key' tile'. cbn. intros Hlook.
      destruct (decide (key' = key)) as [->|Hne].
      * rewrite lookup_insert_eq in Hlook. injection Hlook as Hlook. subst tile'.
        unfold evolved. by rewrite evolveTileState_owner.
      * rewrite lookup_insert_ne in Hlook by done. by eapply (proj1 Hsw1).
    + right. exists (q coordinate), (r coordinate), tile, multiplier.
      split; [done|]. split; [done|]. cbn. by rewrite Htiles1.
Qed.

End Bonus.

Section Ticked.
Variables (options : Options.t) (clock : Z).
Hypothesis Hoptions : tickOptions options.

Lemma chargedAndWorn_refl tq tr hash tile :
  parseTile options tq tr hash = Some tile -> chargedAndWorn options tile tile.
Proof.
  intros Hparse. destruct Hoptions as (Hmax & _).
  destruct (parseTile_in_range options tq tr hash tile Hparse Hmax)
    as [[_ Hcap] [Hfloor _]].
  repeat split; try done; lra.
Qed.

Lemma chargedAndWorn_trans a b c :
  chargedAndWorn options a b -> chargedAndWorn options b c -> chargedAndWorn options a c.
Proof.
  intros ([Ha1 Ha2] & [Ha3 Ha4] & Ha5 & Ha6 & Ha7 & Ha8 & Ha9 & Ha10)
         ([Hb1 Hb2] & [Hb3 Hb4] & Hb5 & Hb6 & Hb7 & Hb8 & Hb9 & Hb10).
  repeat split; try lra; try lia; congruence.
Qed.

Lemma ticked_refl s : ticked options s s.
Proof.
  intros tq tr tile Htile. exists tile. split; [done|].
  by eapply chargedAndWorn_refl.
Qed.

Lemma ticked_trans s1 s2 s3 :
  ticked options s1 s2 -> ticked options s2 s3 -> ticked options s1 s3.
Proof.
  intros H12 H23 tq tr tile Htile.
  destruct (H12 tq tr tile Htile) as (mid & Hmid & Hcw1).
  destruct (H23 tq tr mid Hmid) as (later & Hlater & Hcw2).
  exists later. split; [done|]. by eapply chargedAndWorn_trans.
Qed.

Lemma ticked_tiles s s' :
  Redis.tileHashes s' = Redis.tileHashes s -> ticked options s s'.
Proof.
  intros Htiles tq tr tile Htile. exists tile. split.
  - unfold currentTileAt in *. by rewrite Htiles.
  - by eapply chargedAndWorn_refl.
Qed.

(** The evolved tile, written and read back. *)
Lemma evolved_chargedAndWorn tq tr hash tile now multiplier later :
  parseTile options tq tr hash = Some tile ->
  onGrid (TileState.energy tile) -> onGrid (TileState.integrity tile) ->
  (0 <= multiplier)%Q ->
  parseTile options tq tr
    (tileHashFields (fst (evolveTileState options tile now multiplier))) = Some later ->
  chargedAndWorn options tile later.
Proof.
  intros Hparse Henergy Hintegrity Hmult Hlater.
  destruct Hoptions as (Hmax & Hcapgrid & _ & Hrate & Hdecay & _).
  destruct (evolveTileState_in_range options tq tr hash tile now multiplier Hparse Hmax)
    as [[Hlow Hcap] [Hfloor Hhundred]].
  pose proof (evolveTileState_charges options tq tr hash tile now multiplier
                Hparse Hmax Hrate Hmult Henergy) as Hcharges.
  pose proof (evolveTileState_wears options tq tr hash tile now multiplier
                Hparse Hmax Hdecay Hintegrity) as Hwears.
  destruct (evolveTileState_frame options tile now multiplier)
    as (Hq & Hr & Howner & _ & _ & Hlevel & Htype).
  assert (Hupdate : TileState.lastUpdate tile
                    <= TileState.lastUpdate (fst (evolveTileState options tile now multiplier))).
  { unfold evolveTileState. cbv zeta.
    destruct (Qeq_bool _ 0) eqn:Hrest; cbn [fst TileState.lastUpdate]; [lia|].
    assert (Hlt : (inject_Z (TileState.lastUpdate tile) <= now)%Q).
    { destruct (Qlt_le_dec now (inject_Z (TileState.lastUpdate tile))) as [Hlt|Hle];
        [|done].
      assert (Hzero : Qeq_bool (Qmax 0 (now - inject_Z (TileState.lastUpdate tile))) 0
                      = true) by (apply Qeq_bool_iff, Q.max_l; lra).
      congruence. }
    unfold JS.Math_floor. rewrite <- (Qfloor_Z (TileState.lastUpdate tile)).
    by apply Qfloor_resp_le. }
  assert (Hevolvedgrid :
    onGrid (TileState.energy (fst (evolveTileState options tile now multiplier)))
    /\ onGrid (TileState.integrity (fst (evolveTileState options tile now multiplier)))).
  { unfold evolveTileState. cbv zeta.
    destruct (Qeq_bool _ 0); cbn [fst TileState.energy TileState.integrity]; [done|].
    split; apply onGrid_clamp; try apply toFixedPrecision_rounded; try done;
      try apply (onGrid_inject_Z 0); apply (onGrid_inject_Z 100). }
  set (evolved := fst (evolveTileState options tile now multiplier)) in *.
  destruct Hevolvedgrid as [Hegrid Higrid].
  pose proof (parseTile_persisted_integrity options tq tr evolved later Higrid
                (conj Hfloor Hhundred) Hlater) as Hsameintegrity.
  assert (Hsameenergy : (TileState.energy later == TileState.energy evolved)%Q).
  { destruct (parseTile_energy options tq tr _ _ Hlater) as [-> _].
    cbn [tileHashFields TileHash.energy default from_option id].
    rewrite clamp_inside; rewrite (toFixedPrecision_onGrid _ Hegrid); done. }
  pose proof (parseTile_owner_readable options tq tr hash tile Hparse) as Hreadable.
  pose proof (parseTile_persisted_ownerOf options tq tr evolved) as Hownerof.
  rewrite Hlater in Hownerof. cbn [ownerOf] in Hownerof.
  rewrite Howner in Hownerof. specialize (Hownerof Hreadable).
  assert (Hcoords : TileState.q later = tq /\ TileState.r later = tr
                    /\ TileState.q tile = tq /\ TileState.r tile = tr).
  { clear -Hparse Hlater. unfold parseTile in *.
    destruct (negb (TileHash.hasValues hash)); [done|].
    destruct (negb (TileHash.hasValues _)); [done|].
    injection Hparse as <-. injection Hlater as <-. done. }
  destruct Hcoords as (Hq1 & Hr1 & Hq2 & Hr2).
  split; [rewrite Hsameenergy; split; done|].
  split; [rewrite Hsameintegrity; split; done|].
  split; [by rewrite (parseTile_persisted_lastUpdate options tq tr evolved later Hlater)|].
  split; [congruence|]. split; [congruence|]. split; [done|].
  split.
  - by eapply parseTile_persisted_same_level.
  - by rewrite (parseTile_persisted_tileType options tq tr evolved later Hlater).
Qed.

End Ticked.

Section Sweep.
Variables (options : Options.t) (clock : Z).
Hypothesis Hoptions : tickOptions options.

Lemma rechargeMember_ticked now sw member s :
  sweepReadable sw ->
  gridded options s ->
  exists sw' s',
    rechargeMember options clock now sw member s = (Returned sw', s')
    /\ sweepReadable sw'
    /\ gridded options s'
    /\ ticked options s s'.
Proof.
  intros Hsw Hgrid.
  destruct (rechargeMember_writes options clock now sw member s Hsw)
    as (sw' & s' & Hrun & Hsw' & Hwrite).
  exists sw', s'. split; [exact Hrun|]. split; [exact Hsw'|].
  destruct Hwrite as [Htiles|(tq & tr & tile & multiplier & Htile & Hvalue & Htiles)].
  - split; [by eapply gridded_tiles | by apply ticked_tiles].
  - split; [by eapply gridded_written|].
    intros xq xr old Hold.
    rewrite (currentTileAt_insert options s s' tq tr _ xq xr Htiles).
    destruct (decide ((xq, xr) = (tq, tr))) as [[= -> ->]|Hne].
    + rewrite Htile in Hold. injection Hold as <-.
      destruct (parseTile_persisted_some options tq tr
                  (fst (evolveTileState options tile now multiplier))) as [later Hlater].
      exists later. split; [exact Hlater|].
      destruct (Hgrid tq tr tile Htile) as [Henergy Hintegrity].
      eapply (evolved_chargedAndWorn options Hoptions tq tr _ tile now multiplier later);
        [exact Htile|done|done| |exact Hlater].
      destruct Hoptions as (_ & _ & _ & _ & _ & Hbonus).
      destruct Hvalue as [->| ->]; [lra|done].
    + exists old. split; [done|]. by eapply chargedAndWorn_refl.
Qed.

Lemma rechargeMembers_ticked now members sw s :
  sweepReadable sw ->
  gridded options s ->
  exists sw' s',
    rechargeMembers options clock now members sw s = (Returned sw', s')
    /\ sweepReadable sw'
    /\ gridded options s'
    /\ ticked options s s'.
Proof.
  revert sw s. induction members as [|member rest IH]; intros sw s Hsw Hgrid.
  - exists sw, s. split; [done|]. split; [done|]. split; [done|by apply ticked_refl].
  - destruct (rechargeMember_ticked now sw member s Hsw Hgrid)
      as (sw1 & s1 & Hrun1 & Hsw1 & Hgrid1 & Hticked1).
    destruct (IH sw1 s1 Hsw1 Hgrid1) as (sw2 & s2 & Hrun2 & Hsw2 & Hgrid2 & Hticked2).
    exists sw2, s2. cbn [rechargeMembers]. rewrite (bind_returned _ _ _ _ _ Hrun1).
    split; [exact Hrun2|]. split; [exact Hsw2|]. split; [exact Hgrid2|].
    by eapply ticked_trans.
Qed.

Lemma rechargeEnergy_ticked now s :
  gridded options s ->
  gridded options (exec (rechargeEnergy options clock now) s)
  /\ ticked options s (exec (rechargeEnergy options clock now) s).
Proof.
  intros Hgrid.
  destruct (rechargeMembers_ticked now (elements (Redis.tileIndex s)) emptySweep s
              emptySweep_readable Hgrid)
    as (sw & s1 & Hrun & Hsw & Hgrid1 & Hticked).
  destruct (creditOwners_run options clock (ownerEnergyGains sw) now s1 (proj2 Hsw))
    as (s2 & Hcredit & Hsame).
  assert (Hsweep : rechargeSweep options clock now s = (Returned sw, s1)).
  { unfold rechargeSweep.
    by rewrite (bind_returned (sMembers TILE_INDEX_KEY) _ s
                  (elements (Redis.tileIndex s)) s eq_refl). }
  unfold exec, rechargeEnergy.
  rewrite (bind_returned _ _ _ _ _ Hsweep), (bind_returned _ _ _ _ _ Hcredit).
  cbn [snd]. destruct Hsame as (Htiles & _). split.
  - by eapply gridded_tiles.
  - eapply ticked_trans; [exact Hticked | by apply ticked_tiles].
Qed.

Lemma repairTile_gridded userId tq tr s :
  gridded options s -> gridded options (exec (repairTile options clock userId tq tr) s).
Proof.
  intros Hgrid.
  destruct (String.eqb (JS.trim userId) "") eqn:Huser.
  { unfold exec, repairTile.
    assert (Hthrown : normalizeUserId userId s = (Thrown "userId must not be empty", s))
      by (unfold normalizeUserId; by rewrite Huser).
    by rewrite (bind_thrown _ _ _ _ _ Hthrown). }
  destruct (HexMathFloat.validateCoordinates
              (HexMathFloat.float_of_Z tq) (HexMathFloat.float_of_Z tr)) eqn:Hvalid.
  2:{ unfold exec, repairTile.
      rewrite (bind_returned _ _ _ _ _ (normalizeUserId_run userId s Huser)).
      assert (Hthrown : validateCoordinates tq tr s
                        = (Thrown "q and r are not valid axial coordinates", s))
        by (unfold validateCoordinates; by rewrite Hvalid).
      by rewrite (bind_thrown _ _ _ _ _ Hthrown). }
  pose proof (repairTile_run options clock userId tq tr s Huser Hvalid) as Hrun.
  unfold repairOutcome in Hrun.
  destruct (currentTileAt options s tq tr) as [tile|] eqn:Htile.
  2:{ destruct Hrun as (energy & _ & Htiles & _). by eapply gridded_tiles. }
  destruct (same_string (TileState.ownerId tile) (Some (JS.trim userId))).
  2:{ destruct Hrun as (energy & _ & Htiles & _). by eapply gridded_tiles. }
  destruct Hrun as (attempt & s1 & Hspend & Hrun).
  destruct (spend_ok attempt).
  - destruct Hrun as (_ & Htiles & _). by eapply gridded_written.
  - destruct Hrun as [_ ->].
    destruct (spendPlayerEnergy_sameWorld options clock (JS.trim userId)
                (Options.repairCostEnergy options) (inject_Z clock) s
                (normalized_trim userId Huser))
      as (attempt' & s1' & Hspend' & Htiles & _).
    rewrite Hspend in Hspend'. injection Hspend' as <- <-. by eapply gridded_tiles.
Qed.

Lemma setAllianceTag_gridded userId tag s :
  gridded options s -> gridded options (exec (setAllianceTag options clock userId tag) s).
Proof.
  intros Hgrid. unfold exec, setAllianceTag.
  destruct (String.eqb (JS.trim userId) "") eqn:Huser.
  { assert (Hthrown : normalizeUserId userId s = (Thrown "userId must not be empty", s))
      by (unfold normalizeUserId; by rewrite Huser).
    by rewrite (bind_thrown _ _ _ _ _ Hthrown). }
  rewrite (bind_returned _ _ _ _ _ (normalizeUserId_run userId s Huser)).
  destruct (getOrCreatePlayerState_returns options clock (JS.trim userId) s)
    as (state & Hstate & _).
  destruct (getOrCreatePlayerState_sameWorld options clock (JS.trim userId) s)
    as (Htiles & _).
  rewrite (bind_returned _ _ _ _ _ (run_returned _ _ _ Hstate)).
  set (s1 := exec (getOrCreatePlayerState options clock (JS.trim userId)) s) in *.
  assert (Hgrid1 : gridded options s1) by by eapply gridded_tiles.
  destruct (normalizeAllianceTag tag s1) as [[normalizedTag|message] s2] eqn:Htag.
  2:{ rewrite (bind_thrown _ _ _ _ _ Htag).
      unfold normalizeAllianceTag in Htag. destruct tag as [raw|]; [|done].
      destruct (_ =? _)%nat; [done|]. destruct (negb _); [|done].
      by injection Htag as _ <-. }
  rewrite (bind_returned _ _ _ _ _ Htag).
  assert (Hs2 : s2 = s1).
  { unfold normalizeAllianceTag in Htag. destruct tag as [raw|]; [|by injection Htag].
    destruct (_ =? _)%nat; [by injection Htag|]. destruct (negb _); [done|].
    by injection Htag. }
  subst s2. cbv zeta. unfold persistPlayerState.
  rewrite (bind_returned _ _ _ _ _ (run_returned (hSet_player _ _) s1 tt eq_refl)).
  match goal with |- context [exec (hSet_player ?u ?v) s1] =>
    set (s3 := exec (hSet_player u v) s1) end.
  assert (Hgrid3 : gridded options s3) by (by eapply gridded_tiles).
  match goal with |- context [syncAllianceTagToOwnedTiles _ ?t ?c] =>
    set (normalizedColor := c) end.
  destruct (syncAllianceTagLoop_players
              (elements (Redis.members (ownerTileKey (JS.trim userId)) s3))
              normalizedTag normalizedColor s3) as [Hres _].
  assert (Hsync : syncAllianceTagToOwnedTiles (JS.trim userId) normalizedTag
                    normalizedColor s3
                  = (Returned tt,
                     exec (syncAllianceTagLoop
                             (elements (Redis.members (ownerTileKey (JS.trim userId)) s3))
                             normalizedTag normalizedColor) s3)).
  { unfold syncAllianceTagToOwnedTiles.
    rewrite (bind_returned (sMembers _) _ s3 _ s3 eq_refl).
    by rewrite (run_returned _ _ _ Hres). }
  rewrite (bind_returned _ _ _ _ _ Hsync). cbn [snd mret Async_ret].
  by apply gridded_allianceLoop.
Qed.

Lemma claimTile_gridded userId tq tr s :
  gridded options s -> gridded options (exec (claimTile options clock userId tq tr) s).
Proof.
  intros Hgrid.
  destruct (claimTile_tiles options clock userId tq tr s)
    as [(Htiles & _)|(s1 & next & (Htiles & _) & Hadded & _)].
  - by eapply gridded_tiles.
  - eapply (gridded_written options Hoptions); [exact Hadded|]. by eapply gridded_tiles.
Qed.

Lemma registerNexus_gridded tq tr level s :
  gridded options s -> gridded options (exec (registerNexus options clock tq tr level) s).
Proof.
  intros Hgrid.
  destruct (registerNexus_tiles options clock tq tr level s)
    as [<-|(next & Hadded & _)]; [done|].
  by eapply gridded_written.
Qed.

End Sweep.

Lemma gridded_afterCall options clock call s :
  tickOptions options ->
  gridded options s -> gridded options (afterCall options clock call s).
Proof.
  intros Hoptions Hgrid.
  destruct call as [userId tq tr|userId tq tr|tq tr level|userId tag|now];
    cbn [afterCall].
  - by apply claimTile_gridded.
  - by apply repairTile_gridded.
  - by apply registerNexus_gridded.
  - by apply setAllianceTag_gridded.
  - by apply rechargeEnergy_ticked.
Qed.

Lemma gridded_afterCalls options calls s :
  tickOptions options ->
  gridded options s -> gridded options (afterCalls options calls s).
Proof.
  intros Hoptions. revert s.
  induction calls as [|[clock call] rest IH]; intros s Hgrid; [done|].
  cbn [afterCalls]. by apply IH, gridded_afterCall.
Qed.

Lemma gridded_history options calls :
  tickOptions options -> gridded options (afterCalls options calls Redis.empty).
Proof.
  intros Hoptions. apply gridded_afterCalls; [done|].
  intros tq tr tile Htile. by vm_compute in Htile.
Qed.

(** X25.  A tick only charges and wears the tiles.  With a cap, rates and
    an alliance bonus that are not negative, and a cap and an initial
    integrity of at most four decimals, after any history of calls a
    [rechargeEnergy] sweep at any time leaves every stored tile stored, at
    the same coordinates and with the same owner, level and type; its
    energy is not lower than before and at most [maxEnergy], its integrity
    is not higher than before and at least 0, and its last update is not
    earlier. *)
Theorem rechargeEnergy_charges_and_wears (options : Options.t)
        (calls : list (Z * Call)) (clock : Z) (now : Q) (tq tr : Z) (tile : TileState.t) :
  tickOptions options ->
  let world := afterCalls options calls Redis.empty in
  currentTileAt options world tq tr = Some tile ->
  exists later,
    currentTileAt options (exec (rechargeEnergy options clock now) world) tq tr
    = Some later
    /\ (TileState.energy tile <= TileState.energy later <= Options.maxEnergy options)%Q
    /\ (0 <= TileState.integrity later <= TileState.integrity tile)%Q
    /\ TileState.lastUpdate tile <= TileState.lastUpdate later
    /\ TileState.q later = TileState.q tile
    /\ TileState.r later = TileState.r tile
    /\ TileState.ownerId later = TileState.ownerId tile
    /\ TileState.level later = TileState.level tile
    /\ TileState.tileType later = TileState.tileType tile.
Proof.
  intros Hoptions world Htile.
  pose proof (gridded_history options calls Hoptions) as Hgrid.
  destruct (rechargeEnergy_ticked options clock Hoptions now world Hgrid) as [_ Hticked].
  destruct (Hticked tq tr tile Htile) as (later & Hlater & Hcharged).
  exists later. split; [exact Hlater | exact Hcharged].
Qed.

Lemma evolveTileState_stays_in_bounds_witness :
  exists tile,
    currentTileAt DEFAULT_OPTIONS Scenario.one_tile 0 0 = Some tile
    /\ let evolved := fst (evolveTileState DEFAULT_OPTIONS tile 90000 1) in
       (TileState.energy tile <= TileState.energy evolved <= 100)%Q
       /\ (0 <= TileState.integrity evolved <= TileState.integrity tile)%Q
       /\ TileState.ownerId evolved = TileState.ownerId tile.
Proof.
  eassert (Htile : currentTileAt DEFAULT_OPTIONS Scenario.one_tile 0 0 = Some _)
    by (vm_compute; reflexivity).
  eexists. split; [exact Htile|].
  destruct (evolveTileState_stays_in_bounds DEFAULT_OPTIONS 0 0 _ _ 90000 1 Htile)
    as (Henergy & Hintegrity & _ & _ & _ & Howner & _).
  - by vm_compute.
  - by vm_compute.
  - by vm_compute.
  - by vm_compute.
  - exists 1000000. by vm_compute.
  - exists 1000000. by vm_compute.
  - exact (conj Henergy (conj Hintegrity Howner)).
Defined.



Lemma flushSnapshotToPostgres_hands_over_every_tile_once_witness :
  let world := afterCalls DEFAULT_OPTIONS History.three_claims Redis.empty in
  exists batches,
    flushSnapshotToPostgres DEFAULT_OPTIONS History.small_batches true world
    = (Returned (Z.of_nat (length (concat batches)), batches), world)
    /\ NoDup (concat batches)
    /\ (forall tile,
          tile ∈ concat batches
          <-> currentTileAt DEFAULT_OPTIONS world (TileState.q tile) (TileState.r tile)
              = Some tile)
    /\ Forall (fun batch => 1 <= Z.of_nat (length batch) <= 2) batches
    /\ (forall (index : nat) batch,
          batches !! index = Some batch -> (S index < length batches)%nat ->
          Z.of_nat (length batch) = 2).
Proof.
  apply (flushSnapshotToPostgres_hands_over_every_tile_once DEFAULT_OPTIONS
           History.small_batches History.three_claims 2).
  - reflexivity.
  - lia.
Defined.

Lemma repairTile_succeeds_for_the_owner_only_witness :
  match result (repairTile DEFAULT_OPTIONS 0 "player-b" 1 1) History.worn_tile with
  | Returned (RepairTileFailure reason message shown required playerEnergy) =>
      sameWorld History.worn_tile
        (exec (repairTile DEFAULT_OPTIONS 0 "player-b" 1 1) History.worn_tile)
      /\ reason = not_owner
  | _ => False
  end.
Proof.
  pose proof (repairTile_succeeds_for_the_owner_only DEFAULT_OPTIONS 0 "player-b" 1 1
                History.worn_tile eq_refl eq_refl) as Hcase.
  cbv zeta in Hcase.
  destruct (result (repairTile DEFAULT_OPTIONS 0 "player-b" 1 1) History.worn_tile)
    as [[repaired energyAfter energyCost|reason message shown required playerEnergy]|message]
    eqn:Hres.
  - by vm_compute in Hres.
  - destruct Hcase as (Hsame & _ & _). split; [exact Hsame|].
    vm_compute in Hres. by injection Hres as <- _ _ _ _.
  - exact Hcase.
Defined.

Lemma repairTile_raises_integrity_witness :
  exists repaired energyAfter stored,
    result (repairTile DEFAULT_OPTIONS 0 "player-a" 1 1) History.worn_tile
    = Returned (RepairTileSuccess repaired energyAfter 5)
    /\ (40 <= TileState.integrity repaired <= 100)%Q
    /\ currentTileAt DEFAULT_OPTIONS
         (exec (repairTile DEFAULT_OPTIONS 0 "player-a" 1 1) History.worn_tile) 1 1
       = Some stored
    /\ (TileState.integrity stored == TileState.integrity repaired)%Q.
Proof.
  eassert (Htile : currentTileAt DEFAULT_OPTIONS History.worn_tile 1 1 = Some _)
    by (vm_compute; reflexivity).
  eassert (Henergy : result (getPlayerEnergy DEFAULT_OPTIONS 0 (JS.trim "player-a"))
                       History.worn_tile = Returned _)
    by (vm_compute; reflexivity).
  destruct (repairTile_raises_integrity DEFAULT_OPTIONS 0 "player-a" 1 1
              History.worn_tile _ _ eq_refl eq_refl Htile eq_refl Henergy)
    as (repaired & energyAfter & stored & Hres & Hraised & _ & _ & Hstored & Hsame & _).
  - by vm_compute.
  - by vm_compute.
  - exists 400000. by vm_compute.
  - exists repaired, energyAfter, stored.
    exact (conj Hres (conj Hraised (conj Hstored Hsame))).
Defined.

Lemma claimTile_again_is_free_witness :
  exists stored energy,
    claimTile DEFAULT_OPTIONS 5 "player-a" 0 0 Scenario.one_tile
    = (Returned (ClaimTileSuccess false false stored energy 0), Scenario.one_tile)
    /\ currentTileAt DEFAULT_OPTIONS Scenario.one_tile 0 0 = Some stored
    /\ TileState.ownerId stored = Some (JS.trim "player-a").
Proof.
  eassert (Hres : result (claimTile DEFAULT_OPTIONS 0 "player-a" 0 0) Redis.empty
                  = Returned (ClaimTileSuccess _ _ _ _ _))
    by (vm_compute; reflexivity).
  exact (claimTile_again_is_free DEFAULT_OPTIONS 0 5 "player-a" 0 0 Redis.empty
           _ _ _ _ _ Hres).
Defined.

Lemma stored_tiles_stay_stored_witness :
  let later :=
    afterCalls DEFAULT_OPTIONS
      (History.three_claims ++ [ (60000, CallRechargeEnergy 60000) ])%list Redis.empty in
  is_Some (currentTileAt DEFAULT_OPTIONS later 1 (-1))
  /\ coordMember 1 (-1) ∈ Redis.tileIndex later
  /\ coordMember 1 (-1) ∈ Redis.members (chunkKeyForTile DEFAULT_OPTIONS 1 (-1)) later.
Proof.
  apply (stored_tiles_stay_stored DEFAULT_OPTIONS History.three_claims
           [ (60000, CallRechargeEnergy 60000) ] 1 (-1)).
  vm_compute. eauto.
Defined.

Lemma setAllianceTag_marks_the_tiles_of_the_player_witness :
  exists profile tile,
    let world := afterCalls DEFAULT_OPTIONS History.one_claim Redis.empty in
    result (setAllianceTag DEFAULT_OPTIONS 0 "player-a" (Some "AX3")) world
    = Returned profile
    /\ currentTileAt DEFAULT_OPTIONS world 2 2 = Some tile
    /\ currentTileAt DEFAULT_OPTIONS
         (exec (setAllianceTag DEFAULT_OPTIONS 0 "player-a" (Some "AX3")) world) 2 2
       = Some (withAlliance tile (Some "AX3") (Profile.allianceColor profile)).
Proof.
  eassert (Hres : result (setAllianceTag DEFAULT_OPTIONS 0 "player-a" (Some "AX3"))
                    (afterCalls DEFAULT_OPTIONS History.one_claim Redis.empty)
                  = Returned _)
    by (vm_compute; reflexivity).
  eassert (Htile : currentTileAt DEFAULT_OPTIONS
                     (afterCalls DEFAULT_OPTIONS History.one_claim Redis.empty) 2 2
                   = Some _)
    by (vm_compute; reflexivity).
  eexists _, _. cbv zeta. split; [exact Hres|]. split; [exact Htile|].
  exact (setAllianceTag_marks_the_tiles_of_the_player DEFAULT_OPTIONS 0 History.one_claim
           "player-a" (Some "AX3") _ 2 2 _ Hres Htile).
Defined.

Lemma registerNexus_places_a_nexus_witness :
  exists tile stored,
    result (registerNexus DEFAULT_OPTIONS 7 20 0 (Some 4%Q)) Scenario.one_tile
    = Returned tile
    /\ TileState.tileType tile = nexus
    /\ TileState.level tile = 4%Q
    /\ currentTileAt DEFAULT_OPTIONS
         (exec (registerNexus DEFAULT_OPTIONS 7 20 0 (Some 4%Q)) Scenario.one_tile) 20 0
       = Some stored
    /\ poiMember stored
       ∈ Redis.poiIndex
           (exec (registerNexus DEFAULT_OPTIONS 7 20 0 (Some 4%Q)) Scenario.one_tile).
Proof.
  destruct (registerNexus_places_a_nexus DEFAULT_OPTIONS 7 20 0 (Some 4%Q)
              Scenario.one_tile eq_refl)
    as (tile & stored & Hres & Htype & Hlevel & _ & _ & Hstored & _ & _ & _ & _ & _
        & Hpoi & _).
  exists tile, stored. exact (conj Hres (conj Htype (conj Hlevel (conj Hstored Hpoi)))).
Defined.




Lemma default_tickOptions : tickOptions DEFAULT_OPTIONS.
Proof.
  split; [by vm_compute|]. split; [by exists 1000000|]. split; [by exists 1000000|].
  split; [by vm_compute|]. split; by vm_compute.
Defined.


Lemma rechargeEnergy_charges_and_wears_witness :
  exists tile later,
    currentTileAt DEFAULT_OPTIONS
      (afterCalls DEFAULT_OPTIONS History.one_claim Redis.empty) 2 2 = Some tile
    /\ currentTileAt DEFAULT_OPTIONS
         (exec (rechargeEnergy DEFAULT_OPTIONS 90000 90000)
               (afterCalls DEFAULT_OPTIONS History.one_claim Redis.empty)) 2 2
       = Some later
    /\ (TileState.energy tile <= TileState.energy later)%Q
    /\ (TileState.integrity later <= TileState.integrity tile)%Q
    /\ TileState.ownerId later = TileState.ownerId tile.
Proof.
  destruct (currentTileAt DEFAULT_OPTIONS
              (afterCalls DEFAULT_OPTIONS History.one_claim Redis.empty) 2 2)
    as [tile|] eqn:Htile; [|by vm_compute in Htile].
  destruct (rechargeEnergy_charges_and_wears DEFAULT_OPTIONS History.one_claim
              90000 90000 2 2 tile default_tickOptions Htile)
    as (later & Hlater & [Henergy _] & [_ Hintegrity] & _ & _ & _ & Howner & _).
  exists tile, later. split; [reflexivity|].
  exact (conj Hlater (conj Henergy (conj Hintegrity Howner))).
Defined.
